(** * thenewboston-node: the file blockchain and its compressing storage

    A shallow embedding of
    - [business_logic/storages/file_system.py]      (module [FileSystemStorage]),
    - [business_logic/blockchain/file_blockchain.py] (modules [Names], [FileBlockchain]),
    - [business_logic/blockchain/base/network.py]    (module [Network]),
    - [business_logic/models/mixins/serializable.py] and
      [business_logic/models/blockchain_state_message.py] (module [Serializable]),
    followed by the properties of the storage engine stated in the specification. *)

From Stdlib Require Import ZArith List Ascii String Bool Lia DecimalString.
From Stdlib Require DecimalPos DecimalN DecimalZ.
From stdpp Require Import base tactics option list numbers sorting gmap strings.

Local Open Scope Z_scope.

(** ** Python primitives *)

Module Py.

(** The exceptions the modelled code raises. *)
Inductive exn : Type :=
| ValueError
| AssertionError
| ZeroDivisionError
| OSError
| DecodeError
| ValidationError
| FinalizedFileWriteError
| BlockchainLockedError
| BlockchainUnlockedError
| KeyError
| AttributeError
| TypeError
| RecursionError.

(** The outcome of a call: a value or a raised exception. *)
Inductive res (A : Type) : Type :=
| Ok (a : A)
| Raise (e : exn).
Arguments Ok {A} a.
Arguments Raise {A} e.

#[global] Instance exn_eq_dec : EqDecision exn.
Proof. solve_decision. Defined.

(** Stateful code: the state after a raise is the state at the raise. *)
Definition M (S A : Type) : Type := S -> res A * S.

Definition ret {S A} (a : A) : M S A := fun s => (Ok a, s).

Definition raise {S A} (e : exn) : M S A := fun s => (Raise e, s).

Definition bind {S A B} (m : M S A) (k : A -> M S B) : M S B :=
  fun s => match m s with
           | (Ok a, s') => k a s'
           | (Raise e, s') => (Raise e, s')
           end.

Definition lift {S A} (r : res A) : M S A := fun s => (r, s).

Definition gets {S A} (f : S -> A) : M S A := fun s => (Ok (f s), s).

Definition modify {S} (f : S -> S) : M S unit := fun s => (Ok tt, f s).

(** [assert cond] *)
Definition assert {S} (cond : bool) : M S unit :=
  if cond then ret tt else raise AssertionError.

Declare Scope py_scope.
Delimit Scope py_scope with py.
Notation "'let*' x ':=' m 'in' k" := (bind m (fun x => k))
  (at level 10, x pattern, m at level 100, k at level 200) : py_scope.
Notation "m ';;' k" := (bind m (fun _ => k))
  (at level 100, k at level 200, right associativity) : py_scope.

(** Raw file contents: [bytes]. *)
Definition bytes : Type := list Byte.byte.

#[global] Instance byte_eq_dec : EqDecision Byte.byte := Byte.byte_eq_dec.

(** [str(n)] for an [int]. *)
Definition str (n : Z) : string := NilZero.string_of_int (Z.to_int n).

(** [c * k] for a one-character string [c]. *)
Fixpoint repeat_char (c : ascii) (k : nat) : string :=
  match k with
  | O => EmptyString
  | S k' => String c (repeat_char c k')
  end.

(** [s.zfill(width)]: pads with the digit zero on the left, after a leading
    sign character if there is one; a string already [width] long is returned
    as it is. *)
Definition zfill (s : string) (width : nat) : string :=
  let len := String.length s in
  if (width <=? len)%nat then s
  else
    let fill := repeat_char "0"%char (width - len) in
    match s with
    | String c rest =>
        if (Ascii.eqb c "+" || Ascii.eqb c "-")%bool
        then String c (fill +:+ rest)
        else fill +:+ s
    | EmptyString => fill
    end.

(** The character class [\d], on ASCII file names. *)
Definition is_digit (c : ascii) : bool :=
  ((48 <=? N_of_ascii c) && (N_of_ascii c <=? 57))%N.

(** [int(s)] on a group matched by [\d+]. *)
Definition int_of_digits (s : string) : option Z :=
  Z.of_uint <$> NilZero.uint_of_string s.

(** [os.path.basename]: what follows the last slash. *)
Fixpoint after_last_slash (p : string) : option string :=
  match p with
  | EmptyString => None
  | String c p' =>
      match after_last_slash p' with
      | Some b => Some b
      | None => if Ascii.eqb c "/" then Some p' else None
      end
  end.

Definition basename (p : string) : string :=
  match after_last_slash p with Some b => b | None => p end.

(** The longest prefix matched by [\d*], and the rest. *)
Fixpoint span_digits (s : string) : string * string :=
  match s with
  | EmptyString => (EmptyString, EmptyString)
  | String c s' =>
      if is_digit c
      then let (digits, rest) := span_digits s' in (String c digits, rest)
      else (EmptyString, s)
  end.

(** [s] without the literal [pre] in front, if it starts with it. *)
Fixpoint strip_prefix (pre s : string) : option string :=
  match pre, s with
  | EmptyString, _ => Some s
  | String a pre', String b s' =>
      if Ascii.eqb a b then strip_prefix pre' s' else None
  | String _ _, EmptyString => None
  end.

(** The line feed. *)
Definition LF : ascii := "010"%char.

(** [a < b] on [str]: code point by code point. *)
Definition str_lt (a b : string) : bool := String.ltb a b.

(** [divmod(a, b)]: floor division, the remainder has the sign of [b]. *)
Definition divmod {S} (a b : Z) : M S (Z * Z) :=
  if b =? 0 then raise ZeroDivisionError else ret (a / b, a mod b).

End Py.

Import Py.
Local Open Scope py_scope.

(** ** File names of blockchain states and block chunks
    ([file_blockchain.py], module level) *)

Module Names.

Definition ORDER_OF_BLOCKCHAIN_STATE_FILE : nat := 10.
Definition ORDER_OF_BLOCK : nat := 20.

Definition LAST_BLOCK_NUMBER_NONE_SENTINEL : string := "!".

Definition BLOCKCHAIN_GENESIS_STATE_PREFIX : string :=
  zfill LAST_BLOCK_NUMBER_NONE_SENTINEL ORDER_OF_BLOCKCHAIN_STATE_FILE.

(** [BLOCKCHAIN_STATE_FILENAME_TEMPLATE.format(last_block_number=prefix)] *)
Definition BLOCKCHAIN_STATE_FILENAME_TEMPLATE (last_block_number : string) : string :=
  last_block_number +:+ "-arf.msgpack".

Definition make_blockchain_state_filename (last_block_number : option Z) : string :=
  let prefix :=
    zfill (match last_block_number with
           | None => LAST_BLOCK_NUMBER_NONE_SENTINEL
           | Some n => str n
           end) ORDER_OF_BLOCKCHAIN_STATE_FILE in
  BLOCKCHAIN_STATE_FILENAME_TEMPLATE prefix.

(** [BLOCK_CHUNK_FILENAME_TEMPLATE.format(start=..., end=...)] *)
Definition BLOCK_CHUNK_FILENAME_TEMPLATE (start end_ : string) : string :=
  start +:+ "-" +:+ end_ +:+ "-block-chunk.msgpack".

Definition make_block_chunk_filename (start end_ : Z) : string :=
  let start_block_str := zfill (str start) ORDER_OF_BLOCK in
  let end_block_str := zfill (str end_) ORDER_OF_BLOCK in
  BLOCK_CHUNK_FILENAME_TEMPLATE start_block_str end_block_str.

End Names.


(** ** The compressing file storage ([storages/file_system.py]) *)

Module FileSystemStorage.

(** The keys of [COMPRESSION_FUNCTIONS] and [DECOMPRESSION_FUNCTIONS]. *)
Inductive compressor : Type := gz | bz2 | xz.

#[global] Instance compressor_eq_dec : EqDecision compressor.
Proof. solve_decision. Defined.

(** The key as it is written in a file name. *)
Definition extension (c : compressor) : string :=
  match c with gz => "gz" | bz2 => "bz2" | xz => "xz" end.

(** [for decompressor in DECOMPRESSION_FUNCTIONS]: the keys in the order of
    the dict literal. *)
Definition DECOMPRESSION_KEYS : list compressor := [gz; bz2; xz].

(** [stat.S_IWGRP | stat.S_IWUSR | stat.S_IWOTH] *)
Definition STAT_WRITE_PERMS_ALL : Z := Z.lor (Z.lor 16 128) 2.

(** A regular file: what [read()] returns and [os.stat().st_mode]. *)
Record file : Type := File { content : bytes; st_mode : Z }.

#[global] Instance file_eq_dec : EqDecision file.
Proof. unfold bytes. solve_decision. Defined.

(** The file system: files by absolute path. Directories are not modelled:
    [os.makedirs] and [temp_dir.mkdir] change nothing here. *)
Abbreviation filesystem := (gmap string file).

(** The mode argument of [open]. *)
Inductive open_mode : Type := wb | ab.

(** [pathlib]'s part of [_get_absolute_path]: [Path.is_absolute],
    [(base_path / path).resolve()] and [is_relative_to(base_path)]. *)
Class Pathlib : Type := {
  is_absolute : string -> bool;
  resolve : string -> string;
  is_relative_to_base : string -> bool
}.

(** [COMPRESSION_FUNCTIONS] and [DECOMPRESSION_FUNCTIONS]: gzip, bz2 and lzma
    of Python's library, by key. *)
Class Codecs : Type := {
  COMPRESSION_FUNCTIONS : compressor -> bytes -> bytes;
  DECOMPRESSION_FUNCTIONS : compressor -> bytes -> res bytes
}.

(** The mode of the temporary file that [atomic_write_append] renames over
    its target: [tempfile] creates it with mode 0o600. *)
Definition TEMP_FILE_MODE : Z := 384.

Section Storage.
Context `{Pathlib} `{Codecs}.

(** [self.compressors] *)
Variable compressors : list compressor.

(** *** [os] and [open] on the model *)

Definition os_path_exists (path : string) : M filesystem bool :=
  gets (fun fs => bool_decide (is_Some (fs !! path))).

Definition os_stat_st_mode (path : string) : M filesystem Z :=
  fun fs => match fs !! path with
            | Some f => (Ok (st_mode f), fs)
            | None => (Raise OSError, fs)
            end.

Definition os_chmod (path : string) (mode : Z) : M filesystem unit :=
  fun fs => match fs !! path with
            | Some f => (Ok tt, <[path := File (content f) mode]> fs)
            | None => (Raise OSError, fs)
            end.

Definition os_remove (path : string) : M filesystem unit :=
  fun fs => match fs !! path with
            | Some _ => (Ok tt, delete path fs)
            | None => (Raise OSError, fs)
            end.

Definition os_rename (source destination : string) : M filesystem unit :=
  fun fs => match fs !! source with
            | Some f => (Ok tt, <[destination := f]> (delete source fs))
            | None => (Raise OSError, fs)
            end.

(** [with open(path, mode='rb') as fo: fo.read()] *)
Definition read_file (path : string) : M filesystem bytes :=
  fun fs => match fs !! path with
            | Some f => (Ok (content f), fs)
            | None => (Raise OSError, fs)
            end.

(** Modelled from the spec: [atomic_write_append] of
    [core/utils/atomic_write.py], which is not among the sources. The data
    goes to a temporary file that is renamed over the target on success; in
    append mode the target, if present, is first copied into the temporary
    file (spec 4.1). *)
Definition atomic_write_append (file_path : string) (mode : open_mode)
    (binary_data : bytes) : M filesystem unit :=
  modify (fun fs =>
    let before :=
      match mode with
      | wb => []
      | ab => match fs !! file_path with Some f => content f | None => [] end
      end in
    <[file_path := File (before ++ binary_data) TEMP_FILE_MODE]> fs).

(** *** Module-level functions *)

Definition drop_write_permissions (filename : string) : M filesystem unit :=
  let* current_mode := os_stat_st_mode filename in
  let mode := current_mode - Z.land current_mode STAT_WRITE_PERMS_ALL in
  os_chmod filename mode.

Definition has_write_permissions (filename : string) : M filesystem bool :=
  let* st_mode := os_stat_st_mode filename in
  ret (negb (Z.land st_mode STAT_WRITE_PERMS_ALL =? 0)).

Definition ends_with (s suffix : string) : bool :=
  let n := String.length s in
  let k := String.length suffix in
  ((k <=? n)%nat && String.eqb (String.substring (n - k) k s) suffix)%bool.

Fixpoint strip_compression_extension_loop (keys : list compressor)
    (filename : string) : string :=
  match keys with
  | [] => filename
  | compressor :: keys' =>
      if ends_with filename ("." +:+ extension compressor)
      then String.substring 0
             (String.length filename - (String.length (extension compressor) + 1))
             filename
      else strip_compression_extension_loop keys' filename
  end.

Definition strip_compression_extension (filename : string) : string :=
  strip_compression_extension_loop DECOMPRESSION_KEYS filename.

Fixpoint exist_compressed_file_loop (keys : list compressor)
    (file_path : string) : M filesystem bool :=
  match keys with
  | [] => ret false
  | decompressor :: keys' =>
      let path := file_path +:+ "." +:+ extension decompressor in
      let* found := os_path_exists path in
      if found then ret true else exist_compressed_file_loop keys' file_path
  end.

Definition exist_compressed_file (file_path : string) : M filesystem bool :=
  exist_compressed_file_loop DECOMPRESSION_KEYS file_path.

(** *** [class FileSystemStorage] *)

Definition _get_absolute_path (file_path : string) : M filesystem string :=
  let abs_path := resolve file_path in
  if is_absolute file_path then raise ValueError
  else if negb (is_relative_to_base abs_path) then raise ValueError
  else ret abs_path.

Definition _is_finalized (file_path : string) : M filesystem bool :=
  let* compressed := exist_compressed_file file_path in
  if compressed then ret true
  else
    let* present := os_path_exists file_path in
    if present
    then let* writable := has_write_permissions file_path in ret (negb writable)
    else ret false.

Definition _write_file (file_path : string) (binary_data : bytes)
    (mode : open_mode) : M filesystem unit :=
  let* finalized := _is_finalized file_path in
  if finalized then raise FinalizedFileWriteError
  else atomic_write_append file_path mode binary_data.

(** The loop of [_compress] over [self.compressors], from the current best
    file name and data. The ratio that the debug message formats,
    [compressed_size / len(original_data)], is evaluated before the call to
    the logger. *)
Fixpoint _compress_loop (file_path : string) (original_data : bytes)
    (todo : list compressor) (best_filename : string) (best_data : bytes)
    : res (string * bytes) :=
  match todo with
  | [] => Ok (best_filename, best_data)
  | compressor :: todo' =>
      let compressed_data := COMPRESSION_FUNCTIONS compressor original_data in
      let compressed_size := length compressed_data in
      if (length original_data =? 0)%nat then Raise ZeroDivisionError
      else if (compressed_size <? length best_data)%nat
      then _compress_loop file_path original_data todo'
             (file_path +:+ "." +:+ extension compressor) compressed_data
      else _compress_loop file_path original_data todo' best_filename best_data
  end.

Definition _compress (file_path : string) : M filesystem string :=
  match compressors with
  | [] => ret file_path
  | _ =>
      let* original_data := read_file file_path in
      let* best :=
        lift (_compress_loop file_path original_data compressors
                file_path original_data) in
      let best_filename := fst best in
      let best_data := snd best in
      if bool_decide (best_filename <> file_path)
      then (_write_file best_filename best_data wb;;
            os_remove file_path;;
            ret best_filename)
      else ret best_filename
  end.

Definition _finalize (file_path : string) : M filesystem unit :=
  let* new_filename := _compress file_path in
  drop_write_permissions new_filename.

Definition _persist (file_path : string) (binary_data : bytes)
    (mode : open_mode) (is_final : bool) : M filesystem unit :=
  let* file_path := _get_absolute_path file_path in
  _write_file file_path binary_data mode;;
  if is_final then _finalize file_path else ret tt.

Definition save (file_path : string) (binary_data : bytes)
    (is_final : bool) : M filesystem unit :=
  _persist file_path binary_data wb is_final.

Definition append (file_path : string) (binary_data : bytes)
    (is_final : bool) : M filesystem unit :=
  _persist file_path binary_data ab is_final.

Fixpoint load_loop (keys : list compressor) (file_path : string)
    : M filesystem bytes :=
  match keys with
  | [] => read_file file_path
  | decompressor :: keys' =>
      let path := file_path +:+ "." +:+ extension decompressor in
      fun fs =>
        match read_file path fs with
        | (Ok data, fs') => (DECOMPRESSION_FUNCTIONS decompressor data, fs')
        | (Raise OSError, fs') => load_loop keys' file_path fs'
        | (Raise e, fs') => (Raise e, fs')
        end
  end.

Definition load (file_path : string) : M filesystem bytes :=
  let* file_path := _get_absolute_path file_path in
  load_loop DECOMPRESSION_KEYS file_path.

Definition finalize (file_path : string) : M filesystem unit :=
  let* file_path := _get_absolute_path file_path in
  _finalize file_path.

Definition move (source destination : string) : M filesystem unit :=
  let* source := _get_absolute_path source in
  let* destination := _get_absolute_path destination in
  os_rename source destination.

Definition is_finalized (file_path : string) : M filesystem bool :=
  let* file_path := _get_absolute_path file_path in
  _is_finalized file_path.

End Storage.

End FileSystemStorage.

(** ** The account models

    Modelled from the spec: the classes [AccountState], [Node] and
    [PrimaryValidatorSchedule] of [business_logic/models], which are not among
    the sources; the fields are those of the spec's data model (section 3).
    Account numbers, identifiers and hashes are [hexstr], a [str]. *)

Module Models.

Record PrimaryValidatorSchedule : Type := {
  begin_block_number : Z;
  end_block_number : Z
}.

Record Node : Type := {
  identifier : option string;
  network_addresses : list string;
  fee_amount : Z;
  fee_account : option string
}.

Record AccountState : Type := {
  balance : option Z;
  balance_lock : option string;
  node : option Node;
  primary_validator_schedule : option PrimaryValidatorSchedule
}.

#[global] Instance pv_schedule_eq_dec : EqDecision PrimaryValidatorSchedule.
Proof. solve_decision. Defined.
#[global] Instance Node_eq_dec : EqDecision Node.
Proof. solve_decision. Defined.
#[global] Instance AccountState_eq_dec : EqDecision AccountState.
Proof. solve_decision. Defined.

End Models.

(** ** [NetworkMixin] ([blockchain/base/network.py]) *)

Module Network.

Import Models.

(** The loop of [yield_nodes] over what [yield_account_states] produces,
    with the set [known_accounts]. An [AccountState] without a node has
    [node = None], which is false in [if not node]; a [Node] is true. *)
Fixpoint yield_nodes_loop (account_states : list (string * AccountState))
    (known_accounts : gset string) : list Node :=
  match account_states with
  | [] => []
  | (account_number, account_state) :: rest =>
      match node account_state with
      | None => yield_nodes_loop rest known_accounts
      | Some node =>
          if decide (account_number ∈ known_accounts)
          then yield_nodes_loop rest known_accounts
          else node :: yield_nodes_loop rest ({[account_number]} ∪ known_accounts)
      end
  end.

(** [yield_nodes(block_number)], given the pairs that
    [self.yield_account_states(from_block_number=block_number)] yields. *)
Definition yield_nodes (account_states : list (string * AccountState)) : list Node :=
  yield_nodes_loop account_states ∅.

(** [has_nodes()]: [any] over the nodes that [yield_nodes] yields, which
    stops at the first one; a [Node] is true. *)
Definition has_nodes (account_states : list (string * AccountState)) : bool :=
  match yield_nodes account_states with
  | [] => false
  | _ :: _ => true
  end.

(** The specification's words: the account states that carry a node ... *)
Definition with_node (account_states : list (string * AccountState))
    : list (string * Node) :=
  omap (fun '(account_number, account_state) =>
          pair account_number <$> node account_state) account_states.

(** ... and of those the first one of each account. *)
Fixpoint first_per_account (l : list (string * Node)) : list (string * Node) :=
  match l with
  | [] => []
  | (account_number, n) :: rest =>
      (account_number, n) ::
      filter (fun kv => fst kv <> account_number) (first_per_account rest)
  end.

End Network.

(** ** [cachetools.LRUCache]

    The cache of the library, by its documented behaviour: a mapping of at
    most [maxsize] items (each of size 1) that evicts the least recently used
    one; [get] and item assignment make a key the most recently used. *)

Module LRU.

Section Cache.
Context {K V : Type} `{EqDecision K}.

(** The items, the least recently used first. *)
Record LRUCache : Type := Cache { maxsize : Z; items : list (K * V) }.

Fixpoint assoc (k : K) (l : list (K * V)) : option V :=
  match l with
  | [] => None
  | (k', v) :: l' => if decide (k' = k) then Some v else assoc k l'
  end.

Definition remove (k : K) (l : list (K * V)) : list (K * V) :=
  filter (fun kv => fst kv <> k) l.

(** [cache.get(k)] *)
Definition get (k : K) (c : LRUCache) : option V * LRUCache :=
  match assoc k (items c) with
  | Some v => (Some v, Cache (maxsize c) (remove k (items c) ++ [(k, v)]))
  | None => (None, c)
  end.

(** [cache[k] = v]; [ValueError] when the value is larger than the cache. *)
Definition setitem (k : K) (v : V) (c : LRUCache) : res LRUCache :=
  if maxsize c <? 1 then Raise ValueError
  else
    match assoc k (items c) with
    | Some _ => Ok (Cache (maxsize c) (remove k (items c) ++ [(k, v)]))
    | None =>
        let excess := Z.to_nat (Z.of_nat (length (items c)) + 1 - maxsize c) in
        Ok (Cache (maxsize c) (drop excess (items c) ++ [(k, v)]))
    end.

(** [len(cache)]; an empty cache is false in a condition. *)
Definition len (c : LRUCache) : nat := length (items c).

End Cache.

Arguments LRUCache : clear implicits.

End LRU.

(** ** Generators

    A generator run to its end: the values it yields, each with the state at
    the moment it is yielded, and how it ends, by returning or by raising,
    with the state it leaves. The consumers modelled here do not touch the
    state between two values. *)

Module Generator.

Definition Gen (S A : Type) : Type := S -> list (A * S) * (option exn * S).

Definition gen_return {S A} : Gen S A := fun s => ([], (None, s)).

Definition gen_yield {S A} (a : A) : Gen S A := fun s => ([(a, s)], (None, s)).

Definition gen_raise {S A} (e : exn) : Gen S A := fun s => ([], (Some e, s)).

(** One generator after the other; [yield from g] followed by the rest. *)
Definition gen_app {S A} (g1 g2 : Gen S A) : Gen S A :=
  fun s => match g1 s with
           | (ys1, (None, s1)) =>
               let '(ys2, end2) := g2 s1 in (ys1 ++ ys2, end2)
           | (ys1, (Some e, s1)) => (ys1, (Some e, s1))
           end.

(** A call inside the generator, then the rest. *)
Definition gen_call {S A B} (m : M S A) (k : A -> Gen S B) : Gen S B :=
  fun s => match m s with
           | (Ok a, s') => k a s'
           | (Raise e, s') => ([], (Some e, s'))
           end.

(** [for x in l: <body>]. *)
Fixpoint gen_for {S A B} (l : list A) (body : A -> Gen S B) : Gen S B :=
  match l with
  | [] => gen_return
  | x :: l' => gen_app (body x) (gen_for l' body)
  end.

(** [list(g)] *)
Definition to_list {S A} (g : Gen S A) : M S (list A) :=
  fun s => match g s with
           | (ys, (None, s')) => (Ok (fst <$> ys), s')
           | (_, (Some e, s')) => (Raise e, s')
           end.

(** [next(g)] on a fresh generator, with [StopIteration] caught as [None]:
    the generator is run to its first value and dropped. *)
Definition next_or_none {S A} (g : Gen S A) : M S (option A) :=
  fun s => match g s with
           | ((a, s1) :: _, _) => (Ok (Some a), s1)
           | ([], (None, s')) => (Ok None, s')
           | ([], (Some e, s')) => (Raise e, s')
           end.

End Generator.

(** ** [class FileBlockchain] ([blockchain/file_blockchain.py]) *)

Module FileBlockchain.

Import FileSystemStorage Names Generator.

(** Modelled from the spec: the class [Block] of [models/block.py], which is
    not among the sources. The store reads [block.message.block_number],
    writes [block.to_messagepack()] and reads a chunk back with
    [msgpack.Unpacker] and [Block.from_compact_dict]: [unpack_blocks] gives
    the blocks decoded in write order and the exception, if any, that ends the
    iteration (spec 4.4). *)
Class BlockModel : Type := {
  Block : Type;
  block_number : Block -> Z;
  to_messagepack : Block -> bytes;
  unpack_blocks : bytes -> list Block * option exn
}.

(** Modelled from the spec: the class [BlockchainState] of
    [models/blockchain_state.py], which is not among the sources, with its
    [to_messagepack] and [from_messagepack]. *)
Class BlockchainStateModel : Type := {
  BlockchainState : Type;
  last_block_number : BlockchainState -> option Z;
  state_to_messagepack : BlockchainState -> bytes;
  state_from_messagepack : bytes -> res BlockchainState
}.

(** Modelled from the spec: [PathOptimizedFileSystemStorage] of
    [storages/path_optimized_file_system.py], which is not among the sources:
    a [FileSystemStorage] that rewrites every relative path to its fan-out
    path, uniformly in all operations, and whose [list_directory] reports the
    paths without the fan-out segments and without compression suffix (spec
    4.2). The model keys the files of such a storage by their path relative
    to its base path. *)
Definition path_optimized : Pathlib := {|
  is_absolute p := String.prefix "/" p;
  resolve p := p;
  is_relative_to_base p := true
|}.

(** [sorted(..., reverse=True)] on paths. *)
Definition string_ge (a b : string) : Prop := String.le b a.

#[global] Instance string_ge_dec : RelDecision string_ge.
Proof. intros a b. unfold string_ge. apply _. Defined.

(** Modelled from the spec: [list_directory(sort_direction)] of that class
    (in [FileSystemStorage] it raises [NotImplementedError]): the stored paths
    with the compression suffix stripped, in lexicographic order for
    direction 1, in the reverse order for direction -1 (spec 4.2, 4.3). *)
Definition list_directory (sort_direction : Z) : M filesystem (list string) :=
  gets (fun fs =>
    let paths := strip_compression_extension <$> (fst <$> map_to_list fs) in
    if sort_direction =? 1 then merge_sort String.le paths
    else if sort_direction =? -1 then merge_sort string_ge paths
    else paths).

(** *** Module-level functions *)

Record BlockChunkFilenameMeta : Type := {
  start : Z;
  end_ : Z;
  compression : option compressor
}.

(** The tail [(?:|\.(?P<compression>gz|bz2|xz))$] of both file-name
    patterns; [$] also matches before a line feed that ends the string. *)
Definition match_compression_tail (s : string) : option (option compressor) :=
  let at_end (r : string) := bool_decide (r = "" \/ r = String LF "") in
  if at_end s then Some None
  else
    match strip_prefix "." s with
    | None => None
    | Some r =>
        match strip_prefix "gz" r, strip_prefix "bz2" r, strip_prefix "xz" r with
        | Some t, _, _ => if at_end t then Some (Some gz) else None
        | _, Some t, _ => if at_end t then Some (Some bz2) else None
        | _, _, Some t => if at_end t then Some (Some xz) else None
        | _, _, _ => None
        end
    end.

(** [BLOCK_CHUNK_FILENAME_RE.match(filename)]: the groups [start], [end] and
    [compression]. The dot of the template is not escaped and matches any
    character but a line feed. *)
Definition BLOCK_CHUNK_FILENAME_RE_match (filename : string)
    : option (string * string * option compressor) :=
  let (start_str, r1) := span_digits filename in
  if bool_decide (start_str = "") then None
  else
    match strip_prefix "-" r1 with
    | None => None
    | Some r2 =>
        let (end_str, r3) := span_digits r2 in
        if bool_decide (end_str = "") then None
        else
          match strip_prefix "-block-chunk" r3 with
          | Some (String c r4) =>
              if Ascii.eqb c LF then None
              else
                match strip_prefix "msgpack" r4 with
                | None => None
                | Some r5 =>
                    match match_compression_tail r5 with
                    | None => None
                    | Some compression => Some (start_str, end_str, compression)
                    end
                end
          | _ => None
          end
    end.

Definition get_block_chunk_filename_meta (file_path : string)
    : res (option BlockChunkFilenameMeta) :=
  let filename := basename file_path in
  match BLOCK_CHUNK_FILENAME_RE_match filename with
  | Some (start_str, end_str, compression) =>
      match int_of_digits start_str, int_of_digits end_str with
      | Some start, Some end_ =>
          if start <=? end_
          then Ok (Some {| start := start; end_ := end_; compression := compression |})
          else Raise AssertionError
      | _, _ => Raise ValueError
      end
  | None => Ok None
  end.

Definition get_block_chunk_file_path_meta (file_path : string)
    : res (option BlockChunkFilenameMeta) :=
  get_block_chunk_filename_meta (basename file_path).

(** [BlockchainFilenameMeta]; the fields [last_block_number] and
    [compression], under names that the module has not taken. *)
Record BlockchainFilenameMeta : Type := {
  state_last_block_number : option Z;
  state_compression : option compressor
}.

(** [BLOCKCHAIN_STATE_FILENAME_RE.match(filename)]: the groups
    [last_block_number] and [compression]. The group is at most nine digits
    followed by the sentinel or by one more digit, and a hyphen follows it:
    so it is all the leading digits of the name, at most nine of them with
    the sentinel after them, at least one and at most ten without. The dot of
    the template matches any character but a line feed. *)
Definition BLOCKCHAIN_STATE_FILENAME_RE_match (filename : string)
    : option (string * option compressor) :=
  let (digits, r1) := span_digits filename in
  let rest (group r2 : string) :=
    match strip_prefix "-arf" r2 with
    | Some (String c r3) =>
        if Ascii.eqb c LF then None
        else
          match strip_prefix "msgpack" r3 with
          | None => None
          | Some r4 =>
              match match_compression_tail r4 with
              | None => None
              | Some compression => Some (group, compression)
              end
          end
    | _ => None
    end in
  match strip_prefix LAST_BLOCK_NUMBER_NONE_SENTINEL r1 with
  | Some r2 =>
      if (String.length digits <=? 9)%nat
      then rest (digits +:+ LAST_BLOCK_NUMBER_NONE_SENTINEL) r2
      else None
  | None =>
      if ((1 <=? String.length digits) && (String.length digits <=? 10))%nat
      then rest digits r1
      else None
  end.

Definition get_blockchain_state_filename_meta (filename : string)
    : res (option BlockchainFilenameMeta) :=
  match BLOCKCHAIN_STATE_FILENAME_RE_match filename with
  | Some (last_block_number_str, compression) =>
      if ends_with last_block_number_str LAST_BLOCK_NUMBER_NONE_SENTINEL
      then Ok (Some {| state_last_block_number := None;
                       state_compression := compression |})
      else
        match int_of_digits last_block_number_str with
        | Some last_block_number =>
            Ok (Some {| state_last_block_number := Some last_block_number;
                        state_compression := compression |})
        | None => Raise ValueError
        end
  | None => Ok None
  end.

Definition get_blockchain_state_file_path_meta (file_path : string)
    : res (option BlockchainFilenameMeta) :=
  get_blockchain_state_filename_meta (basename file_path).

Section Blockchain.
Context `{Codecs} `{BlockModel} `{BlockchainStateModel}.

#[local] Existing Instance path_optimized.

(** Who holds the lock file of the base directory. *)
Inductive lock_state : Type := Free | HeldHere | HeldElsewhere.

(** The object: its configuration, its two storages, its two caches and its
    file lock. *)
Record FileBlockchain : Type := {
  block_chunk_size : Z;
  blocks_compressors : list compressor;
  states_compressors : list compressor;
  block_storage : filesystem;
  blockchain_states_storage : filesystem;
  blocks_cache : LRU.LRUCache Z Block;
  blockchain_states_cache : LRU.LRUCache string BlockchainState;
  file_lock : lock_state
}.

Definition set_block_storage (fs : filesystem) (self : FileBlockchain) : FileBlockchain :=
  {| block_chunk_size := block_chunk_size self;
     blocks_compressors := blocks_compressors self;
     states_compressors := states_compressors self;
     block_storage := fs;
     blockchain_states_storage := blockchain_states_storage self;
     blocks_cache := blocks_cache self;
     blockchain_states_cache := blockchain_states_cache self;
     file_lock := file_lock self |}.

Definition set_blockchain_states_storage (fs : filesystem) (self : FileBlockchain)
    : FileBlockchain :=
  {| block_chunk_size := block_chunk_size self;
     blocks_compressors := blocks_compressors self;
     states_compressors := states_compressors self;
     block_storage := block_storage self;
     blockchain_states_storage := fs;
     blocks_cache := blocks_cache self;
     blockchain_states_cache := blockchain_states_cache self;
     file_lock := file_lock self |}.

Definition set_blocks_cache (c : LRU.LRUCache Z Block) (self : FileBlockchain)
    : FileBlockchain :=
  {| block_chunk_size := block_chunk_size self;
     blocks_compressors := blocks_compressors self;
     states_compressors := states_compressors self;
     block_storage := block_storage self;
     blockchain_states_storage := blockchain_states_storage self;
     blocks_cache := c;
     blockchain_states_cache := blockchain_states_cache self;
     file_lock := file_lock self |}.

Definition set_blockchain_states_cache (c : LRU.LRUCache string BlockchainState)
    (self : FileBlockchain) : FileBlockchain :=
  {| block_chunk_size := block_chunk_size self;
     blocks_compressors := blocks_compressors self;
     states_compressors := states_compressors self;
     block_storage := block_storage self;
     blockchain_states_storage := blockchain_states_storage self;
     blocks_cache := blocks_cache self;
     blockchain_states_cache := c;
     file_lock := file_lock self |}.

Definition set_file_lock (l : lock_state) (self : FileBlockchain) : FileBlockchain :=
  {| block_chunk_size := block_chunk_size self;
     blocks_compressors := blocks_compressors self;
     states_compressors := states_compressors self;
     block_storage := block_storage self;
     blockchain_states_storage := blockchain_states_storage self;
     blocks_cache := blocks_cache self;
     blockchain_states_cache := blockchain_states_cache self;
     file_lock := l |}.

(** A method of [self.block_storage], run on that storage. *)
Definition on_block_storage {A} (m : M filesystem A) : M FileBlockchain A :=
  fun self => let (r, fs) := m (block_storage self) in (r, set_block_storage fs self).

(** A method of [self.blockchain_states_storage]. *)
Definition on_blockchain_states_storage {A} (m : M filesystem A) : M FileBlockchain A :=
  fun self =>
    let (r, fs) := m (blockchain_states_storage self) in
    (r, set_blockchain_states_storage fs self).

(** Modelled from the spec: the decorator [ensure_locked] of
    [core/utils/file_lock.py], which is not among the sources: the method
    runs if this process holds the lock and fails with the given exception
    otherwise (spec 4.8). *)
Definition ensure_locked {A} (m : M FileBlockchain A) : M FileBlockchain A :=
  fun self =>
    match file_lock self with
    | HeldHere => m self
    | _ => (Raise BlockchainUnlockedError, self)
    end.

(** Modelled from the spec: the decorator [lock_method] of the same module:
    the lock is acquired without waiting, the call fails with the given
    exception when another process holds it, and the lock is released on exit
    (spec 4.8). *)
Definition lock_method {A} (m : M FileBlockchain A) : M FileBlockchain A :=
  fun self =>
    match file_lock self with
    | HeldElsewhere => (Raise BlockchainLockedError, self)
    | before =>
        let (r, self') := m (set_file_lock HeldHere self) in
        (r, set_file_lock before self')
    end.

(** [direction in (1, -1)] *)
Definition is_direction (direction : Z) : bool :=
  (direction =? 1) || (direction =? -1).

(** *** Blockchain states *)

Definition persist_blockchain_state (blockchain_state : BlockchainState)
    : M FileBlockchain unit :=
  ensure_locked (
    let last_block_number := last_block_number blockchain_state in
    let filename := make_blockchain_state_filename last_block_number in
    let* compressors := gets states_compressors in
    on_blockchain_states_storage
      (save compressors filename (state_to_messagepack blockchain_state) true)).

Definition _load_blockchain_states (file_path : string)
    : M FileBlockchain BlockchainState :=
  let* cache := gets blockchain_states_cache in
  let (account_root_file, cache) := LRU.get file_path cache in
  modify (set_blockchain_states_cache cache);;
  match account_root_file with
  | Some account_root_file => ret account_root_file
  | None =>
      let* finalized := on_blockchain_states_storage (is_finalized file_path) in
      assert finalized;;
      let* data := on_blockchain_states_storage (load file_path) in
      let* account_root_file := lift (state_from_messagepack data) in
      let* cache := gets blockchain_states_cache in
      let* cache := lift (LRU.setitem file_path account_root_file cache) in
      modify (set_blockchain_states_cache cache);;
      ret account_root_file
  end.

Definition _yield_blockchain_states (direction : Z)
    : Gen FileBlockchain BlockchainState :=
  gen_call (assert (is_direction direction)) (fun _ =>
  gen_call (on_blockchain_states_storage (list_directory direction)) (fun paths =>
  gen_for paths (fun file_path =>
    gen_call (_load_blockchain_states file_path) gen_yield))).

Definition yield_blockchain_states : Gen FileBlockchain BlockchainState :=
  _yield_blockchain_states 1.

Definition yield_blockchain_states_reversed : Gen FileBlockchain BlockchainState :=
  _yield_blockchain_states (-1).

(** [ilen(storage.list_directory())], with the default sort direction 1. *)
Definition get_blockchain_states_count : M FileBlockchain Z :=
  let* paths := on_blockchain_states_storage (list_directory 1) in
  ret (Z.of_nat (length paths)).

(** *** Blocks *)

Definition persist_block (block : Block) : M FileBlockchain unit :=
  ensure_locked (
    let* block_chunk_size := gets block_chunk_size in
    let* compressors := gets blocks_compressors in
    let block_number := block_number block in
    let* qr := divmod block_number block_chunk_size in
    let chunk_number := fst qr in
    let offset := snd qr in
    let chunk_block_number_start := chunk_number * block_chunk_size in
    let* append_end :=
      if chunk_block_number_start =? block_number
      then ret block_number
      else (assert (chunk_block_number_start <? block_number);;
            ret (block_number - 1)) in
    let append_filename :=
      make_block_chunk_filename chunk_block_number_start append_end in
    let filename := make_block_chunk_filename chunk_block_number_start block_number in
    on_block_storage (append compressors append_filename (to_messagepack block) false);;
    (if bool_decide (append_filename <> filename)
     then on_block_storage (move append_filename filename)
     else ret tt);;
    if offset =? block_chunk_size - 1
    then on_block_storage (finalize compressors filename)
    else ret tt).

Definition _list_block_directory (direction : Z) : M FileBlockchain (list string) :=
  on_block_storage (list_directory direction).

(** The loop of [_yield_blocks_from_cache] over the block numbers. *)
Fixpoint _yield_blocks_from_cache_loop (iter_ : list Z) : Gen FileBlockchain Block :=
  match iter_ with
  | [] => gen_return
  | block_number :: iter_' =>
      fun self =>
        let (block, cache) := LRU.get block_number (blocks_cache self) in
        let self := set_blocks_cache cache self in
        match block with
        | None => gen_return self
        | Some block =>
            gen_app (gen_yield block) (_yield_blocks_from_cache_loop iter_') self
        end
  end.

Definition _yield_blocks_from_cache (start_block_number end_block_number direction : Z)
    : Gen FileBlockchain Block :=
  gen_call (assert (is_direction direction)) (fun _ =>
    let iter_ := seqZ start_block_number (end_block_number + 1 - start_block_number) in
    let iter_ := if direction =? -1 then reverse iter_ else iter_ in
    _yield_blocks_from_cache_loop iter_).

(** The loop of [_yield_blocks_from_file] over the decoded blocks. *)
Fixpoint _yield_blocks_from_file_loop (blocks : list Block) (direction : Z)
    (start : option Z) : Gen FileBlockchain Block :=
  match blocks with
  | [] => gen_return
  | block :: blocks' =>
      let block_number := block_number block in
      let skip :=
        match start with
        | Some start =>
            ((direction =? 1) && (block_number <? start)) ||
            ((direction =? -1) && (start <? block_number))
        | None => false
        end in
      if skip then _yield_blocks_from_file_loop blocks' direction start
      else
        gen_call
          (let* cache := gets blocks_cache in
           let* cache := lift (LRU.setitem block_number block cache) in
           modify (set_blocks_cache cache))
          (fun _ => gen_app (gen_yield block)
                      (_yield_blocks_from_file_loop blocks' direction start))
  end.

(** [always_reversible(unpacker)] decodes the whole stream before the first
    block is yielded; forwards the blocks are decoded one by one. *)
Definition _yield_blocks_from_file (file_path : string) (direction : Z)
    (start : option Z) : Gen FileBlockchain Block :=
  gen_call (assert (is_direction direction)) (fun _ =>
  gen_call (on_block_storage (load file_path)) (fun data =>
    let (blocks, error) := unpack_blocks data in
    if direction =? -1
    then
      match error with
      | Some e => gen_raise e
      | None => _yield_blocks_from_file_loop (reverse blocks) direction start
      end
    else
      gen_app (_yield_blocks_from_file_loop blocks direction start)
              (match error with Some e => gen_raise e | None => gen_return end))).

(** The [for] loop of [_yield_blocks_from_file_cached] over the blocks that
    the cache generator yielded: the blocks yielded again, the failed
    assertion, if any, with the state at it, and [next_block_number] after
    the loop. *)
Fixpoint check_cached (cached : list (Block * FileBlockchain))
    (next_block_number direction : Z)
    : list (Block * FileBlockchain) * option (exn * FileBlockchain) * Z :=
  match cached with
  | [] => ([], None, next_block_number)
  | (block, self) :: cached' =>
      if next_block_number =? block_number block
      then
        let '(yielded, failed, n) :=
          check_cached cached' (next_block_number + direction) direction in
        ((block, self) :: yielded, failed, n)
      else ([], Some (AssertionError, self), next_block_number)
  end.

Definition _yield_blocks_from_file_cached (file_path : string) (direction : Z)
    (start : option Z) : Gen FileBlockchain Block :=
  gen_call (assert (is_direction direction)) (fun _ =>
  gen_call (lift (get_block_chunk_file_path_meta file_path)) (fun meta =>
    match meta with
    | None => gen_return
    | Some meta =>
        let file_start := FileBlockchain.start meta in
        let file_end := end_ meta in
        let cache_start :=
          if direction =? 1
          then match start with None => file_start | Some start => start end
          else file_start in
        let cache_end :=
          if direction =? 1
          then file_end
          else match start with None => file_end | Some start => start end in
        let next_block_number := if direction =? 1 then cache_start else cache_end in
        fun self =>
          let '(cached, cache_ended) :=
            _yield_blocks_from_cache cache_start cache_end direction self in
          let '(yielded, failed, next_block_number) :=
            check_cached cached next_block_number direction in
          match failed, cache_ended with
          | Some (e, self'), _ => (yielded, (Some e, self'))
          | None, (Some e, self') => (yielded, (Some e, self'))
          | None, (None, self') =>
              if (file_start <=? next_block_number) && (next_block_number <=? file_end)
              then
                let '(from_file, ended) :=
                  _yield_blocks_from_file file_path direction
                    (Some next_block_number) self' in
                (yielded ++ from_file, ended)
              else (yielded, (None, self'))
          end
    end)).

Definition _yield_blocks (direction : Z) : Gen FileBlockchain Block :=
  gen_call (assert (is_direction direction)) (fun _ =>
  gen_call (_list_block_directory direction) (fun paths =>
  gen_for paths (fun file_path =>
    _yield_blocks_from_file_cached file_path direction None))).

Definition yield_blocks : Gen FileBlockchain Block := _yield_blocks 1.

Definition yield_blocks_reversed : Gen FileBlockchain Block := _yield_blocks (-1).

Definition yield_blocks_from (block_number : Z) : Gen FileBlockchain Block :=
  gen_call (_list_block_directory 1) (fun paths =>
  gen_for paths (fun file_path =>
    gen_call (lift (get_block_chunk_file_path_meta file_path)) (fun meta =>
      match meta with
      | None => gen_return
      | Some meta =>
          if end_ meta <? block_number then gen_return
          else _yield_blocks_from_file_cached file_path 1
                 (Some (Z.max (FileBlockchain.start meta) block_number))
      end))).

(** [assert self.blocks_cache] takes the truth value of the cache, which is
    that of [len(self.blocks_cache)]. *)
Definition get_block_by_number (block_number : Z) : M FileBlockchain (option Block) :=
  let* cache := gets blocks_cache in
  assert (negb (LRU.len cache =? 0)%nat);;
  let (block, cache) := LRU.get block_number cache in
  modify (set_blocks_cache cache);;
  match block with
  | Some block => ret (Some block)
  | None => next_or_none (yield_blocks_from block_number)
  end.

(** The loop of [get_block_count] over the listed paths. *)
Fixpoint get_block_count_loop (paths : list string) (count : Z) : res Z :=
  match paths with
  | [] => Ok count
  | file_path :: paths' =>
      match get_block_chunk_file_path_meta file_path with
      | Raise e => Raise e
      | Ok None => get_block_count_loop paths' count
      | Ok (Some meta) =>
          get_block_count_loop paths' (count + (end_ meta - FileBlockchain.start meta + 1))
      end
  end.

Definition get_block_count : M FileBlockchain Z :=
  let* paths := _list_block_directory 1 in
  lift (get_block_count_loop paths 0).

(** Modelled from the spec: [BlockchainBase.add_block], which is not among
    the sources, behind [FileBlockchain.add_block]: under the lock, the block
    is persisted (spec 4.6, 4.8). The validation of the block, which the
    spec leaves to an external collaborator, is not part of the model. *)
Definition add_block (block : Block) : M FileBlockchain unit :=
  lock_method (persist_block block).

End Blockchain.

End FileBlockchain.

(** ** [SerializableMixin] ([models/mixins/serializable.py]) and
    [BlockchainStateMessage] ([models/blockchain_state_message.py]) *)

Module Serializable.

(** Code without state: a value or a raised exception. *)
Definition res_bind {A B} (r : res A) (k : A -> res B) : res B :=
  match r with
  | Ok a => k a
  | Raise e => Raise e
  end.

Declare Scope res_scope.
Delimit Scope res_scope with res.
Notation "'let*' x ':=' m 'in' k" := (res_bind m (fun x => k))
  (at level 10, x pattern, m at level 100, k at level 200) : res_scope.
Local Open Scope res_scope.

(** A [for] loop that builds a list, one item per element. *)
Fixpoint res_map {A B} (f : A -> res B) (l : list A) : res (list B) :=
  match l with
  | [] => Ok []
  | x :: l' =>
      let* y := f x in
      let* ys := res_map f l' in
      Ok (y :: ys)
  end.

(** A [for] loop that updates an accumulator; [continue] returns it
    unchanged. *)
Fixpoint res_fold {A B} (f : B -> A -> res B) (l : list A) (acc : B) : res B :=
  match l with
  | [] => Ok acc
  | x :: l' =>
      let* acc := f acc x in
      res_fold f l' acc
  end.

(** *** Python values

    An instance of a dataclass is its class and its attributes, in the order
    of the fields; a [dict] is its items in insertion order. *)
#[warnings="-register-all"] Inductive value : Type :=
| VNone
| VInt (n : Z)
| VStr (s : string)
| VDatetime (t : Z)
| VList (items : list value)
| VDict (items : list (value * value))
| VObject (cls : string) (attrs : list (string * value)).

Definition is_none (v : value) : bool :=
  match v with VNone => true | _ => false end.

(** [a == b] where one side is a dictionary key: [None], an [int], a [str]
    or a [datetime]. *)
Definition py_eqb (a b : value) : bool :=
  match a, b with
  | VNone, VNone => true
  | VInt n, VInt m => n =? m
  | VStr s, VStr t => String.eqb s t
  | VDatetime s, VDatetime t => s =? t
  | _, _ => false
  end.

(** [bool(v)]; an instance of a dataclass is true. *)
Definition truthy (v : value) : bool :=
  match v with
  | VNone => false
  | VInt n => negb (n =? 0)
  | VStr s => negb (String.eqb s "")
  | VDatetime _ => true
  | VList items => match items with [] => false | _ => true end
  | VDict items => match items with [] => false | _ => true end
  | VObject _ _ => true
  end.

Definition dict : Type := list (value * value).

(** [d.get(key)] *)
Fixpoint dict_get (key : value) (d : dict) : option value :=
  match d with
  | [] => None
  | (k, v) :: d' => if py_eqb k key then Some v else dict_get key d'
  end.

(** [key in d] *)
Definition dict_contains (key : value) (d : dict) : bool :=
  match dict_get key d with Some _ => true | None => false end.

(** [d[key] = v]: a present key keeps its place. *)
Fixpoint dict_set (key v : value) (d : dict) : dict :=
  match d with
  | [] => [(key, v)]
  | (k, w) :: d' => if py_eqb k key then (k, v) :: d' else (k, w) :: dict_set key v d'
  end.

(** [d.pop(key, None)], the dictionary that is left. *)
Fixpoint dict_remove (key : value) (d : dict) : dict :=
  match d with
  | [] => []
  | (k, w) :: d' => if py_eqb k key then d' else (k, w) :: dict_remove key d'
  end.

(** [d.update(other)] *)
Definition dict_update (d other : dict) : dict :=
  fold_left (fun acc kv => dict_set (fst kv) (snd kv) acc) other d.

(** [obj.name] *)
Fixpoint attr_get (name : string) (attrs : list (string * value)) : option value :=
  match attrs with
  | [] => None
  | (n, v) :: attrs' => if String.eqb n name then Some v else attr_get name attrs'
  end.

Definition getattr (obj : value) (name : string) : res value :=
  match obj with
  | VObject _ attrs =>
      match attr_get name attrs with Some v => Ok v | None => Raise AttributeError end
  | _ => Raise AttributeError
  end.

(** [obj.name = v] on an attribute the instance has. *)
Fixpoint attr_set (name : string) (v : value) (attrs : list (string * value))
    : list (string * value) :=
  match attrs with
  | [] => []
  | (n, w) :: attrs' =>
      if String.eqb n name then (n, v) :: attrs' else (n, w) :: attr_set name v attrs'
  end.

Definition setattr (obj : value) (name : string) (v : value) : value :=
  match obj with
  | VObject cls attrs => VObject cls (attr_set name v attrs)
  | _ => obj
  end.

(** *** The declarations of the dataclasses *)

(** The type of a field, [Optional] taken off: [int], [str] and [hexstr],
    [datetime], [list[item]], [dict[key, item]], or a class with the mixin. *)
Inductive field_type : Type :=
| T_int
| T_str
| T_datetime
| T_list (item : field_type)
| T_dict (key item : field_type)
| T_class (cls : string).

Record Field : Type := {
  field_name : string;
  type_of : field_type;
  optional : bool
}.

(** Modelled from the spec: the introspection of [BaseMixin]
    ([models/mixins/base.py], which is not among the sources) over the fields
    of a dataclass: [get_field_names], [get_field_type], which gives the type
    inside [Optional], and [is_optional_field]. A field that is optional
    defaults to [None], as the fields of [BlockchainStateMessage] do. *)
Class Dataclasses : Type := {
  get_fields : string -> list Field
}.

(** The functions [coerce_to_json_type] and [coerce_from_json_type] of
    [core/utils/misc.py], which is not among the sources. *)
Class Coercion : Type := {
  coerce_to_json_type : value -> value;
  coerce_from_json_type : value -> field_type -> res value
}.

Section Mixin.
Context `{Dataclasses} `{Coercion}.

Definition get_field_names (cls : string) : list string :=
  field_name <$> get_fields cls.

Definition find_field (cls key : string) : option Field :=
  List.find (fun f => String.eqb (field_name f) key) (get_fields cls).

Definition get_field_type (cls key : string) : res field_type :=
  match find_field cls key with
  | Some f => Ok (type_of f)
  | None => Raise KeyError
  end.

Definition is_optional_field (cls key : string) : bool :=
  match find_field cls key with
  | Some f => optional f
  | None => false
  end.

(** [isinstance(v, SerializableMixin)] *)
Definition is_serializable (v : value) : bool :=
  match v with VObject _ _ => true | _ => false end.

(** *** Serialization

    [item.serialize_to_dict(...)] is the method of the class of [item]; the
    functions below take it as [method_serialize_to_dict]. *)
Section Serialize.
Variable method_serialize_to_dict : value -> bool -> bool -> list string -> res value.

Definition serialize_item (item : value) (skip_none_values coerce_to_json_types : bool)
    : res value :=
  if is_serializable item
  then method_serialize_to_dict item skip_none_values coerce_to_json_types []
  else if coerce_to_json_types then Ok (coerce_to_json_type item)
  else Ok VNone.

Definition serialize_value (value : value) (skip_none_values coerce_to_json_types : bool)
    : res Serializable.value :=
  match value with
  | VObject _ _ =>
      method_serialize_to_dict value skip_none_values coerce_to_json_types []
  | VList items =>
      let* new_value :=
        res_map (fun item => serialize_item item skip_none_values coerce_to_json_types)
                items in
      Ok (VList new_value)
  | VDict items =>
      let* new_value :=
        res_fold (fun new_value kv =>
                    let* item_key :=
                      serialize_item (fst kv) skip_none_values coerce_to_json_types in
                    let* item_value :=
                      serialize_item (snd kv) skip_none_values coerce_to_json_types in
                    Ok (dict_set item_key item_value new_value))
                 items [] in
      Ok (VDict new_value)
  | _ => if coerce_to_json_types then Ok (coerce_to_json_type value) else Ok value
  end.

(** [SerializableMixin.serialize_to_dict] *)
Definition serialize_to_dict (self : value)
    (skip_none_values coerce_to_json_types : bool) (exclude : list string) : res value :=
  match self with
  | VObject _ attrs =>
      let* serialized :=
        res_fold (fun serialized attr =>
                    let field_name := fst attr in
                    let value := snd attr in
                    if bool_decide (field_name ∈ exclude) then Ok serialized
                    else if is_none value && skip_none_values then Ok serialized
                    else
                      let* v := serialize_value value skip_none_values
                                  coerce_to_json_types in
                      Ok (dict_set (VStr field_name) v serialized))
                 attrs [] in
      Ok (VDict serialized)
  | _ => Raise AttributeError
  end.

(** The body of the loop of [BlockchainStateMessage.serialize_to_dict] over
    the serialized account states. *)
Definition strip_account_state (account_number account_state : value) : res value :=
  match account_state with
  | VDict account_state =>
      let account_state :=
        if py_eqb (default VNone (dict_get (VStr "balance_lock") account_state))
                  account_number
        then dict_remove (VStr "balance_lock") account_state
        else account_state in
      let node := default VNone (dict_get (VStr "node") account_state) in
      if truthy node
      then
        match node with
        | VDict node =>
            Ok (VDict (dict_set (VStr "node")
                         (VDict (dict_remove (VStr "identifier") node)) account_state))
        | _ => Raise AttributeError
        end
      else Ok (VDict account_state)
  | _ => Raise AttributeError
  end.

(** [BlockchainStateMessage.serialize_to_dict] *)
Definition BlockchainStateMessage_serialize_to_dict (self : value)
    (skip_none_values coerce_to_json_types : bool) (exclude : list string) : res value :=
  let* serialized :=
    serialize_to_dict self skip_none_values coerce_to_json_types exclude in
  match serialized with
  | VDict serialized =>
      match dict_get (VStr "account_states") serialized with
      | None => Raise KeyError
      | Some (VDict account_states) =>
          let* account_states :=
            res_map (fun kv =>
                       let* account_state := strip_account_state (fst kv) (snd kv) in
                       Ok (fst kv, account_state))
                    account_states in
          Ok (VDict (dict_set (VStr "account_states") (VDict account_states) serialized))
      | Some _ => Raise AttributeError
      end
  | _ => Raise AttributeError
  end.

End Serialize.

(** The method of the class of [self]. *)
Definition serialize_to_dict_of
    (method_serialize_to_dict : value -> bool -> bool -> list string -> res value)
    (self : value) : bool -> bool -> list string -> res value :=
  match self with
  | VObject cls _ =>
      if String.eqb cls "BlockchainStateMessage"
      then BlockchainStateMessage_serialize_to_dict method_serialize_to_dict self
      else serialize_to_dict method_serialize_to_dict self
  | _ => fun _ _ _ => Raise AttributeError
  end.

(** The calls of [serialize_to_dict] inside one another are bounded, as they
    are by the recursion limit of the interpreter. *)
Fixpoint method_serialize_to_dict (limit : nat) (self : value)
    : bool -> bool -> list string -> res value :=
  match limit with
  | O => fun _ _ _ => Raise RecursionError
  | S limit => serialize_to_dict_of (method_serialize_to_dict limit) self
  end.

(** *** Deserialization

    [item_type.deserialize_from_dict(...)] is the class method of
    [item_type]; the functions below take it as
    [classmethod_deserialize_from_dict]. *)
Section Deserialize.
Variable classmethod_deserialize_from_dict :
  string -> value -> bool -> dict -> res value.

Definition deserialize_item (item : value) (item_type : field_type)
    (complain_excessive_keys : bool) (override : dict) : res value :=
  match item_type with
  | T_class cls =>
      classmethod_deserialize_from_dict cls item complain_excessive_keys override
  | _ => coerce_from_json_type item item_type
  end.

(** [for item in value] *)
Definition py_iter (v : value) : res (list value) :=
  match v with
  | VList items => Ok items
  | VDict items => Ok (fst <$> items)
  | VStr s => Ok ((fun c => VStr (String c "")) <$> list_ascii_of_string s)
  | _ => Raise TypeError
  end.

(** [value.items()] *)
Definition py_items (v : value) : res dict :=
  match v with
  | VDict items => Ok items
  | _ => Raise AttributeError
  end.

Definition deserialize_from_inner_list (field_type : field_type) (value : value)
    (complain_excessive_keys : bool) : res Serializable.value :=
  match field_type with
  | T_list item_type =>
      let* items := py_iter value in
      let* new_value :=
        res_map (fun item => deserialize_item item item_type complain_excessive_keys [])
                items in
      Ok (VList new_value)
  | _ => Raise ValueError
  end.

Definition deserialize_from_inner_dict (field_type : field_type) (value : value)
    (complain_excessive_keys : bool) : res Serializable.value :=
  match field_type with
  | T_dict item_key_type item_value_type =>
      let* items := py_items value in
      let* new_value :=
        res_fold (fun new_value kv =>
                    let* item_key :=
                      deserialize_item (fst kv) item_key_type complain_excessive_keys [] in
                    let* item_value :=
                      deserialize_item (snd kv) item_value_type
                        complain_excessive_keys [] in
                    Ok (dict_set item_key item_value new_value))
                 items [] in
      Ok (VDict new_value)
  | _ => Raise ValueError
  end.

(** [cls] called with the keywords [deserialized]: a field without a value
    takes its default [None]; a missing value of a field without a default
    and a keyword that is not a field are a [TypeError]. *)
Definition construct (cls : string) (deserialized : dict) : res value :=
  if forallb (fun kv => match fst kv with
                        | VStr key => bool_decide (key ∈ get_field_names cls)
                        | _ => false
                        end) deserialized
  then
    let* attrs :=
      res_map (fun f =>
                 match dict_get (VStr (field_name f)) deserialized with
                 | Some v => Ok (field_name f, v)
                 | None => if optional f then Ok (field_name f, VNone)
                           else Raise TypeError
                 end)
              (get_fields cls) in
    Ok (VObject cls attrs)
  else Raise TypeError.

(** [SerializableMixin.deserialize_from_dict] *)
Definition deserialize_from_dict (cls : string) (dict_ : value)
    (complain_excessive_keys : bool) (override : dict) : res value :=
  let* items := py_items dict_ in
  let field_names := get_field_names cls in
  let missing_keys :=
    filter (fun key => negb (dict_contains (VStr key) items) &&
                       negb (dict_contains (VStr key) override) &&
                       negb (is_optional_field cls key)) field_names in
  match missing_keys with
  | _ :: _ => Raise ValidationError
  | [] =>
      let* deserialized :=
        res_fold (fun deserialized kv =>
                    let key := fst kv in
                    let value := snd kv in
                    if dict_contains key override then Ok deserialized
                    else
                      match key with
                      | VStr name =>
                          if bool_decide (name ∈ field_names)
                          then
                            let* field_type := get_field_type cls name in
                            let* value :=
                              match field_type with
                              | T_class field_cls =>
                                  classmethod_deserialize_from_dict field_cls value
                                    complain_excessive_keys []
                              | T_list _ =>
                                  deserialize_from_inner_list field_type value
                                    complain_excessive_keys
                              | T_dict _ _ =>
                                  deserialize_from_inner_dict field_type value
                                    complain_excessive_keys
                              | _ => coerce_from_json_type value field_type
                              end in
                            Ok (dict_set key value deserialized)
                          else if complain_excessive_keys then Raise ValidationError
                          else Ok deserialized
                      | _ =>
                          if complain_excessive_keys then Raise ValidationError
                          else Ok deserialized
                      end)
                 items [] in
      construct cls (dict_update deserialized override)
  end.

(** The body of the loop of [BlockchainStateMessage.deserialize_from_dict]
    over the serialized account states. *)
Definition restore_account_state (account_number account_state : value) : res value :=
  let* account_state_object :=
    classmethod_deserialize_from_dict "AccountState" account_state true [] in
  let* node := getattr account_state_object "node" in
  if truthy node
  then
    let* identifier := getattr node "identifier" in
    if is_none identifier
    then Ok (setattr account_state_object "node"
               (setattr node "identifier" account_number))
    else Ok account_state_object
  else Ok account_state_object.

(** [BlockchainStateMessage.deserialize_from_dict]; the call of the method
    of the mixin does not pass [complain_excessive_keys] on. What is not a
    [dict] fails at [in], at [pop] or at [keys]. *)
Definition BlockchainStateMessage_deserialize_from_dict (cls : string) (dict_ : value)
    (complain_excessive_keys : bool) (override : dict) : res value :=
  match dict_ with
  | VDict items =>
      if dict_contains (VStr "account_states") items &&
         negb (dict_contains (VStr "account_states") override)
      then
        let account_states := default VNone (dict_get (VStr "account_states") items) in
        let items := dict_remove (VStr "account_states") items in
        let* account_states := py_items account_states in
        let* account_state_objects :=
          res_fold (fun account_state_objects kv =>
                      let* account_state_object :=
                        restore_account_state (fst kv) (snd kv) in
                      Ok (dict_set (fst kv) account_state_object account_state_objects))
                   account_states [] in
        let override :=
          dict_set (VStr "account_states") (VDict account_state_objects) override in
        deserialize_from_dict cls (VDict items) true override
      else deserialize_from_dict cls dict_ true override
  | VStr _ => Raise AttributeError
  | VList items =>
      if existsb (py_eqb (VStr "account_states")) items then Raise TypeError
      else Raise AttributeError
  | _ => Raise TypeError
  end.

End Deserialize.

(** The class method of [cls]. *)
Definition deserialize_from_dict_of
    (classmethod_deserialize_from_dict : string -> value -> bool -> dict -> res value)
    (cls : string) : value -> bool -> dict -> res value :=
  if String.eqb cls "BlockchainStateMessage"
  then BlockchainStateMessage_deserialize_from_dict classmethod_deserialize_from_dict cls
  else deserialize_from_dict classmethod_deserialize_from_dict cls.

Fixpoint classmethod_deserialize_from_dict (limit : nat) (cls : string)
    : value -> bool -> dict -> res value :=
  match limit with
  | O => fun _ _ _ => Raise RecursionError
  | S limit => deserialize_from_dict_of (classmethod_deserialize_from_dict limit) cls
  end.

End Mixin.

(** *** The declared classes *)

(** The fields of [BlockchainStateMessage]. *)
Definition BlockchainStateMessage_fields : list Field := [
  {| field_name := "account_states";
     type_of := T_dict T_str (T_class "AccountState"); optional := false |};
  {| field_name := "last_block_number"; type_of := T_int; optional := true |};
  {| field_name := "last_block_identifier"; type_of := T_str; optional := true |};
  {| field_name := "last_block_timestamp"; type_of := T_datetime; optional := true |};
  {| field_name := "next_block_identifier"; type_of := T_str; optional := true |}
].

(** Modelled from the spec: the fields of the classes [AccountState], [Node]
    and [PrimaryValidatorSchedule], which are not among the sources (spec 3,
    and module [Models] above). *)
Definition AccountState_fields : list Field := [
  {| field_name := "balance"; type_of := T_int; optional := true |};
  {| field_name := "balance_lock"; type_of := T_str; optional := true |};
  {| field_name := "node"; type_of := T_class "Node"; optional := true |};
  {| field_name := "primary_validator_schedule";
     type_of := T_class "PrimaryValidatorSchedule"; optional := true |}
].

Definition Node_fields : list Field := [
  {| field_name := "identifier"; type_of := T_str; optional := true |};
  {| field_name := "network_addresses"; type_of := T_list T_str; optional := false |};
  {| field_name := "fee_amount"; type_of := T_int; optional := false |};
  {| field_name := "fee_account"; type_of := T_str; optional := true |}
].

Definition PrimaryValidatorSchedule_fields : list Field := [
  {| field_name := "begin_block_number"; type_of := T_int; optional := false |};
  {| field_name := "end_block_number"; type_of := T_int; optional := false |}
].

(** The classes above, and the other classes with the mixin, [Block] among
    them, as [others] declares them. *)
Definition declared (others : string -> list Field) : Dataclasses := {|
  get_fields cls :=
    if String.eqb cls "BlockchainStateMessage" then BlockchainStateMessage_fields
    else if String.eqb cls "AccountState" then AccountState_fields
    else if String.eqb cls "Node" then Node_fields
    else if String.eqb cls "PrimaryValidatorSchedule" then PrimaryValidatorSchedule_fields
    else others cls
|}.

End Serializable.

(** ** A concrete storage, for running the model

    A base path [/data], and small stand-ins for the compression library:
    [gz] folds a leading run of three equal bytes into one, [bz2] and [xz]
    store the data behind a tag byte. *)

Module Demo.

Import FileSystemStorage.

Definition pathlib : Pathlib := {|
  is_absolute p := String.prefix "/" p;
  resolve p := "/data/" +:+ p;
  is_relative_to_base p := String.prefix "/data/" p
|}.

Definition compress (c : compressor) (data : bytes) : bytes :=
  match c, data with
  | gz, x :: y :: z :: rest =>
      if bool_decide (x = y /\ y = z)
      then Byte.x01 :: x :: rest
      else Byte.x00 :: data
  | _, _ => Byte.x00 :: data
  end.

Definition decompress (c : compressor) (data : bytes) : res bytes :=
  match c, data with
  | _, Byte.x00 :: rest => Ok rest
  | gz, Byte.x01 :: x :: rest => Ok (x :: x :: x :: rest)
  | _, _ => Raise DecodeError
  end.

Definition codecs : Codecs := {|
  COMPRESSION_FUNCTIONS := compress;
  DECOMPRESSION_FUNCTIONS := decompress
|}.

(** A file that lost its write permission bits (mode 0o400). *)
Definition read_only_store : filesystem :=
  {[ "/data/a" := File [Byte.x41] 256 ]}.

(** A writable raw file of four equal bytes (mode 0o600). *)
Definition raw_file : file := File [Byte.x41; Byte.x41; Byte.x41; Byte.x41] 384.

Definition raw_store : filesystem := {[ "/data/a" := raw_file ]}.

(** A block is its number, one byte of a chunk; a blockchain state is the
    bytes of its file, the first of them its last block number. *)
Import FileBlockchain.

Definition block_model : BlockModel := {|
  Block := Byte.byte;
  block_number b := Z.of_N (Byte.to_N b);
  to_messagepack b := [b];
  unpack_blocks data := (data, None)
|}.

Definition state_model : BlockchainStateModel := {|
  BlockchainState := bytes;
  last_block_number st :=
    match st with [] => None | b :: _ => Some (Z.of_N (Byte.to_N b)) end;
  state_to_messagepack st := Byte.xff :: st;
  state_from_messagepack data :=
    match data with Byte.xff :: st => Ok st | _ => Raise DecodeError end
|}.

Definition blockchain : Type :=
  FileBlockchain (H0 := block_model) (H1 := state_model).

(** A blockchain on empty storages, with empty caches. *)
Definition empty_blockchain (chunk_size : Z) : blockchain :=
  {| block_chunk_size := chunk_size;
     blocks_compressors := [gz; bz2; xz];
     states_compressors := [gz; bz2; xz];
     block_storage := ∅;
     blockchain_states_storage := ∅;
     blocks_cache := LRU.Cache (2 * chunk_size) [];
     blockchain_states_cache := LRU.Cache 128 [];
     file_lock := Free |}.

(** The blockchain after the calls [add_block] of the given blocks, the
    calls that raise included. *)
Definition after_add_blocks (blocks : list Byte.byte) (self : blockchain) : blockchain :=
  foldl (fun self block => snd (add_block (H := codecs) block self)) self blocks.

(** Spec S1: blocks 0..3 in chunks of 100. *)
Definition four_blocks : blockchain :=
  after_add_blocks [Byte.x00; Byte.x01; Byte.x02; Byte.x03] (empty_blockchain 100).

(** Spec S1 after a read that left block 3 in the cache. *)
Definition block_3_cached : LRU.LRUCache Z (Block (BlockModel := block_model)) :=
  LRU.Cache 200 [(3, Byte.x03)].

Definition four_blocks_read : blockchain :=
  set_blocks_cache block_3_cached four_blocks.

(** Spec S2: blocks 0, 1, 2 in chunks of 2. *)
Definition rollover : blockchain :=
  after_add_blocks [Byte.x00; Byte.x01; Byte.x02] (empty_blockchain 2).

(** A blockchain whose storage holds the blockchain state of block 5. *)
Definition state_5 : BlockchainState (BlockchainStateModel := state_model) :=
  [Byte.x05].

Definition one_state : blockchain :=
  snd (persist_blockchain_state (H := codecs) state_5
         (set_file_lock HeldHere (empty_blockchain 100))).

(** The same storage after the genesis blockchain state was persisted too. *)
Definition genesis : BlockchainState (BlockchainStateModel := state_model) := [].

Definition two_states : blockchain :=
  snd (persist_blockchain_state (H := codecs) genesis one_state).

(** The dataclasses of the model and no others; a [datetime] is coerced to
    its number and back. *)
Import Serializable.

Definition dataclasses : Dataclasses := declared (fun _ => []).

Definition coercion : Coercion := {|
  coerce_to_json_type v :=
    match v with VDatetime t => VInt t | _ => v end;
  coerce_from_json_type v t :=
    match t, v with
    | T_datetime, VInt n => Ok (VDatetime n)
    | T_datetime, _ => Raise ValueError
    | _, _ => Ok v
    end
|}.

Definition account_state (balance_lock node : value) : value :=
  VObject "AccountState" [
    ("balance", VInt 1000); ("balance_lock", balance_lock); ("node", node);
    ("primary_validator_schedule", VNone)].

Definition blockchain_state (account_states : Serializable.dict) : value :=
  VObject "BlockchainStateMessage" [
    ("account_states", VDict account_states); ("last_block_number", VNone);
    ("last_block_identifier", VNone); ("last_block_timestamp", VNone);
    ("next_block_identifier", VNone)].

(** A genesis state as the tests build it: account [a1] with its own number
    as balance lock. *)
Definition genesis_state : value :=
  blockchain_state [(VStr "a1", account_state (VStr "a1") VNone)].

Definition node_of (identifier : value) : value :=
  VObject "Node" [
    ("identifier", identifier); ("network_addresses", VList [VStr "http://a1/"]);
    ("fee_amount", VInt 4); ("fee_account", VNone)].

(** A state whose account [a1] has another balance lock and declares a
    node under its own number. *)
Definition later_state : value :=
  blockchain_state [(VStr "a1", account_state (VStr "lock-1") (node_of (VStr "a1")))].

End Demo.

(** * Properties *)

(** ** Decimal strings and [zfill] *)

Fixpoint all_digits (s : string) : bool :=
  match s with
  | EmptyString => true
  | String c s' => is_digit c && all_digits s'
  end.

Lemma append_String c s t : String c s +:+ t = String c (s +:+ t).
Proof. reflexivity. Qed.

Lemma append_empty_l t : "" +:+ t = t.
Proof. reflexivity. Qed.

Lemma append_empty_r s : s +:+ "" = s.
Proof. induction s as [|c s IH]; [done|]. by rewrite append_String, IH. Qed.

Lemma append_assoc s t u : (s +:+ t) +:+ u = s +:+ (t +:+ u).
Proof. induction s as [|c s IH]; [done|]. by rewrite !append_String, IH. Qed.

Lemma length_append s t :
  String.length (s +:+ t) = (String.length s + String.length t)%nat.
Proof. induction s as [|c s IH]; [done|]. rewrite append_String. simpl. by rewrite IH. Qed.

Lemma length_repeat_char c k : String.length (repeat_char c k) = k.
Proof. induction k; simpl; congruence. Qed.

Lemma all_digits_append s t :
  all_digits (s +:+ t) = all_digits s && all_digits t.
Proof.
  induction s as [|c s IH]; [done|].
  rewrite append_String. simpl. by rewrite IH, andb_assoc.
Qed.

Lemma all_digits_repeat_zero k : all_digits (repeat_char "0" k) = true.
Proof. induction k; [done|]. simpl. by rewrite IHk. Qed.

Lemma all_digits_string_of_uint d :
  all_digits (NilEmpty.string_of_uint d) = true.
Proof. induction d; simpl; auto. Qed.

Lemma string_of_uint_nonempty d :
  d <> Decimal.Nil -> NilEmpty.string_of_uint d <> "".
Proof. by destruct d. Qed.

Lemma str_nonneg_digits n :
  0 <= n -> all_digits (str n) = true /\ str n <> "".
Proof.
  intros Hn. unfold str. destruct n as [|p|p]; [done| |lia].
  simpl.
  pose proof (DecimalPos.Unsigned.to_uint_nonnil p) as Hnil.
  assert (Hs : NilZero.string_of_uint (Pos.to_uint p)
               = NilEmpty.string_of_uint (Pos.to_uint p))
    by (unfold NilZero.string_of_uint; by destruct (Pos.to_uint p)).
  rewrite Hs. split; [apply all_digits_string_of_uint|].
  by apply string_of_uint_nonempty.
Qed.

Lemma digit_not_sign c :
  is_digit c = true -> (Ascii.eqb c "+" || Ascii.eqb c "-")%bool = false.
Proof.
  intros Hc. apply orb_false_iff.
  split; apply Ascii.eqb_neq; intros ->; discriminate Hc.
Qed.

Lemma zfill_digits s w :
  all_digits s = true -> s <> "" ->
  zfill s w = repeat_char "0" (w - String.length s) +:+ s.
Proof.
  intros Hd Hne. unfold zfill.
  destruct (Nat.leb_spec w (String.length s)) as [Hle|Hlt].
  - by replace (w - String.length s)%nat with 0%nat by lia.
  - destruct s as [|c rest]; [done|].
    simpl in Hd. apply andb_true_iff in Hd as [Hc _].
    by rewrite (digit_not_sign c Hc).
Qed.

Lemma zfill_digits_all s w :
  all_digits s = true -> s <> "" ->
  all_digits (zfill s w) = true /\ (w <= String.length (zfill s w))%nat.
Proof.
  intros Hd Hne. rewrite (zfill_digits s w Hd Hne). split.
  - by rewrite all_digits_append, all_digits_repeat_zero, Hd.
  - rewrite length_append, length_repeat_char. lia.
Qed.

(** A string of zeros closed by the sentinel sorts before every string of
    digits that is longer than the run of zeros. *)
Lemma compare_zeros_sentinel k s t u :
  all_digits s = true -> (k < String.length s)%nat ->
  String.compare (repeat_char "0" k +:+ String "!" u) (s +:+ t) = Lt.
Proof.
  revert s. induction k as [|k IH]; intros [|c s] Hd Hlen; simpl in Hlen; try lia.
  - simpl in Hd. apply andb_true_iff in Hd as [Hc _].
    rewrite append_empty_l, append_String. simpl.
    unfold is_digit in Hc. apply andb_true_iff in Hc as [Hlo _].
    apply N.leb_le in Hlo. unfold Ascii.compare.
    assert (Hcmp : (N_of_ascii "!" ?= N_of_ascii c)%N = Lt).
    { apply N.compare_lt_iff. change (N_of_ascii "!") with 33%N. lia. }
    by rewrite Hcmp.
  - simpl in Hd. apply andb_true_iff in Hd as [Hc Hs].
    simpl repeat_char. rewrite !append_String. simpl.
    unfold is_digit in Hc. apply andb_true_iff in Hc as [Hlo _].
    apply N.leb_le in Hlo. unfold Ascii.compare.
    change (N_of_ascii "0") with 48%N.
    destruct (N.compare_spec 48 (N_of_ascii c)) as [_|_|Hgt]; [|done|lia].
    apply IH; [done|lia].
Qed.

(** ** C2: the file name of the genesis blockchain state *)

(** C2, as the specification states it, fails: the genesis file name is not the
    sentinel padded with the sentinel. *)
Lemma C2_genesis_filename_not_sentinel_padded :
  Names.make_blockchain_state_filename None <> "!!!!!!!!!!-arf.msgpack".
Proof. discriminate. Qed.

(** C2 (amended): for the genesis blockchain state ([last_block_number] is
    [None]) the file name is the sentinel [!] padded on the left with the digit
    zero to width 10, followed by [-arf.msgpack], and it sorts before the file
    name of every blockchain state with a last block number [n >= 0]. *)
Theorem C2_genesis_filename_sorts_first (n : Z) (Hn : 0 <= n) :
  Names.make_blockchain_state_filename None = "000000000!-arf.msgpack" /\
  str_lt (Names.make_blockchain_state_filename None)
         (Names.make_blockchain_state_filename (Some n)) = true.
Proof.
  split; [reflexivity|].
  destruct (str_nonneg_digits n Hn) as [Hd Hne].
  destruct (zfill_digits_all (str n) Names.ORDER_OF_BLOCKCHAIN_STATE_FILE Hd Hne)
    as [Hall Hlen].
  unfold str_lt, String.ltb, Names.make_blockchain_state_filename,
    Names.BLOCKCHAIN_STATE_FILENAME_TEMPLATE.
  change (zfill Names.LAST_BLOCK_NUMBER_NONE_SENTINEL
            Names.ORDER_OF_BLOCKCHAIN_STATE_FILE +:+ "-arf.msgpack")
    with (repeat_char "0" 9 +:+ String "!" "-arf.msgpack").
  rewrite compare_zeros_sentinel; [done|done|].
  unfold Names.ORDER_OF_BLOCKCHAIN_STATE_FILE in *. lia.
Qed.

Lemma C2_genesis_filename_sorts_first_witness :
  Names.make_blockchain_state_filename None = "000000000!-arf.msgpack" /\
  str_lt (Names.make_blockchain_state_filename None)
         (Names.make_blockchain_state_filename (Some 5)) = true.
Proof. apply (C2_genesis_filename_sorts_first 5). lia. Defined.

(** ** The file storage *)

Import FileSystemStorage.

(** A write through the storage's interface. *)
Inductive write_call : Type :=
| SaveCall (binary_data : bytes) (is_final : bool)
| AppendCall (binary_data : bytes) (is_final : bool).

Section StorageFacts.
Context `{Pathlib} `{Codecs}.
Variable compressors : list compressor.

Definition run_write (file_path : string) (c : write_call) : M filesystem unit :=
  match c with
  | SaveCall binary_data is_final => save compressors file_path binary_data is_final
  | AppendCall binary_data is_final => append compressors file_path binary_data is_final
  end.

(** The calls one after the other, each on the state the previous one left,
    whether it returned or raised. *)
Fixpoint run_writes (file_path : string) (calls : list write_call)
    (fs : filesystem) : list (res unit) * filesystem :=
  match calls with
  | [] => ([], fs)
  | c :: calls' =>
      let (r, fs') := run_write file_path c fs in
      let (rs, fs'') := run_writes file_path calls' fs' in
      (r :: rs, fs'')
  end.

(** What [_is_finalized] computes, as a function of the state. *)
Definition compressed_sibling (fs : filesystem) (file_path : string) : bool :=
  existsb (fun c => bool_decide (is_Some (fs !! (file_path +:+ "." +:+ extension c))))
          DECOMPRESSION_KEYS.

Definition read_only (fs : filesystem) (file_path : string) : bool :=
  match fs !! file_path with
  | Some f => Z.land (st_mode f) STAT_WRITE_PERMS_ALL =? 0
  | None => false
  end.

Definition finalized_in (fs : filesystem) (file_path : string) : bool :=
  compressed_sibling fs file_path || read_only fs file_path.

Lemma exist_compressed_file_loop_spec keys file_path fs :
  exist_compressed_file_loop keys file_path fs =
  (Ok (existsb (fun c => bool_decide (is_Some (fs !! (file_path +:+ "." +:+ extension c))))
         keys), fs).
Proof.
  induction keys as [|c keys IH]; [done|].
  simpl. unfold bind, os_path_exists, gets.
  destruct (bool_decide _); [done|]. apply IH.
Qed.

Lemma _is_finalized_spec file_path fs :
  _is_finalized file_path fs = (Ok (finalized_in fs file_path), fs).
Proof.
  unfold _is_finalized, exist_compressed_file, bind.
  rewrite exist_compressed_file_loop_spec.
  unfold finalized_in, compressed_sibling, read_only.
  destruct (existsb _ _); [done|].
  unfold os_path_exists, gets, has_write_permissions, bind, os_stat_st_mode, ret.
  destruct (fs !! file_path) as [f|] eqn:E.
  - rewrite bool_decide_true by eauto. simpl. rewrite E. simpl.
    by rewrite negb_involutive.
  - rewrite bool_decide_false; [done|]. by intros [? ?].
Qed.

Lemma _write_file_finalized file_path binary_data mode fs :
  finalized_in fs file_path = true ->
  _write_file file_path binary_data mode fs = (Raise FinalizedFileWriteError, fs).
Proof.
  intros Hf. unfold _write_file, bind. by rewrite _is_finalized_spec, Hf.
Qed.

Lemma _write_file_open file_path binary_data mode fs :
  finalized_in fs file_path = false ->
  _write_file file_path binary_data mode fs =
  atomic_write_append file_path mode binary_data fs.
Proof.
  intros Hf. unfold _write_file, bind. by rewrite _is_finalized_spec, Hf.
Qed.

Lemma is_finalized_true_inv file_path fs :
  fst (is_finalized file_path fs) = Ok true ->
  _get_absolute_path file_path fs = (Ok (resolve file_path), fs) /\
  finalized_in fs (resolve file_path) = true.
Proof.
  unfold is_finalized, bind, _get_absolute_path.
  destruct (is_absolute file_path); [discriminate|].
  destruct (is_relative_to_base (resolve file_path)); [|discriminate].
  simpl. unfold ret. rewrite _is_finalized_spec. simpl.
  intros [= ->]. done.
Qed.

Lemma _persist_finalized file_path binary_data mode is_final fs :
  fst (is_finalized file_path fs) = Ok true ->
  _persist compressors file_path binary_data mode is_final fs =
  (Raise FinalizedFileWriteError, fs).
Proof.
  intros [Habs Hfin]%is_finalized_true_inv.
  unfold _persist, bind. rewrite Habs.
  by rewrite _write_file_finalized.
Qed.

(** C3: once [is_finalized(p)] returns true, every subsequent [save(p, data)]
    or [append(p, data)] raises [FinalizedFileWriteError], and the failed call
    leaves every stored file as it was. *)
Theorem C3_finalized_file_is_immutable
    (file_path : string) (fs : filesystem) (calls : list write_call)
    (Hfinal : fst (is_finalized file_path fs) = Ok true) :
  run_writes file_path calls fs =
  (replicate (length calls) (Raise FinalizedFileWriteError), fs).
Proof.
  induction calls as [|c calls IH]; [done|].
  simpl.
  assert (Hc : run_write file_path c fs = (Raise FinalizedFileWriteError, fs)).
  { destruct c; simpl; unfold save, append; by apply _persist_finalized. }
  by rewrite Hc, IH.
Qed.

End StorageFacts.

Lemma C3_finalized_file_is_immutable_witness :
  run_writes (H := Demo.pathlib) (H0 := Demo.codecs) [gz] "a"
    [SaveCall [Byte.x42] false; AppendCall [Byte.x43] true]
    Demo.read_only_store =
  ([Raise FinalizedFileWriteError; Raise FinalizedFileWriteError],
   Demo.read_only_store).
Proof.
  apply (C3_finalized_file_is_immutable (H := Demo.pathlib) (H0 := Demo.codecs)
           [gz] "a" Demo.read_only_store
           [SaveCall [Byte.x42] false; AppendCall [Byte.x43] true]).
  vm_compute. reflexivity.
Defined.

(** *** Compressed siblings of a path *)

Definition sibling (file_path : string) (c : compressor) : string :=
  file_path +:+ "." +:+ extension c.

Lemma append_eq_self_inv s t : s +:+ t = s -> t = "".
Proof.
  intros Heq. apply (f_equal String.length) in Heq.
  rewrite length_append in Heq. destruct t; [done|]. simpl in Heq. lia.
Qed.

Lemma sibling_neq file_path c : sibling file_path c <> file_path.
Proof. intros Heq%append_eq_self_inv. discriminate. Qed.

Lemma sibling_inj file_path c c' :
  sibling file_path c = sibling file_path c' -> c = c'.
Proof.
  unfold sibling. intros Heq%(inj (String.app file_path)).
  by destruct c, c'.
Qed.

Lemma compressor_in_keys c : c ∈ DECOMPRESSION_KEYS.
Proof. unfold DECOMPRESSION_KEYS. destruct c; set_solver. Qed.

Section CompressFacts.
Context `{Pathlib} `{Codecs}.
Variable compressors : list compressor.

Lemma compressed_sibling_false fs file_path :
  compressed_sibling fs file_path = false <->
  forall c, fs !! sibling file_path c = None.
Proof.
  unfold compressed_sibling. split.
  - intros Hex c.
    destruct (fs !! sibling file_path c) eqn:E; [|done].
    assert (Hin : existsb (fun c => bool_decide (is_Some (fs !! (file_path +:+ "." +:+ extension c))))
              DECOMPRESSION_KEYS = true).
    { apply existsb_exists. exists c. split.
      - apply list_elem_of_In, compressor_in_keys.
      - apply bool_decide_eq_true. unfold sibling in E. rewrite E. eauto. }
    congruence.
  - intros Hnone. apply not_true_iff_false. intros Hex.
    apply existsb_exists in Hex as (c & _ & Hc).
    apply bool_decide_eq_true in Hc. specialize (Hnone c). unfold sibling in Hnone.
    rewrite Hnone in Hc. by destruct Hc.
Qed.

(** The selection that the loop of [_compress] makes, without the ratio of
    the debug message. *)
Fixpoint pick (file_path : string) (original_data : bytes)
    (todo : list compressor) (best_filename : string) (best_data : bytes)
    : string * bytes :=
  match todo with
  | [] => (best_filename, best_data)
  | c :: todo' =>
      let compressed_data := COMPRESSION_FUNCTIONS c original_data in
      if (length compressed_data <? length best_data)%nat
      then pick file_path original_data todo' (sibling file_path c) compressed_data
      else pick file_path original_data todo' best_filename best_data
  end.

Lemma _compress_loop_nonempty file_path data todo bf bd :
  data <> [] ->
  _compress_loop file_path data todo bf bd = Ok (pick file_path data todo bf bd).
Proof.
  intros Hne. revert bf bd. induction todo as [|c todo IH]; intros bf bd; [done|].
  simpl. destruct data as [|x data]; [done|]. simpl length at 1.
  change (S (length data) =? 0)%nat with false. cbv iota.
  destruct (_ <? _)%nat; apply IH.
Qed.

Lemma _compress_loop_empty file_path todo bf bd :
  todo <> [] ->
  _compress_loop file_path [] todo bf bd = Raise ZeroDivisionError.
Proof. by destruct todo. Qed.

Lemma pick_spec file_path data todo bf bd :
  let r := pick file_path data todo bf bd in
  (forall c, c ∈ todo ->
     (length (snd r) <= length (COMPRESSION_FUNCTIONS c data))%nat) /\
  (length (snd r) <= length bd)%nat /\
  (r = (bf, bd) \/
   exists c, c ∈ todo /\ r = (sibling file_path c, COMPRESSION_FUNCTIONS c data) /\
             (length (COMPRESSION_FUNCTIONS c data) < length bd)%nat).
Proof.
  revert bf bd. induction todo as [|c todo IH]; intros bf bd; simpl.
  - split; [intros c Hc; by apply not_elem_of_nil in Hc|]. split; [lia|by left].
  - destruct (Nat.ltb_spec (length (COMPRESSION_FUNCTIONS c data)) (length bd))
      as [Hlt|Hge].
    + destruct (IH (sibling file_path c) (COMPRESSION_FUNCTIONS c data))
        as (Hall & Hle & Hcase).
      split; [|split].
      * intros c' [->|Hin]%elem_of_cons; [done|by apply Hall].
      * lia.
      * right. destruct Hcase as [Heq|(c' & Hin & Heq & Hlt')].
        -- exists c. split; [apply list_elem_of_here|]. by split.
        -- exists c'. split; [by apply list_elem_of_further|]. split; [done|lia].
    + destruct (IH bf bd) as (Hall & Hle & Hcase).
      split; [|split].
      * intros c' [->|Hin]%elem_of_cons; [lia|by apply Hall].
      * done.
      * destruct Hcase as [Heq|(c' & Hin & Heq & Hlt')]; [by left|].
        right. exists c'. split; [by apply list_elem_of_further|]. by split.
Qed.

(** The permission bits of a file that [atomic_write_append] created, after
    [drop_write_permissions]. *)
Definition dropped (mode : Z) : Z := mode - Z.land mode STAT_WRITE_PERMS_ALL.

Lemma drop_write_permissions_spec file_path fs f :
  fs !! file_path = Some f ->
  drop_write_permissions file_path fs =
  (Ok tt, <[file_path := File (content f) (dropped (st_mode f))]> fs).
Proof.
  intros Hf. unfold drop_write_permissions, bind, os_stat_st_mode, os_chmod.
  by rewrite Hf, Hf.
Qed.

Lemma _compress_outcome file_path fs f :
  fs !! file_path = Some f -> compressors <> [] -> content f <> [] ->
  let r := pick file_path (content f) compressors file_path (content f) in
  _compress compressors file_path fs =
  if bool_decide (fst r <> file_path)
  then if finalized_in fs (fst r)
       then (Raise FinalizedFileWriteError, fs)
       else (Ok (fst r), delete file_path (<[fst r := File (snd r) TEMP_FILE_MODE]> fs))
  else (Ok (fst r), fs).
Proof.
  intros Hf Hcs Hne. cbv zeta. unfold _compress.
  destruct compressors as [|c0 cs] eqn:Ecs; [done|]. rewrite <- Ecs. clear Hcs.
  unfold bind at 1. unfold read_file at 1. rewrite Hf.
  unfold bind at 1, lift. rewrite _compress_loop_nonempty by done.
  set (r := pick file_path (content f) compressors file_path (content f)).
  destruct (bool_decide (fst r <> file_path)) eqn:Eb; [|done].
  apply bool_decide_eq_true in Eb.
  unfold bind at 1. destruct (finalized_in fs (fst r)) eqn:Efin.
  - by rewrite _write_file_finalized.
  - rewrite _write_file_open by done.
    unfold atomic_write_append, modify, bind, os_remove, ret.
    rewrite lookup_insert_ne by done. by rewrite Hf.
Qed.

Lemma _compress_empty_file file_path fs f :
  fs !! file_path = Some f -> compressors <> [] -> content f = [] ->
  _compress compressors file_path fs = (Raise ZeroDivisionError, fs).
Proof.
  intros Hf Hcs He. unfold _compress.
  destruct compressors as [|c0 cs] eqn:Ecs; [done|]. rewrite <- Ecs.
  unfold bind at 1. unfold read_file at 1. rewrite Hf, He.
  unfold bind, lift. rewrite _compress_loop_empty; [done|]. by rewrite Ecs.
Qed.

Lemma _get_absolute_path_ok file_path fs :
  is_absolute file_path = false ->
  is_relative_to_base (resolve file_path) = true ->
  _get_absolute_path file_path fs = (Ok (resolve file_path), fs).
Proof. intros Ha Hr. unfold _get_absolute_path. by rewrite Ha, Hr. Qed.

(** C4: [finalize] of a raw file holding [b]. When some configured
    compressor's output is strictly smaller than [b], an output of least size
    among all configured compressors is written under [path.<suffix>], without
    write permissions, and the raw file is removed. When no output is strictly
    smaller, the raw file keeps its content [b] and no other path changes, so
    no compressed sibling is created. *)
Theorem C4_compression_selection
    (file_path : string) (fs : filesystem) (f : file)
    (Hrel : is_absolute file_path = false)
    (Hin : is_relative_to_base (resolve file_path) = true)
    (Hraw : fs !! resolve file_path = Some f)
    (Hfree : forall c, c ∈ compressors ->
               finalized_in fs (sibling (resolve file_path) c) = false) :
  let p := resolve file_path in
  let b := content f in
  let size c := length (COMPRESSION_FUNCTIONS c b) in
  let fs' := snd (finalize compressors file_path fs) in
  ((exists c, c ∈ compressors /\ (size c < length b)%nat) ->
   exists c, c ∈ compressors /\ (size c < length b)%nat /\
     (forall c', c' ∈ compressors -> (size c <= size c')%nat) /\
     finalize compressors file_path fs = (Ok tt, fs') /\
     fs' !! sibling p c =
       Some (File (COMPRESSION_FUNCTIONS c b) (dropped TEMP_FILE_MODE)) /\
     fs' !! p = None /\
     (forall q, q <> p -> q <> sibling p c -> fs' !! q = fs !! q)) /\
  ((forall c, c ∈ compressors -> (length b <= size c)%nat) ->
   content <$> fs' !! p = Some b /\
   (forall q, q <> p -> fs' !! q = fs !! q)).
Proof.
  intros p b size. change (fs !! p = Some f) in Hraw.
  assert (Hfin : finalize compressors file_path fs = _finalize compressors p fs).
  { unfold finalize, bind. by rewrite _get_absolute_path_ok. }
  rewrite Hfin. clear Hfin. cbv zeta.
  destruct (decide (compressors = [])) as [Hnil|Hcs].
  { (* no compressor configured *)
    assert (Hres : _finalize compressors p fs =
                   (Ok tt, <[p := File b (dropped (st_mode f))]> fs)).
    { unfold _finalize, bind, _compress. rewrite Hnil. unfold ret.
      by rewrite (drop_write_permissions_spec p fs f Hraw). }
    rewrite Hres. simpl. split.
    - intros (c & Hc & _). rewrite Hnil in Hc. by apply not_elem_of_nil in Hc.
    - intros _. split; [by rewrite lookup_insert_eq|].
      intros q Hq. by rewrite lookup_insert_ne. }
  destruct (decide (b = [])) as [Hb|Hb].
  { (* the ratio of the debug message divides by the length of the data *)
    assert (Hres : _finalize compressors p fs = (Raise ZeroDivisionError, fs)).
    { unfold _finalize, bind. by rewrite (_compress_empty_file p fs f Hraw Hcs Hb). }
    rewrite Hres. simpl. split.
    - intros (c & _ & Hlt). rewrite Hb in Hlt. simpl in Hlt. lia.
    - intros _. split; [by rewrite Hraw|done]. }
  destruct (pick_spec p b compressors p b) as (Hleast & _ & Hcase).
  destruct Hcase as [Heq|(c & Hc & Heq & Hlt)].
  - (* the raw data stays the best *)
    assert (Hres : _finalize compressors p fs =
                   (Ok tt, <[p := File b (dropped (st_mode f))]> fs)).
    { unfold _finalize, bind. rewrite (_compress_outcome p fs f Hraw Hcs Hb).
      fold b. rewrite Heq. simpl.
      rewrite bool_decide_false by (intros Hne; by apply Hne).
      by rewrite (drop_write_permissions_spec p fs f Hraw). }
    rewrite Hres. simpl. split.
    + intros (c & Hc & Hlt). specialize (Hleast c Hc). rewrite Heq in Hleast.
      simpl in Hleast. unfold size in Hlt. lia.
    + intros _. split; [by rewrite lookup_insert_eq|].
      intros q Hq. by rewrite lookup_insert_ne.
  - (* compressor [c] wins *)
    assert (Hres : _finalize compressors p fs =
      (Ok tt, <[sibling p c := File (COMPRESSION_FUNCTIONS c b) (dropped TEMP_FILE_MODE)]>
                (delete p (<[sibling p c := File (COMPRESSION_FUNCTIONS c b) TEMP_FILE_MODE]> fs)))).
    { unfold _finalize, bind. rewrite (_compress_outcome p fs f Hraw Hcs Hb).
      fold b. rewrite Heq. simpl fst. simpl snd.
      rewrite bool_decide_true by apply sibling_neq.
      pose proof (Hfree c Hc) as Hopen. fold p in Hopen. rewrite Hopen.
      rewrite (drop_write_permissions_spec (sibling p c) _
                 (File (COMPRESSION_FUNCTIONS c b) TEMP_FILE_MODE)); [done|].
      rewrite lookup_delete_ne by (apply not_eq_sym, sibling_neq).
      apply lookup_insert_eq. }
    rewrite Hres. simpl. split.
    + intros _. exists c. split; [done|]. split; [done|]. split.
      { intros c' Hc'. specialize (Hleast c' Hc'). by rewrite Heq in Hleast. }
      split; [done|]. split; [by rewrite lookup_insert_eq|]. split.
      * rewrite lookup_insert_ne by apply sibling_neq. apply lookup_delete_eq.
      * intros q Hq Hqs. rewrite lookup_insert_ne by done.
        rewrite lookup_delete_ne by done. by rewrite lookup_insert_ne.
    + intros Hall. specialize (Hall c Hc). unfold size in Hall. lia.
Qed.

End CompressFacts.

Lemma C4_compression_selection_witness :
  let compressors := [gz; bz2; xz] in
  let p := "/data/a" in
  let b := content Demo.raw_file in
  let size c := length (Demo.compress c b) in
  let fs' := snd (finalize (H := Demo.pathlib) (H0 := Demo.codecs)
                    compressors "a" Demo.raw_store) in
  ((exists c, c ∈ compressors /\ (size c < length b)%nat) ->
   exists c, c ∈ compressors /\ (size c < length b)%nat /\
     (forall c', c' ∈ compressors -> (size c <= size c')%nat) /\
     finalize (H := Demo.pathlib) (H0 := Demo.codecs)
       compressors "a" Demo.raw_store = (Ok tt, fs') /\
     fs' !! sibling p c = Some (File (Demo.compress c b) (dropped TEMP_FILE_MODE)) /\
     fs' !! p = None /\
     (forall q, q <> p -> q <> sibling p c -> fs' !! q = Demo.raw_store !! q)) /\
  ((forall c, c ∈ compressors -> (length b <= size c)%nat) ->
   content <$> fs' !! p = Some b /\
   (forall q, q <> p -> fs' !! q = Demo.raw_store !! q)).
Proof.
  apply (C4_compression_selection (H := Demo.pathlib) (H0 := Demo.codecs)
           [gz; bz2; xz] "a" Demo.raw_store Demo.raw_file).
  - reflexivity.
  - reflexivity.
  - reflexivity.
  - intros c _. destruct c; vm_compute; reflexivity.
Defined.

Example finalize_compressible_file :
  finalize (H := Demo.pathlib) (H0 := Demo.codecs) [gz; bz2; xz] "a" Demo.raw_store =
  (Ok tt, {[ "/data/a.gz" := File [Byte.x01; Byte.x41; Byte.x41] 256 ]}).
Proof. vm_compute. reflexivity. Qed.

(** On an empty raw file [_compress] raises at the ratio of its debug
    message, before any file is written. *)
Example finalize_empty_file :
  finalize (H := Demo.pathlib) (H0 := Demo.codecs) [gz] "a"
    {[ "/data/a" := File [] 384 ]} =
  (Raise ZeroDivisionError, {[ "/data/a" := File [] 384 ]}).
Proof. vm_compute. reflexivity. Qed.

(** *** Saving a final file and loading it back *)

Section LoadFacts.
Context `{Pathlib} `{Codecs}.
Variable compressors : list compressor.

(** The compression library restores what it compressed. *)
Hypothesis decompress_compress :
  forall c data, DECOMPRESSION_FUNCTIONS c (COMPRESSION_FUNCTIONS c data) = Ok data.

Lemma load_loop_raw keys file_path fs :
  (forall c, c ∈ keys -> fs !! sibling file_path c = None) ->
  load_loop keys file_path fs = read_file file_path fs.
Proof.
  induction keys as [|k keys IH]; intros Hnone; [done|].
  simpl. unfold read_file at 1.
  pose proof (Hnone k (list_elem_of_here _ _)) as Hk. unfold sibling in Hk.
  rewrite Hk. apply IH. intros c Hc. apply Hnone. by apply list_elem_of_further.
Qed.

Lemma load_loop_compressed keys file_path fs c f :
  c ∈ keys ->
  fs !! sibling file_path c = Some f ->
  (forall c', c' <> c -> fs !! sibling file_path c' = None) ->
  load_loop keys file_path fs = (DECOMPRESSION_FUNCTIONS c (content f), fs).
Proof.
  intros Hc Hf Hothers.
  induction keys as [|k keys IH]; [by apply not_elem_of_nil in Hc|].
  simpl. unfold read_file at 1. fold (sibling file_path k).
  destruct (decide (k = c)) as [->|Hne].
  - by rewrite Hf.
  - rewrite (Hothers k Hne). apply IH.
    apply elem_of_cons in Hc as [->|Hc]; done.
Qed.

(** What [save(p, b, is_final=True)] leaves on a fresh target: the raw file
    with content [b] and no compressed sibling, or exactly one compressed
    sibling holding the compressed [b]. *)
Lemma save_final_fresh file_path b fs :
  let p := resolve file_path in
  is_absolute file_path = false ->
  is_relative_to_base p = true ->
  fs !! p = None ->
  (forall c, fs !! sibling p c = None) ->
  let fs' := snd (save compressors file_path b true fs) in
  (content <$> fs' !! p = Some b /\ forall c, fs' !! sibling p c = None) \/
  (exists c, content <$> fs' !! sibling p c = Some (COMPRESSION_FUNCTIONS c b) /\
             forall c', c' <> c -> fs' !! sibling p c' = None).
Proof.
  intros p Hrel Hin Hp Hsib. cbv zeta.
  set (fs1 := <[p := File b TEMP_FILE_MODE]> fs).
  assert (Hp1 : fs1 !! p = Some (File b TEMP_FILE_MODE)) by apply lookup_insert_eq.
  assert (Hsib1 : forall c, fs1 !! sibling p c = None).
  { intros c. unfold fs1. rewrite lookup_insert_ne by (apply not_eq_sym, sibling_neq).
    apply Hsib. }
  assert (Hopen : finalized_in fs p = false).
  { unfold finalized_in, read_only. rewrite Hp.
    by rewrite (proj2 (compressed_sibling_false fs p) Hsib). }
  assert (Hsave : save compressors file_path b true fs = _finalize compressors p fs1).
  { unfold save, _persist, bind. rewrite _get_absolute_path_ok by done. fold p.
    rewrite _write_file_open by done. done. }
  rewrite Hsave. clear Hsave.
  assert (Hkeep : forall r md, content <$> (r, <[p := File b md]> fs1).2 !! p = Some b /\
                            forall c, (r : res unit, <[p := File b md]> fs1).2 !! sibling p c = None).
  { intros r md. simpl. split; [by rewrite lookup_insert_eq|].
    intros c. rewrite lookup_insert_ne by (apply not_eq_sym, sibling_neq). apply Hsib1. }
  destruct (decide (compressors = [])) as [Hnil|Hcs].
  { left. unfold _finalize, bind, _compress. rewrite Hnil. unfold ret.
    rewrite (drop_write_permissions_spec p fs1 _ Hp1). apply Hkeep. }
  destruct (decide (b = [])) as [Hb|Hb].
  { left. unfold _finalize, bind.
    rewrite (_compress_empty_file compressors p fs1 _ Hp1 Hcs Hb). simpl.
    split; [by rewrite Hp1|done]. }
  unfold _finalize, bind.
  rewrite (_compress_outcome compressors p fs1 _ Hp1 Hcs Hb). simpl content.
  destruct (pick_spec p b compressors p b) as (_ & _ & Hcase).
  destruct Hcase as [Heq|(c & Hc & Heq & Hlt)]; rewrite Heq; simpl fst; simpl snd.
  - left. rewrite bool_decide_false by (intros Hne; by apply Hne).
    rewrite (drop_write_permissions_spec p fs1 _ Hp1). apply Hkeep.
  - rewrite bool_decide_true by apply sibling_neq.
    destruct (finalized_in fs1 (sibling p c)).
    + left. simpl. split; [by rewrite Hp1|done].
    + right. exists c.
      rewrite (drop_write_permissions_spec (sibling p c) _
                 (File (COMPRESSION_FUNCTIONS c b) TEMP_FILE_MODE)); last first.
      { rewrite lookup_delete_ne by (apply not_eq_sym, sibling_neq).
        apply lookup_insert_eq. }
      simpl. split; [by rewrite lookup_insert_eq|].
      intros c' Hne.
      assert (Hneq : sibling p c <> sibling p c') by (intros Heq'%sibling_inj; congruence).
      rewrite lookup_insert_ne by done.
      rewrite lookup_delete_ne by (apply not_eq_sym, sibling_neq).
      rewrite lookup_insert_ne by done. apply Hsib1.
Qed.

(** C5: after [save(p, b, is_final=True)] on a fresh target (neither [p] nor
    one of its compressed siblings is stored), [load(p)] returns exactly [b]:
    it reads the first compressed sibling, in the order of the suffixes, and
    decompresses it, or else reads the raw path. *)
Theorem C5_save_final_then_load
    (file_path : string) (b : bytes) (fs : filesystem)
    (Hrel : is_absolute file_path = false)
    (Hin : is_relative_to_base (resolve file_path) = true)
    (Hfresh : fs !! resolve file_path = None)
    (Hfresh_siblings : forall c, fs !! sibling (resolve file_path) c = None) :
  fst (load file_path (snd (save compressors file_path b true fs))) = Ok b.
Proof.
  pose proof (save_final_fresh file_path b fs Hrel Hin Hfresh Hfresh_siblings) as Hcase.
  cbv zeta in Hcase. set (fs' := snd (save compressors file_path b true fs)) in *.
  unfold load, bind. rewrite _get_absolute_path_ok by done.
  destruct Hcase as [[Hraw Hnone]|(c & Hc & Hothers)].
  - rewrite load_loop_raw by (intros c _; apply Hnone).
    unfold read_file. destruct (fs' !! resolve file_path) as [f|]; [|done].
    simpl in Hraw. by injection Hraw as ->.
  - destruct (fs' !! sibling (resolve file_path) c) as [f|] eqn:Ef; [|done].
    rewrite (load_loop_compressed DECOMPRESSION_KEYS _ fs' c f
               (compressor_in_keys c) Ef Hothers).
    simpl in Hc. injection Hc as ->. simpl. apply decompress_compress.
Qed.

End LoadFacts.

Lemma demo_decompress_compress c data :
  Demo.decompress c (Demo.compress c data) = Ok data.
Proof.
  destruct c; [|done..].
  destruct data as [|x [|y [|z rest]]]; try done.
  simpl. case_bool_decide as Hxyz; [|done].
  by destruct Hxyz as [-> ->].
Qed.

Lemma C5_save_final_then_load_witness :
  fst (load (H := Demo.pathlib) (H0 := Demo.codecs) "a"
         (snd (save (H := Demo.pathlib) (H0 := Demo.codecs) [gz; bz2; xz] "a"
                 [Byte.x41; Byte.x41; Byte.x41; Byte.x41] true ∅))) =
  Ok [Byte.x41; Byte.x41; Byte.x41; Byte.x41].
Proof.
  apply (C5_save_final_then_load (H := Demo.pathlib) (H0 := Demo.codecs)
           [gz; bz2; xz] demo_decompress_compress "a"
           [Byte.x41; Byte.x41; Byte.x41; Byte.x41] ∅).
  - reflexivity.
  - reflexivity.
  - reflexivity.
  - intros c. reflexivity.
Defined.

(** ** Nodes of the network *)

Import Models Network.

Lemma yield_nodes_loop_spec (l : list (string * AccountState)) (known : gset string) :
  yield_nodes_loop l known =
  snd <$> filter (fun kv => fst kv ∉ known) (first_per_account (with_node l)).
Proof.
  revert known. induction l as [|[a s] l IH]; intros known; [done|].
  simpl. unfold with_node in *. simpl. destruct (node s) as [n|]; simpl; [|apply IH].
  rewrite filter_cons. simpl. destruct (decide (a ∈ known)) as [Hin|Hnin].
  - rewrite decide_False by (intros Hn; by apply Hn).
    rewrite list_filter_filter, IH. f_equal. apply list_filter_iff.
    intros [k v]. simpl. split; [|by intros [? ?]].
    intros Hk. split; [done|]. intros ->. by apply Hk.
  - rewrite decide_True by done. simpl. f_equal.
    rewrite list_filter_filter, IH. f_equal. apply list_filter_iff.
    intros [k v]. simpl. rewrite not_elem_of_union, not_elem_of_singleton. tauto.
Qed.

Lemma first_per_account_keys_NoDup (l : list (string * Node)) :
  NoDup (fst <$> first_per_account l).
Proof.
  induction l as [|[a n] l IH]; simpl; [constructor|].
  constructor.
  - intros ([k v] & Hk & Hin)%list_elem_of_fmap. simpl in Hk. subst k.
    apply list_elem_of_filter in Hin as [Hne _]. by apply Hne.
  - eapply sublist_NoDup; [apply IH|].
    apply fmap_sublist, sublist_filter.
Qed.

Lemma first_per_account_elem (l : list (string * AccountState)) a n :
  (a, n) ∈ first_per_account (with_node l) <->
  exists l1 s l2, l = l1 ++ (a, s) :: l2 /\ node s = Some n /\
                  forall s', (a, s') ∈ l1 -> node s' = None.
Proof.
  induction l as [|[a0 s0] l IH].
  - split; [by intros ?%not_elem_of_nil|]. intros (l1 & s & l2 & Heq & _).
    by destruct l1.
  - unfold with_node in *. simpl. destruct (node s0) as [n0|] eqn:En0; simpl.
    + rewrite elem_of_cons, list_elem_of_filter, IH. simpl. split.
      * intros [[= -> ->]|[Hne (l1 & s & l2 & -> & Hn & Hfirst)]].
        -- exists [], s0, l. split; [done|]. split; [done|].
           by intros s' ?%not_elem_of_nil.
        -- exists ((a0, s0) :: l1), s, l2. split; [done|]. split; [done|].
           intros s' [[= ? ?]|Hin]%elem_of_cons; [done|by apply Hfirst].
      * intros (l1 & s & l2 & Heq & Hn & Hfirst). destruct l1 as [|[a1 s1] l1].
        -- simpl in Heq. injection Heq as -> -> ->. left. congruence.
        -- simpl in Heq. injection Heq as <- <- ->. right.
           assert (Hne : a <> a0).
           { intros ->. specialize (Hfirst s0 (list_elem_of_here _ _)). congruence. }
           split; [done|]. exists l1, s, l2. split; [done|]. split; [done|].
           intros s' Hin. apply Hfirst. by apply list_elem_of_further.
    + rewrite IH. split.
      * intros (l1 & s & l2 & -> & Hn & Hfirst).
        exists ((a0, s0) :: l1), s, l2. split; [done|]. split; [done|].
        intros s' [[= ? ?]|Hin]%elem_of_cons; [by subst|by apply Hfirst].
      * intros (l1 & s & l2 & Heq & Hn & Hfirst). destruct l1 as [|[a1 s1] l1].
        -- simpl in Heq. injection Heq as -> -> ->. congruence.
        -- simpl in Heq. injection Heq as <- <- ->.
           exists l1, s, l2. split; [done|]. split; [done|].
           intros s' Hin. apply Hfirst. by apply list_elem_of_further.
Qed.

(** C10: [yield_nodes] yields, in the order of [yield_account_states], the
    nodes of a list of (account, node) pairs that has at most one pair per
    account; the pair of an account carries the node of the first account
    state of that account that has a node, account states without a node being
    skipped. *)
Theorem C10_yield_nodes_one_per_account (account_states : list (string * AccountState)) :
  let yielded := first_per_account (with_node account_states) in
  yield_nodes account_states = snd <$> yielded /\
  NoDup (fst <$> yielded) /\
  forall account_number n,
    (account_number, n) ∈ yielded <->
    exists before account_state after,
      account_states = before ++ (account_number, account_state) :: after /\
      node account_state = Some n /\
      forall earlier, (account_number, earlier) ∈ before -> node earlier = None.
Proof.
  cbv zeta. split; [|split].
  - unfold yield_nodes. rewrite yield_nodes_loop_spec. f_equal.
    induction (first_per_account (with_node account_states)) as [|kv l IH]; [done|].
    rewrite filter_cons, decide_True by apply not_elem_of_empty. by f_equal.
  - apply first_per_account_keys_NoDup.
  - apply first_per_account_elem.
Qed.


(** ** Decimal file names read back *)

(** [int(s)] on an optional minus sign followed by digits. *)
Definition int_of_signed (s : string) : option Z :=
  match s with
  | String "-" r => Z.opp <$> int_of_digits r
  | _ => int_of_digits s
  end.

Lemma uint_of_string_zeros k d :
  NilEmpty.uint_of_string (repeat_char "0" k +:+ NilEmpty.string_of_uint d) =
  Some (Nat.iter k Decimal.D0 d).
Proof.
  induction k as [|k IH]; simpl.
  - rewrite append_empty_l. apply NilEmpty.usu.
  - by rewrite IH.
Qed.

Lemma of_uint_iter_zeros k d :
  Z.of_uint (Nat.iter k Decimal.D0 d) = Z.of_uint d.
Proof. induction k as [|k IH]; [done|]. simpl. exact IH. Qed.

Lemma int_of_digits_zeros k d :
  d <> Decimal.Nil ->
  int_of_digits (repeat_char "0" k +:+ NilEmpty.string_of_uint d) = Some (Z.of_uint d).
Proof.
  intros Hd. unfold int_of_digits, NilZero.uint_of_string.
  assert (Hne : repeat_char "0" k +:+ NilEmpty.string_of_uint d <> "").
  { destruct k; [|done]. rewrite append_empty_l. by apply string_of_uint_nonempty. }
  destruct (repeat_char "0" k +:+ NilEmpty.string_of_uint d) eqn:E; [done|].
  rewrite <- E, uint_of_string_zeros. simpl. by rewrite of_uint_iter_zeros.
Qed.

Lemma string_of_pos_uint p :
  NilZero.string_of_uint (Pos.to_uint p) = NilEmpty.string_of_uint (Pos.to_uint p).
Proof.
  unfold NilZero.string_of_uint.
  pose proof (DecimalPos.Unsigned.to_uint_nonnil p). by destruct (Pos.to_uint p).
Qed.

Lemma of_uint_to_uint p : Z.of_uint (Pos.to_uint p) = Z.pos p.
Proof. unfold Z.of_uint. by rewrite DecimalPos.Unsigned.of_to. Qed.

(** [int(str(n).zfill(width)) == n] *)
Lemma int_of_zfill_str n width : int_of_signed (zfill (str n) width) = Some n.
Proof.
  destruct n as [|p|p].
  - change (str 0) with (NilEmpty.string_of_uint (Decimal.D0 Decimal.Nil)).
    rewrite zfill_digits by done.
    assert (Hv : int_of_digits (repeat_char "0" (width - 1) +:+
                   NilEmpty.string_of_uint (Decimal.D0 Decimal.Nil)) = Some 0)
      by (by rewrite int_of_digits_zeros).
    simpl String.length. unfold int_of_signed.
    destruct (width - 1)%nat; [done|]. exact Hv.
  - assert (Hs : str (Z.pos p) = NilEmpty.string_of_uint (Pos.to_uint p))
      by apply string_of_pos_uint.
    destruct (str_nonneg_digits (Z.pos p)) as [Hd Hne]; [lia|].
    rewrite zfill_digits by done. rewrite Hs.
    pose proof (int_of_digits_zeros (width - String.length (NilEmpty.string_of_uint (Pos.to_uint p)))
                  (Pos.to_uint p) (DecimalPos.Unsigned.to_uint_nonnil p)) as Hv.
    rewrite of_uint_to_uint in Hv. unfold int_of_signed.
    destruct (repeat_char _ _ +:+ _) as [|c r] eqn:E; [done|].
    destruct (Ascii.eqb_spec c "-") as [->|Hc]; [|by destruct c as [[][][][][][][][]]].
    exfalso. assert (Hall : all_digits (String "-" r) = true); [|done].
    rewrite <- E, all_digits_append, all_digits_repeat_zero. simpl.
    apply all_digits_string_of_uint.
  - assert (Hs : str (Z.neg p) = String "-" (NilEmpty.string_of_uint (Pos.to_uint p))).
    { unfold str. simpl. by rewrite string_of_pos_uint. }
    rewrite Hs. unfold zfill.
    set (d := NilEmpty.string_of_uint (Pos.to_uint p)).
    assert (Hd : int_of_digits d = Some (Z.pos p)).
    { pose proof (int_of_digits_zeros 0 (Pos.to_uint p)
                    (DecimalPos.Unsigned.to_uint_nonnil p)) as Hv.
      by rewrite of_uint_to_uint in Hv. }
    destruct (width <=? String.length (String "-" d))%nat.
    + simpl. by rewrite Hd.
    + simpl. unfold d.
      rewrite (int_of_digits_zeros _ _ (DecimalPos.Unsigned.to_uint_nonnil p)).
      by rewrite of_uint_to_uint.
Qed.

Lemma zfill_str_inj a b width :
  zfill (str a) width = zfill (str b) width -> a = b.
Proof.
  intros Heq. apply (f_equal int_of_signed) in Heq.
  rewrite !int_of_zfill_str in Heq. congruence.
Qed.

Lemma append_inj_r s t u : s +:+ u = t +:+ u -> s = t.
Proof.
  revert t. induction s as [|c s IH]; intros [|d t] Heq.
  - done.
  - apply (f_equal String.length) in Heq. rewrite append_empty_l, append_String in Heq.
    simpl in Heq. rewrite length_append in Heq. lia.
  - apply (f_equal String.length) in Heq. rewrite append_empty_l, append_String in Heq.
    simpl in Heq. rewrite length_append in Heq. lia.
  - rewrite !append_String in Heq. injection Heq as -> Heq. f_equal. by apply IH.
Qed.

Lemma make_block_chunk_filename_inj_end start e e' :
  Names.make_block_chunk_filename start e = Names.make_block_chunk_filename start e' ->
  e = e'.
Proof.
  unfold Names.make_block_chunk_filename, Names.BLOCK_CHUNK_FILENAME_TEMPLATE. cbv zeta.
  intros Heq%(inj (String.app _))%(inj (String.app _))%append_inj_r.
  by apply zfill_str_inj in Heq.
Qed.

(** ** The block store *)

Import FileBlockchain Generator.

Section BlockStoreFacts.
Context `{Codecs} `{BlockModel} `{BlockchainStateModel}.

#[local] Existing Instance path_optimized.

(** The specification's words for [persist_block]: the three storage calls, with the
    conditions on the block number. *)
Definition persist_block_calls (block : Block) : M FileBlockchain unit :=
  fun self =>
    let n := block_number block in
    let s := block_chunk_size self in
    let compressors := blocks_compressors self in
    let chunk_start := n / s * s in
    let append_filename :=
      Names.make_block_chunk_filename chunk_start
        (if bool_decide (n = chunk_start) then n else n - 1) in
    let filename := Names.make_block_chunk_filename chunk_start n in
    (on_block_storage (append compressors append_filename (to_messagepack block) false);;
     (if bool_decide (n = chunk_start) then ret tt
      else on_block_storage (move append_filename filename));;
     (if bool_decide (n mod s = s - 1)
      then on_block_storage (finalize compressors filename)
      else ret tt)) self.

(** The control flow of [persist_block] resolved: what remains are the
    storage calls. *)
Lemma persist_block_locked (block : Block) (self : FileBlockchain) :
  file_lock self = HeldHere ->
  0 < block_chunk_size self ->
  persist_block block self = persist_block_calls block self.
Proof.
  intros Hlock Hsize.
  unfold persist_block, ensure_locked. rewrite Hlock.
  unfold persist_block_calls.
  set (n := block_number block). set (s := block_chunk_size self).
  unfold bind at 1, gets. fold s. unfold bind at 1.
  unfold bind at 1, divmod. rewrite (proj2 (Z.eqb_neq s 0)) by lia.
  unfold ret at 1. cbv beta iota. simpl fst. simpl snd.
  assert (Hle : n / s * s <= n).
  { pose proof (Z.mul_div_le n s Hsize). lia. }
  destruct (Z.eqb_spec (n / s * s) n) as [Heq|Hne].
  - unfold bind at 1, ret at 1. cbv beta iota.
    rewrite (bool_decide_true (n = n / s * s)) by done.
    rewrite bool_decide_false by (intros Hd; by apply Hd).
    destruct (Z.eqb_spec (n mod s) (s - 1)) as [Hm|Hm].
    + by rewrite bool_decide_true.
    + by rewrite bool_decide_false.
  - unfold bind at 1. unfold bind at 1, assert.
    rewrite (proj2 (Z.ltb_lt (n / s * s) n)) by lia.
    unfold ret at 1. cbv beta iota. unfold ret at 1. cbv beta iota.
    rewrite (bool_decide_false (n = n / s * s)) by congruence.
    rewrite bool_decide_true; last first.
    { intros Hname%make_block_chunk_filename_inj_end. lia. }
    destruct (Z.eqb_spec (n mod s) (s - 1)) as [Hm|Hm].
    + by rewrite bool_decide_true.
    + by rewrite bool_decide_false.
Qed.

End BlockStoreFacts.

(** ** The LRU cache *)

Section LRUFacts.
Context {K V : Type} `{EqDecision K}.
Implicit Types (c : LRU.LRUCache K V) (l : list (K * V)).

Lemma assoc_elem k l v : LRU.assoc k l = Some v -> (k, v) ∈ l.
Proof.
  induction l as [|[k' v'] l IH]; simpl; [done|].
  destruct (decide (k' = k)) as [->|Hne].
  - intros [= ->]. apply list_elem_of_here.
  - intros Hl. apply list_elem_of_further. by apply IH.
Qed.

Lemma assoc_None k l : LRU.assoc k l = None -> forall v, (k, v) ∉ l.
Proof.
  induction l as [|[k' v'] l IH]; simpl; intros Hn v Hin.
  - by apply not_elem_of_nil in Hin.
  - destruct (decide (k' = k)) as [->|Hne]; [done|].
    apply elem_of_cons in Hin as [[= ? ?]|Hin]; [congruence|].
    by apply (IH Hn v).
Qed.

Lemma get_items k c :
  forall kv, kv ∈ LRU.items (snd (LRU.get k c)) -> kv ∈ LRU.items c.
Proof.
  intros kv. unfold LRU.get. destruct (LRU.assoc k (LRU.items c)) as [v|] eqn:E; [|done].
  simpl. intros [Hin|Hin]%elem_of_app.
  - unfold LRU.remove in Hin. by apply list_elem_of_filter in Hin as [_ ?].
  - apply list_elem_of_singleton in Hin as ->. by apply assoc_elem.
Qed.

Lemma get_result k c v : fst (LRU.get k c) = Some v -> (k, v) ∈ LRU.items c.
Proof.
  unfold LRU.get. destruct (LRU.assoc k (LRU.items c)) as [v'|] eqn:E; [|done].
  simpl. intros [= ->]. by apply assoc_elem.
Qed.

Lemma get_maxsize k c : LRU.maxsize (snd (LRU.get k c)) = LRU.maxsize c.
Proof. unfold LRU.get. by destruct (LRU.assoc k (LRU.items c)). Qed.

Lemma setitem_items k v c c' :
  LRU.setitem k v c = Ok c' ->
  forall kv, kv ∈ LRU.items c' -> kv = (k, v) \/ kv ∈ LRU.items c.
Proof.
  unfold LRU.setitem. destruct (LRU.maxsize c <? 1); [done|].
  destruct (LRU.assoc k (LRU.items c)); intros [= <-] kv; simpl;
    intros [Hin|Hin]%elem_of_app.
  - right. unfold LRU.remove in Hin. by apply list_elem_of_filter in Hin as [_ ?].
  - left. by apply list_elem_of_singleton in Hin.
  - right. by apply (subseteq_drop _ _ _ Hin).
  - left. by apply list_elem_of_singleton in Hin.
Qed.

Lemma setitem_maxsize k v c c' :
  LRU.setitem k v c = Ok c' -> LRU.maxsize c' = LRU.maxsize c.
Proof.
  unfold LRU.setitem. destruct (LRU.maxsize c <? 1); [done|].
  by destruct (LRU.assoc k (LRU.items c)); intros [= <-].
Qed.

Lemma setitem_ok k v c : 1 <= LRU.maxsize c -> exists c', LRU.setitem k v c = Ok c'.
Proof.
  intros Hm. unfold LRU.setitem. rewrite (proj2 (Z.ltb_ge _ _)) by lia.
  destruct (LRU.assoc k (LRU.items c)); eauto.
Qed.

End LRUFacts.

(** ** Reading leaves the storage as it is *)

Section ReadFacts.
Context `{Pathlib} `{Codecs}.

Lemma _get_absolute_path_state file_path fs :
  snd (_get_absolute_path file_path fs) = fs.
Proof.
  unfold _get_absolute_path. destruct (is_absolute file_path); [done|].
  by destruct (negb _).
Qed.

Lemma is_finalized_state file_path fs : snd (is_finalized file_path fs) = fs.
Proof.
  unfold is_finalized, bind. pose proof (_get_absolute_path_state file_path fs) as Hs.
  destruct (_get_absolute_path file_path fs) as [[p|e] fs']; simpl in Hs; subst fs'.
  - by rewrite _is_finalized_spec.
  - done.
Qed.

Lemma read_file_state path fs : snd (read_file path fs) = fs.
Proof. unfold read_file. by destruct (fs !! path). Qed.

Lemma load_loop_state keys file_path fs : snd (load_loop keys file_path fs) = fs.
Proof.
  induction keys as [|k keys IH]; simpl; [apply read_file_state|].
  unfold read_file at 1. destruct (fs !! _); [done|]. apply IH.
Qed.

Lemma load_state file_path fs : snd (load file_path fs) = fs.
Proof.
  unfold load, bind. pose proof (_get_absolute_path_state file_path fs) as Hs.
  destruct (_get_absolute_path file_path fs) as [[p|e] fs']; simpl in Hs; subst fs'.
  - apply load_loop_state.
  - done.
Qed.

Lemma compressed_sibling_true fs file_path c f :
  fs !! sibling file_path c = Some f -> compressed_sibling fs file_path = true.
Proof.
  intros Hf. apply not_false_iff_true. intros Hnone.
  rewrite compressed_sibling_false in Hnone. specialize (Hnone c). congruence.
Qed.

(** No write permission bit is left by [drop_write_permissions]. *)
Lemma dropped_no_write_bits mode : Z.land (dropped mode) STAT_WRITE_PERMS_ALL = 0.
Proof.
  unfold dropped.
  assert (Hsub : mode - Z.land mode STAT_WRITE_PERMS_ALL =
                 Z.ldiff mode (Z.land mode STAT_WRITE_PERMS_ALL)).
  { apply Z.sub_nocarry_ldiff. apply Z.bits_inj'. intros i Hi.
    rewrite Z.ldiff_spec, Z.land_spec, Z.bits_0.
    by destruct (Z.testbit mode i), (Z.testbit STAT_WRITE_PERMS_ALL i). }
  rewrite Hsub. apply Z.bits_inj'. intros i Hi.
  rewrite Z.land_spec, Z.ldiff_spec, Z.land_spec, Z.bits_0.
  by destruct (Z.testbit mode i), (Z.testbit STAT_WRITE_PERMS_ALL i).
Qed.

Lemma _persist_resolved compressors file_path b mode is_final fs :
  is_absolute file_path = false ->
  is_relative_to_base (resolve file_path) = true ->
  _persist compressors file_path b mode is_final fs =
  (_write_file (resolve file_path) b mode;;
   if is_final then _finalize compressors (resolve file_path) else ret tt) fs.
Proof.
  intros Ha Hr. unfold _persist. unfold bind at 1.
  by rewrite _get_absolute_path_ok.
Qed.

Lemma _persist_unresolved compressors file_path b mode is_final fs :
  is_absolute file_path = true \/ is_relative_to_base (resolve file_path) = false ->
  _persist compressors file_path b mode is_final fs = (Raise ValueError, fs).
Proof.
  intros Hbad. unfold _persist, bind, _get_absolute_path.
  destruct (is_absolute file_path); [done|].
  destruct Hbad as [Hbad|Hbad]; [done|]. by rewrite Hbad.
Qed.

Lemma atomic_write_append_wb file_path b fs :
  atomic_write_append file_path wb b fs =
  (Ok tt, <[file_path := File b TEMP_FILE_MODE]> fs).
Proof. reflexivity. Qed.

(** A [save] with [is_final=True] that returns leaves its target finalized. *)
Lemma save_final_finalized compressors file_path b fs fs' :
  save compressors file_path b true fs = (Ok tt, fs') ->
  _get_absolute_path file_path fs' = (Ok (resolve file_path), fs') /\
  finalized_in fs' (resolve file_path) = true.
Proof.
  unfold save.
  destruct (is_absolute file_path) eqn:Ha;
    [rewrite _persist_unresolved by auto; done|].
  destruct (is_relative_to_base (resolve file_path)) eqn:Hr;
    [|rewrite _persist_unresolved by auto; done].
  rewrite _persist_resolved by done.
  set (p := resolve file_path). intros Hsave.
  split; [by apply _get_absolute_path_ok|]. revert Hsave.
  unfold bind at 1.
  destruct (finalized_in fs p) eqn:Hopen; [by rewrite _write_file_finalized|].
  rewrite _write_file_open by done. rewrite atomic_write_append_wb. cbv beta iota.
  set (fs1 := <[p := File b TEMP_FILE_MODE]> fs).
  assert (Hp1 : fs1 !! p = Some (File b TEMP_FILE_MODE)) by apply lookup_insert_eq.
  assert (Hraw : forall fs2 md, fs2 = <[p := File b md]> fs1 ->
                   Z.land md STAT_WRITE_PERMS_ALL = 0 -> finalized_in fs2 p = true).
  { intros fs2 md -> Hmd. unfold finalized_in, read_only.
    rewrite lookup_insert_eq. simpl. rewrite Hmd. apply orb_true_r. }
  unfold _finalize, bind.
  destruct (decide (compressors = [])) as [Hnil|Hcs].
  { unfold _compress. rewrite Hnil. unfold ret. cbv beta iota.
    rewrite (drop_write_permissions_spec p fs1 _ Hp1). intros [= <-].
    eapply Hraw; [done|]. apply dropped_no_write_bits. }
  destruct (decide (b = [])) as [Hb|Hb].
  { by rewrite (_compress_empty_file compressors p fs1 _ Hp1 Hcs Hb). }
  rewrite (_compress_outcome compressors p fs1 _ Hp1 Hcs Hb). simpl content.
  destruct (pick_spec p b compressors p b) as (_ & _ & Hcase).
  destruct Hcase as [Heq|(c & Hc & Heq & Hlt)]; rewrite Heq; simpl fst; simpl snd.
  - rewrite bool_decide_false by (intros Hne; by apply Hne).
    rewrite (drop_write_permissions_spec p fs1 _ Hp1). intros [= <-].
    eapply Hraw; [done|]. apply dropped_no_write_bits.
  - rewrite bool_decide_true by apply sibling_neq.
    destruct (finalized_in fs1 (sibling p c)); [done|].
    rewrite (drop_write_permissions_spec (sibling p c) _
               (File (COMPRESSION_FUNCTIONS c b) TEMP_FILE_MODE)); last first.
    { rewrite lookup_delete_ne by (apply not_eq_sym, sibling_neq).
      apply lookup_insert_eq. }
    intros [= <-]. unfold finalized_in.
    erewrite compressed_sibling_true; [done|]. apply lookup_insert_eq.
Qed.

End ReadFacts.

(** ** The blockchain state store *)

Section StateStoreFacts.
Context `{Codecs} `{BlockModel} `{BlockchainStateModel}.

#[local] Existing Instance path_optimized.

(** The blockchain state [st] is what the finalized file at [file_path]
    decodes to. *)
Definition originates_from_finalized_file (fs : filesystem) (file_path : string)
    (st : BlockchainState) : Prop :=
  fst (is_finalized file_path fs) = Ok true /\
  exists data, fst (load file_path fs) = Ok data /\
               state_from_messagepack data = Ok st.

(** Every cached blockchain state was loaded from a finalized file of the
    storage. *)
Definition states_cache_sound (self : FileBlockchain) : Prop :=
  forall file_path st,
    (file_path, st) ∈ LRU.items (blockchain_states_cache self) ->
    originates_from_finalized_file (blockchain_states_storage self) file_path st.

Lemma set_blockchain_states_storage_id (self : FileBlockchain) :
  set_blockchain_states_storage (blockchain_states_storage self) self = self.
Proof. by destruct self. Qed.

Lemma on_blockchain_states_storage_read {A} (m : M filesystem A) (self : FileBlockchain) :
  snd (m (blockchain_states_storage self)) = blockchain_states_storage self ->
  on_blockchain_states_storage m self = (fst (m (blockchain_states_storage self)), self).
Proof.
  intros Hs. unfold on_blockchain_states_storage.
  destruct (m (blockchain_states_storage self)) as [r fs]. simpl in *. subst fs.
  by rewrite set_blockchain_states_storage_id.
Qed.

Lemma _load_blockchain_states_spec file_path (self : FileBlockchain) r self' :
  _load_blockchain_states file_path self = (r, self') ->
  blockchain_states_storage self' = blockchain_states_storage self /\
  (states_cache_sound self -> states_cache_sound self') /\
  (forall st, r = Ok st -> states_cache_sound self ->
     originates_from_finalized_file (blockchain_states_storage self) file_path st) /\
  (LRU.assoc file_path (LRU.items (blockchain_states_cache self)) = None ->
   fst (is_finalized file_path (blockchain_states_storage self)) = Ok false ->
   r = Raise AssertionError).
Proof.
  unfold _load_blockchain_states. unfold bind at 1, gets.
  pose proof (get_items file_path (blockchain_states_cache self)) as Hitems.
  pose proof (get_result file_path (blockchain_states_cache self)) as Hres.
  assert (Hmiss : LRU.assoc file_path (LRU.items (blockchain_states_cache self)) = None ->
                  LRU.get file_path (blockchain_states_cache self) =
                  (None, blockchain_states_cache self)).
  { intros Hn. unfold LRU.get. by rewrite Hn. }
  destruct (LRU.get file_path (blockchain_states_cache self)) as [hit cache1].
  simpl in Hitems, Hres. unfold bind at 1, modify.
  set (self1 := set_blockchain_states_cache cache1 self).
  assert (Hsound1 : states_cache_sound self -> states_cache_sound self1).
  { intros Hs p st Hin. apply Hs. by apply Hitems. }
  destruct hit as [st0|].
  { (* the cache has the state *)
    unfold ret. intros [= <- <-]. split; [done|]. split; [done|]. split.
    - intros st [= <-] Hs. apply Hs. by apply Hres.
    - intros Hn. specialize (Hmiss Hn). congruence. }
  unfold bind at 1.
  rewrite on_blockchain_states_storage_read by apply is_finalized_state.
  change (blockchain_states_storage self1) with (blockchain_states_storage self).
  destruct (fst (is_finalized file_path (blockchain_states_storage self)))
    as [finalized|e] eqn:Efin.
  2:{ intros [= <- <-]. split; [done|]. split; [done|]. split; [done|]. done. }
  unfold bind at 1, assert. destruct finalized.
  2:{ unfold raise. intros [= <- <-]. split; [done|]. split; [done|]. split; done. }
  unfold ret at 1. cbv beta iota. unfold bind at 1.
  rewrite on_blockchain_states_storage_read by apply load_state.
  change (blockchain_states_storage self1) with (blockchain_states_storage self).
  destruct (fst (load file_path (blockchain_states_storage self))) as [data|e] eqn:Eload.
  2:{ intros [= <- <-]. split; [done|]. split; [done|]. split; done. }
  unfold bind at 1, lift.
  destruct (state_from_messagepack data) as [st|e] eqn:Edec.
  2:{ intros [= <- <-]. split; [done|]. split; [done|]. split; done. }
  unfold bind at 1, gets. unfold bind at 1.
  change (blockchain_states_cache self1) with cache1.
  destruct (LRU.setitem file_path st cache1) as [cache2|e] eqn:Eset.
  2:{ intros [= <- <-]. split; [done|]. split; [done|]. split; done. }
  unfold bind, modify, ret. intros [= <- <-].
  assert (Horig : originates_from_finalized_file (blockchain_states_storage self)
                    file_path st).
  { split; [done|]. by exists data. }
  split; [done|]. split; [|split].
  - intros Hs p st' Hin. simpl in Hin.
    apply (setitem_items _ _ _ _ Eset) in Hin as [[= -> ->]|Hin]; [done|].
    apply Hs. by apply Hitems.
  - by intros st' [= <-] _.
  - done.
Qed.

(** The loop of [_yield_blockchain_states]: the storage stays as it is, the
    cache stays sound, and every state yielded originates from a finalized
    file. *)
Lemma yield_blockchain_states_loop paths (self : FileBlockchain) :
  states_cache_sound self ->
  let run := gen_for paths (fun file_path =>
               gen_call (_load_blockchain_states file_path) gen_yield) self in
  Forall (fun y => exists file_path, file_path ∈ paths /\
            originates_from_finalized_file (blockchain_states_storage self)
              file_path (fst y)) (fst run).
Proof.
  revert self. induction paths as [|p paths IH]; intros self Hs; simpl; [constructor|].
  unfold gen_app, gen_call.
  destruct (_load_blockchain_states p self) as [r self1] eqn:El.
  destruct (_load_blockchain_states_spec p self r self1 El) as (Hfs & Hs1 & Hr & _).
  destruct r as [st|e]; [|constructor].
  unfold gen_yield. specialize (IH self1 (Hs1 Hs)). simpl in IH.
  destruct (gen_for paths _ self1) as [ys2 end2]. simpl in IH |- *.
  constructor.
  - exists p. split; [apply list_elem_of_here|]. by apply Hr.
  - eapply Forall_impl; [exact IH|]. intros y (q & Hq & Ho).
    exists q. split; [by apply list_elem_of_further|]. by rewrite <- Hfs.
Qed.

(** C9: [persist_blockchain_state] saves with [is_final=True] and, when it
    returns, leaves the file of the state finalized; on a cache miss
    [_load_blockchain_states] raises [AssertionError] instead of decoding a
    file that is not finalized; hence, from a cache whose states were loaded
    from finalized files, every state that [yield_blockchain_states] or
    [yield_blockchain_states_reversed] returns originates from a file that is
    finalized, on which every write raises [FinalizedFileWriteError]. *)
Theorem C9_blockchain_states_from_finalized_files
    (self self' : FileBlockchain) (g : Gen FileBlockchain BlockchainState)
    (states : list BlockchainState)
    (Hg : g = yield_blockchain_states \/ g = yield_blockchain_states_reversed)
    (Hcache : states_cache_sound self)
    (Hrun : to_list g self = (Ok states, self')) :
  (forall st, st ∈ states ->
     exists file_path,
       originates_from_finalized_file (blockchain_states_storage self) file_path st /\
       forall data mode is_final,
         _persist (states_compressors self) file_path data mode is_final
           (blockchain_states_storage self) =
         (Raise FinalizedFileWriteError, blockchain_states_storage self)) /\
  (forall st (s1 s2 : FileBlockchain),
     persist_blockchain_state st s1 = (Ok tt, s2) ->
     persist_blockchain_state st s1 =
       ensure_locked (on_blockchain_states_storage
         (save (states_compressors s1)
            (Names.make_blockchain_state_filename (last_block_number st))
            (state_to_messagepack st) true)) s1 /\
     fst (is_finalized (Names.make_blockchain_state_filename (last_block_number st))
            (blockchain_states_storage s2)) = Ok true) /\
  (forall file_path (s1 : FileBlockchain),
     LRU.assoc file_path (LRU.items (blockchain_states_cache s1)) = None ->
     fst (is_finalized file_path (blockchain_states_storage s1)) = Ok false ->
     fst (_load_blockchain_states file_path s1) = Raise AssertionError).
Proof.
  split; [|split].
  - assert (Hd : exists d, g = _yield_blockchain_states d)
      by (destruct Hg as [->| ->]; eauto).
    destruct Hd as [d ->]. clear Hg.
    intros st Hst. revert Hrun.
    unfold to_list, _yield_blockchain_states, gen_call at 1, assert.
    destruct (is_direction d); [|done]. unfold ret at 1. cbv beta iota.
    unfold gen_call at 1.
    assert (Hlist : snd (list_directory d (blockchain_states_storage self)) =
                    blockchain_states_storage self) by done.
    rewrite (on_blockchain_states_storage_read _ _ Hlist). cbv beta iota.
    unfold list_directory, gets. simpl fst. cbv beta iota.
    match goal with |- context [gen_for ?ps _ self] =>
      pose proof (yield_blockchain_states_loop ps self Hcache) as Hloop end.
    cbv zeta in Hloop.
    match goal with |- context [gen_for ?ps ?body self] =>
      destruct (gen_for ps body self) as [ys [[e|] s']] end; [done|].
    intros [= <- <-]. simpl in Hloop.
    apply list_elem_of_fmap in Hst as (y & -> & Hy).
    rewrite Forall_forall in Hloop. destruct (Hloop y Hy) as (p & _ & Ho).
    exists p. split; [done|]. intros data mode is_final.
    apply _persist_finalized. apply Ho.
  - intros st s1 s2 Hp. unfold persist_blockchain_state in *. split.
    + unfold ensure_locked. destruct (file_lock s1); done.
    + revert Hp. unfold ensure_locked. destruct (file_lock s1); [done| |done].
      unfold bind, gets, on_blockchain_states_storage.
      destruct (save _ _ _ _ _) as [[[]|e] fs'] eqn:Es; [|done].
      intros [= <-].
      change (blockchain_states_storage (set_blockchain_states_storage fs' s1)) with fs'.
      apply save_final_finalized in Es as [Habs Hfin].
      unfold is_finalized, bind. rewrite Habs. cbv beta iota.
      rewrite _is_finalized_spec. cbv beta iota delta [fst]. by rewrite Hfin.
  - intros file_path s1 Hmiss Hnf.
    destruct (_load_blockchain_states file_path s1) as [r s2] eqn:El.
    destruct (_load_blockchain_states_spec file_path s1 r s2 El) as (_ & _ & _ & Hr).
    simpl. by apply Hr.
Qed.

End StateStoreFacts.

Section StateStoreWitness.

#[local] Existing Instance Demo.codecs.
#[local] Existing Instance Demo.block_model.
#[local] Existing Instance Demo.state_model.
#[local] Existing Instance path_optimized.

Lemma C9_blockchain_states_from_finalized_files_witness :
  let self := Demo.one_state in
  (forall st : BlockchainState, st ∈ [Demo.state_5] ->
     exists file_path,
       originates_from_finalized_file (blockchain_states_storage self) file_path st /\
       forall data mode is_final,
         _persist (states_compressors self) file_path data mode
           is_final (blockchain_states_storage self) =
         (Raise FinalizedFileWriteError, blockchain_states_storage self)) /\
  (forall (st : BlockchainState) (s1 s2 : Demo.blockchain),
     persist_blockchain_state st s1 = (Ok tt, s2) ->
     persist_blockchain_state st s1 =
       ensure_locked (on_blockchain_states_storage
         (save (states_compressors s1)
            (Names.make_blockchain_state_filename (last_block_number st))
            (state_to_messagepack st) true)) s1 /\
     fst (is_finalized
            (Names.make_blockchain_state_filename (last_block_number st))
            (blockchain_states_storage s2)) = Ok true) /\
  (forall file_path (s1 : Demo.blockchain),
     LRU.assoc file_path (LRU.items (blockchain_states_cache s1)) = None ->
     fst (is_finalized file_path (blockchain_states_storage s1)) = Ok false ->
     fst (_load_blockchain_states file_path s1) = Raise AssertionError).
Proof.
  apply (C9_blockchain_states_from_finalized_files
           Demo.one_state
           (snd (to_list yield_blockchain_states Demo.one_state))
           yield_blockchain_states
           [Demo.state_5]).
  - left. reflexivity.
  - intros file_path st Hin. vm_compute in Hin. by apply not_elem_of_nil in Hin.
  - vm_compute. reflexivity.
Defined.

End StateStoreWitness.

(** ** Reading blocks *)

Section BlockReadFacts.
Context `{Codecs} `{BlockModel} `{BlockchainStateModel}.

#[local] Existing Instance path_optimized.

(** The blocks of the chain, the block numbered [i] at position [i]. *)
Variable chain : list Block.
Hypothesis chain_numbered :
  forall i b, chain !! i = Some b -> block_number b = Z.of_nat i.

(** The block of the chain with a given number. *)
Definition stored (n : Z) : option Block :=
  if bool_decide (0 <= n) then chain !! Z.to_nat n else None.

Definition blocks_of (numbers : list Z) : list Block := omap stored numbers.

(** The blocks numbered [first] to [last]. *)
Definition chain_slice (first last : Z) : list Block :=
  blocks_of (seqZ first (last - first + 1)).

(** Every cached block is the block of the chain with that number. *)
Definition blocks_cache_sound (self : FileBlockchain) : Prop :=
  forall n b, (n, b) ∈ LRU.items (blocks_cache self) -> stored n = Some b.

Definition readable (self : FileBlockchain) : Prop :=
  blocks_cache_sound self /\ 1 <= LRU.maxsize (blocks_cache self).

(** Reading changes the blocks cache only, and not its capacity. *)
Definition same_store (self self' : FileBlockchain) : Prop :=
  block_storage self' = block_storage self /\
  LRU.maxsize (blocks_cache self') = LRU.maxsize (blocks_cache self).

Lemma same_store_refl self : same_store self self.
Proof. done. Qed.

Lemma same_store_trans s1 s2 s3 : same_store s1 s2 -> same_store s2 s3 -> same_store s1 s3.
Proof. intros [? ?] [? ?]. split; congruence. Qed.

Lemma stored_number n b : stored n = Some b -> block_number b = n.
Proof.
  unfold stored. case_bool_decide as Hn; [|done].
  intros Hb%chain_numbered. lia.
Qed.

Lemma stored_Some n : 0 <= n < Z.of_nat (length chain) -> is_Some (stored n).
Proof.
  intros Hn. unfold stored. rewrite bool_decide_true by lia.
  apply lookup_lt_is_Some. lia.
Qed.

Lemma set_block_storage_id (self : FileBlockchain) :
  set_block_storage (block_storage self) self = self.
Proof. by destruct self. Qed.

Lemma on_block_storage_read {A} (m : M filesystem A) (self : FileBlockchain) :
  snd (m (block_storage self)) = block_storage self ->
  on_block_storage m self = (fst (m (block_storage self)), self).
Proof.
  intros Hs. unfold on_block_storage.
  destruct (m (block_storage self)) as [r fs]. simpl in *. subst fs.
  by rewrite set_block_storage_id.
Qed.

(** The cache generator yields the blocks of a prefix of the numbers. *)
Lemma _yield_blocks_from_cache_loop_spec iter_ self :
  blocks_cache_sound self ->
  exists k ys self',
    _yield_blocks_from_cache_loop iter_ self = (ys, (None, self')) /\
    Forall2 (fun y n => stored n = Some (fst y)) ys (take k iter_) /\
    same_store self self' /\ blocks_cache_sound self'.
Proof.
  revert self. induction iter_ as [|n iter_ IH]; intros self Hs.
  - exists 0%nat, [], self. by repeat split.
  - simpl.
    pose proof (get_items n (blocks_cache self)) as Hitems.
    pose proof (get_result n (blocks_cache self)) as Hres.
    pose proof (get_maxsize n (blocks_cache self)) as Hmax.
    destruct (LRU.get n (blocks_cache self)) as [hit cache1]. simpl in *.
    set (self1 := set_blocks_cache cache1 self).
    assert (Hs1 : blocks_cache_sound self1).
    { intros m b Hin. apply Hs. by apply Hitems. }
    assert (Hsame1 : same_store self self1) by done.
    destruct hit as [b|].
    + destruct (IH self1 Hs1) as (k & ys & self' & Hrun & Hys & Hsame & Hs').
      exists (S k), ((b, self1) :: ys), self'.
      unfold gen_app, gen_yield. rewrite Hrun. split; [done|]. split.
      * simpl. constructor; [|done]. simpl. apply Hs. by apply Hres.
      * split; [|done]. by eapply same_store_trans.
    + exists 0%nat, [], self1. by repeat split.
Qed.

(** When the cached blocks are those of the numbers [next], [next + direction],
    ... no assertion of [_yield_blocks_from_file_cached] fails. *)
Lemma check_cached_progression cached numbers next direction :
  Forall2 (fun y n => stored n = Some (fst y)) cached numbers ->
  (forall i n, numbers !! i = Some n -> n = next + Z.of_nat i * direction) ->
  check_cached cached next direction =
  (cached, None, next + Z.of_nat (length cached) * direction).
Proof.
  intros Hall. revert next.
  induction Hall as [|[b s] n cached numbers Hb Hall IH]; intros next Hprog.
  - simpl. f_equal. lia.
  - simpl in Hb. simpl check_cached.
    pose proof (Hprog 0%nat n eq_refl) as Hn.
    rewrite (stored_number n b Hb).
    rewrite (proj2 (Z.eqb_eq next n)) by lia.
    rewrite (IH (next + direction)).
    + f_equal. simpl length. lia.
    + intros i m Hm. rewrite (Hprog (S i) m Hm). lia.
Qed.

(** The condition under which the loop of [_yield_blocks_from_file] skips a
    block. *)
Definition skipped (direction : Z) (start : option Z) (b : Block) : bool :=
  match start with
  | Some start =>
      ((direction =? 1) && (block_number b <? start)) ||
      ((direction =? -1) && (start <? block_number b))
  | None => false
  end.

Lemma _yield_blocks_from_file_loop_spec blocks direction start self :
  (forall b, b ∈ blocks -> stored (block_number b) = Some b) ->
  readable self ->
  exists ys self',
    _yield_blocks_from_file_loop blocks direction start self = (ys, (None, self')) /\
    fst <$> ys = filter (fun b => skipped direction start b = false) blocks /\
    same_store self self' /\ readable self'.
Proof.
  revert self. induction blocks as [|b blocks IH]; intros self Hbs Hr.
  - exists [], self. split; [done|]. split; [done|]. split; [apply same_store_refl|done].
  - simpl. rewrite filter_cons. fold (skipped direction start b).
    assert (Hbs' : forall b', b' ∈ blocks -> stored (block_number b') = Some b').
    { intros b' Hin. apply Hbs. by apply list_elem_of_further. }
    destruct (skipped direction start b) eqn:Eskip.
    + rewrite decide_False by done. by apply IH.
    + rewrite decide_True by done.
      destruct Hr as [Hs Hmax].
      destruct (setitem_ok (block_number b) b (blocks_cache self) Hmax) as [cache1 Eset].
      unfold gen_call, bind, gets, lift. rewrite Eset. unfold modify.
      set (self1 := set_blocks_cache cache1 self).
      assert (Hr1 : readable self1).
      { split.
        - intros n b' Hin. simpl in Hin.
          apply (setitem_items _ _ _ _ Eset) in Hin as [[= -> ->]|Hin].
          + apply Hbs, list_elem_of_here.
          + by apply Hs.
        - simpl. by rewrite (setitem_maxsize _ _ _ _ Eset). }
      assert (Hsame1 : same_store self self1).
      { split; [done|]. simpl. by rewrite (setitem_maxsize _ _ _ _ Eset). }
      destruct (IH self1 Hbs' Hr1) as (ys & self' & Hrun & Hys & Hsame & Hr').
      exists ((b, self1) :: ys), self'.
      unfold gen_app, gen_yield. rewrite Hrun. split; [done|]. split.
      * by rewrite fmap_cons, Hys.
      * split; [|done]. by eapply same_store_trans.
Qed.

Lemma take_seqZ k a n :
  take k (seqZ a n) = seqZ a (Z.of_nat (min k (Z.to_nat n))).
Proof. unfold seqZ. by rewrite <- fmap_take, take_seq, Nat2Z.id. Qed.

Lemma blocks_of_app l1 l2 : blocks_of (l1 ++ l2) = blocks_of l1 ++ blocks_of l2.
Proof. apply omap_app. Qed.

Lemma blocks_of_reverse l : blocks_of (reverse l) = reverse (blocks_of l).
Proof.
  induction l as [|n l IH]; [done|].
  rewrite reverse_cons, blocks_of_app, IH. unfold blocks_of at 2 3. simpl.
  destruct (stored n); simpl.
  - by rewrite reverse_cons.
  - by rewrite app_nil_r.
Qed.

Lemma blocks_of_yielded {S} (ys : list (Block * S)) numbers :
  Forall2 (fun y n => stored n = Some (fst y)) ys numbers ->
  fst <$> ys = blocks_of numbers.
Proof.
  induction 1 as [|y n ys numbers Hy _ IH]; [done|].
  rewrite fmap_cons, IH. unfold blocks_of. simpl. by rewrite Hy.
Qed.

Lemma blocks_of_stored numbers b :
  b ∈ blocks_of numbers -> stored (block_number b) = Some b.
Proof.
  unfold blocks_of. intros (n & _ & Hn)%list_elem_of_omap.
  by rewrite (stored_number n b Hn).
Qed.

Lemma blocks_of_cons n numbers :
  blocks_of (n :: numbers) =
  match stored n with
  | Some b => b :: blocks_of numbers
  | None => blocks_of numbers
  end.
Proof. reflexivity. Qed.

Lemma blocks_of_filter (P : Z -> Prop) `{forall n, Decision (P n)} numbers :
  filter (fun b => P (block_number b)) (blocks_of numbers) = blocks_of (filter P numbers).
Proof.
  induction numbers as [|n numbers IH]; [done|].
  rewrite (filter_cons P), blocks_of_cons.
  destruct (stored n) as [b|] eqn:Eb.
  - rewrite filter_cons, (stored_number n b Eb).
    destruct (decide (P n)); [|done]. by rewrite blocks_of_cons, Eb, IH.
  - destruct (decide (P n)); [|done]. by rewrite blocks_of_cons, Eb.
Qed.

Lemma filter_all {A} (P : A -> Prop) `{forall x, Decision (P x)} (l : list A) :
  Forall P l -> filter P l = l.
Proof.
  induction 1 as [|x l Hx _ IH]; [done|].
  by rewrite filter_cons, decide_True, IH.
Qed.

Lemma filter_none {A} (P : A -> Prop) `{forall x, Decision (P x)} (l : list A) :
  Forall (fun x => ~ P x) l -> filter P l = [].
Proof.
  induction 1 as [|x l Hx _ IH]; [done|].
  by rewrite filter_cons, decide_False.
Qed.

Lemma filter_seqZ_ge s len st :
  0 <= len -> s <= st <= s + len ->
  filter (fun n => st <= n) (seqZ s len) = seqZ st (s + len - st).
Proof.
  intros Hlen Hst.
  replace len with ((st - s) + (s + len - st)) at 1 by lia.
  rewrite seqZ_app by lia. rewrite filter_app.
  replace (s + (st - s)) with st by lia.
  rewrite filter_none, filter_all; [done| |].
  - apply Forall_seqZ. intros. lia.
  - apply Forall_seqZ. intros. lia.
Qed.

Lemma filter_seqZ_le s len st :
  0 <= len -> s - 1 <= st <= s + len - 1 ->
  filter (fun n => n <= st) (seqZ s len) = seqZ s (st - s + 1).
Proof.
  intros Hlen Hst.
  replace len with ((st - s + 1) + (s + len - 1 - st)) at 1 by lia.
  rewrite seqZ_app by lia. rewrite filter_app.
  rewrite filter_all, filter_none.
  - by rewrite app_nil_r.
  - apply Forall_seqZ. intros. lia.
  - apply Forall_seqZ. intros. lia.
Qed.

Lemma _yield_blocks_from_file_spec file_path direction start self data blocks :
  is_direction direction = true ->
  fst (load file_path (block_storage self)) = Ok data ->
  unpack_blocks data = (blocks, None) ->
  (forall b, b ∈ blocks -> stored (block_number b) = Some b) ->
  readable self ->
  exists ys self',
    _yield_blocks_from_file file_path direction start self = (ys, (None, self')) /\
    fst <$> ys = filter (fun b => skipped direction start b = false)
                   (if direction =? -1 then reverse blocks else blocks) /\
    same_store self self' /\ readable self'.
Proof.
  intros Hdir Hload Hunpack Hbs Hr.
  unfold _yield_blocks_from_file, gen_call at 1, assert. rewrite Hdir.
  unfold ret at 1. cbv beta iota. unfold gen_call.
  rewrite on_block_storage_read by apply load_state. rewrite Hload, Hunpack.
  destruct (direction =? -1).
  - apply _yield_blocks_from_file_loop_spec; [|done].
    intros b Hb. apply Hbs. by apply elem_of_reverse.
  - destruct (_yield_blocks_from_file_loop_spec blocks direction start self Hbs Hr)
      as (ys & self' & Hrun & Hys & Hsame & Hr').
    exists ys, self'. unfold gen_app. rewrite Hrun. unfold gen_return.
    by rewrite app_nil_r.
Qed.

(** A chunk file named [(s, e)] that holds the blocks of the chain numbered
    [s] to [e]. *)
Definition file_holds (fs : filesystem) (file_path : string) (s e : Z) : Prop :=
  (exists c, get_block_chunk_file_path_meta file_path =
             Ok (Some {| start := s; end_ := e; compression := c |})) /\
  s <= e /\
  exists data, fst (load file_path fs) = Ok data /\
               unpack_blocks data = (chain_slice s e, None).

Lemma chain_slice_app a m e :
  a <= m -> m <= e + 1 -> chain_slice a (m - 1) ++ chain_slice m e = chain_slice a e.
Proof.
  intros Ham Hme. unfold chain_slice. rewrite <- blocks_of_app.
  replace (e - a + 1) with ((m - 1 - a + 1) + (e - m + 1)) by lia.
  rewrite (seqZ_app a (m - 1 - a + 1) (e - m + 1)) by lia.
  by replace (a + (m - 1 - a + 1)) with m by lia.
Qed.

(** Forwards, from block number [a] of the file. *)
Lemma _yield_blocks_from_file_cached_forward file_path s e a start self :
  file_holds (block_storage self) file_path s e ->
  (start = None /\ a = s) \/ start = Some a ->
  s <= a <= e ->
  readable self ->
  exists ys self',
    _yield_blocks_from_file_cached file_path 1 start self = (ys, (None, self')) /\
    fst <$> ys = chain_slice a e /\
    same_store self self' /\ readable self'.
Proof.
  intros ([c Hmeta] & Hse & data & Hload & Hunpack) Hstart Ha [Hs Hmax].
  unfold _yield_blocks_from_file_cached, gen_call at 1, assert.
  change (is_direction 1) with true. unfold ret at 1. cbv beta iota.
  unfold gen_call at 1, lift. rewrite Hmeta. cbv beta iota zeta.
  change (1 =? 1) with true. cbv beta iota.
  assert (Hcs : match start with Some start0 => start0 | None => s end = a).
  { by destruct Hstart as [[-> ->]| ->]. }
  cbv beta iota delta [FileBlockchain.start end_]. rewrite Hcs.
  unfold _yield_blocks_from_cache, gen_call, assert.
  change (is_direction 1) with true. unfold ret at 1. cbv beta iota.
  change (1 =? -1) with false. cbv beta iota.
  destruct (_yield_blocks_from_cache_loop_spec (seqZ a (e + 1 - a)) self Hs)
    as (k & ys1 & self1 & Hrun1 & Hys1 & Hsame1 & Hs1).
  rewrite Hrun1.
  rewrite take_seqZ in Hys1.
  set (k' := min k (Z.to_nat (e + 1 - a))) in *.
  assert (Hlen1 : length ys1 = k').
  { rewrite (Forall2_length _ _ _ Hys1), length_seqZ. lia. }
  rewrite (check_cached_progression ys1 (seqZ a (Z.of_nat k')) a 1 Hys1); last first.
  { intros i n [-> _]%lookup_seqZ. lia. }
  rewrite Hlen1. cbv beta iota.
  assert (Hfst1 : fst <$> ys1 = chain_slice a (a + Z.of_nat k' - 1)).
  { rewrite (blocks_of_yielded _ _ Hys1). unfold chain_slice. do 2 f_equal. lia. }
  assert (Hk' : Z.of_nat k' <= e + 1 - a) by lia.
  rewrite (proj2 (Z.leb_le s (a + Z.of_nat k' * 1))) by lia. simpl andb.
  destruct (Z.leb_spec (a + Z.of_nat k' * 1) e) as [Hmore|Hdone].
  - assert (Hr1 : readable self1).
    { split; [done|]. destruct Hsame1 as [_ ->]. done. }
    assert (Hload1 : fst (load file_path (block_storage self1)) = Ok data).
    { destruct Hsame1 as [-> _]. done. }
    destruct (_yield_blocks_from_file_spec file_path 1 (Some (a + Z.of_nat k' * 1))
                self1 data (chain_slice s e) eq_refl Hload1 Hunpack
                (blocks_of_stored _) Hr1)
      as (ys2 & self2 & Hrun2 & Hys2 & Hsame2 & Hr2).
    rewrite Hrun2. exists (ys1 ++ ys2), self2. split; [done|]. split.
    + rewrite fmap_app, Hfst1, Hys2. change (1 =? -1) with false. cbv iota.
      rewrite <- (chain_slice_app a (a + Z.of_nat k') e) by lia.
      f_equal. unfold chain_slice.
      replace (e - (a + Z.of_nat k') + 1)
        with (s + (e - s + 1) - (a + Z.of_nat k')) by lia.
      rewrite <- (filter_seqZ_ge s (e - s + 1) (a + Z.of_nat k')) by lia.
      rewrite <- blocks_of_filter. apply list_filter_iff. intros b.
      unfold skipped. change (1 =? 1) with true. change (1 =? -1) with false.
      rewrite andb_true_l, andb_false_l, orb_false_r.
      rewrite Z.ltb_ge. lia.
    + split; [by eapply same_store_trans|done].
  - exists ys1, self1. split; [done|]. split.
    + rewrite Hfst1. f_equal. lia.
    + split; [done|]. split; [done|]. destruct Hsame1 as [_ ->]. done.
Qed.

(** Backwards, from block number [z] of the file. *)
Lemma _yield_blocks_from_file_cached_backward file_path s e z start self :
  file_holds (block_storage self) file_path s e ->
  (start = None /\ z = e) \/ start = Some z ->
  s <= z <= e ->
  readable self ->
  exists ys self',
    _yield_blocks_from_file_cached file_path (-1) start self = (ys, (None, self')) /\
    fst <$> ys = reverse (chain_slice s z) /\
    same_store self self' /\ readable self'.
Proof.
  intros ([c Hmeta] & Hse & data & Hload & Hunpack) Hstart Hz [Hs Hmax].
  unfold _yield_blocks_from_file_cached, gen_call at 1, assert.
  change (is_direction (-1)) with true. unfold ret at 1. cbv beta iota.
  unfold gen_call at 1, lift. rewrite Hmeta. cbv beta iota zeta.
  change (-1 =? 1) with false. cbv beta iota.
  assert (Hce : match start with Some start0 => start0 | None => e end = z).
  { by destruct Hstart as [[-> ->]| ->]. }
  cbv beta iota delta [FileBlockchain.start end_]. rewrite Hce.
  unfold _yield_blocks_from_cache, gen_call, assert.
  change (is_direction (-1)) with true. unfold ret at 1. cbv beta iota.
  change (-1 =? -1) with true. cbv beta iota.
  set (numbers := seqZ s (z + 1 - s)).
  assert (Hlen : length numbers = Z.to_nat (z + 1 - s)) by apply length_seqZ.
  destruct (_yield_blocks_from_cache_loop_spec (reverse numbers) self Hs)
    as (k & ys1 & self1 & Hrun1 & Hys1 & Hsame1 & Hs1).
  rewrite Hrun1.
  set (k' := length ys1).
  assert (Hk' : k' = min k (length numbers)).
  { unfold k'. by rewrite (Forall2_length _ _ _ Hys1), length_take, length_reverse. }
  rewrite (check_cached_progression ys1 (take k (reverse numbers)) z (-1) Hys1); last first.
  { intros i n [Hn _]%lookup_take_Some.
    apply reverse_lookup_Some in Hn as [Hn Hi].
    apply lookup_seqZ in Hn as [-> _]. lia. }
  fold k'. cbv beta iota.
  assert (Hslice : reverse (chain_slice s z) = blocks_of (reverse numbers)).
  { rewrite blocks_of_reverse. unfold chain_slice, numbers. do 3 f_equal. lia. }
  assert (Hsplit : blocks_of (reverse numbers) =
                   (fst <$> ys1) ++ blocks_of (drop k (reverse numbers))).
  { rewrite (blocks_of_yielded _ _ Hys1), <- blocks_of_app. by rewrite take_drop. }
  rewrite (proj2 (Z.leb_le (z + Z.of_nat k' * -1) e)) by lia. rewrite andb_true_r.
  destruct (Z.leb_spec s (z + Z.of_nat k' * -1)) as [Hmore|Hdone].
  - assert (Hr1 : readable self1).
    { split; [done|]. destruct Hsame1 as [_ ->]. done. }
    assert (Hload1 : fst (load file_path (block_storage self1)) = Ok data).
    { destruct Hsame1 as [-> _]. done. }
    destruct (_yield_blocks_from_file_spec file_path (-1)
                (Some (z + Z.of_nat k' * -1))
                self1 data (chain_slice s e) eq_refl Hload1 Hunpack
                (blocks_of_stored _) Hr1)
      as (ys2 & self2 & Hrun2 & Hys2 & Hsame2 & Hr2).
    rewrite Hrun2. exists (ys1 ++ ys2), self2. split; [done|]. split.
    + rewrite fmap_app, Hslice, Hsplit. f_equal. rewrite Hys2.
      change (-1 =? -1) with true. cbv iota.
      rewrite drop_reverse, filter_reverse, blocks_of_reverse. f_equal.
      unfold numbers. rewrite take_seqZ.
      replace (Z.of_nat (min (length (seqZ s (z + 1 - s)) - k) (Z.to_nat (z + 1 - s))))
        with (z + Z.of_nat k' * -1 - s + 1) by (rewrite length_seqZ; lia).
      rewrite <- (filter_seqZ_le s (e - s + 1) (z + Z.of_nat k' * -1)) by lia.
      unfold chain_slice. rewrite <- blocks_of_filter. apply list_filter_iff. intros b.
      unfold skipped. change (-1 =? 1) with false. change (-1 =? -1) with true.
      rewrite andb_true_l, andb_false_l, orb_false_l.
      rewrite Z.ltb_ge. lia.
    + split; [by eapply same_store_trans|done].
  - exists ys1, self1. split; [done|]. split.
    + rewrite Hslice, Hsplit. rewrite drop_ge; [by rewrite app_nil_r|].
      rewrite length_reverse. lia.
    + split; [done|]. split; [done|]. destruct Hsame1 as [_ ->]. done.
Qed.

(** The blocks that the name of a chunk file announces. *)
Definition chunk_of (file_path : string) : list Block :=
  match get_block_chunk_file_path_meta file_path with
  | Ok (Some meta) => chain_slice (FileBlockchain.start meta) (end_ meta)
  | _ => []
  end.

Lemma chunk_of_holds fs file_path s e :
  file_holds fs file_path s e -> chunk_of file_path = chain_slice s e.
Proof. intros ([c Hmeta] & _). unfold chunk_of. by rewrite Hmeta. Qed.

Lemma yield_blocks_paths direction paths self :
  direction = 1 \/ direction = -1 ->
  (forall p, p ∈ paths -> exists s e, file_holds (block_storage self) p s e) ->
  readable self ->
  exists ys self',
    gen_for paths (fun file_path =>
      _yield_blocks_from_file_cached file_path direction None) self =
    (ys, (None, self')) /\
    fst <$> ys =
      concat ((fun p => if direction =? 1 then chunk_of p else reverse (chunk_of p))
              <$> paths) /\
    same_store self self' /\ readable self'.
Proof.
  intros Hdir. revert self. induction paths as [|p paths IH]; intros self Hfiles Hr.
  - exists [], self. split; [done|]. split; [done|]. split; [apply same_store_refl|done].
  - destruct (Hfiles p (list_elem_of_here _ _)) as (s & e & Hp).
    assert (Hse : s <= e) by apply Hp.
    assert (Hone : exists ys1 self1,
              _yield_blocks_from_file_cached p direction None self = (ys1, (None, self1)) /\
              fst <$> ys1 = (if direction =? 1 then chunk_of p else reverse (chunk_of p)) /\
              same_store self self1 /\ readable self1).
    { rewrite (chunk_of_holds _ _ _ _ Hp). destruct Hdir as [-> | ->].
      - apply (_yield_blocks_from_file_cached_forward p s e s None self Hp); auto; lia.
      - apply (_yield_blocks_from_file_cached_backward p s e e None self Hp); auto; lia. }
    destruct Hone as (ys1 & self1 & Hrun1 & Hys1 & Hsame1 & Hr1).
    destruct (IH self1) as (ys2 & self2 & Hrun2 & Hys2 & Hsame2 & Hr2); [|done|].
    { intros q Hq. destruct Hsame1 as [-> _]. apply Hfiles.
      by apply list_elem_of_further. }
    exists (ys1 ++ ys2), self2. simpl. unfold gen_app. rewrite Hrun1, Hrun2.
    split; [done|]. split.
    + by rewrite fmap_app, Hys1, Hys2.
    + split; [by eapply same_store_trans|done].
Qed.

End BlockReadFacts.

(** *** The two orders of [list_directory] *)

#[local] Instance string_ge_trans : Transitive string_ge.
Proof. intros a b c Hab Hbc. unfold string_ge in *. by etrans. Qed.

#[local] Instance string_ge_total : Total string_ge.
Proof. intros a b. unfold string_ge. destruct (total String.le a b); auto. Qed.

#[local] Instance string_ge_antisymm : AntiSymm (=) string_ge.
Proof. intros a b Hab Hba. unfold string_ge in *. by apply (anti_symm String.le). Qed.

Lemma merge_sort_string_ge (l : list string) :
  merge_sort string_ge l = reverse (merge_sort String.le l).
Proof.
  apply (StronglySorted_unique string_ge).
  - apply StronglySorted_merge_sort; apply _.
  - apply Sorted_StronglySorted; [apply _|].
    apply (Sorted_reverse String.le). apply Sorted_merge_sort. apply _.
  - rewrite merge_sort_Permutation, reverse_Permutation.
    by rewrite merge_sort_Permutation.
Qed.

Lemma concat_reverse_chunks {A} (f : string -> list A) (l : list string) :
  concat ((fun p => reverse (f p)) <$> reverse l) = reverse (concat (f <$> l)).
Proof.
  induction l as [|p l IH]; [done|].
  rewrite reverse_cons, fmap_app, concat_app, IH. simpl.
  by rewrite app_nil_r, reverse_app.
Qed.

(** ** Chunk file names read back *)

(** The suffix of a stored chunk file: none, or that of a compressor. *)
Definition tail_of (compression : option compressor) : string :=
  match compression with
  | None => ""
  | Some c => "." +:+ extension c
  end.

Lemma span_digits_app d t :
  all_digits d = true ->
  match t with String c _ => is_digit c = false | EmptyString => True end ->
  span_digits (d +:+ t) = (d, t).
Proof.
  intros Hd Ht. induction d as [|c d IH].
  - rewrite append_empty_l. destruct t as [|c t]; [done|]. simpl. by rewrite Ht.
  - simpl in Hd. apply andb_true_iff in Hd as [Hc Hd].
    rewrite append_String. simpl. rewrite Hc, IH by done. done.
Qed.

Lemma after_last_slash_app s t :
  after_last_slash s = None -> after_last_slash t = None ->
  after_last_slash (s +:+ t) = None.
Proof.
  intros Hs Ht. induction s as [|c s IH]; [by rewrite append_empty_l|].
  rewrite append_String. simpl in *.
  destruct (after_last_slash s); [done|].
  rewrite IH by done. by destruct (Ascii.eqb c "/").
Qed.

Lemma after_last_slash_digits d :
  all_digits d = true -> after_last_slash d = None.
Proof.
  induction d as [|c d IH]; [done|]. simpl.
  intros [Hc Hd]%andb_true_iff. rewrite IH by done.
  destruct (Ascii.eqb_spec c "/") as [->|]; [discriminate Hc|done].
Qed.

Lemma int_of_digits_zfill_str n width :
  0 <= n -> int_of_digits (zfill (str n) width) = Some n.
Proof.
  intros Hn. pose proof (int_of_zfill_str n width) as Hv.
  destruct (str_nonneg_digits n Hn) as [Hd Hne].
  destruct (zfill_digits_all (str n) width Hd Hne) as [Hall _].
  unfold int_of_signed in Hv.
  destruct (zfill (str n) width) as [|c r]; [done|].
  destruct (Ascii.eqb_spec c "-") as [->|Hc]; [done|].
  by destruct c as [[][][][][][][][]].
Qed.

Section ChunkNames.
Variables (first last : Z).
Hypothesis first_nonneg : 0 <= first.
Hypothesis first_le_last : first <= last.

Let first_str := zfill (str first) Names.ORDER_OF_BLOCK.
Let last_str := zfill (str last) Names.ORDER_OF_BLOCK.

Lemma chunk_name_digits :
  (all_digits first_str = true /\ first_str <> "") /\
  (all_digits last_str = true /\ last_str <> "").
Proof.
  assert (Hgen : forall n, 0 <= n ->
            all_digits (zfill (str n) Names.ORDER_OF_BLOCK) = true /\
            zfill (str n) Names.ORDER_OF_BLOCK <> "").
  { intros n Hn. destruct (str_nonneg_digits n Hn) as [Hd Hne].
    destruct (zfill_digits_all (str n) Names.ORDER_OF_BLOCK Hd Hne) as [Hall Hlen].
    split; [done|]. intros Heq. rewrite Heq in Hlen. simpl in Hlen.
    unfold Names.ORDER_OF_BLOCK in Hlen. lia. }
  split; apply Hgen; lia.
Qed.

Lemma chunk_name_unfold compression :
  Names.make_block_chunk_filename first last +:+ tail_of compression =
  first_str +:+ String "-" (last_str +:+ ("-block-chunk.msgpack" +:+ tail_of compression)).
Proof.
  unfold Names.make_block_chunk_filename, Names.BLOCK_CHUNK_FILENAME_TEMPLATE.
  cbv zeta. fold first_str last_str.
  by rewrite !append_assoc.
Qed.

Lemma chunk_name_basename compression :
  basename (Names.make_block_chunk_filename first last +:+ tail_of compression) =
  Names.make_block_chunk_filename first last +:+ tail_of compression.
Proof.
  destruct chunk_name_digits as [[Hd1 _] [Hd2 _]].
  unfold basename. rewrite chunk_name_unfold.
  rewrite after_last_slash_app; [done| |].
  - by apply after_last_slash_digits.
  - change (String "-" (last_str +:+ ?t)) with ("-" +:+ (last_str +:+ t)).
    rewrite after_last_slash_app; [done|done|].
    rewrite after_last_slash_app; [done| |].
    + by apply after_last_slash_digits.
    + by destruct compression as [[]|].
Qed.

Lemma chunk_name_match compression :
  BLOCK_CHUNK_FILENAME_RE_match
    (Names.make_block_chunk_filename first last +:+ tail_of compression) =
  Some (first_str, last_str, compression).
Proof.
  destruct chunk_name_digits as [[Hd1 Hne1] [Hd2 Hne2]].
  rewrite chunk_name_unfold. unfold BLOCK_CHUNK_FILENAME_RE_match.
  rewrite span_digits_app by done.
  rewrite bool_decide_false by done.
  change (strip_prefix "-" (String "-" ?t)) with (Some t).
  cbv beta iota.
  rewrite span_digits_app; [|done|by destruct compression as [[]|]].
  rewrite bool_decide_false by done.
  by destruct compression as [[]|].
Qed.

(** [get_block_chunk_file_path_meta] inverts [make_block_chunk_filename],
    with and without a compression suffix. *)
Lemma chunk_name_meta compression :
  get_block_chunk_file_path_meta
    (Names.make_block_chunk_filename first last +:+ tail_of compression) =
  Ok (Some {| start := first; end_ := last; compression := compression |}).
Proof.
  unfold get_block_chunk_file_path_meta, get_block_chunk_filename_meta.
  rewrite !chunk_name_basename, chunk_name_match.
  unfold first_str, last_str. rewrite !int_of_digits_zfill_str by lia.
  by rewrite (proj2 (Z.leb_le first last)).
Qed.

End ChunkNames.

Lemma substring_app_skip x y m k :
  String.substring (String.length x + m) k (x +:+ y) = String.substring m k y.
Proof. induction x as [|c x IH]; [done|]. rewrite append_String. simpl. apply IH. Qed.

Lemma substring_app_keep x y m :
  String.substring 0 (String.length x + m) (x +:+ y) = x +:+ String.substring 0 m y.
Proof.
  induction x as [|c x IH]; [done|].
  rewrite !append_String. simpl. by rewrite IH.
Qed.

Lemma ends_with_app x y suffix :
  (String.length suffix <= String.length y)%nat ->
  ends_with (x +:+ y) suffix = ends_with y suffix.
Proof.
  intros Hlen. unfold ends_with. rewrite length_append.
  rewrite (proj2 (Nat.leb_le _ _)) by lia.
  rewrite (proj2 (Nat.leb_le _ _) Hlen).
  replace (String.length x + String.length y - String.length suffix)%nat
    with (String.length x + (String.length y - String.length suffix))%nat by lia.
  by rewrite substring_app_skip.
Qed.

Lemma strip_compression_extension_app x y :
  (4 <= String.length y)%nat ->
  strip_compression_extension (x +:+ y) = x +:+ strip_compression_extension y.
Proof.
  intros Hlen. unfold strip_compression_extension, DECOMPRESSION_KEYS.
  assert (Hstep : forall c rest_x rest_y,
    rest_x = x +:+ rest_y ->
    (if ends_with (x +:+ y) ("." +:+ extension c)
     then String.substring 0
            (String.length (x +:+ y) - (String.length (extension c) + 1)) (x +:+ y)
     else rest_x) =
    x +:+ (if ends_with y ("." +:+ extension c)
           then String.substring 0
                  (String.length y - (String.length (extension c) + 1)) y
           else rest_y)).
  { intros c rest_x rest_y ->.
    rewrite ends_with_app by (destruct c; simpl; lia).
    destruct (ends_with y _); [|done].
    rewrite length_append.
    replace (String.length x + String.length y - (String.length (extension c) + 1))%nat
      with (String.length x + (String.length y - (String.length (extension c) + 1)))%nat
      by (destruct c; simpl; lia).
    apply substring_app_keep. }
  simpl strip_compression_extension_loop.
  apply (Hstep gz). apply (Hstep bz2). by apply (Hstep xz).
Qed.

Lemma chunk_name_strip first last compression :
  strip_compression_extension
    (Names.make_block_chunk_filename first last +:+ tail_of compression) =
  Names.make_block_chunk_filename first last.
Proof.
  unfold Names.make_block_chunk_filename, Names.BLOCK_CHUNK_FILENAME_TEMPLATE.
  cbv zeta.
  set (A := zfill (str first) Names.ORDER_OF_BLOCK).
  set (B := zfill (str last) Names.ORDER_OF_BLOCK).
  assert (Hsplit : (A +:+ "-" +:+ B +:+ "-block-chunk.msgpack") +:+ tail_of compression =
                   (A +:+ "-" +:+ B) +:+ ("-block-chunk.msgpack" +:+ tail_of compression))
    by (by rewrite !append_assoc).
  rewrite Hsplit.
  rewrite strip_compression_extension_app by (by destruct compression as [[]|]; vm_compute; lia).
  assert (Hy : strip_compression_extension ("-block-chunk.msgpack" +:+ tail_of compression)
               = "-block-chunk.msgpack") by (by destruct compression as [[]|]).
  rewrite Hy. by rewrite !append_assoc.
Qed.

Lemma chunk_name_inj first last first' last' compression compression' :
  0 <= first <= last -> 0 <= first' <= last' ->
  Names.make_block_chunk_filename first last +:+ tail_of compression =
  Names.make_block_chunk_filename first' last' +:+ tail_of compression' ->
  first = first' /\ last = last' /\ compression = compression'.
Proof.
  intros [Hf Hl] [Hf' Hl'] Heq.
  pose proof (chunk_name_meta first last Hf Hl compression) as Hm.
  rewrite Heq, (chunk_name_meta first' last' Hf' Hl' compression') in Hm.
  by injection Hm as -> -> ->.
Qed.

Lemma sibling_tail file_path c : sibling file_path c = file_path +:+ tail_of (Some c).
Proof. reflexivity. Qed.

Lemma chunk_name_not_absolute first last compression :
  0 <= first ->
  String.prefix "/" (Names.make_block_chunk_filename first last +:+ tail_of compression)
  = false.
Proof.
  intros Hf. unfold Names.make_block_chunk_filename, Names.BLOCK_CHUNK_FILENAME_TEMPLATE.
  cbv zeta.
  destruct (str_nonneg_digits first Hf) as [Hd Hne].
  destruct (zfill_digits_all (str first) Names.ORDER_OF_BLOCK Hd Hne) as [Hall Hlen].
  destruct (zfill (str first) Names.ORDER_OF_BLOCK) as [|c r]; [simpl in Hlen; unfold Names.ORDER_OF_BLOCK in Hlen; lia|].
  simpl in Hall. apply andb_true_iff in Hall as [Hc _].
  rewrite !append_String. cbn [String.prefix].
  destruct (ascii_dec "/" c) as [<-|]; [discriminate Hc|done].
Qed.

(** ** Chunk arithmetic *)

Lemma chunk_start_bounds n s :
  0 < s ->
  n / s * s <= n < n / s * s + s /\ (n / s * s) mod s = 0 /\ n mod s = n - n / s * s.
Proof.
  intros Hs. pose proof (Z.div_mod n s) as Hdm.
  pose proof (Z.mod_pos_bound n s Hs) as Hb.
  split; [lia|]. split; [|lia]. apply Z.mod_mul. lia.
Qed.

Lemma chunk_start_unique n s a :
  0 < s -> a mod s = 0 -> a <= n < a + s -> n / s * s = a.
Proof.
  intros Hs Ha Hn.
  pose proof (Z.div_mod a s) as Hdm. rewrite Ha in Hdm.
  assert (Hq : n / s = a / s).
  { symmetry. apply (Z.div_unique n s (a / s) (n - a)); lia. }
  rewrite Hq. lia.
Qed.

Lemma chunk_start_nonneg n s : 0 < s -> 0 <= n -> 0 <= n / s * s.
Proof. intros Hs Hn. pose proof (Z.div_pos n s Hn Hs). nia. Qed.

(** ** The storage operations of [persist_block] *)

Section ChunkStorage.
Context `{Codecs}.

#[local] Existing Instance path_optimized.

Variable compressors : list compressor.

Lemma append_chunk_ok file_path data fs fs' :
  append compressors file_path data false fs = (Ok tt, fs') ->
  finalized_in fs file_path = false /\
  fs' = <[file_path :=
            File (match fs !! file_path with Some f => content f | None => [] end ++ data)
                 TEMP_FILE_MODE]> fs.
Proof.
  unfold append.
  destruct (String.prefix "/" file_path) eqn:Ha.
  { rewrite _persist_unresolved by (by left). done. }
  rewrite _persist_resolved by done.
  change (resolve file_path) with file_path. unfold bind.
  destruct (finalized_in fs file_path) eqn:Hfin.
  { by rewrite _write_file_finalized. }
  rewrite _write_file_open by done. unfold atomic_write_append, modify, ret.
  by intros [= <-].
Qed.

Lemma _get_absolute_path_optimized file_path fs :
  _get_absolute_path file_path fs =
  if String.prefix "/" file_path then (Raise ValueError, fs) else (Ok file_path, fs).
Proof.
  unfold _get_absolute_path. change (is_absolute file_path) with (String.prefix "/" file_path).
  by destruct (String.prefix "/" file_path).
Qed.

Lemma move_ok source destination fs fs' :
  move source destination fs = (Ok tt, fs') ->
  exists f, fs !! source = Some f /\ fs' = <[destination := f]> (delete source fs).
Proof.
  unfold move. unfold bind at 1. rewrite _get_absolute_path_optimized.
  destruct (String.prefix "/" source); [done|].
  unfold bind. rewrite _get_absolute_path_optimized.
  destruct (String.prefix "/" destination); [done|].
  unfold os_rename. destruct (fs !! source) as [f|]; [|done].
  intros [= <-]. by exists f.
Qed.

Lemma finalize_ok file_path fs fs' :
  finalize compressors file_path fs = (Ok tt, fs') ->
  exists f, fs !! file_path = Some f /\
    (fs' = <[file_path := File (content f) (dropped (st_mode f))]> fs \/
     exists c, c ∈ compressors /\
       fs' = <[sibling file_path c :=
                 File (COMPRESSION_FUNCTIONS c (content f)) (dropped TEMP_FILE_MODE)]>
               (delete file_path
                  (<[sibling file_path c :=
                       File (COMPRESSION_FUNCTIONS c (content f)) TEMP_FILE_MODE]> fs))).
Proof.
  unfold finalize. unfold bind at 1. rewrite _get_absolute_path_optimized.
  destruct (String.prefix "/" file_path); [done|].
  unfold _finalize, bind.
  destruct (fs !! file_path) as [f|] eqn:Hf; last first.
  { unfold _compress. destruct compressors.
    - unfold ret. unfold drop_write_permissions, bind, os_stat_st_mode. by rewrite Hf.
    - unfold bind, read_file. by rewrite Hf. }
  intros Hfin. exists f. split; [done|]. revert Hfin.
  destruct (decide (compressors = [])) as [Hnil|Hcs].
  { unfold _compress. rewrite Hnil. unfold ret. cbv beta iota.
    rewrite (drop_write_permissions_spec file_path fs f Hf). intros [= <-]. by left. }
  destruct (decide (content f = [])) as [Hb|Hb].
  { by rewrite (_compress_empty_file compressors file_path fs f Hf Hcs Hb). }
  rewrite (_compress_outcome compressors file_path fs f Hf Hcs Hb).
  destruct (pick_spec file_path (content f) compressors file_path (content f))
    as (_ & _ & Hcase).
  destruct Hcase as [Heq|(c & Hc & Heq & Hlt)]; rewrite Heq; simpl fst; simpl snd.
  - rewrite bool_decide_false by (intros Hne; by apply Hne).
    rewrite (drop_write_permissions_spec file_path fs f Hf). intros [= <-]. by left.
  - rewrite bool_decide_true by apply sibling_neq.
    destruct (finalized_in fs (sibling file_path c)); [done|].
    rewrite (drop_write_permissions_spec (sibling file_path c) _
               (File (COMPRESSION_FUNCTIONS c (content f)) TEMP_FILE_MODE)); last first.
    { rewrite lookup_delete_ne by (apply not_eq_sym, sibling_neq).
      apply lookup_insert_eq. }
    intros [= <-]. right. by exists c.
Qed.

End ChunkStorage.

(** ** The block store after a sequence of [add_block] calls *)

Section StoreInvariant.
Context `{Codecs} `{BlockModel} `{BlockchainStateModel}.

#[local] Existing Instance path_optimized.

(** The serialized blocks numbered [a] to [z]. *)
Definition chunk_data (chain : list Block) (a z : Z) : bytes :=
  concat (to_messagepack <$> chain_slice chain a z).

(** The chunk that starts at [a] ends at [z] when the chain has [L] blocks
    and a chunk has [s]. *)
Definition chunk_range (L s a z : Z) : Prop :=
  0 <= a /\ a mod s = 0 /\ a < L /\ z = Z.min (a + s - 1) (L - 1).

(** A stored file is a chunk of the chain: raw, or, for a complete chunk,
    compressed. *)
Definition chunk_file (chain : list Block) (s : Z) (path : string) (f : file) : Prop :=
  exists a z, chunk_range (Z.of_nat (length chain)) s a z /\
    ((path = Names.make_block_chunk_filename a z /\ content f = chunk_data chain a z) \/
     (z = a + s - 1 /\
      exists c, path = sibling (Names.make_block_chunk_filename a z) c /\
                content f = COMPRESSION_FUNCTIONS c (chunk_data chain a z))).

(** The incomplete chunk at the end of the chain is stored raw and writable. *)
Definition open_chunk (chain : list Block) (s : Z) (fs : filesystem) : Prop :=
  let L := Z.of_nat (length chain) in
  L mod s <> 0 ->
  fs !! Names.make_block_chunk_filename (L / s * s) (L - 1) =
  Some (File (chunk_data chain (L / s * s) (L - 1)) TEMP_FILE_MODE).

Definition store_inv (chain : list Block) (s : Z) (fs : filesystem) : Prop :=
  (forall path f, fs !! path = Some f -> chunk_file chain s path f) /\
  open_chunk chain s fs.

Lemma blocks_of_ext (chain chain' : list Block) numbers :
  (forall n, n ∈ numbers -> stored chain n = stored chain' n) ->
  blocks_of chain numbers = blocks_of chain' numbers.
Proof.
  induction numbers as [|n numbers IH]; intros Hext; [done|].
  unfold blocks_of in *. csimpl.
  rewrite (Hext n (list_elem_of_here _ _)).
  rewrite IH; [done|]. intros m Hm. apply Hext. by apply list_elem_of_further.
Qed.

Lemma chain_slice_grow chain block a z :
  z < Z.of_nat (length chain) ->
  chain_slice (chain ++ [block]) a z = chain_slice chain a z.
Proof.
  intros Hz. unfold chain_slice. apply blocks_of_ext.
  intros n [Hn1 Hn2]%elem_of_seqZ. unfold stored.
  case_bool_decide; [|done]. apply lookup_app_l. lia.
Qed.

Lemma chain_slice_last chain block :
  let L := Z.of_nat (length chain) in
  chain_slice (chain ++ [block]) L L = [block].
Proof.
  cbv zeta. unfold chain_slice. replace (_ - _ + 1) with 1 by lia.
  rewrite seqZ_cons, seqZ_nil by lia. unfold blocks_of. csimpl.
  unfold stored. rewrite bool_decide_true by lia.
  rewrite Nat2Z.id, lookup_app_r, Nat.sub_diag by lia. done.
Qed.

Lemma chunk_data_snoc chain block a :
  let L := Z.of_nat (length chain) in
  a <= L ->
  chunk_data (chain ++ [block]) a L = chunk_data chain a (L - 1) ++ to_messagepack block.
Proof.
  cbv zeta. intros Ha. unfold chunk_data.
  rewrite <- (chain_slice_app _ a (Z.of_nat (length chain))) by lia.
  rewrite chain_slice_last, chain_slice_grow by lia.
  rewrite fmap_app, concat_app. simpl. by rewrite app_nil_r.
Qed.

Lemma chunk_data_grow chain block a z :
  z < Z.of_nat (length chain) ->
  chunk_data (chain ++ [block]) a z = chunk_data chain a z.
Proof. intros Hz. unfold chunk_data. by rewrite chain_slice_grow. Qed.

Lemma chunk_range_bounds L s a z :
  0 < s -> chunk_range L s a z -> 0 <= a <= z /\ z < L /\ z < a + s.
Proof. intros Hs (Ha & _ & HL & ->). lia. Qed.

(** Every stored name is that of a chunk below the length of the chain. *)
Lemma chunk_file_name chain s path f :
  0 < s -> chunk_file chain s path f ->
  exists a z compression,
    path = Names.make_block_chunk_filename a z +:+ tail_of compression /\
    chunk_range (Z.of_nat (length chain)) s a z /\
    (compression = None -> content f = chunk_data chain a z) /\
    (forall c, compression = Some c ->
       content f = COMPRESSION_FUNCTIONS c (chunk_data chain a z)).
Proof.
  intros Hs (a & z & Hr & [[-> Hc]|[Hz (c & -> & Hc)]]).
  - exists a, z, None. simpl tail_of. rewrite append_empty_r.
    split; [done|]. split; [done|]. split; [done|]. by intros c.
  - exists a, z, (Some c). split; [done|]. split; [done|]. split; [done|].
    by intros c' [= <-].
Qed.

Lemma store_inv_fresh chain s fs a z compression :
  0 < s -> store_inv chain s fs ->
  0 <= a <= z -> Z.of_nat (length chain) <= z ->
  fs !! (Names.make_block_chunk_filename a z +:+ tail_of compression) = None.
Proof.
  intros Hs [Hfiles _] Haz Hz.
  destruct (fs !! _) as [f|] eqn:Hf; [|done]. exfalso.
  apply Hfiles in Hf.
  apply (chunk_file_name _ _ _ _ Hs) in Hf as (a' & z' & co & Heq & Hr & _).
  apply (chunk_range_bounds _ _ _ _ Hs) in Hr.
  apply chunk_name_inj in Heq; lia.
Qed.

(** The complete chunks are those of the longer chain too. *)
Lemma chunk_file_grow chain block s path f :
  let L := Z.of_nat (length chain) in
  0 < s -> chunk_file chain s path f ->
  path <> Names.make_block_chunk_filename (L / s * s) (L - 1) \/ L mod s = 0 ->
  chunk_file (chain ++ [block]) s path f.
Proof.
  cbv zeta. intros Hs (a & z & Hr & Hcase) Hclosed.
  pose proof (chunk_range_bounds _ _ _ _ Hs Hr) as Hb.
  destruct Hr as (Ha & Hmod & HL & Hz).
  assert (Hfull : z = a + s - 1).
  { destruct Hcase as [[-> _]|[? _]]; [|done].
    destruct (Z.le_gt_cases (a + s - 1) (Z.of_nat (length chain) - 1)); [lia|].
    exfalso.
    assert (Hstart : Z.of_nat (length chain) / s * s = a)
      by (apply chunk_start_unique; lia).
    destruct Hclosed as [Hne|Hm].
    - apply Hne. rewrite Hstart. f_equal. lia.
    - destruct (chunk_start_bounds (Z.of_nat (length chain)) s Hs) as (_ & _ & Hm').
      lia. }
  exists a, z. split.
  - rewrite length_app. simpl length. unfold chunk_range. lia.
  - rewrite chunk_data_grow by lia. done.
Qed.

Lemma chunk_file_new chain block s mode :
  let L := Z.of_nat (length chain) in
  0 < s ->
  chunk_file (chain ++ [block]) s (Names.make_block_chunk_filename (L / s * s) L)
    (File (chunk_data (chain ++ [block]) (L / s * s) L) mode).
Proof.
  cbv zeta. intros Hs.
  destruct (chunk_start_bounds (Z.of_nat (length chain)) s Hs) as (Hb & Hm & _).
  pose proof (chunk_start_nonneg (Z.of_nat (length chain)) s Hs ltac:(lia)).
  exists (Z.of_nat (length chain) / s * s), (Z.of_nat (length chain)). split.
  - rewrite length_app. simpl length. unfold chunk_range. lia.
  - by left.
Qed.

Lemma chunk_file_new_compressed chain block s c mode :
  let L := Z.of_nat (length chain) in
  0 < s -> L mod s = s - 1 ->
  chunk_file (chain ++ [block]) s
    (sibling (Names.make_block_chunk_filename (L / s * s) L) c)
    (File (COMPRESSION_FUNCTIONS c (chunk_data (chain ++ [block]) (L / s * s) L)) mode).
Proof.
  cbv zeta. intros Hs Hlast.
  destruct (chunk_start_bounds (Z.of_nat (length chain)) s Hs) as (Hb & Hm & Hoff).
  pose proof (chunk_start_nonneg (Z.of_nat (length chain)) s Hs ltac:(lia)).
  exists (Z.of_nat (length chain) / s * s), (Z.of_nat (length chain)). split.
  - rewrite length_app. simpl length. unfold chunk_range. lia.
  - right. split; [lia|]. by exists c.
Qed.

(** What a successful [add_block] does to the block storage. *)
Lemma add_block_storage block self self' :
  let n := block_number block in
  let s := block_chunk_size self in
  let compressors := blocks_compressors self in
  let chunk_start := n / s * s in
  let filename := Names.make_block_chunk_filename chunk_start n in
  0 < s ->
  add_block block self = (Ok tt, self') ->
  exists fs1 fs2,
    append compressors
      (Names.make_block_chunk_filename chunk_start
         (if bool_decide (n = chunk_start) then n else n - 1))
      (to_messagepack block) false (block_storage self) = (Ok tt, fs1) /\
    (if bool_decide (n = chunk_start) then fs2 = fs1
     else move (Names.make_block_chunk_filename chunk_start (n - 1)) filename fs1 =
          (Ok tt, fs2)) /\
    (if bool_decide (n mod s = s - 1)
     then finalize compressors filename fs2 = (Ok tt, block_storage self')
     else block_storage self' = fs2) /\
    block_chunk_size self' = s /\ blocks_compressors self' = compressors.
Proof.
  cbv zeta. intros Hs. unfold add_block, lock_method.
  assert (Hrun : forall before,
    (let (r, self'0) := persist_block block (set_file_lock HeldHere self) in
     (r, set_file_lock before self'0)) = (Ok tt, self') ->
    exists fs1 fs2,
      append (blocks_compressors self)
        (Names.make_block_chunk_filename
           (block_number block / block_chunk_size self * block_chunk_size self)
           (if bool_decide (block_number block =
                            block_number block / block_chunk_size self *
                            block_chunk_size self)
            then block_number block else block_number block - 1))
        (to_messagepack block) false (block_storage self) = (Ok tt, fs1) /\
      (if bool_decide (block_number block =
                       block_number block / block_chunk_size self * block_chunk_size self)
       then fs2 = fs1
       else move (Names.make_block_chunk_filename
                    (block_number block / block_chunk_size self * block_chunk_size self)
                    (block_number block - 1))
                 (Names.make_block_chunk_filename
                    (block_number block / block_chunk_size self * block_chunk_size self)
                    (block_number block)) fs1 = (Ok tt, fs2)) /\
      (if bool_decide (block_number block mod block_chunk_size self =
                       block_chunk_size self - 1)
       then finalize (blocks_compressors self)
              (Names.make_block_chunk_filename
                 (block_number block / block_chunk_size self * block_chunk_size self)
                 (block_number block)) fs2 = (Ok tt, block_storage self')
       else block_storage self' = fs2) /\
      block_chunk_size self' = block_chunk_size self /\
      blocks_compressors self' = blocks_compressors self).
  { intros before. rewrite persist_block_locked by done.
    unfold persist_block_calls. cbv zeta.
    cbn [block_storage block_chunk_size blocks_compressors set_file_lock].
    unfold bind at 1. unfold on_block_storage at 1.
    cbn [block_storage set_file_lock].
    destruct (append _ _ _ _ _) as [[[]|e] fs1]; [|by intros [=]].
    cbv beta iota. unfold bind at 1.
    case_bool_decide as Hstart.
    - unfold ret at 1. cbv beta iota.
      case_bool_decide.
      + unfold on_block_storage. cbn [block_storage set_block_storage].
        destruct (finalize _ _ _) as [[[]|e] fs3] eqn:Hfin; intros [= <-]; by exists fs1, fs1.
      + unfold ret. intros [= <-]. by exists fs1, fs1.
    - unfold on_block_storage at 1. cbn [block_storage set_block_storage].
      destruct (move _ _ _) as [[[]|e] fs2] eqn:Hmove; [|by intros [=]].
      cbv beta iota.
      case_bool_decide.
      + unfold on_block_storage. cbn [block_storage set_block_storage].
        destruct (finalize _ _ _) as [[[]|e] fs3] eqn:Hfin; intros [= <-]; by exists fs1, fs2.
      + unfold ret. intros [= <-]. by exists fs1, fs2. }
  destruct (file_lock self); [apply Hrun|apply Hrun|done].
Qed.

(** The invariant of the block store is kept by the storage calls of a
    successful [add_block] of the next block. *)
Lemma store_inv_add_block chain s fs block compressors fs1 fs2 fs3 :
  let n := block_number block in
  let chunk_start := n / s * s in
  let filename := Names.make_block_chunk_filename chunk_start n in
  0 < s ->
  n = Z.of_nat (length chain) ->
  store_inv chain s fs ->
  append compressors
    (Names.make_block_chunk_filename chunk_start
       (if bool_decide (n = chunk_start) then n else n - 1))
    (to_messagepack block) false fs = (Ok tt, fs1) ->
  (if bool_decide (n = chunk_start) then fs2 = fs1
   else move (Names.make_block_chunk_filename chunk_start (n - 1)) filename fs1 =
        (Ok tt, fs2)) ->
  (if bool_decide (n mod s = s - 1)
   then finalize compressors filename fs2 = (Ok tt, fs3)
   else fs3 = fs2) ->
  store_inv (chain ++ [block]) s fs3.
Proof.
  cbv zeta. intros Hs Hn Hinv Happend Hmove Hfinalize. rewrite Hn in *. clear Hn.
  set (L := Z.of_nat (length chain)) in *.
  set (cs := L / s * s) in *.
  set (D := chunk_data (chain ++ [block]) cs L).
  assert (HL : Z.of_nat (length (chain ++ [block])) = L + 1).
  { rewrite length_app. simpl. lia. }
  destruct (chunk_start_bounds L s Hs) as (Hb & Hcs & Hoff). fold cs in Hb, Hcs, Hoff.
  assert (Hcs0 : 0 <= cs) by (apply chunk_start_nonneg; lia).
  assert (Hext : exists fs0,
            fs2 = <[Names.make_block_chunk_filename cs L := File D TEMP_FILE_MODE]> fs0 /\
            (forall path f, fs0 !! path = Some f -> chunk_file (chain ++ [block]) s path f) /\
            (forall co, fs0 !! (Names.make_block_chunk_filename cs L +:+ tail_of co) = None)).
  { destruct (decide (L = cs)) as [Hstart|Hstart].
    - rewrite bool_decide_true in Happend, Hmove by done.
      apply append_chunk_ok in Happend as [_ ->].
      subst fs2. exists fs. split; [|split].
      + pose proof (store_inv_fresh chain s fs cs L None Hs Hinv) as Hnone.
        simpl tail_of in Hnone. rewrite append_empty_r in Hnone.
        rewrite Hnone by lia. f_equal. f_equal. unfold D.
        rewrite chunk_data_snoc by lia. fold L. f_equal.
        unfold chunk_data, chain_slice. rewrite seqZ_nil by lia. done.
      + intros path f Hf. apply chunk_file_grow; [done|by apply Hinv|]. fold L. right. lia.
      + intros co. apply (store_inv_fresh chain s); [done|done|lia|lia].
    - rewrite bool_decide_false in Happend, Hmove by done.
      apply append_chunk_ok in Happend as [_ ->].
      apply move_ok in Hmove as (f & Hf & ->).
      rewrite lookup_insert_eq in Hf. injection Hf as <-.
      destruct Hinv as [Hfiles Hopen].
      unfold open_chunk in Hopen. cbv zeta in Hopen. fold L cs in Hopen.
      rewrite Hopen by lia. cbn [content].
      exists (delete (Names.make_block_chunk_filename cs (L - 1)) fs). split; [|split].
      + rewrite delete_insert_eq. f_equal. f_equal. unfold D.
        by rewrite chunk_data_snoc by lia.
      + intros path f [Hne Hf]%lookup_delete_Some.
        apply chunk_file_grow; [done|by apply Hfiles|]. fold L cs. left. congruence.
      + intros co. apply lookup_delete_None. right.
        apply (store_inv_fresh chain s); [done|done|lia|lia]. }
  destruct Hext as (fs0 & -> & Hfiles0 & Hfresh0).
  assert (Hnew : forall mode,
            chunk_file (chain ++ [block]) s (Names.make_block_chunk_filename cs L)
              (File D mode)) by (intros mode; by apply chunk_file_new).
  split.
  - intros path f.
    destruct (decide (L mod s = s - 1)) as [Hlast|Hlast].
    + rewrite bool_decide_true in Hfinalize by done.
      apply finalize_ok in Hfinalize as (f2 & Hf2 & Hcase).
      rewrite lookup_insert_eq in Hf2. injection Hf2 as <-. cbn [content st_mode] in Hcase.
      destruct Hcase as [-> | (c & Hc & ->)].
      * intros [[<- <-]|[_ [[<- <-]|[_ Hf]]%lookup_insert_Some]]%lookup_insert_Some;
          [apply Hnew|apply Hnew|by apply Hfiles0].
      * intros [[<- <-]|[_ [_ [[<- <-]|[_ [[<- <-]|[_ Hf]]%lookup_insert_Some]]%lookup_insert_Some]%lookup_delete_Some]]%lookup_insert_Some.
        -- by apply chunk_file_new_compressed.
        -- by apply chunk_file_new_compressed.
        -- apply Hnew.
        -- by apply Hfiles0.
    + rewrite bool_decide_false in Hfinalize by done. subst fs3.
      intros [[<- <-]|[_ Hf]]%lookup_insert_Some; [apply Hnew|by apply Hfiles0].
  - unfold open_chunk. cbv zeta. rewrite HL. intros Hopen.
    assert (Hnot_last : L mod s <> s - 1).
    { intros Hm. apply Hopen. replace (L + 1) with ((L / s + 1) * s) by (fold cs; lia).
      apply Z.mod_mul. lia. }
    rewrite bool_decide_false in Hfinalize by done. subst fs3.
    rewrite (chunk_start_unique (L + 1) s cs) by lia.
    replace (L + 1 - 1) with L by lia.
    apply lookup_insert_eq.
Qed.

(** The states of the blockchain after successful calls [add_block] of the
    blocks of [chain], one after the other, on an empty block storage. *)
Inductive reachable : list Block -> FileBlockchain -> Prop :=
  | reachable_empty self :
      0 < block_chunk_size self ->
      block_storage self = ∅ ->
      reachable [] self
  | reachable_add_block chain self block self' :
      reachable chain self ->
      block_number block = Z.of_nat (length chain) ->
      add_block block self = (Ok tt, self') ->
      reachable (chain ++ [block]) self'.

Lemma reachable_store_inv chain self :
  reachable chain self ->
  0 < block_chunk_size self /\
  (forall i b, chain !! i = Some b -> block_number b = Z.of_nat i) /\
  store_inv chain (block_chunk_size self) (block_storage self).
Proof.
  induction 1 as [self Hs Hfs|chain self block self' Hreach IH Hn Hadd].
  - split; [done|]. split; [by intros i b Hb|]. rewrite Hfs. split.
    + intros path f Hf. by rewrite lookup_empty in Hf.
    + unfold open_chunk. cbv zeta. simpl length. rewrite Z.mod_0_l by lia. done.
  - destruct IH as (Hs & Hnum & Hinv).
    destruct (add_block_storage block self self' Hs Hadd)
      as (fs1 & fs2 & Happend & Hmove & Hfinalize & Hsize & _).
    rewrite Hsize. split; [done|]. split.
    + intros i b [Hb|[Hi Hb]]%lookup_app_Some; [by apply Hnum|].
      apply list_lookup_singleton_Some in Hb as [Hi' <-]. lia.
    + apply (store_inv_add_block chain (block_chunk_size self) (block_storage self)
               block (blocks_compressors self) fs1 fs2); done.
Qed.

(** The compression library and the block codec read back what they wrote. *)
Hypothesis decompress_compress :
  forall c data, DECOMPRESSION_FUNCTIONS c (COMPRESSION_FUNCTIONS c data) = Ok data.
Hypothesis unpack_packed :
  forall blocks, unpack_blocks (concat (to_messagepack <$> blocks)) = (blocks, None).

Lemma load_loop_any keys file_path fs data :
  (forall k f, k ∈ keys -> fs !! sibling file_path k = Some f ->
     DECOMPRESSION_FUNCTIONS k (content f) = Ok data) ->
  (exists k, k ∈ keys /\ is_Some (fs !! sibling file_path k)) \/
  (exists f, fs !! file_path = Some f /\ content f = data) ->
  load_loop keys file_path fs = (Ok data, fs).
Proof.
  induction keys as [|k keys IH]; intros Hdec Hsrc.
  - destruct Hsrc as [(k & Hk & _)|(f & Hf & Hc)]; [by apply not_elem_of_nil in Hk|].
    simpl. unfold read_file. by rewrite Hf, Hc.
  - simpl. unfold read_file at 1. fold (sibling file_path k).
    destruct (fs !! sibling file_path k) as [f|] eqn:Hk.
    + by rewrite (Hdec k f (list_elem_of_here _ _) Hk).
    + apply IH.
      * intros k' f Hk' Hf. apply (Hdec k' f); [by apply list_elem_of_further|done].
      * destruct Hsrc as [(k' & Hk' & Hsome)|Hraw]; [|by right]. left. exists k'.
        split; [|done]. apply elem_of_cons in Hk' as [->|Hk']; [|done].
        rewrite Hk in Hsome. by destruct Hsome.
Qed.

(** Every listed path is a chunk file that reads back as the blocks its name
    announces. *)
Lemma store_inv_file_holds chain s fs file_path :
  0 < s -> store_inv chain s fs ->
  file_path ∈ strip_compression_extension <$> (fst <$> map_to_list fs) ->
  exists a z, file_holds chain fs file_path a z.
Proof.
  intros Hs Hinv (key & -> & ([key' f] & -> & Hf%elem_of_map_to_list)%list_elem_of_fmap)%list_elem_of_fmap.
  cbn [fst]. pose proof Hinv as [Hfiles _].
  destruct (chunk_file_name chain s key' f Hs (Hfiles _ _ Hf))
    as (a & z & co & -> & Hr & Hraw & Hcomp).
  pose proof (chunk_range_bounds _ _ _ _ Hs Hr) as (Haz & HzL & _).
  rewrite chunk_name_strip. exists a, z. split; [|split; [lia|]].
  - exists None. pose proof (chunk_name_meta a z ltac:(lia) ltac:(lia) None) as Hm.
    simpl tail_of in Hm. by rewrite append_empty_r in Hm.
  - exists (chunk_data chain a z). split; [|apply unpack_packed].
    unfold load. unfold bind. rewrite _get_absolute_path_optimized.
    pose proof (chunk_name_not_absolute a z None ltac:(lia)) as Habs.
    simpl tail_of in Habs. rewrite append_empty_r in Habs. rewrite Habs.
    rewrite (load_loop_any _ _ _ (chunk_data chain a z)); [done| |].
    + intros k f' _ Hf'.
      destruct (chunk_file_name chain s _ f' Hs (Hfiles _ _ Hf'))
        as (a' & z' & co' & Heq & Hr' & _ & Hcomp').
      pose proof (chunk_range_bounds _ _ _ _ Hs Hr') as (Haz' & _ & _).
      rewrite sibling_tail in Heq.
      apply chunk_name_inj in Heq as (<- & <- & <-); [|lia|lia].
      rewrite (Hcomp' k eq_refl). apply decompress_compress.
    + destruct co as [c|].
      * left. exists c. split; [apply compressor_in_keys|].
        rewrite sibling_tail. by exists f.
      * right. exists f. simpl tail_of in Hf. rewrite append_empty_r in Hf.
        split; [done|]. by apply Hraw.
Qed.

(** The names that [list_directory] sorts. *)
Definition stored_names (fs : filesystem) : list string :=
  strip_compression_extension <$> (fst <$> map_to_list fs).

Lemma list_directory_forward fs :
  list_directory 1 fs = (Ok (merge_sort String.le (stored_names fs)), fs).
Proof. reflexivity. Qed.

Lemma list_directory_backward fs :
  list_directory (-1) fs = (Ok (reverse (merge_sort String.le (stored_names fs))), fs).
Proof. unfold list_directory, gets. cbv beta iota zeta. by rewrite <- merge_sort_string_ge. Qed.

Lemma _yield_blocks_listed direction paths self chain :
  direction = 1 \/ direction = -1 ->
  list_directory direction (block_storage self) = (Ok paths, block_storage self) ->
  (forall p, p ∈ paths -> p ∈ stored_names (block_storage self)) ->
  reachable chain self ->
  forall cache,
  (forall n b, (n, b) ∈ LRU.items cache -> stored chain n = Some b) ->
  1 <= LRU.maxsize cache ->
  exists self',
    to_list (_yield_blocks direction) (set_blocks_cache cache self) =
    (Ok (concat ((fun p => if direction =? 1 then chunk_of chain p
                           else reverse (chunk_of chain p)) <$> paths)), self').
Proof.
  intros Hdir Hlist Hpaths Hreach cache Hsound Hmax.
  destruct (reachable_store_inv chain self Hreach) as (Hs & Hnum & Hinv).
  destruct (yield_blocks_paths chain Hnum direction paths (set_blocks_cache cache self) Hdir)
    as (ys & self' & Hrun & Hys & _ & _).
  { intros p Hp. apply (store_inv_file_holds chain (block_chunk_size self)); [done|done|].
    by apply Hpaths. }
  { by split. }
  exists self'. unfold to_list, _yield_blocks, gen_call at 1, assert.
  replace (is_direction direction) with true by (by destruct Hdir as [-> | ->]).
  unfold ret at 1. cbv beta iota.
  unfold gen_call, _list_block_directory, on_block_storage.
  cbn [block_storage set_blocks_cache]. rewrite Hlist.
  change (set_block_storage (block_storage self) (set_blocks_cache cache self))
    with (set_blocks_cache cache self).
  rewrite Hrun. by rewrite Hys.
Qed.

(** C6: in every state reached by successful [add_block] calls on an empty
    block storage, and for every blocks cache of capacity at least one that
    holds blocks of the chain under their numbers, [list(yield_blocks())] and
    [list(yield_blocks_reversed())] both return, and the first is the reverse
    of the second. *)
Theorem C6_yield_blocks_reverse_of_reversed (chain : list Block)
    (self : FileBlockchain) (cache : LRU.LRUCache Z Block)
    (Hreach : reachable chain self)
    (Hsound : forall n b, (n, b) ∈ LRU.items cache -> stored chain n = Some b)
    (Hsize : 1 <= LRU.maxsize cache) :
  exists forward backward self1 self2,
    to_list yield_blocks (set_blocks_cache cache self) = (Ok forward, self1) /\
    to_list yield_blocks_reversed (set_blocks_cache cache self) = (Ok backward, self2) /\
    forward = reverse backward.
Proof.
  set (sorted := merge_sort String.le (stored_names (block_storage self))).
  assert (Hsorted : forall p, p ∈ sorted -> p ∈ stored_names (block_storage self)).
  { intros p Hp. unfold sorted in Hp. by rewrite merge_sort_Permutation in Hp. }
  destruct (_yield_blocks_listed 1 sorted self chain (or_introl eq_refl)
              (list_directory_forward _) Hsorted Hreach cache Hsound Hsize)
    as [self1 Hforward].
  destruct (_yield_blocks_listed (-1) (reverse sorted) self chain (or_intror eq_refl)
              (list_directory_backward _)
              (fun p Hp => Hsorted p (proj1 (elem_of_reverse _ _) Hp))
              Hreach cache Hsound Hsize)
    as [self2 Hbackward].
  change (1 =? 1) with true in Hforward. change (-1 =? 1) with false in Hbackward.
  cbv beta iota in Hforward, Hbackward.
  rewrite (concat_reverse_chunks (chunk_of chain)) in Hbackward.
  eexists _, _, self1, self2. split; [exact Hforward|]. split; [exact Hbackward|].
  by rewrite reverse_involutive.
Qed.

End StoreInvariant.

Lemma demo_unpack_packed (blocks : list (Block (BlockModel := Demo.block_model))) :
  unpack_blocks (concat (to_messagepack <$> blocks)) = (blocks, None).
Proof.
  change (unpack_blocks ?d) with (d, @None exn). f_equal.
  induction blocks as [|b blocks IH]; [done|].
  rewrite fmap_cons. change (concat (?x :: ?l)) with (x ++ concat l).
  by rewrite IH.
Qed.

Section StoreWitness.

#[local] Existing Instance Demo.codecs.
#[local] Existing Instance Demo.block_model.
#[local] Existing Instance Demo.state_model.
#[local] Existing Instance path_optimized.

(** Spec S2 is reached by three calls. *)
Lemma reachable_rollover : reachable [Byte.x00; Byte.x01; Byte.x02] Demo.rollover.
Proof.
  change [Byte.x00; Byte.x01; Byte.x02]
    with ((([] ++ [Byte.x00]) ++ [Byte.x01]) ++ [Byte.x02]).
  apply (reachable_add_block _
           (Demo.after_add_blocks [Byte.x00; Byte.x01] (Demo.empty_blockchain 2)));
    [|reflexivity|vm_compute; reflexivity].
  apply (reachable_add_block _
           (Demo.after_add_blocks [Byte.x00] (Demo.empty_blockchain 2)));
    [|reflexivity|vm_compute; reflexivity].
  apply (reachable_add_block _ (Demo.empty_blockchain 2));
    [|reflexivity|vm_compute; reflexivity].
  apply (@reachable_empty Demo.codecs Demo.block_model Demo.state_model
           (Demo.empty_blockchain 2)); [simpl; lia|reflexivity].
Defined.

Lemma C6_yield_blocks_reverse_of_reversed_witness :
  exists forward backward self1 self2,
    to_list yield_blocks
      (set_blocks_cache (LRU.Cache 4 [(2, Byte.x02)]) Demo.rollover) =
      (Ok forward, self1) /\
    to_list yield_blocks_reversed
      (set_blocks_cache (LRU.Cache 4 [(2, Byte.x02)]) Demo.rollover) =
      (Ok backward, self2) /\
    forward = reverse backward.
Proof.
  apply (C6_yield_blocks_reverse_of_reversed
           (H := Demo.codecs) (H0 := Demo.block_model) (H1 := Demo.state_model)
           demo_decompress_compress demo_unpack_packed
           [Byte.x00; Byte.x01; Byte.x02] Demo.rollover
           (LRU.Cache 4 [(2, Byte.x02)]) reachable_rollover).
  - intros n b Hin. apply list_elem_of_singleton in Hin. by injection Hin as -> ->.
  - simpl. lia.
Defined.

End StoreWitness.

(** ** [get_block_by_number] *)

Section BlockLookup.
Context `{Codecs} `{BlockModel} `{BlockchainStateModel}.

#[local] Existing Instance path_optimized.

Lemma set_blocks_cache_id (self : FileBlockchain) :
  set_blocks_cache (blocks_cache self) self = self.
Proof. by destruct self. Qed.

Lemma get_block_by_number_hit n self block :
  LRU.assoc n (LRU.items (blocks_cache self)) = Some block ->
  fst (get_block_by_number n self) = Ok (Some block).
Proof.
  intros Hhit. unfold get_block_by_number, bind, gets, assert, LRU.len.
  destruct (LRU.items (blocks_cache self)) as [|kv l] eqn:Hitems; [done|].
  cbn [length Nat.eqb negb]. unfold LRU.get. rewrite Hitems, Hhit. done.
Qed.

Lemma get_block_by_number_miss n self :
  LRU.len (blocks_cache self) <> 0%nat ->
  LRU.assoc n (LRU.items (blocks_cache self)) = None ->
  get_block_by_number n self = next_or_none (yield_blocks_from n) self.
Proof.
  intros Hlen Hmiss. unfold get_block_by_number, bind, gets, assert.
  rewrite (proj2 (Nat.eqb_neq _ _) Hlen). cbn [negb]. unfold ret at 1.
  unfold LRU.get. rewrite Hmiss. unfold modify. by rewrite set_blocks_cache_id.
Qed.

(** The chunk files that [yield_blocks_from] skips. *)
Definition ends_below (n : Z) (file_path : string) : Prop :=
  exists meta, get_block_chunk_file_path_meta file_path = Ok (Some meta) /\ end_ meta < n.

Lemma yield_blocks_from_skips n paths self :
  (forall p, p ∈ paths -> ends_below n p) ->
  gen_for paths (fun file_path =>
    gen_call (lift (get_block_chunk_file_path_meta file_path)) (fun meta =>
      match meta with
      | None => gen_return
      | Some meta =>
          if end_ meta <? n then gen_return
          else _yield_blocks_from_file_cached file_path 1
                 (Some (Z.max (FileBlockchain.start meta) n))
      end)) self = ([], (None, self)).
Proof.
  induction paths as [|p paths IH]; intros Hskip; [done|].
  destruct (Hskip p (list_elem_of_here _ _)) as (meta & Hmeta & Hend).
  cbn [gen_for]. unfold gen_app, gen_call at 1, lift at 1. rewrite Hmeta.
  rewrite (proj2 (Z.ltb_lt _ _) Hend). unfold gen_return at 1.
  rewrite IH; [done|]. intros q Hq. apply Hskip. by apply list_elem_of_further.
Qed.

Lemma yield_blocks_from_none n self :
  (forall p, p ∈ stored_names (block_storage self) -> ends_below n p) ->
  yield_blocks_from n self = ([], (None, self)).
Proof.
  intros Hskip. unfold yield_blocks_from, gen_call at 1, _list_block_directory,
    on_block_storage.
  rewrite list_directory_forward, set_block_storage_id.
  apply yield_blocks_from_skips. intros p Hp. apply Hskip.
  by rewrite merge_sort_Permutation in Hp.
Qed.

(** In a reached state every chunk file ends below the length of the chain. *)
Lemma reachable_ends_below chain self n :
  reachable chain self -> Z.of_nat (length chain) <= n ->
  forall p, p ∈ stored_names (block_storage self) -> ends_below n p.
Proof.
  intros Hreach Hn p
    (key & -> & ([key' f] & -> & Hf%elem_of_map_to_list)%list_elem_of_fmap)%list_elem_of_fmap.
  destruct (reachable_store_inv chain self Hreach) as (Hs & _ & Hfiles & _).
  cbn [fst].
  destruct (chunk_file_name chain _ key' f Hs (Hfiles _ _ Hf))
    as (a & z & co & -> & Hr & _).
  pose proof (chunk_range_bounds _ _ _ _ Hs Hr) as (Haz & HzL & _).
  rewrite chunk_name_strip.
  pose proof (chunk_name_meta a z ltac:(lia) ltac:(lia) None) as Hm.
  simpl tail_of in Hm. rewrite append_empty_r in Hm.
  eexists. split; [exact Hm|]. simpl. lia.
Qed.

(** On an empty cache the assertion of [get_block_by_number] fails, whatever
    the block storage holds. *)
Lemma get_block_by_number_empty_cache n self :
  LRU.len (blocks_cache self) = 0%nat ->
  get_block_by_number n self = (Raise AssertionError, self).
Proof.
  intros Hlen. unfold get_block_by_number, bind, gets, assert. by rewrite Hlen.
Qed.

(** What [get_block_by_number(n)] computes on a non-empty blocks cache: the
    cached block when [n] is in the cache, and otherwise the first block that
    [yield_blocks_from(n)] yields, without comparing its number with [n];
    that is [None] when every chunk file's parsed end is below [n], as it is
    in every reached state whose chain has no block numbered [n] or above. *)
Lemma get_block_by_number_lookup (n : Z) (self : FileBlockchain)
    (Hcache : LRU.len (blocks_cache self) <> 0%nat) :
  (forall block, LRU.assoc n (LRU.items (blocks_cache self)) = Some block ->
     fst (get_block_by_number n self) = Ok (Some block)) /\
  (LRU.assoc n (LRU.items (blocks_cache self)) = None ->
     get_block_by_number n self = next_or_none (yield_blocks_from n) self /\
     ((forall p, p ∈ stored_names (block_storage self) -> ends_below n p) ->
      get_block_by_number n self = (Ok None, self)) /\
     (forall chain, reachable chain self -> Z.of_nat (length chain) <= n ->
      get_block_by_number n self = (Ok None, self))).
Proof.
  split; [intros block; apply get_block_by_number_hit|].
  intros Hmiss.
  assert (Hnone : (forall p, p ∈ stored_names (block_storage self) -> ends_below n p) ->
                  get_block_by_number n self = (Ok None, self)).
  { intros Hskip. rewrite get_block_by_number_miss by done.
    unfold next_or_none. by rewrite yield_blocks_from_none. }
  split; [by apply get_block_by_number_miss|]. split; [done|].
  intros chain Hreach Hn. apply Hnone. by apply (reachable_ends_below chain).
Qed.

End BlockLookup.

Section BlockLookupWitness.

#[local] Existing Instance Demo.codecs.
#[local] Existing Instance Demo.block_model.
#[local] Existing Instance Demo.state_model.
#[local] Existing Instance path_optimized.

Lemma reachable_four_blocks_read :
  reachable [Byte.x00; Byte.x01; Byte.x02; Byte.x03] Demo.four_blocks_read.
Proof.
  change [Byte.x00; Byte.x01; Byte.x02; Byte.x03]
    with (((([] ++ [Byte.x00]) ++ [Byte.x01]) ++ [Byte.x02]) ++ [Byte.x03]).
  set (start := set_blocks_cache Demo.block_3_cached (Demo.empty_blockchain 100)).
  apply (reachable_add_block _
           (Demo.after_add_blocks [Byte.x00; Byte.x01; Byte.x02] start));
    [|reflexivity|vm_compute; reflexivity].
  apply (reachable_add_block _ (Demo.after_add_blocks [Byte.x00; Byte.x01] start));
    [|reflexivity|vm_compute; reflexivity].
  apply (reachable_add_block _ (Demo.after_add_blocks [Byte.x00] start));
    [|reflexivity|vm_compute; reflexivity].
  apply (reachable_add_block _ start); [|reflexivity|vm_compute; reflexivity].
  apply (@reachable_empty Demo.codecs Demo.block_model Demo.state_model start);
    [simpl; lia|reflexivity].
Defined.

(** C8: [get_block_by_number] evaluated where it departs from the claim. The
    store of spec S1 holds the blocks 0 to 3 and none numbered -1, and block 3
    is in the blocks cache; [get_block_by_number(-1)] misses the cache, takes
    the first block of [yield_blocks_from(-1)] and returns block 0, where the
    claim has [None] for a number that no stored block has. *)
Lemma C8_get_block_by_number_below_first :
  fst (to_list yield_blocks Demo.four_blocks_read) =
    Ok [Byte.x00; Byte.x01; Byte.x02; Byte.x03] /\
  Forall (fun b => block_number b <> -1) [Byte.x00; Byte.x01; Byte.x02; Byte.x03] /\
  fst (get_block_by_number (-1) Demo.four_blocks_read) = Ok (Some Byte.x00) /\
  fst (get_block_by_number (-1) Demo.four_blocks_read) <> Ok None.
Proof.
  split; [vm_compute; reflexivity|]. split.
  - repeat constructor; vm_compute; discriminate.
  - assert (Hrun : fst (get_block_by_number (-1) Demo.four_blocks_read) = Ok (Some Byte.x00))
      by (vm_compute; reflexivity).
    split; [done|]. rewrite Hrun. discriminate.
Qed.

Lemma get_block_by_number_lookup_witness :
  get_block_by_number 999 Demo.four_blocks_read = (Ok None, Demo.four_blocks_read) /\
  fst (get_block_by_number 3 Demo.four_blocks_read) = Ok (Some Byte.x03).
Proof.
  assert (Hcache : LRU.len (blocks_cache Demo.four_blocks_read) <> 0%nat)
    by (vm_compute; discriminate).
  split.
  - destruct (get_block_by_number_lookup 999 Demo.four_blocks_read Hcache)
      as [_ Hmiss].
    destruct (Hmiss eq_refl) as (_ & _ & Hnone).
    apply (Hnone [Byte.x00; Byte.x01; Byte.x02; Byte.x03] reachable_four_blocks_read).
    vm_compute. discriminate.
  - destruct (get_block_by_number_lookup 3 Demo.four_blocks_read Hcache)
      as [Hhit _].
    by apply Hhit.
Defined.

End BlockLookupWitness.


Import Serializable.

(** ** Serialization round trips *)

Lemma py_eqb_eq a b : py_eqb a b = true -> a = b.
Proof.
  destruct a, b; simpl; try done.
  - intros Heq%Z.eqb_eq. congruence.
  - intros Heq%String.eqb_eq. congruence.
  - intros Heq%Z.eqb_eq. congruence.
Qed.

Lemma py_eqb_str s t : py_eqb (VStr s) (VStr t) = bool_decide (s = t).
Proof.
  simpl. destruct (String.eqb_spec s t) as [->|Hne].
  - by rewrite bool_decide_true.
  - by rewrite bool_decide_false.
Qed.

Lemma py_eqb_ne a b : a <> b -> py_eqb a b = false.
Proof.
  intros Hne. destruct (py_eqb a b) eqn:E; [|done]. by apply py_eqb_eq in E.
Qed.

Lemma dict_get_None key (d : dict) : key ∉ d.*1 -> dict_get key d = None.
Proof.
  induction d as [|[k v] d IH]; [done|]. simpl.
  intros Hnot. apply not_elem_of_cons in Hnot as [Hne Hnot].
  rewrite py_eqb_ne by done. by apply IH.
Qed.

Lemma dict_set_fresh key v (d : dict) : key ∉ d.*1 -> dict_set key v d = d ++ [(key, v)].
Proof.
  induction d as [|[k w] d IH]; [done|]. simpl.
  intros Hnot. apply not_elem_of_cons in Hnot as [Hne Hnot].
  rewrite py_eqb_ne by done. by rewrite IH.
Qed.

Lemma dict_get_app key (d d' : dict) :
  dict_get key (d ++ d') =
  match dict_get key d with Some v => Some v | None => dict_get key d' end.
Proof.
  induction d as [|[k v] d IH]; [done|]. simpl. by destruct (py_eqb k key).
Qed.

Lemma res_map_ok {A B} (f : A -> res B) (g : A -> B) (l : list A) :
  (forall x, x ∈ l -> f x = Ok (g x)) -> res_map f l = Ok (g <$> l).
Proof.
  induction l as [|x l IH]; intros Hf; [done|]. simpl.
  rewrite (Hf x (list_elem_of_here _ _)). simpl.
  rewrite IH; [done|]. intros y Hy. apply Hf. by apply list_elem_of_further.
Qed.

(** A loop that sets one fresh key per element, or none. *)
Lemma res_fold_append {A} (f : dict -> A -> res dict) (g : A -> option (value * value))
    (l : list A) (acc : dict) :
  (forall acc' x, x ∈ l ->
     f acc' x = Ok (match g x with
                    | Some kv => dict_set (fst kv) (snd kv) acc'
                    | None => acc'
                    end)) ->
  NoDup ((acc ++ omap g l).*1) ->
  res_fold f l acc = Ok (acc ++ omap g l).
Proof.
  revert acc. induction l as [|x l IH]; intros acc Hf Hnodup.
  - simpl. by rewrite app_nil_r.
  - simpl. rewrite (Hf acc x (list_elem_of_here _ _)). simpl.
    assert (Hf' : forall acc' y, y ∈ l ->
              f acc' y = Ok (match g y with
                             | Some kv => dict_set (fst kv) (snd kv) acc'
                             | None => acc'
                             end)).
    { intros acc' y Hy. apply Hf. by apply list_elem_of_further. }
    csimpl in Hnodup. csimpl. destruct (g x) as [[k v]|] eqn:Hg.
    + simpl in *. rewrite fmap_app, fmap_cons in Hnodup.
      rewrite dict_set_fresh; last first.
      { apply NoDup_app in Hnodup as (_ & Hdisj & _). intros Hin.
        apply (Hdisj k Hin). apply list_elem_of_here. }
      rewrite IH; [|done|].
      * f_equal. rewrite <- app_assoc. reflexivity.
      * rewrite <- app_assoc, fmap_app. exact Hnodup.
    + by apply IH.
Qed.

Lemma res_map_inverse {A B} (f : B -> res A) (g : A -> B) (l : list A) :
  (forall x, x ∈ l -> f (g x) = Ok x) -> res_map f (g <$> l) = Ok l.
Proof.
  induction l as [|x l IH]; intros Hf; [done|]. csimpl.
  rewrite (Hf x (list_elem_of_here _ _)). simpl.
  rewrite IH; [done|]. intros y Hy. apply Hf. by apply list_elem_of_further.
Qed.

(** *** Well-formed values *)

Definition leaf_typed (t : field_type) (v : value) : Prop :=
  match t, v with
  | T_int, VInt _ | T_str, VStr _ | T_datetime, VDatetime _ => True
  | _, _ => False
  end.

Definition is_leaf (t : field_type) : bool :=
  match t with T_int | T_str | T_datetime => true | _ => false end.

Section Typing.
Context `{Dataclasses}.

(** The instances of the classes with the mixin that may occur inside. *)
Variable instance : string -> value -> Prop.

(** What a list or dictionary field holds: values of a plain type or
    instances. *)
Definition item_typed (t : field_type) (v : value) : Prop :=
  match t with
  | T_class cls => instance cls v
  | T_list _ | T_dict _ _ => False
  | _ => leaf_typed t v
  end.

(** A dictionary has one item per key, and keys of a plain type. *)
Definition field_typed (t : field_type) (v : value) : Prop :=
  match t with
  | T_class cls => instance cls v
  | T_list item => exists items, v = VList items /\ Forall (item_typed item) items
  | T_dict key item =>
      exists items, v = VDict items /\ is_leaf key = true /\ NoDup items.*1 /\
        Forall (fun kv => leaf_typed key (fst kv) /\ item_typed item (snd kv)) items
  | _ => leaf_typed t v
  end.

(** Only an optional field is [None]. *)
Definition attr_typed (f : Field) (attr : string * value) : Prop :=
  fst attr = field_name f /\
  if is_none (snd attr) then optional f = true
  else field_typed (type_of f) (snd attr).

Definition object_typed (cls : string) (v : value) : Prop :=
  exists attrs, v = VObject cls attrs /\
    NoDup (get_field_names cls) /\ Forall2 attr_typed (get_fields cls) attrs.

End Typing.

(** The instances of the classes that keep the methods of the mixin, with
    instances nested [depth] deep at most. *)
Fixpoint instance_of `{Dataclasses} (depth : nat) (cls : string) (v : value) : Prop :=
  match depth with
  | O => False
  | S depth =>
      cls <> "BlockchainStateMessage" /\ object_typed (instance_of depth) cls v
  end.

(** *** One level of the round trip *)

Section Level.
Context `{Dataclasses} `{Coercion}.

Hypothesis coerce_leaf :
  forall t v, leaf_typed t v -> coerce_from_json_type (coerce_to_json_type v) t = Ok v.

(** The methods that the nested instances are serialized and deserialized
    with, and that they come back from them. *)
Variable method : value -> bool -> bool -> list string -> res value.
Variable classmethod : string -> value -> bool -> dict -> res value.
Variable instance : string -> value -> Prop.
Hypothesis instance_object : forall cls v, instance cls v -> is_serializable v = true.
Hypothesis instance_roundtrip :
  forall cls v, instance cls v ->
    exists d, method v true true [] = Ok d /\ classmethod cls d true [] = Ok v.

Definition ser_item (v : value) : value :=
  match serialize_item method v true true with Ok d => d | Raise _ => VNone end.

Definition ser (v : value) : value :=
  match serialize_value method v true true with Ok d => d | Raise _ => VNone end.

(** What the loop of [deserialize_from_dict] does with the value of a field. *)
Definition deserialize_field (t : field_type) (d : value) : res value :=
  match t with
  | T_class field_cls => classmethod field_cls d true []
  | T_list _ => deserialize_from_inner_list classmethod t d true
  | T_dict _ _ => deserialize_from_inner_dict classmethod t d true
  | _ => coerce_from_json_type d t
  end.

Lemma leaf_not_serializable t v : leaf_typed t v -> is_serializable v = false.
Proof. by destruct t, v. Qed.

Lemma leaf_ser_item t v : leaf_typed t v -> ser_item v = coerce_to_json_type v.
Proof.
  intros Hv. unfold ser_item, serialize_item.
  by rewrite (leaf_not_serializable t v Hv).
Qed.

Lemma item_roundtrip t v :
  item_typed instance t v ->
  serialize_item method v true true = Ok (ser_item v) /\
  deserialize_item classmethod (ser_item v) t true [] = Ok v.
Proof.
  assert (Hleaf : leaf_typed t v -> is_leaf t = true ->
            serialize_item method v true true = Ok (ser_item v) /\
            deserialize_item classmethod (ser_item v) t true [] = Ok v).
  { intros Hv Ht. rewrite (leaf_ser_item t v Hv).
    unfold serialize_item. rewrite (leaf_not_serializable t v Hv).
    split; [done|]. destruct t; try done; by apply coerce_leaf. }
  destruct t as [| | |item|key item|cls]; simpl; try (by intros; apply Hleaf); try done.
  intros Hv. destruct (instance_roundtrip cls v Hv) as (d & Hser & Hdeser).
  unfold ser_item, serialize_item. rewrite (instance_object cls v Hv), Hser. done.
Qed.

Lemma ser_item_inj t k k' :
  leaf_typed t k -> leaf_typed t k' -> ser_item k = ser_item k' -> k = k'.
Proof.
  intros Hk Hk'. rewrite (leaf_ser_item t k Hk), (leaf_ser_item t k' Hk').
  intros Heq. pose proof (coerce_leaf t k Hk) as H1.
  rewrite Heq, (coerce_leaf t k' Hk') in H1. congruence.
Qed.

Lemma field_roundtrip t v :
  field_typed instance t v ->
  serialize_value method v true true = Ok (ser v) /\
  deserialize_field t (ser v) = Ok v.
Proof.
  assert (Hok : forall d, serialize_value method v true true = Ok d ->
            deserialize_field t d = Ok v ->
            serialize_value method v true true = Ok (ser v) /\
            deserialize_field t (ser v) = Ok v).
  { intros d Hser Hdeser. unfold ser. by rewrite Hser. }
  destruct t as [| | |item|key item|cls]; simpl field_typed.
  - intros Hv. destruct v; try done. apply (Hok (coerce_to_json_type (VInt n))); [done|].
    by apply (coerce_leaf T_int).
  - intros Hv. destruct v; try done. apply (Hok (coerce_to_json_type (VStr s))); [done|].
    by apply (coerce_leaf T_str).
  - intros Hv. destruct v; try done. apply (Hok (coerce_to_json_type (VDatetime t))); [done|].
    by apply (coerce_leaf T_datetime).
  - intros (items & -> & Hitems). rewrite Forall_forall in Hitems.
    apply (Hok (VList (ser_item <$> items))).
    + simpl. rewrite (res_map_ok _ ser_item); [done|].
      intros x Hx. by apply (item_roundtrip item), Hitems.
    + simpl. rewrite res_map_inverse; [done|].
      intros x Hx. by apply (item_roundtrip item), Hitems.
  - intros (items & -> & Hkey & Hnodup & Hitems). rewrite Forall_forall in Hitems.
    set (g := fun kv : value * value => Some (ser_item (fst kv), ser_item (snd kv))).
    assert (Hg : omap g items = (fun kv => (ser_item (fst kv), ser_item (snd kv))) <$> items).
    { clear. induction items as [|kv items IH]; [done|]. csimpl. by rewrite IH. }
    apply (Hok (VDict (omap g items))).
    + simpl. rewrite (res_fold_append _ g); [done| |].
      * intros acc' kv Hkv. destruct (Hitems kv Hkv) as [Hk Hv].
        rewrite (proj1 (item_roundtrip key (fst kv) ltac:(by destruct key))).
        by rewrite (proj1 (item_roundtrip item (snd kv) Hv)).
      * simpl. rewrite Hg, <- list_fmap_compose.
        change (NoDup ((ser_item ∘ fst) <$> items)). rewrite list_fmap_compose.
        apply NoDup_fmap_2_strong; [|done].
        intros k k' [kv [-> Hkv]]%list_elem_of_fmap [kv' [-> Hkv']]%list_elem_of_fmap.
        apply (ser_item_inj key); by apply Hitems.
    + simpl. rewrite Hg.
      set (g' := fun kv : value * value =>
                   Some (match deserialize_item classmethod (fst kv) key true [] with
                         | Ok k => k | Raise _ => VNone end,
                         match deserialize_item classmethod (snd kv) item true [] with
                         | Ok x => x | Raise _ => VNone end)).
      assert (Hback : omap g' ((fun kv => (ser_item (fst kv), ser_item (snd kv))) <$> items)
                      = items).
      { clear -Hitems coerce_leaf instance_object instance_roundtrip Hkey.
        induction items as [|[k x] items IH]; [done|]. csimpl.
        destruct (Hitems (k, x) (list_elem_of_here _ _)) as [Hk Hx]. simpl in Hk, Hx.
        rewrite (proj2 (item_roundtrip key k ltac:(by destruct key))).
        rewrite (proj2 (item_roundtrip item x Hx)).
        f_equal. apply IH. intros kv Hkv. apply Hitems. by apply list_elem_of_further. }
      rewrite (res_fold_append _ g'); [by rewrite Hback| |].
      * intros acc' kv [kv0 [-> Hkv0]]%list_elem_of_fmap.
        destruct (Hitems kv0 Hkv0) as [Hk Hx]. simpl.
        rewrite (proj2 (item_roundtrip key (fst kv0) ltac:(by destruct key))).
        by rewrite (proj2 (item_roundtrip item (snd kv0) Hx)).
      * simpl. by rewrite Hback.
  - intros Hv. destruct (instance_roundtrip cls v Hv) as (d & Hser & Hdeser).
    pose proof (instance_object cls v Hv) as Hobj.
    destruct v; try done. by apply (Hok d).
Qed.

(** *** The fields of an instance *)

(** The items of the serialized instance: the fields that are not excluded
    and not [None]. *)
Definition present (exclude : list string) (attrs : list (string * value)) : dict :=
  omap (fun attr =>
          if bool_decide (fst attr ∈ exclude) || is_none (snd attr) then None
          else Some (VStr (fst attr), ser (snd attr))) attrs.

(** The same fields with their values. *)
Definition kept (exclude : list string) (attrs : list (string * value)) : dict :=
  omap (fun attr =>
          if bool_decide (fst attr ∈ exclude) || is_none (snd attr) then None
          else Some (VStr (fst attr), snd attr)) attrs.

Lemma attrs_names fields attrs :
  Forall2 (attr_typed instance) fields attrs -> attrs.*1 = field_name <$> fields.
Proof.
  induction 1 as [|f attr fields attrs [Hname _] _ IH]; [done|].
  csimpl. by rewrite Hname, IH.
Qed.

Lemma omap_keys {A} (name : A -> string) (g : A -> option (value * value)) (l : list A) :
  (forall x kv, g x = Some kv -> fst kv = VStr (name x)) ->
  forall key, key ∈ (omap g l).*1 -> exists x, x ∈ l /\ key = VStr (name x).
Proof.
  intros Hg key [kv [-> Hkv]]%list_elem_of_fmap.
  apply list_elem_of_omap in Hkv as (x & Hx & Hgx).
  exists x. split; [done|]. by apply Hg.
Qed.

Lemma omap_keys_NoDup {A} (name : A -> string) (g : A -> option (value * value))
    (l : list A) :
  (forall x kv, g x = Some kv -> fst kv = VStr (name x)) ->
  NoDup (name <$> l) -> NoDup (omap g l).*1.
Proof.
  intros Hg. induction l as [|x l IH]; intros Hnodup; [constructor|].
  csimpl in Hnodup. apply NoDup_cons in Hnodup as [Hx Hnodup].
  csimpl. destruct (g x) as [kv|] eqn:Hgx; [|by apply IH].
  csimpl. constructor; [|by apply IH].
  intros (y & Hy & Heq)%(omap_keys name g l Hg).
  rewrite (Hg x kv Hgx) in Heq. injection Heq as Heq.
  apply Hx. rewrite Heq. by apply list_elem_of_fmap_2.
Qed.

Lemma present_keys exclude attrs key :
  key ∈ (present exclude attrs).*1 ->
  exists attr, attr ∈ attrs /\ key = VStr (fst attr) /\ (fst attr ∉ exclude) /\
               is_none (snd attr) = false.
Proof.
  intros [kv [-> Hkv]]%list_elem_of_fmap.
  apply list_elem_of_omap in Hkv as (attr & Hattr & Hg).
  exists attr. split; [done|].
  case_bool_decide as Hex; [done|]. destruct (is_none (snd attr)); [done|].
  simpl in Hg. injection Hg as <-. done.
Qed.

Lemma kept_keys exclude attrs key :
  key ∈ (kept exclude attrs).*1 ->
  exists attr, attr ∈ attrs /\ key = VStr (fst attr) /\ (fst attr ∉ exclude) /\
               is_none (snd attr) = false.
Proof.
  intros [kv [-> Hkv]]%list_elem_of_fmap.
  apply list_elem_of_omap in Hkv as (attr & Hattr & Hg).
  exists attr. split; [done|].
  case_bool_decide as Hex; [done|]. destruct (is_none (snd attr)); [done|].
  simpl in Hg. injection Hg as <-. done.
Qed.

Lemma present_NoDup exclude attrs : NoDup attrs.*1 -> NoDup (present exclude attrs).*1.
Proof.
  apply (omap_keys_NoDup fst). intros attr kv.
  destruct (_ || _); [done|]. by intros [= <-].
Qed.

Lemma kept_NoDup exclude attrs : NoDup attrs.*1 -> NoDup (kept exclude attrs).*1.
Proof.
  apply (omap_keys_NoDup fst). intros attr kv.
  destruct (_ || _); [done|]. by intros [= <-].
Qed.

(** [SerializableMixin.serialize_to_dict] on a well-formed instance. *)
Lemma serialize_to_dict_present cls fields attrs exclude :
  Forall2 (attr_typed instance) fields attrs ->
  NoDup (field_name <$> fields) ->
  serialize_to_dict method (VObject cls attrs) true true exclude =
  Ok (VDict (present exclude attrs)).
Proof.
  intros Htyped Hnodup. unfold serialize_to_dict.
  rewrite (res_fold_append _
             (fun attr =>
                if bool_decide (fst attr ∈ exclude) || is_none (snd attr) then None
                else Some (VStr (fst attr), ser (snd attr)))); [done| |].
  - intros acc' attr Hattr. cbv zeta.
    case_bool_decide as Hex; [done|]. rewrite andb_true_r. simpl orb.
    destruct (is_none (snd attr)) eqn:Hnone; [done|].
    apply list_elem_of_lookup in Hattr as [i Hi].
    destruct (Forall2_lookup_r _ _ _ _ _ Htyped Hi) as (f & _ & _ & Hf).
    rewrite Hnone in Hf.
    by rewrite (proj1 (field_roundtrip (type_of f) (snd attr) Hf)).
  - simpl. apply present_NoDup. by rewrite (attrs_names fields).
Qed.

Lemma dict_get_NoDup key v (d : dict) :
  NoDup d.*1 -> (key, v) ∈ d -> py_eqb key key = true -> dict_get key d = Some v.
Proof.
  intros Hnodup Hin Hrefl. induction d as [|[k w] d IH]; [by apply not_elem_of_nil in Hin|].
  csimpl in Hnodup. apply NoDup_cons in Hnodup as [Hk Hnodup]. simpl.
  apply elem_of_cons in Hin as [[= <- <-]|Hin]; [by rewrite Hrefl|].
  rewrite py_eqb_ne; [by apply IH|].
  intros ->. apply Hk. by apply (list_elem_of_fmap_2 fst) in Hin.
Qed.

Lemma py_eqb_refl_str s : py_eqb (VStr s) (VStr s) = true.
Proof. simpl. apply String.eqb_refl. Qed.

Lemma find_field_Some cls f :
  NoDup (get_field_names cls) -> f ∈ get_fields cls ->
  find_field cls (field_name f) = Some f.
Proof.
  unfold find_field, get_field_names.
  induction (get_fields cls) as [|f' fields IH]; intros Hnodup Hin;
    [by apply not_elem_of_nil in Hin|].
  csimpl in Hnodup. apply NoDup_cons in Hnodup as [Hf' Hnodup]. simpl.
  apply elem_of_cons in Hin as [->|Hin]; [by rewrite String.eqb_refl|].
  destruct (String.eqb_spec (field_name f') (field_name f)) as [Heq|Hne];
    [|by apply IH].
  exfalso. apply Hf'. rewrite Heq. by apply list_elem_of_fmap_2.
Qed.

Lemma res_map_Forall2 {A B} (f : A -> res B) (l : list A) (k : list B) :
  Forall2 (fun x y => f x = Ok y) l k -> res_map f l = Ok k.
Proof. induction 1 as [|x y l k Hxy _ IH]; [done|]. simpl. by rewrite Hxy, IH. Qed.

Lemma NoDup_fst_eq {A B} (l : list (A * B)) x y y' :
  NoDup l.*1 -> (x, y) ∈ l -> (x, y') ∈ l -> y = y'.
Proof.
  induction l as [|[a b] l IH]; intros Hnodup Hy Hy'; [by apply not_elem_of_nil in Hy|].
  csimpl in Hnodup. apply NoDup_cons in Hnodup as [Ha Hnodup].
  apply elem_of_cons in Hy as [Hy|Hy]; apply elem_of_cons in Hy' as [Hy'|Hy'].
  - congruence.
  - exfalso. apply Ha. apply (list_elem_of_fmap_2 fst) in Hy'. simpl in Hy'. congruence.
  - exfalso. apply Ha. apply (list_elem_of_fmap_2 fst) in Hy. simpl in Hy. congruence.
  - by apply IH.
Qed.

Lemma omap_omap_ext {A B C} (g : A -> option B) (g' : B -> option C) (h : A -> option C)
    (l : list A) :
  (forall x, x ∈ l -> g x ≫= g' = h x) -> omap g' (omap g l) = omap h l.
Proof.
  induction l as [|x l IH]; intros Hext; [done|]. csimpl.
  rewrite <- (Hext x (list_elem_of_here _ _)).
  rewrite <- IH by (intros y Hy; apply Hext; by apply list_elem_of_further).
  by destruct (g x) as [b|]; csimpl; [destruct (g' b)|].
Qed.

(** The override that [BlockchainStateMessage] passes on, or none. *)
Definition exclude_of (ov : option (string * value)) : list string :=
  match ov with Some (x, _) => [x] | None => [] end.

Definition override_of (ov : option (string * value)) : dict :=
  match ov with Some (x, v) => [(VStr x, v)] | None => [] end.

(** [SerializableMixin.deserialize_from_dict] on the serialized fields that
    the override does not give. *)
Lemma deserialize_from_dict_present cls attrs ov :
  NoDup (get_field_names cls) ->
  Forall2 (attr_typed instance) (get_fields cls) attrs ->
  (forall x v, ov = Some (x, v) -> (x, v) ∈ attrs) ->
  deserialize_from_dict classmethod cls (VDict (present (exclude_of ov) attrs)) true
    (override_of ov) = Ok (VObject cls attrs).
Proof.
  intros Hnodup Htyped Hov.
  pose proof (attrs_names _ _ Htyped) as Hnames. fold (get_field_names cls) in Hnames.
  assert (Hattrs_nodup : NoDup attrs.*1) by (by rewrite Hnames).
  assert (Hfield : forall attr, attr ∈ attrs ->
            exists f, find_field cls (fst attr) = Some f /\ f ∈ get_fields cls /\
                      attr_typed instance f attr).
  { intros attr [i Hi]%list_elem_of_lookup.
    destruct (Forall2_lookup_r _ _ _ _ _ Htyped Hi) as (f & Hf & Ht).
    exists f. pose proof (list_elem_of_lookup_2 _ _ _ Hf) as Hin.
    split; [|done]. destruct Ht as [-> _]. by apply find_field_Some. }
  assert (Hcontains : forall name, dict_contains (VStr name) (override_of ov) =
                                   bool_decide (name ∈ exclude_of ov)).
  { intros name. unfold dict_contains, override_of, exclude_of.
    destruct ov as [[x vx]|]; cbn [dict_get py_eqb].
    - destruct (String.eqb_spec x name) as [->|Hne].
      + rewrite bool_decide_true; [done|]. apply list_elem_of_here.
      + rewrite bool_decide_false; [done|]. by intros ->%list_elem_of_singleton.
    - rewrite bool_decide_false; [done|]. apply not_elem_of_nil. }
  unfold deserialize_from_dict. simpl py_items. unfold res_bind at 1.
  (* no key is missing *)
  assert (Hmissing :
    filter (fun key : string =>
              negb (dict_contains (VStr key) (present (exclude_of ov) attrs)) &&
              negb (dict_contains (VStr key) (override_of ov)) &&
              negb (is_optional_field cls key)) (get_field_names cls) = []).
  { apply elem_of_nil_inv. intros key [Hcond Hkey]%list_elem_of_filter.
    rewrite <- Hnames in Hkey. apply list_elem_of_fmap in Hkey as ([name v] & -> & Hattr).
    simpl in Hcond. destruct (Hfield _ Hattr) as (f & Hfind & _ & _ & Hv).
    simpl in Hfind, Hv. rewrite Hcontains in Hcond.
    unfold is_optional_field in Hcond. rewrite Hfind in Hcond.
    case_bool_decide as Hex; [by rewrite andb_false_r in Hcond|].
    destruct (is_none v) eqn:Hnone; [by rewrite Hv, andb_false_r in Hcond|].
    unfold dict_contains in Hcond.
    rewrite (dict_get_NoDup (VStr name) (ser v)) in Hcond; [done| | |].
    - by apply present_NoDup.
    - apply list_elem_of_omap. exists (name, v). split; [done|]. simpl.
      by rewrite bool_decide_false, Hnone.
    - apply py_eqb_refl_str. }
  rewrite Hmissing.
  (* the loop over the items *)
  set (g' := fun kv : value * value =>
               match fst kv with
               | VStr name =>
                   match find_field cls name with
                   | Some f =>
                       match deserialize_field (type_of f) (snd kv) with
                       | Ok v => Some (fst kv, v)
                       | Raise _ => None
                       end
                   | None => None
                   end
               | _ => None
               end).
  assert (Hback : omap g' (present (exclude_of ov) attrs) = kept (exclude_of ov) attrs).
  { apply omap_omap_ext. intros attr Hattr.
    destruct (_ || _) eqn:Hskip; [done|]. csimpl.
    apply orb_false_iff in Hskip as [_ Hnone].
    destruct (Hfield _ Hattr) as (f & Hfind & _ & _ & Hv). rewrite Hnone in Hv.
    unfold g'. simpl. rewrite Hfind.
    by rewrite (proj2 (field_roundtrip (type_of f) (snd attr) Hv)). }
  rewrite (res_fold_append _ g'); last first.
  { simpl. rewrite Hback. by apply kept_NoDup. }
  { intros acc' kv (attr & Hattr & Hg)%list_elem_of_omap. cbv zeta.
    case_bool_decide as Hex; [done|]. destruct (is_none (snd attr)) eqn:Hnone; [done|].
    simpl in Hg. injection Hg as <-. simpl fst. simpl snd.
    destruct (Hfield _ Hattr) as (f & Hfind & _ & _ & Hv). rewrite Hnone in Hv.
    rewrite Hcontains, (bool_decide_false _ Hex).
    rewrite bool_decide_true; last first.
    { rewrite <- Hnames. by apply (list_elem_of_fmap_2 fst) in Hattr. }
    unfold get_field_type, g'. simpl. rewrite Hfind. simpl.
    pose proof (proj2 (field_roundtrip (type_of f) (snd attr) Hv)) as Hdeser.
    rewrite Hdeser. unfold deserialize_field in Hdeser.
    by destruct (type_of f); rewrite Hdeser. }
  simpl app. rewrite Hback. unfold res_bind at 1.
  (* the keywords of the constructor *)
  assert (Hupdate : dict_update (kept (exclude_of ov) attrs) (override_of ov) =
                    kept (exclude_of ov) attrs ++ override_of ov).
  { destruct ov as [[x vx]|]; simpl; [|by rewrite app_nil_r].
    unfold dict_update. simpl. apply dict_set_fresh.
    intros (attr & _ & [= <-] & Hex & _)%kept_keys. apply Hex, list_elem_of_here. }
  rewrite Hupdate. unfold construct.
  assert (Hkeys : forallb (fun kv : value * value =>
                             match fst kv with
                             | VStr key => bool_decide (key ∈ get_field_names cls)
                             | _ => false
                             end) (kept (exclude_of ov) attrs ++ override_of ov) = true).
  { apply Is_true_eq_true, forallb_True, Forall_forall. intros kv Hkv.
    apply elem_of_app in Hkv as [Hkv|Hkv].
    - apply (list_elem_of_fmap_2 fst) in Hkv.
      apply kept_keys in Hkv as (attr & Hattr & -> & _).
      apply bool_decide_pack. rewrite <- Hnames.
      by apply (list_elem_of_fmap_2 fst) in Hattr.
    - destruct ov as [[x vx]|]; simpl in Hkv; [|by apply not_elem_of_nil in Hkv].
      apply list_elem_of_singleton in Hkv as ->. simpl.
      apply bool_decide_pack. rewrite <- Hnames.
      pose proof (Hov x vx eq_refl) as Hx.
      by apply (list_elem_of_fmap_2 fst) in Hx. }
  rewrite Hkeys.
  rewrite (res_map_Forall2 _ _ attrs); [done|].
  apply Forall2_same_length_lookup_2; [by eapply Forall2_length|].
  intros i f [name v] Hf Hattr.
  pose proof (Forall2_lookup_lr _ _ _ _ _ _ Htyped Hf Hattr) as [Hname Hv].
  simpl in Hname, Hv. subst name.
  pose proof (list_elem_of_lookup_2 _ _ _ Hattr) as Hin.
  rewrite dict_get_app.
  destruct (decide (field_name f ∈ exclude_of ov)) as [Hex|Hex].
  - rewrite dict_get_None; last first.
    { intros (attr & _ & [= Heq] & Hex' & _)%kept_keys. apply Hex'. by rewrite <- Heq. }
    destruct ov as [[x vx]|]; simpl in Hex; [|by apply not_elem_of_nil in Hex].
    apply list_elem_of_singleton in Hex as Heq. simpl. rewrite <- Heq, String.eqb_refl.
    do 2 f_equal. rewrite Heq in Hin.
    apply (NoDup_fst_eq attrs x); [done|by apply Hov|done].
  - destruct (is_none v) eqn:Hnone.
    + rewrite dict_get_None; last first.
      { intros (attr & Hattr' & [= Heq] & _ & Hnone')%kept_keys.
        destruct attr as [name' v']. simpl in *. subst name'.
        rewrite (NoDup_fst_eq attrs _ v' v Hattrs_nodup Hattr' Hin) in Hnone'. congruence. }
      assert (Hover : dict_get (VStr (field_name f)) (override_of ov) = None).
      { destruct ov as [[x vx]|]; [|done]. simpl.
        destruct (String.eqb_spec x (field_name f)) as [->|]; [|done].
        exfalso. apply Hex, list_elem_of_here. }
      rewrite Hover, Hv. by destruct v.
    + rewrite (dict_get_NoDup _ v); [done| | |apply py_eqb_refl_str].
      * by apply kept_NoDup.
      * apply list_elem_of_omap. exists (field_name f, v). split; [done|]. simpl.
        by rewrite bool_decide_false, Hnone.
Qed.

End Level.

(** *** The classes that keep the methods of the mixin *)

Section Generic.
Context `{Dataclasses} `{Coercion}.

Hypothesis coerce_leaf :
  forall t v, leaf_typed t v -> coerce_from_json_type (coerce_to_json_type v) t = Ok v.

Lemma instance_of_object depth cls v :
  instance_of depth cls v -> is_serializable v = true.
Proof. destruct depth; [done|]. by intros [_ (attrs & -> & _)]. Qed.

Lemma method_serialize_to_dict_plain limit cls attrs :
  cls <> "BlockchainStateMessage" ->
  method_serialize_to_dict (S limit) (VObject cls attrs) =
  serialize_to_dict (method_serialize_to_dict limit) (VObject cls attrs).
Proof.
  intros Hcls. simpl. by rewrite (proj2 (String.eqb_neq _ _) Hcls).
Qed.

Lemma classmethod_deserialize_from_dict_plain limit cls :
  cls <> "BlockchainStateMessage" ->
  classmethod_deserialize_from_dict (S limit) cls =
  deserialize_from_dict (classmethod_deserialize_from_dict limit) cls.
Proof.
  intros Hcls. simpl. unfold deserialize_from_dict_of.
  by rewrite (proj2 (String.eqb_neq _ _) Hcls).
Qed.

Lemma instance_of_roundtrip depth cls v :
  instance_of depth cls v ->
  exists d, method_serialize_to_dict depth v true true [] = Ok d /\
            classmethod_deserialize_from_dict depth cls d true [] = Ok v.
Proof.
  revert cls v. induction depth as [|depth IH]; intros cls v; [done|].
  intros [Hcls (attrs & -> & Hnodup & Htyped)].
  exists (VDict (present (method_serialize_to_dict depth) [] attrs)).
  rewrite method_serialize_to_dict_plain, classmethod_deserialize_from_dict_plain by done.
  split.
  - by apply (serialize_to_dict_present coerce_leaf _
                (classmethod_deserialize_from_dict depth) (instance_of depth)
                (instance_of_object depth) IH cls (get_fields cls)).
  - by apply (deserialize_from_dict_present coerce_leaf _
                (classmethod_deserialize_from_dict depth) (instance_of depth)
                (instance_of_object depth) IH cls attrs None).
Qed.

End Generic.

(** *** Attributes and the items of their serialization *)

Lemma attr_set_names x v (attrs : list (string * value)) :
  (attr_set x v attrs).*1 = attrs.*1.
Proof.
  induction attrs as [|[n w] attrs IH]; [done|]. simpl.
  destruct (String.eqb n x); [done|]. csimpl. by rewrite IH.
Qed.

Lemma attr_get_None x (attrs : list (string * value)) :
  x ∉ attrs.*1 -> attr_get x attrs = None.
Proof.
  induction attrs as [|[n w] attrs IH]; [done|]. simpl.
  intros [Hne Hnot]%not_elem_of_cons.
  rewrite (proj2 (String.eqb_neq n x)) by done. by apply IH.
Qed.

Lemma attr_get_elem x v (attrs : list (string * value)) :
  attr_get x attrs = Some v -> (x, v) ∈ attrs.
Proof.
  induction attrs as [|[n w] attrs IH]; [done|]. simpl.
  destruct (String.eqb_spec n x) as [->|Hne].
  - intros [= ->]. apply list_elem_of_here.
  - intros Hget. apply list_elem_of_further. by apply IH.
Qed.

Lemma attr_get_set x v (attrs : list (string * value)) :
  x ∈ attrs.*1 -> attr_get x (attr_set x v attrs) = Some v.
Proof.
  induction attrs as [|[n w] attrs IH]; [by intros ?%not_elem_of_nil|]. simpl.
  destruct (String.eqb_spec n x) as [->|Hne]; simpl.
  - by rewrite String.eqb_refl.
  - rewrite (proj2 (String.eqb_neq n x)) by done.
    intros [Heq|Hin]%elem_of_cons; [done|by apply IH].
Qed.

Lemma attr_get_set_ne x y v (attrs : list (string * value)) :
  x <> y -> attr_get y (attr_set x v attrs) = attr_get y attrs.
Proof.
  intros Hxy. induction attrs as [|[n w] attrs IH]; [done|]. simpl.
  destruct (String.eqb_spec n x) as [->|Hne]; simpl.
  - by rewrite (proj2 (String.eqb_neq x y)).
  - by rewrite IH.
Qed.

Lemma attr_set_set x v v' (attrs : list (string * value)) :
  attr_set x v (attr_set x v' attrs) = attr_set x v attrs.
Proof.
  induction attrs as [|[n w] attrs IH]; [done|]. simpl.
  destruct (String.eqb_spec n x) as [->|Hne]; simpl.
  - by rewrite String.eqb_refl.
  - by rewrite (proj2 (String.eqb_neq n x)), IH.
Qed.

Lemma attr_set_same x v (attrs : list (string * value)) :
  attr_get x attrs = Some v -> attr_set x v attrs = attrs.
Proof.
  induction attrs as [|[n w] attrs IH]; [done|]. simpl.
  destruct (String.eqb_spec n x) as [->|Hne].
  - by intros [= ->].
  - intros Hget. by rewrite IH.
Qed.

Lemma dict_remove_absent key (d : dict) : key ∉ d.*1 -> dict_remove key d = d.
Proof.
  induction d as [|[k w] d IH]; [done|]. simpl.
  intros [Hne Hnot]%not_elem_of_cons.
  rewrite py_eqb_ne by done. by rewrite IH.
Qed.

Lemma dict_get_set key v (d : dict) :
  py_eqb key key = true -> dict_get key (dict_set key v d) = Some v.
Proof.
  intros Hrefl. induction d as [|[k w] d IH]; simpl; [by rewrite Hrefl|].
  destruct (py_eqb k key) eqn:Hk; simpl; by rewrite Hk.
Qed.

Lemma dict_remove_set key v (d : dict) :
  py_eqb key key = true -> dict_remove key (dict_set key v d) = dict_remove key d.
Proof.
  intros Hrefl. induction d as [|[k w] d IH]; simpl; [by rewrite Hrefl|].
  destruct (py_eqb k key) eqn:Hk; simpl; rewrite Hk; [done|]. by rewrite IH.
Qed.

Section Present.
Context `{Coercion}.
Variable method : value -> bool -> bool -> list string -> res value.

Lemma present_cons exclude n v attrs :
  present method exclude ((n, v) :: attrs) =
  if bool_decide (n ∈ exclude) || is_none v then present method exclude attrs
  else (VStr n, ser method v) :: present method exclude attrs.
Proof. unfold present. csimpl. by destruct (_ || _). Qed.

Lemma present_key_absent exclude x attrs :
  x ∉ attrs.*1 -> VStr x ∉ (present method exclude attrs).*1.
Proof.
  intros Hnot (attr & Hattr & [= ->] & _)%present_keys.
  apply Hnot. by apply (list_elem_of_fmap_2 fst) in Hattr.
Qed.

Lemma present_exclude_absent x attrs :
  x ∉ attrs.*1 -> present method [x] attrs = present method [] attrs.
Proof.
  induction attrs as [|[n v] attrs IH]; [done|]. rewrite fmap_cons.
  intros [Hne Hnot]%not_elem_of_cons. cbn [fst] in *. rewrite !present_cons, IH by done.
  rewrite (bool_decide_false (n ∈ [x])) by (by intros ->%list_elem_of_singleton).
  by rewrite (bool_decide_false (n ∈ [])) by apply not_elem_of_nil.
Qed.

Lemma present_get x attrs :
  NoDup attrs.*1 ->
  dict_get (VStr x) (present method [] attrs) =
  match attr_get x attrs with
  | Some v => if is_none v then None else Some (ser method v)
  | None => None
  end.
Proof.
  induction attrs as [|[n v] attrs IH]; [done|]. rewrite fmap_cons.
  intros [Hn Hnodup]%NoDup_cons. cbn [fst] in *. rewrite present_cons.
  rewrite (bool_decide_false (n ∈ [])) by apply not_elem_of_nil. simpl orb.
  cbn [attr_get]. destruct (String.eqb_spec n x) as [->|Hne].
  - destruct (is_none v); [|by simpl; rewrite String.eqb_refl].
    apply dict_get_None. by apply present_key_absent.
  - destruct (is_none v); [by apply IH|].
    simpl. rewrite (proj2 (String.eqb_neq n x)) by done. by apply IH.
Qed.

Lemma present_exclude x attrs :
  NoDup attrs.*1 ->
  dict_remove (VStr x) (present method [] attrs) = present method [x] attrs.
Proof.
  induction attrs as [|[n v] attrs IH]; [done|]. rewrite fmap_cons.
  intros [Hn Hnodup]%NoDup_cons. cbn [fst] in *. rewrite !present_cons.
  rewrite (bool_decide_false (n ∈ [])) by apply not_elem_of_nil. simpl orb.
  destruct (String.eqb_spec n x) as [->|Hne].
  - rewrite (bool_decide_true (x ∈ [x])) by apply list_elem_of_here. simpl orb.
    rewrite present_exclude_absent by done.
    destruct (is_none v); [|by simpl; rewrite String.eqb_refl].
    apply dict_remove_absent. by apply present_key_absent.
  - rewrite (bool_decide_false (n ∈ [x])) by (by intros ->%list_elem_of_singleton).
    simpl orb. destruct (is_none v); [by apply IH|].
    simpl. rewrite (proj2 (String.eqb_neq n x)) by done. by rewrite IH.
Qed.

Lemma present_exclude_set x v attrs :
  present method [x] (attr_set x v attrs) = present method [x] attrs.
Proof.
  induction attrs as [|[n w] attrs IH]; [done|]. cbn [attr_set].
  destruct (String.eqb_spec n x) as [->|Hne].
  - rewrite !present_cons.
    by rewrite (bool_decide_true (x ∈ [x])) by apply list_elem_of_here.
  - by rewrite !present_cons, IH.
Qed.

Lemma present_set_none x attrs :
  NoDup attrs.*1 ->
  present method [] (attr_set x VNone attrs) = present method [x] attrs.
Proof.
  induction attrs as [|[n v] attrs IH]; [done|]. rewrite fmap_cons.
  intros [Hn Hnodup]%NoDup_cons. cbn [fst attr_set] in *.
  destruct (String.eqb_spec n x) as [->|Hne].
  - rewrite !present_cons.
    rewrite (bool_decide_true (x ∈ [x])) by apply list_elem_of_here.
    rewrite orb_true_r. simpl orb. by rewrite present_exclude_absent.
  - rewrite !present_cons, IH by done.
    rewrite (bool_decide_false (n ∈ [x])) by (by intros ->%list_elem_of_singleton).
    by rewrite (bool_decide_false (n ∈ [])) by apply not_elem_of_nil.
Qed.

Lemma present_set x v v' attrs :
  attr_get x attrs = Some v -> is_none v = false -> is_none v' = false ->
  dict_set (VStr x) (ser method v') (present method [] attrs) =
  present method [] (attr_set x v' attrs).
Proof.
  intros Hget Hv Hv'. induction attrs as [|[n w] attrs IH]; [done|].
  cbn [attr_get attr_set] in *.
  destruct (String.eqb_spec n x) as [->|Hne].
  - injection Hget as ->. rewrite !present_cons.
    rewrite (bool_decide_false (x ∈ [])) by apply not_elem_of_nil.
    rewrite Hv, Hv'. simpl. by rewrite String.eqb_refl.
  - rewrite !present_cons.
    rewrite (bool_decide_false (n ∈ [])) by apply not_elem_of_nil. simpl orb.
    destruct (is_none w); [by apply IH|].
    simpl. rewrite (proj2 (String.eqb_neq n x)) by done. by rewrite IH.
Qed.

Lemma present_nonempty x v attrs :
  attr_get x attrs = Some v -> is_none v = false -> present method [] attrs <> [].
Proof.
  intros Hget Hv Hnil.
  apply attr_get_elem in Hget.
  assert (Hin : (VStr x, ser method v) ∈ present method [] attrs).
  { apply list_elem_of_omap. exists (x, v). split; [done|]. cbn [fst snd].
    by rewrite (bool_decide_false (x ∈ [])), Hv by apply not_elem_of_nil. }
  rewrite Hnil in Hin. by apply not_elem_of_nil in Hin.
Qed.

End Present.

Section Plain.
Context `{Dataclasses} `{Coercion}.

Hypothesis coerce_leaf :
  forall t v, leaf_typed t v -> coerce_from_json_type (coerce_to_json_type v) t = Ok v.

Lemma plain_serialize depth cls attrs :
  cls <> "BlockchainStateMessage" ->
  NoDup (get_field_names cls) ->
  Forall2 (attr_typed (instance_of depth)) (get_fields cls) attrs ->
  method_serialize_to_dict (S depth) (VObject cls attrs) true true [] =
  Ok (VDict (present (method_serialize_to_dict depth) [] attrs)).
Proof.
  intros Hcls Hnodup Htyped. rewrite method_serialize_to_dict_plain by done.
  by apply (serialize_to_dict_present coerce_leaf _
              (classmethod_deserialize_from_dict depth) (instance_of depth)
              (instance_of_object depth) (instance_of_roundtrip coerce_leaf depth)
              cls (get_fields cls)).
Qed.

Lemma plain_deserialize depth cls attrs :
  cls <> "BlockchainStateMessage" ->
  NoDup (get_field_names cls) ->
  Forall2 (attr_typed (instance_of depth)) (get_fields cls) attrs ->
  classmethod_deserialize_from_dict (S depth) cls
    (VDict (present (method_serialize_to_dict depth) [] attrs)) true [] =
  Ok (VObject cls attrs).
Proof.
  intros Hcls Hnodup Htyped. rewrite classmethod_deserialize_from_dict_plain by done.
  by apply (deserialize_from_dict_present coerce_leaf _
              (classmethod_deserialize_from_dict depth) (instance_of depth)
              (instance_of_object depth) (instance_of_roundtrip coerce_leaf depth)
              cls attrs None).
Qed.

Lemma attr_typed_set (instance : string -> value -> Prop) fields attrs x v :
  Forall2 (attr_typed instance) fields attrs ->
  (forall f, f ∈ fields -> field_name f = x ->
     if is_none v then optional f = true else field_typed instance (type_of f) v) ->
  Forall2 (attr_typed instance) fields (attr_set x v attrs).
Proof.
  induction 1 as [|f [n w] fields attrs [Hname Hw] Htail IH]; intros Hv; [constructor|].
  simpl in Hname. subst n. cbn [attr_set].
  destruct (String.eqb_spec (field_name f) x) as [Heq|Hne].
  - constructor; [|done]. split; [done|]. apply Hv; [apply list_elem_of_here|done].
  - constructor; [by split|]. apply IH. intros f' Hf'. apply Hv.
    by apply list_elem_of_further.
Qed.

End Plain.

(** *** [BlockchainStateMessage] *)

(** The account state that comes back from the serialized blockchain state:
    a balance lock that is the account number is [None], and the node, if
    there is one, has the account number as its identifier. *)
Definition canonical_account_state (account_number account_state : value) : value :=
  match account_state with
  | VObject cls attrs =>
      let attrs :=
        if py_eqb (default VNone (attr_get "balance_lock" attrs)) account_number
        then attr_set "balance_lock" VNone attrs
        else attrs in
      match default VNone (attr_get "node" attrs) with
      | VObject node_cls node_attrs =>
          VObject cls
            (attr_set "node"
               (VObject node_cls (attr_set "identifier" account_number node_attrs))
               attrs)
      | _ => VObject cls attrs
      end
  | _ => account_state
  end.

Definition canonical_account_states (account_states : dict) : dict :=
  (fun kv => (fst kv, canonical_account_state (fst kv) (snd kv))) <$> account_states.

(** The blockchain state that comes back. *)
Definition canonical (blockchain_state : value) : value :=
  match blockchain_state with
  | VObject cls attrs =>
      match attr_get "account_states" attrs with
      | Some (VDict account_states) =>
          VObject cls
            (attr_set "account_states"
               (VDict (canonical_account_states account_states)) attrs)
      | _ => blockchain_state
      end
  | _ => blockchain_state
  end.

(** An account state that comes back as it is. *)
Definition normal_account_state (account_number account_state : value) : Prop :=
  match account_state with
  | VObject _ attrs =>
      py_eqb (default VNone (attr_get "balance_lock" attrs)) account_number = false /\
      match default VNone (attr_get "node" attrs) with
      | VObject _ node_attrs => attr_get "identifier" node_attrs = Some account_number
      | _ => True
      end
  | _ => True
  end.

Lemma canonical_account_state_normal account_number account_state :
  normal_account_state account_number account_state ->
  canonical_account_state account_number account_state = account_state.
Proof.
  destruct account_state as [| | | | | |cls attrs]; try done.
  intros [Hlock Hnode]. unfold canonical_account_state. rewrite Hlock.
  destruct (attr_get "node" attrs) as [node|] eqn:Hget; [|done]. simpl in *.
  destruct node as [| | | | | |node_cls node_attrs]; try done.
  by rewrite (attr_set_same _ _ _ Hnode), (attr_set_same _ _ _ Hget).
Qed.

Section BlockchainState.
Context `{Coercion}.
Variable others : string -> list Field.

#[local] Instance declared_dataclasses : Dataclasses := declared others.

Hypothesis coerce_leaf :
  forall t v, leaf_typed t v -> coerce_from_json_type (coerce_to_json_type v) t = Ok v.
Hypothesis coerce_str : forall s, coerce_to_json_type (VStr s) = VStr s.

Lemma ser_str method s : ser method (VStr s) = VStr s.
Proof. unfold ser. simpl. apply coerce_str. Qed.

Lemma ser_plain depth cls attrs :
  cls <> "BlockchainStateMessage" ->
  NoDup (get_field_names cls) ->
  Forall2 (attr_typed (instance_of depth)) (get_fields cls) attrs ->
  ser (method_serialize_to_dict (S depth)) (VObject cls attrs) =
  VDict (present (method_serialize_to_dict depth) [] attrs).
Proof.
  intros Hcls Hnodup Htyped. unfold ser. cbn [serialize_value].
  by rewrite (plain_serialize coerce_leaf).
Qed.

Lemma declared_names_NoDup cls :
  cls = "AccountState" \/ cls = "Node" \/ cls = "BlockchainStateMessage" ->
  NoDup (get_field_names cls).
Proof.
  intros [-> | [-> | ->]]; apply (bool_decide_unpack _); vm_compute; exact I.
Qed.

(** The account states and the nodes of the declared classes. *)
Lemma account_state_attrs depth x :
  instance_of (S depth) "AccountState" x ->
  exists attrs l nd,
    x = VObject "AccountState" attrs /\
    Forall2 (attr_typed (instance_of depth)) (get_fields "AccountState") attrs /\
    attr_get "balance_lock" attrs = Some l /\ (l = VNone \/ exists s, l = VStr s) /\
    attr_get "node" attrs = Some nd /\ (nd = VNone \/ instance_of depth "Node" nd).
Proof.
  intros [_ (attrs & -> & _ & Htyped)]. pose proof Htyped as Hattrs.
  change (get_fields "AccountState") with AccountState_fields in Hattrs.
  unfold AccountState_fields in Hattrs.
  apply Forall2_cons_inv_l in Hattrs as ([n1 b] & attrs1 & [Hn1 _] & Hattrs & ->).
  apply Forall2_cons_inv_l in Hattrs as ([n2 l] & attrs2 & [Hn2 Hl] & Hattrs & ->).
  apply Forall2_cons_inv_l in Hattrs as ([n3 nd] & attrs3 & [Hn3 Hnd] & Hattrs & ->).
  cbn [fst snd field_name type_of optional field_typed] in *. subst n1 n2 n3.
  exists ((("balance", b) :: ("balance_lock", l) :: ("node", nd) :: attrs3)), l, nd.
  split; [done|]. split; [done|]. split; [done|]. split.
  - destruct l; try done; [by left|right; by eexists].
  - split; [done|].
    destruct (is_none nd) eqn:Hnone; [left; by destruct nd|by right].
Qed.

Lemma node_attrs depth nd :
  instance_of depth "Node" nd ->
  exists depth' attrs na,
    depth = S depth' /\ nd = VObject "Node" attrs /\
    Forall2 (attr_typed (instance_of depth')) (get_fields "Node") attrs /\
    attr_get "network_addresses" attrs = Some na /\ is_none na = false /\
    "identifier" ∈ attrs.*1.
Proof.
  destruct depth as [|depth']; [done|].
  intros [_ (attrs & -> & _ & Htyped)]. pose proof Htyped as Hattrs.
  change (get_fields "Node") with Node_fields in Hattrs. unfold Node_fields in Hattrs.
  apply Forall2_cons_inv_l in Hattrs as ([n1 id] & attrs1 & [Hn1 _] & Hattrs & ->).
  apply Forall2_cons_inv_l in Hattrs as ([n2 na] & attrs2 & [Hn2 Hna] & Hattrs & ->).
  cbn [fst snd field_name type_of optional field_typed] in *. subst n1 n2.
  exists depth', (("identifier", id) :: ("network_addresses", na) :: attrs2), na.
  split; [done|]. split; [done|]. split; [done|]. split; [done|]. split.
  - by destruct (is_none na).
  - apply list_elem_of_here.
Qed.

Lemma truthy_present method x v attrs :
  attr_get x attrs = Some v -> is_none v = false ->
  truthy (VDict (present method [] attrs)) = true.
Proof.
  intros Hget Hv. pose proof (present_nonempty method x v attrs Hget Hv) as Hne.
  simpl. by destruct (present method [] attrs).
Qed.

(** One account state through [strip_account_state] and
    [restore_account_state]. *)
Lemma account_state_roundtrip depth account_number x :
  instance_of (S depth) "AccountState" x ->
  let k := VStr account_number in
  exists d',
    (exists d, method_serialize_to_dict (S depth) x true true [] = Ok d /\
               strip_account_state k d = Ok d') /\
    restore_account_state (classmethod_deserialize_from_dict (S depth)) k d' =
      Ok (canonical_account_state k x) /\
    instance_of (S depth) "AccountState" (canonical_account_state k x).
Proof.
  intros Hx k.
  destruct (account_state_attrs depth x Hx)
    as (attrs & l & nd & -> & Htyped & Hlock & Hl & Hnode & Hnd).
  assert (Hcls : "AccountState" <> "BlockchainStateMessage") by done.
  assert (Hnames : NoDup (get_field_names "AccountState"))
    by (apply declared_names_NoDup; auto).
  assert (Hnodup : NoDup attrs.*1) by (by rewrite (attrs_names _ _ _ Htyped)).
  set (M := method_serialize_to_dict depth).
  (* the balance lock *)
  set (attrs1 := if py_eqb l k then attr_set "balance_lock" VNone attrs else attrs).
  assert (Htyped1 : Forall2 (attr_typed (instance_of depth))
                      (get_fields "AccountState") attrs1).
  { unfold attrs1. destruct (py_eqb l k); [|done].
    apply attr_typed_set; [done|]. intros f Hf Hname. simpl.
    change (get_fields "AccountState") with AccountState_fields in Hf.
    unfold AccountState_fields in Hf.
    repeat (apply elem_of_cons in Hf as [->|Hf]; [by simpl in *|]).
    by apply not_elem_of_nil in Hf. }
  assert (Hnodup1 : NoDup attrs1.*1) by (by rewrite (attrs_names _ _ _ Htyped1)).
  assert (Hnode1 : attr_get "node" attrs1 = Some nd).
  { unfold attrs1. destruct (py_eqb l k); [|done]. by rewrite attr_get_set_ne. }
  assert (Hlock_test :
    py_eqb (default VNone (dict_get (VStr "balance_lock") (present M [] attrs))) k =
    py_eqb l k).
  { rewrite present_get, Hlock by done.
    destruct Hl as [-> | [s ->]]; [done|]. simpl is_none. cbv iota.
    by rewrite ser_str. }
  assert (Hstep1 :
    (if py_eqb (default VNone (dict_get (VStr "balance_lock") (present M [] attrs))) k
     then dict_remove (VStr "balance_lock") (present M [] attrs)
     else present M [] attrs) = present M [] attrs1).
  { rewrite Hlock_test. unfold attrs1. destruct (py_eqb l k); [|done].
    by rewrite present_exclude, present_set_none. }
  assert (Hcanon1 :
    canonical_account_state k (VObject "AccountState" attrs) =
    match nd with
    | VObject node_cls node_attrs =>
        VObject "AccountState"
          (attr_set "node" (VObject node_cls (attr_set "identifier" k node_attrs)) attrs1)
    | _ => VObject "AccountState" attrs1
    end).
  { unfold canonical_account_state. rewrite Hlock.
    change (default VNone (Some l)) with l. fold attrs1. by rewrite Hnode1. }
  rewrite Hcanon1.
  destruct Hnd as [-> | Hnd].
  - (* no node *)
    exists (VDict (present M [] attrs1)). split; [|split].
    + exists (VDict (present M [] attrs)).
      split; [by apply (plain_serialize coerce_leaf)|].
      unfold strip_account_state. rewrite Hstep1.
      by rewrite present_get, Hnode1.
    + unfold restore_account_state.
      rewrite (plain_deserialize coerce_leaf) by done.
      cbn [res_bind getattr]. by rewrite Hnode1.
    + by split; [|exists attrs1].
  - (* a node *)
    destruct (node_attrs depth nd Hnd)
      as (depth' & nattrs & na & -> & -> & Hntyped & Hna & Hna_some & Hid).
    assert (Hncls : "Node" <> "BlockchainStateMessage") by done.
    assert (Hnnames : NoDup (get_field_names "Node"))
      by (apply declared_names_NoDup; auto).
    assert (Hnnodup : NoDup nattrs.*1) by (by rewrite (attrs_names _ _ _ Hntyped)).
    set (M' := method_serialize_to_dict depth').
    assert (Hset_typed : forall id, (if is_none id then True else leaf_typed T_str id) ->
              Forall2 (attr_typed (instance_of depth')) (get_fields "Node")
                (attr_set "identifier" id nattrs)).
    { intros id Hidt. apply attr_typed_set; [done|]. intros f Hf Hname.
      change (get_fields "Node") with Node_fields in Hf. unfold Node_fields in Hf.
      repeat (apply elem_of_cons in Hf as [->|Hf];
              [by simpl in *; destruct (is_none id)|]).
      by apply not_elem_of_nil in Hf. }
    set (nd' := VObject "Node" (attr_set "identifier" VNone nattrs)).
    assert (Hser_nd : ser M (VObject "Node" nattrs) = VDict (present M' [] nattrs))
      by (by apply ser_plain).
    assert (Hser_nd' : ser M nd' =
                       VDict (present M' [] (attr_set "identifier" VNone nattrs))).
    { apply ser_plain; [done|done|]. by apply Hset_typed. }
    set (attrs2 := attr_set "node" nd' attrs1).
    assert (Hnode_typed : forall nd0,
              instance_of (S depth') "Node" nd0 ->
              Forall2 (attr_typed (instance_of (S depth')))
                (get_fields "AccountState") (attr_set "node" nd0 attrs1)).
    { intros nd0 Hnd0. apply attr_typed_set; [done|]. intros f Hf Hname.
      pose proof (instance_of_object _ _ _ Hnd0) as Hobj.
      change (get_fields "AccountState") with AccountState_fields in Hf.
      unfold AccountState_fields in Hf.
      repeat (apply elem_of_cons in Hf as [->|Hf];
              [by simpl in *; destruct nd0|]).
      by apply not_elem_of_nil in Hf. }
    assert (Hnd'_typed : instance_of (S depth') "Node" nd').
    { split; [done|]. eexists. split; [done|]. split; [done|]. by apply Hset_typed. }
    exists (VDict (present M [] attrs2)). split; [|split].
    + exists (VDict (present M [] attrs)).
      split; [by apply (plain_serialize coerce_leaf)|].
      unfold strip_account_state. rewrite Hstep1.
      rewrite present_get, Hnode1 by done. cbn [is_none].
      change (default VNone (Some ?x)) with x.
      rewrite Hser_nd. rewrite (truthy_present M' _ _ _ Hna Hna_some).
      rewrite present_exclude, <- present_set_none by done.
      rewrite <- Hser_nd'.
      by rewrite (present_set M "node" (VObject "Node" nattrs) nd' attrs1 Hnode1).
    + unfold restore_account_state.
      rewrite (plain_deserialize coerce_leaf); [|done|done|by apply Hnode_typed].
      cbn [res_bind getattr]. unfold attrs2.
      rewrite attr_get_set; last first.
      { rewrite (attrs_names _ _ _ Htyped1). vm_compute.
        do 2 apply list_elem_of_further. apply list_elem_of_here. }
      unfold nd'. cbn [res_bind truthy getattr]. rewrite attr_get_set by done.
      cbn [res_bind is_none setattr]. by rewrite !attr_set_set.
    + split; [done|]. eexists. split; [done|]. split; [done|].
      apply Hnode_typed. split; [done|]. eexists. split; [done|]. split; [done|].
      by apply Hset_typed.
Qed.

(** The blockchain states of the declared class. *)
Lemma blockchain_state_attrs depth s :
  object_typed (instance_of depth) "BlockchainStateMessage" s ->
  exists attrs account_states,
    s = VObject "BlockchainStateMessage" attrs /\
    Forall2 (attr_typed (instance_of depth)) (get_fields "BlockchainStateMessage") attrs /\
    attr_get "account_states" attrs = Some (VDict account_states) /\
    NoDup account_states.*1 /\
    Forall (fun kv => leaf_typed T_str (fst kv) /\
                      instance_of depth "AccountState" (snd kv)) account_states.
Proof.
  intros (attrs & -> & _ & Htyped). pose proof Htyped as Hattrs.
  change (get_fields "BlockchainStateMessage") with BlockchainStateMessage_fields in Hattrs.
  unfold BlockchainStateMessage_fields in Hattrs.
  apply Forall2_cons_inv_l in Hattrs as ([n1 v] & attrs1 & [Hn1 Hv] & Hattrs & ->).
  cbn [fst snd field_name type_of optional field_typed] in *. subst n1.
  destruct (is_none v); [done|].
  destruct Hv as (account_states & -> & _ & Hnodup & Hitems).
  by exists (("account_states", VDict account_states) :: attrs1), account_states.
Qed.

Lemma serialize_item_str method s :
  serialize_item method (VStr s) true true = Ok (VStr s).
Proof. unfold serialize_item. simpl. by rewrite coerce_str. Qed.

(** The account states, serialized. *)
Lemma ser_account_states depth account_states :
  NoDup account_states.*1 ->
  Forall (fun kv => leaf_typed T_str (fst kv) /\
                    instance_of depth "AccountState" (snd kv)) account_states ->
  ser (method_serialize_to_dict depth) (VDict account_states) =
  VDict ((fun kv => (fst kv, ser_item (method_serialize_to_dict depth) (snd kv)))
         <$> account_states).
Proof.
  intros Hnodup Hitems. rewrite Forall_forall in Hitems.
  set (method := method_serialize_to_dict depth).
  unfold ser. cbn [serialize_value].
  set (g := fun kv : value * value => Some (fst kv, ser_item method (snd kv))).
  assert (Hg : omap g account_states =
               (fun kv => (fst kv, ser_item method (snd kv))) <$> account_states).
  { clear. induction account_states as [|kv l IH]; [done|]. csimpl. by rewrite IH. }
  rewrite (res_fold_append _ g); [by rewrite <- Hg| |].
  - intros acc' kv Hkv. destruct (Hitems kv Hkv) as [Hk Hx].
    destruct (fst kv) as [| |s| | | |] eqn:Hfst; try done.
    rewrite serialize_item_str. cbn [res_bind].
    destruct (instance_of_roundtrip coerce_leaf depth _ _ Hx) as (d & Hser & _).
    fold method in Hser. unfold g, ser_item, serialize_item.
    rewrite (instance_of_object _ _ _ Hx), Hser. cbn [res_bind fst snd]. by rewrite Hfst.
  - cbn [app]. rewrite Hg, <- list_fmap_compose.
    by rewrite (list_fmap_ext _ fst account_states).
Qed.

(** [BlockchainStateMessage]: what is serialized deserializes to the
    canonical blockchain state. *)
Lemma blockchain_state_roundtrip depth s :
  object_typed (instance_of depth) "BlockchainStateMessage" s ->
  exists d,
    method_serialize_to_dict (S depth) s true true [] = Ok d /\
    classmethod_deserialize_from_dict (S depth) "BlockchainStateMessage" d true [] =
      Ok (canonical s).
Proof.
  intros Hs.
  destruct (blockchain_state_attrs depth s Hs)
    as (attrs & account_states & -> & Htyped & Hget & Hnodup & Hitems).
  assert (Hnames : NoDup (get_field_names "BlockchainStateMessage"))
    by (apply declared_names_NoDup; auto).
  assert (Hattrs_nodup : NoDup attrs.*1) by (by rewrite (attrs_names _ _ _ Htyped)).
  set (method := method_serialize_to_dict depth).
  set (classmethod := classmethod_deserialize_from_dict depth).
  pose proof Hitems as Hall. rewrite Forall_forall in Hall.
  (* every account state through the two loops *)
  assert (Haccount : forall kv, kv ∈ account_states ->
    exists d', strip_account_state (fst kv) (ser_item method (snd kv)) = Ok d' /\
               restore_account_state classmethod (fst kv) d' =
                 Ok (canonical_account_state (fst kv) (snd kv)) /\
               instance_of depth "AccountState"
                 (canonical_account_state (fst kv) (snd kv))).
  { intros kv Hkv. destruct (Hall kv Hkv) as [Hk Hx].
    destruct (fst kv) as [| |account_number| | | |] eqn:Hfst; try done.
    assert (Hdepth : exists depth', depth = S depth')
      by (destruct depth; [done|by eexists]).
    destruct Hdepth as [depth' Hdepth].
    unfold method, classmethod. rewrite Hdepth in Hx |- *.
    destruct (account_state_roundtrip depth' account_number _ Hx)
      as (d' & (d & Hser & Hstrip) & Hrestore & Hcanon).
    exists d'. split; [|done].
    unfold ser_item, serialize_item. rewrite (instance_of_object _ _ _ Hx).
    by rewrite Hser. }
  set (stripped_item := fun kv : value * value =>
         (fst kv, match strip_account_state (fst kv) (snd kv) with
                  | Ok d' => d' | Raise _ => VNone end)).
  set (ser_pair := fun kv : value * value => (fst kv, ser_item method (snd kv))).
  set (stripped := stripped_item <$> (ser_pair <$> account_states)).
  set (objects := canonical_account_states account_states).
  set (attrs' := attr_set "account_states" (VDict objects) attrs).
  assert (Hsuper : serialize_to_dict method (VObject "BlockchainStateMessage" attrs)
                     true true [] = Ok (VDict (present method [] attrs))).
  { by apply (serialize_to_dict_present coerce_leaf _ classmethod (instance_of depth)
                (instance_of_object depth) (instance_of_roundtrip coerce_leaf depth)
                _ (get_fields "BlockchainStateMessage")). }
  exists (VDict (dict_set (VStr "account_states") (VDict stripped) (present method [] attrs))).
  split.
  - (* serialize_to_dict *)
    change (method_serialize_to_dict (S depth)
              (VObject "BlockchainStateMessage" attrs) true true [])
      with (BlockchainStateMessage_serialize_to_dict method
              (VObject "BlockchainStateMessage" attrs) true true []).
    unfold BlockchainStateMessage_serialize_to_dict. rewrite Hsuper. cbn [res_bind].
    rewrite present_get, Hget by done. cbn [is_none].
    rewrite (ser_account_states depth) by done. fold method ser_pair.
    rewrite (res_map_ok _ stripped_item); [done|].
    intros kv' (kv & -> & Hkv)%list_elem_of_fmap.
    destruct (Haccount kv Hkv) as (d' & Hstrip & _).
    unfold stripped_item, ser_pair. cbn [fst snd]. by rewrite Hstrip.
  - (* deserialize_from_dict *)
    change (classmethod_deserialize_from_dict (S depth) "BlockchainStateMessage")
      with (BlockchainStateMessage_deserialize_from_dict classmethod
              "BlockchainStateMessage").
    unfold BlockchainStateMessage_deserialize_from_dict.
    unfold dict_contains at 1.
    rewrite dict_get_set by apply py_eqb_refl_str.
    change (dict_contains (VStr "account_states") []) with false.
    cbn [andb negb default from_option id py_items res_bind].
    rewrite dict_remove_set by apply py_eqb_refl_str.
    rewrite present_exclude by done.
    set (g := fun kv : value * value =>
                Some (fst kv, match restore_account_state classmethod (fst kv) (snd kv)
                              with Ok obj => obj | Raise _ => VNone end)).
    assert (Hobjects : omap g stripped = objects).
    { unfold stripped, objects, canonical_account_states.
      clear -Haccount. induction account_states as [|kv l IH]; [done|].
      csimpl. destruct (Haccount kv (list_elem_of_here _ _)) as (d' & Hstrip & Hrestore & _).
      rewrite Hstrip, Hrestore. f_equal.
      apply IH. intros kv' Hkv'. apply Haccount. by apply list_elem_of_further. }
    assert (Hobjects_keys : objects.*1 = account_states.*1).
    { unfold objects, canonical_account_states. rewrite <- list_fmap_compose.
      by apply list_fmap_ext. }
    rewrite (res_fold_append _ g); last first.
    { cbn [app]. by rewrite Hobjects, Hobjects_keys. }
    { intros acc' kv' (kv1 & -> & (kv & -> & Hkv)%list_elem_of_fmap)%list_elem_of_fmap.
      destruct (Haccount kv Hkv) as (d' & Hstrip & Hrestore & _).
      unfold g, stripped_item, ser_pair. cbn [fst snd]. by rewrite Hstrip, Hrestore. }
    cbn [app res_bind]. rewrite Hobjects.
    change (dict_set (VStr "account_states") (VDict objects) [])
      with (override_of (Some ("account_states", VDict objects))).
    change ["account_states"] with (exclude_of (Some ("account_states", VDict objects))).
    assert (Hcanon : canonical (VObject "BlockchainStateMessage" attrs) =
                     VObject "BlockchainStateMessage" attrs').
    { unfold canonical. by rewrite Hget. }
    rewrite Hcanon.
    rewrite <- (present_exclude_set method "account_states" (VDict objects) attrs).
    fold attrs'.
    apply (deserialize_from_dict_present coerce_leaf method classmethod (instance_of depth)
             (instance_of_object depth) (instance_of_roundtrip coerce_leaf depth)
             "BlockchainStateMessage" attrs' (Some ("account_states", VDict objects))).
    + done.
    + apply attr_typed_set; [done|]. intros f Hf Hname.
      change (get_fields "BlockchainStateMessage") with BlockchainStateMessage_fields in Hf.
      unfold BlockchainStateMessage_fields in Hf.
      apply elem_of_cons in Hf as [->|Hf].
      * cbn [is_none type_of field_typed]. exists objects.
        split; [done|]. split; [done|]. split; [by rewrite Hobjects_keys|].
        apply Forall_forall. intros kv' (kv & -> & Hkv)%list_elem_of_fmap.
        cbn [fst snd]. destruct (Hall kv Hkv) as [Hk _].
        destruct (Haccount kv Hkv) as (_ & _ & _ & Hcan). by split.
      * repeat (apply elem_of_cons in Hf as [->|Hf]; [by simpl in *|]).
        by apply not_elem_of_nil in Hf.
    + intros x v [= <- <-]. apply attr_get_elem. apply attr_get_set.
      pose proof (attr_get_elem _ _ _ Hget) as Hin.
      by apply (list_elem_of_fmap_2 fst) in Hin.
Qed.

(** A blockchain state whose account states come back as they are: no
    balance lock is the number of its account, and every node has the number
    of its account as identifier. *)
Definition normal (blockchain_state : value) : Prop :=
  match blockchain_state with
  | VObject _ attrs =>
      match attr_get "account_states" attrs with
      | Some (VDict account_states) =>
          Forall (fun kv => normal_account_state (fst kv) (snd kv)) account_states
      | _ => True
      end
  | _ => True
  end.

Lemma canonical_normal s : normal s -> canonical s = s.
Proof.
  destruct s as [| | | | | |cls attrs]; try done. unfold normal, canonical.
  destruct (attr_get "account_states" attrs) as [[| | | | |account_states|]|] eqn:Hget;
    try done.
  intros Hnormal. f_equal.
  assert (Hsame : canonical_account_states account_states = account_states).
  { unfold canonical_account_states. clear -Hnormal.
    induction Hnormal as [|[k x] l Hkx _ IH]; [done|].
    rewrite fmap_cons, IH. cbn [fst snd] in *.
    by rewrite (canonical_account_state_normal k x Hkx). }
  rewrite Hsame. by apply attr_set_same.
Qed.

(** C7, amended: every blockchain state is serialized, and what is
    deserialized from it is the state with each balance lock that equals its
    account number replaced by [None] and each node identifier replaced by
    the account number; it is the state itself when no balance lock equals
    its account number and every node has its account number as identifier.
    An instance of any other class with the methods of the mixin, a block
    among them, comes back as it is. *)
Theorem C7_serialization_round_trip (depth : nat) :
  (forall s,
     object_typed (instance_of depth) "BlockchainStateMessage" s ->
     exists d,
       method_serialize_to_dict (S depth) s true true [] = Ok d /\
       classmethod_deserialize_from_dict (S depth) "BlockchainStateMessage" d true [] =
         Ok (canonical s) /\
       (normal s -> canonical s = s)) /\
  (forall cls b,
     instance_of depth cls b ->
     exists d,
       method_serialize_to_dict depth b true true [] = Ok d /\
       classmethod_deserialize_from_dict depth cls d true [] = Ok b).
Proof.
  split.
  - intros s Hs. destruct (blockchain_state_roundtrip depth s Hs) as (d & Hser & Hdeser).
    exists d. split; [done|]. split; [done|]. apply canonical_normal.
  - intros cls b. by apply instance_of_roundtrip.
Qed.

End BlockchainState.

(** *** The states of the tests *)

Lemma demo_coerce_leaf t v :
  leaf_typed t v ->
  coerce_from_json_type (Coercion := Demo.coercion)
    (coerce_to_json_type (Coercion := Demo.coercion) v) t = Ok v.
Proof. by destruct t, v. Qed.

Lemma demo_coerce_str s :
  coerce_to_json_type (Coercion := Demo.coercion) (VStr s) = VStr s.
Proof. reflexivity. Qed.

Section RoundTripWitness.

#[local] Existing Instance Demo.dataclasses.
#[local] Existing Instance Demo.coercion.

Lemma account_state_typed depth balance_lock node :
  (if is_none balance_lock then True else leaf_typed T_str balance_lock) ->
  (if is_none node then True else instance_of depth "Node" node) ->
  instance_of (S depth) "AccountState" (Demo.account_state balance_lock node).
Proof.
  intros Hlock Hnode. split; [done|]. eexists. split; [reflexivity|]. split.
  - apply (bool_decide_unpack _). vm_compute. exact I.
  - repeat constructor; cbn [fst snd field_name type_of optional is_none field_typed];
      try done.
    + by destruct (is_none balance_lock).
    + by destruct (is_none node).
Qed.

Lemma blockchain_state_typed depth account_states :
  NoDup account_states.*1 ->
  Forall (fun kv => leaf_typed T_str (fst kv) /\
                    instance_of depth "AccountState" (snd kv)) account_states ->
  object_typed (instance_of depth) "BlockchainStateMessage"
    (Demo.blockchain_state account_states).
Proof.
  intros Hnodup Hitems. eexists. split; [reflexivity|]. split.
  - apply (bool_decide_unpack _). vm_compute. exact I.
  - repeat constructor; cbn [fst snd field_name type_of optional is_none field_typed];
      try done.
    by exists account_states.
Qed.

Lemma genesis_state_typed :
  object_typed (instance_of 2) "BlockchainStateMessage" Demo.genesis_state.
Proof.
  apply blockchain_state_typed.
  - apply NoDup_singleton.
  - constructor; [|constructor]. split; [done|]. by apply account_state_typed.
Qed.

Lemma later_state_typed :
  object_typed (instance_of 2) "BlockchainStateMessage" Demo.later_state.
Proof.
  apply blockchain_state_typed.
  - apply NoDup_singleton.
  - constructor; [|constructor]. split; [done|]. apply account_state_typed; [done|].
    cbn [is_none Demo.node_of]. split; [done|]. eexists. split; [reflexivity|]. split.
    + apply (bool_decide_unpack _). vm_compute. exact I.
    + repeat constructor;
        cbn [fst snd field_name type_of optional is_none field_typed]; try done.
      exists [VStr "http://a1/"]. split; [done|]. by repeat constructor.
Qed.

(** The genesis state of the tests, in which account [a1] has its own number
    as balance lock, is well formed and does not come back: its balance lock
    comes back as [None]. *)
Lemma C7_genesis_state_does_not_round_trip :
  object_typed (instance_of 2) "BlockchainStateMessage" Demo.genesis_state /\
  exists d s',
    method_serialize_to_dict 3 Demo.genesis_state true true [] = Ok d /\
    classmethod_deserialize_from_dict 3 "BlockchainStateMessage" d true [] = Ok s' /\
    s' = Demo.blockchain_state [(VStr "a1", Demo.account_state VNone VNone)] /\
    s' <> Demo.genesis_state.
Proof.
  split; [apply genesis_state_typed|].
  eexists _, _. split; [vm_compute; reflexivity|].
  split; [vm_compute; reflexivity|]. split; [reflexivity|]. discriminate.
Qed.

Lemma C7_serialization_round_trip_witness :
  exists d,
    method_serialize_to_dict 3 Demo.later_state true true [] = Ok d /\
    classmethod_deserialize_from_dict 3 "BlockchainStateMessage" d true [] =
      Ok Demo.later_state.
Proof.
  destruct (C7_serialization_round_trip (fun _ => []) demo_coerce_leaf demo_coerce_str 2)
    as [Hstate _].
  destruct (Hstate Demo.later_state later_state_typed) as (d & Hser & Hdeser & Hnormal).
  exists d. split; [exact Hser|].
  rewrite Hnormal in Hdeser; [exact Hdeser|].
  repeat constructor.
Defined.

End RoundTripWitness.

(** * Further properties of the storage *)

(** The last character of a string, for the suffix tests. *)
Fixpoint last_char (s : string) : option ascii :=
  match s with
  | EmptyString => None
  | String c EmptyString => Some c
  | String _ s' => last_char s'
  end.

Lemma last_char_app x y : y <> "" -> last_char (x +:+ y) = last_char y.
Proof.
  intros Hy. induction x as [|c x IH]; [done|].
  rewrite append_String. cbn [last_char]. rewrite IH.
  destruct (x +:+ y) eqn:E; [|done].
  apply (f_equal String.length) in E. rewrite length_append in E.
  destruct y; [done|]. simpl in E. lia.
Qed.

Lemma substring_full s : String.substring 0 (String.length s) s = s.
Proof. induction s as [|c s IH]; [done|]. simpl. by rewrite IH. Qed.

Lemma substring_split s m :
  (m <= String.length s)%nat ->
  s = String.substring 0 m s +:+ String.substring m (String.length s - m) s.
Proof.
  revert m. induction s as [|c s IH]; intros m Hm.
  - simpl in Hm. by replace m with 0%nat by lia.
  - destruct m as [|m].
    + rewrite Nat.sub_0_r, substring_full. done.
    + simpl in Hm. cbn [String.substring String.length]. rewrite append_String.
      f_equal. apply IH. lia.
Qed.

Lemma ends_with_true s suffix :
  ends_with s suffix = true -> exists pre, s = pre +:+ suffix.
Proof.
  unfold ends_with. intros [Hle Heq]%andb_true_iff.
  apply Nat.leb_le in Hle. apply String.eqb_eq in Heq.
  exists (String.substring 0 (String.length s - String.length suffix) s).
  pose proof (substring_split s (String.length s - String.length suffix) ltac:(lia))
    as Hsplit.
  replace (String.length s - (String.length s - String.length suffix))%nat
    with (String.length suffix) in Hsplit by lia.
  by rewrite Heq in Hsplit.
Qed.

Lemma ends_with_last_char s suffix :
  suffix <> "" -> last_char s <> last_char suffix -> ends_with s suffix = false.
Proof.
  intros Hne Hlast. apply not_true_iff_false. intros [pre ->]%ends_with_true.
  by rewrite last_char_app in Hlast.
Qed.

Section StorageMore.
Context `{Pathlib} `{Codecs}.
Variable compressors : list compressor.

Lemma is_finalized_false_inv file_path fs :
  fst (is_finalized file_path fs) = Ok false ->
  is_absolute file_path = false /\
  is_relative_to_base (resolve file_path) = true /\
  finalized_in fs (resolve file_path) = false.
Proof.
  unfold is_finalized, bind, _get_absolute_path.
  destruct (is_absolute file_path); [discriminate|].
  destruct (is_relative_to_base (resolve file_path)); [|discriminate].
  simpl. unfold ret. rewrite _is_finalized_spec. simpl.
  intros [= ->]. done.
Qed.

Lemma is_finalized_resolved file_path fs :
  is_absolute file_path = false ->
  is_relative_to_base (resolve file_path) = true ->
  is_finalized file_path fs = (Ok (finalized_in fs (resolve file_path)), fs).
Proof.
  intros Ha Hr. unfold is_finalized, bind. rewrite _get_absolute_path_ok by done.
  apply _is_finalized_spec.
Qed.

Lemma finalized_in_false fs file_path :
  finalized_in fs file_path = false ->
  (forall c, fs !! sibling file_path c = None) /\ read_only fs file_path = false.
Proof.
  unfold finalized_in. intros [Hc Hr]%orb_false_iff. split; [|done].
  by apply compressed_sibling_false.
Qed.

Lemma finalized_in_written fs file_path data :
  finalized_in fs file_path = false ->
  finalized_in (<[file_path := File data TEMP_FILE_MODE]> fs) file_path = false.
Proof.
  intros [Hsib _]%finalized_in_false. unfold finalized_in. apply orb_false_iff. split.
  - apply compressed_sibling_false. intros c.
    rewrite lookup_insert_ne by (apply not_eq_sym, sibling_neq). apply Hsib.
  - unfold read_only. by rewrite lookup_insert_eq.
Qed.

Lemma load_resolved_raw file_path fs :
  is_absolute file_path = false ->
  is_relative_to_base (resolve file_path) = true ->
  (forall c, fs !! sibling (resolve file_path) c = None) ->
  load file_path fs = read_file (resolve file_path) fs.
Proof.
  intros Ha Hr Hsib. unfold load, bind. rewrite _get_absolute_path_ok by done.
  apply load_loop_raw. intros c _. apply Hsib.
Qed.

(** X1: [strip_compression_extension] removes the suffix that [_compress] and
    [load] append for a compressor: for every path and every compressor,
    stripping [path.<suffix>] gives [path] back. *)
Theorem strip_compression_extension_sibling (file_path : string) (c : compressor) :
  strip_compression_extension (sibling file_path c) = file_path.
Proof.
  unfold sibling.
  assert (Hkeep : forall y, String.substring 0 (String.length file_path) (file_path +:+ y)
                            = file_path).
  { intros y. pose proof (substring_app_keep file_path y 0) as Hk.
    rewrite Nat.add_0_r in Hk. rewrite Hk. destruct y; apply append_empty_r. }
  assert (Hyes : forall y, ends_with (file_path +:+ y) y = true).
  { intros y. unfold ends_with. rewrite length_append.
    rewrite (proj2 (Nat.leb_le _ _)) by lia.
    replace (String.length file_path + String.length y - String.length y)%nat
      with (String.length file_path + 0)%nat by lia.
    rewrite substring_app_skip. apply String.eqb_eq.
    clear. induction y as [|c y IH]; [done|]. simpl. by rewrite IH. }
  assert (Hno : forall y suffix, y <> "" -> suffix <> "" ->
            last_char y <> last_char suffix ->
            ends_with (file_path +:+ y) suffix = false).
  { intros y suffix Hy Hs Hl. apply ends_with_last_char; [done|].
    by rewrite last_char_app. }
  unfold strip_compression_extension, DECOMPRESSION_KEYS.
  cbn [strip_compression_extension_loop].
  destruct c; cbn [extension];
    change ("." +:+ "gz") with ".gz"; change ("." +:+ "bz2") with ".bz2";
    change ("." +:+ "xz") with ".xz".
  - rewrite Hyes. rewrite length_append. simpl String.length.
    replace (String.length file_path + 3 - (2 + 1))%nat
      with (String.length file_path) by lia.
    apply Hkeep.
  - rewrite (Hno (".bz2") (".gz")) by done. rewrite Hyes.
    rewrite length_append. simpl String.length.
    replace (String.length file_path + 4 - (3 + 1))%nat
      with (String.length file_path) by lia.
    apply Hkeep.
  - rewrite (ends_with_app file_path ".xz" ".gz") by (simpl; lia).
    change (ends_with ".xz" ".gz") with false. cbv iota.
    rewrite (Hno (".xz") (".bz2")) by done. rewrite Hyes.
    rewrite length_append. simpl String.length.
    replace (String.length file_path + 3 - (2 + 1))%nat
      with (String.length file_path) by lia.
    apply Hkeep.
Qed.

(** X2: [drop_write_permissions] on an existing file clears exactly the three
    write bits of its mode: every other bit and the content stay, no other
    path changes, and [has_write_permissions] then returns [False]. *)
Theorem drop_write_permissions_clears_write_bits (filename : string)
    (fs : filesystem) (f : file) (Hf : fs !! filename = Some f) :
  exists mode,
    drop_write_permissions filename fs =
      (Ok tt, <[filename := File (content f) mode]> fs) /\
    (forall i, Z.testbit mode i =
       Z.testbit (st_mode f) i && negb (Z.testbit STAT_WRITE_PERMS_ALL i)) /\
    has_write_permissions filename (<[filename := File (content f) mode]> fs) =
      (Ok false, <[filename := File (content f) mode]> fs).
Proof.
  exists (dropped (st_mode f)). split; [by apply drop_write_permissions_spec|]. split.
  - intros i. unfold dropped.
    rewrite Z.sub_nocarry_ldiff.
    + rewrite Z.ldiff_spec, Z.land_spec.
      by destruct (Z.testbit (st_mode f) i), (Z.testbit STAT_WRITE_PERMS_ALL i).
    + apply Z.bits_inj'. intros j Hj.
      rewrite Z.ldiff_spec, Z.land_spec, Z.bits_0.
      by destruct (Z.testbit (st_mode f) j), (Z.testbit STAT_WRITE_PERMS_ALL j).
  - unfold has_write_permissions, bind, os_stat_st_mode, ret.
    rewrite lookup_insert_eq. cbn [st_mode].
    by rewrite dropped_no_write_bits.
Qed.

(** X3: On a path that is not finalized, [save] without [is_final] stores the
    data and [append] adds it to what [load] returned before (to nothing when
    there was no file); [load] then returns the result, and the path is
    still not finalized. *)
Theorem write_then_load (file_path : string) (binary_data : bytes) (fs : filesystem)
    (Hopen : fst (is_finalized file_path fs) = Ok false) :
  (exists fs',
     save compressors file_path binary_data false fs = (Ok tt, fs') /\
     load file_path fs' = (Ok binary_data, fs') /\
     is_finalized file_path fs' = (Ok false, fs')) /\
  (exists fs',
     append compressors file_path binary_data false fs = (Ok tt, fs') /\
     load file_path fs' =
       (Ok (match fst (load file_path fs) with Ok old => old | Raise _ => [] end
            ++ binary_data), fs') /\
     is_finalized file_path fs' = (Ok false, fs')).
Proof.
  apply is_finalized_false_inv in Hopen as (Ha & Hr & Hfin).
  pose proof (finalized_in_false _ _ Hfin) as [Hsib _].
  set (p := resolve file_path) in *.
  assert (Hafter : forall data,
            let fs' := <[p := File data TEMP_FILE_MODE]> fs in
            load file_path fs' = (Ok data, fs') /\
            is_finalized file_path fs' = (Ok false, fs')).
  { intros data fs'. split.
    - rewrite load_resolved_raw; try done.
      + unfold read_file, fs'. fold p. by rewrite lookup_insert_eq.
      + intros c. unfold fs'. fold p.
        rewrite lookup_insert_ne by (apply not_eq_sym, sibling_neq). apply Hsib.
    - rewrite is_finalized_resolved by done. fold p. unfold fs'.
      by rewrite finalized_in_written. }
  split.
  - exists (<[p := File binary_data TEMP_FILE_MODE]> fs). split; [|apply Hafter].
    unfold save. rewrite _persist_resolved by done. fold p.
    unfold bind. by rewrite _write_file_open.
  - rewrite (load_resolved_raw file_path fs Ha Hr Hsib). fold p.
    eexists. split; [|apply Hafter].
    unfold append. rewrite _persist_resolved by done. fold p.
    unfold bind. rewrite _write_file_open by done.
    unfold atomic_write_append, modify, read_file, ret.
    by destruct (fs !! p).
Qed.

(** X4: Two writes in a row without [is_final] act as one: an [append] after an
    [append] or after a [save] gives the result and the storage of the single
    call with the concatenated data, whatever the path and the storage
    (on a finalized or rejected path both sides raise the same exception). *)
Theorem append_after_write (file_path : string) (a b : bytes) (fs : filesystem) :
  (append compressors file_path a false;; append compressors file_path b false) fs =
    append compressors file_path (a ++ b) false fs /\
  (save compressors file_path a false;; append compressors file_path b false) fs =
    save compressors file_path (a ++ b) false fs.
Proof.
  unfold append, save.
  destruct (is_absolute file_path) eqn:Ha.
  { unfold bind. rewrite !_persist_unresolved by auto. done. }
  destruct (is_relative_to_base (resolve file_path)) eqn:Hr; last first.
  { unfold bind. rewrite !_persist_unresolved by auto. done. }
  set (p := resolve file_path).
  assert (Hstep : forall data mode fs0,
            _persist compressors file_path data mode false fs0 =
            if finalized_in fs0 p then (Raise FinalizedFileWriteError, fs0)
            else atomic_write_append p mode data fs0).
  { intros data mode fs0. rewrite _persist_resolved by done. fold p. unfold bind.
    destruct (finalized_in fs0 p) eqn:Hfin.
    - by rewrite _write_file_finalized.
    - rewrite _write_file_open by done.
      unfold atomic_write_append, modify, ret. done. }
  assert (Hstep2 : forall a0 mode0 b0,
            (_persist compressors file_path a0 mode0 false;;
             _persist compressors file_path b0 ab false) fs =
            if finalized_in fs p then (Raise FinalizedFileWriteError, fs)
            else (Ok tt,
                  <[p := File ((match mode0 with
                                | wb => []
                                | ab => match fs !! p with
                                        | Some f => content f
                                        | None => []
                                        end
                                end ++ a0) ++ b0) TEMP_FILE_MODE]> fs)).
  { intros a0 mode0 b0. unfold bind. rewrite Hstep.
    destruct (finalized_in fs p) eqn:Hfin; [done|].
    unfold atomic_write_append at 1, modify. rewrite Hstep.
    rewrite finalized_in_written by done.
    unfold atomic_write_append, modify.
    by rewrite lookup_insert_eq, insert_insert_eq. }
  rewrite !Hstep2, !Hstep.
  destruct (finalized_in fs p); [done|].
  unfold atomic_write_append, modify.
  by rewrite <- !app_assoc.
Qed.

End StorageMore.

Section FinalizeMore.
Context `{Pathlib} `{Codecs}.
Variable compressors : list compressor.

(** The outcomes of [_finalize] on a path. *)
Lemma _finalize_cases file_path fs :
  match fs !! file_path with
  | None => _finalize compressors file_path fs = (Raise OSError, fs)
  | Some f =>
      _finalize compressors file_path fs =
        (Ok tt, <[file_path := File (content f) (dropped (st_mode f))]> fs) \/
      (compressors <> [] /\ content f = [] /\
       _finalize compressors file_path fs = (Raise ZeroDivisionError, fs)) \/
      (exists c, c ∈ compressors /\ finalized_in fs (sibling file_path c) = true /\
         _finalize compressors file_path fs = (Raise FinalizedFileWriteError, fs)) \/
      (exists c, c ∈ compressors /\
         (length (COMPRESSION_FUNCTIONS c (content f)) < length (content f))%nat /\
         _finalize compressors file_path fs =
           (Ok tt,
            <[sibling file_path c :=
                File (COMPRESSION_FUNCTIONS c (content f)) (dropped TEMP_FILE_MODE)]>
              (delete file_path
                 (<[sibling file_path c :=
                      File (COMPRESSION_FUNCTIONS c (content f)) TEMP_FILE_MODE]> fs))))
  end.
Proof.
  destruct (fs !! file_path) as [f|] eqn:Hf; last first.
  { unfold _finalize, bind, _compress. destruct compressors.
    - unfold ret, drop_write_permissions, bind, os_stat_st_mode. by rewrite Hf.
    - unfold bind, read_file. by rewrite Hf. }
  unfold _finalize, bind.
  destruct (decide (compressors = [])) as [Hnil|Hcs].
  { left. unfold _compress. rewrite Hnil. unfold ret. cbv beta iota.
    by rewrite (drop_write_permissions_spec file_path fs f Hf). }
  destruct (decide (content f = [])) as [Hb|Hb].
  { right. left. split; [done|]. split; [done|].
    by rewrite (_compress_empty_file compressors file_path fs f Hf Hcs Hb). }
  rewrite (_compress_outcome compressors file_path fs f Hf Hcs Hb).
  destruct (pick_spec file_path (content f) compressors file_path (content f))
    as (_ & _ & Hcase).
  destruct Hcase as [Heq|(c & Hc & Heq & Hlt)]; rewrite Heq; simpl fst; simpl snd.
  - left. rewrite bool_decide_false by (intros Hne; by apply Hne).
    by rewrite (drop_write_permissions_spec file_path fs f Hf).
  - right. right. rewrite bool_decide_true by apply sibling_neq.
    destruct (finalized_in fs (sibling file_path c)) eqn:Hfin.
    + left. by exists c.
    + right. exists c. split; [done|]. split; [done|].
      rewrite (drop_write_permissions_spec (sibling file_path c) _
                 (File (COMPRESSION_FUNCTIONS c (content f)) TEMP_FILE_MODE)); [done|].
      rewrite lookup_delete_ne by (apply not_eq_sym, sibling_neq).
      apply lookup_insert_eq.
Qed.

Lemma _finalize_finalized file_path fs fs' :
  _finalize compressors file_path fs = (Ok tt, fs') ->
  finalized_in fs' file_path = true.
Proof.
  pose proof (_finalize_cases file_path fs) as Hcases.
  destruct (fs !! file_path) as [f|]; [|by rewrite Hcases].
  destruct Hcases as [Hr|[(_ & _ & Hr)|[(c & _ & _ & Hr)|(c & _ & _ & Hr)]]];
    rewrite Hr; intros [= <-].
  - unfold finalized_in, read_only. rewrite lookup_insert_eq. cbn [st_mode].
    rewrite dropped_no_write_bits. apply orb_true_r.
  - unfold finalized_in. erewrite compressed_sibling_true; [done|].
    apply lookup_insert_eq.
Qed.

Lemma _finalize_frame file_path fs other :
  other <> file_path -> (forall c, other <> sibling file_path c) ->
  snd (_finalize compressors file_path fs) !! other = fs !! other.
Proof.
  intros Hne Hsib. pose proof (_finalize_cases file_path fs) as Hcases.
  destruct (fs !! file_path) as [f|]; [|by rewrite Hcases].
  destruct Hcases as [Hr|[(_ & _ & Hr)|[(c & _ & _ & Hr)|(c & _ & _ & Hr)]]];
    rewrite Hr; cbn [snd]; try done.
  - by rewrite lookup_insert_ne.
  - rewrite lookup_insert_ne by (apply not_eq_sym, Hsib).
    rewrite lookup_delete_ne by done.
    by rewrite lookup_insert_ne by (apply not_eq_sym, Hsib).
Qed.

Lemma _write_file_frame file_path data mode fs other :
  other <> file_path ->
  snd (_write_file file_path data mode fs) !! other = fs !! other.
Proof.
  intros Hne. destruct (finalized_in fs file_path) eqn:Hfin.
  - by rewrite _write_file_finalized.
  - rewrite _write_file_open by done. unfold atomic_write_append, modify. cbn [snd].
    by rewrite lookup_insert_ne.
Qed.

Lemma _persist_frame file_path data mode is_final fs other :
  other <> resolve file_path -> (forall c, other <> sibling (resolve file_path) c) ->
  snd (_persist compressors file_path data mode is_final fs) !! other = fs !! other.
Proof.
  intros Hne Hsib.
  destruct (is_absolute file_path) eqn:Ha;
    [by rewrite _persist_unresolved by auto|].
  destruct (is_relative_to_base (resolve file_path)) eqn:Hr;
    [|by rewrite _persist_unresolved by auto].
  rewrite _persist_resolved by done. unfold bind.
  pose proof (_write_file_frame (resolve file_path) data mode fs other Hne) as Hw.
  destruct (_write_file (resolve file_path) data mode fs) as [[[]|e] fs1];
    cbn [snd] in Hw; [|done].
  destruct is_final; [|done].
  by rewrite _finalize_frame.
Qed.

(** X5: A [finalize] that returns leaves its path finalized: [is_finalized] then
    returns [True], whether the file stayed raw or was replaced by a
    compressed sibling. *)
Theorem finalize_then_is_finalized (file_path : string) (fs fs' : filesystem)
    (Hfin : finalize compressors file_path fs = (Ok tt, fs')) :
  is_finalized file_path fs' = (Ok true, fs').
Proof.
  revert Hfin. unfold finalize. unfold bind at 1. unfold _get_absolute_path.
  destruct (is_absolute file_path) eqn:Ha; [done|].
  destruct (is_relative_to_base (resolve file_path)) eqn:Hr; [|done].
  cbn [negb]. unfold ret. cbv beta iota. intros Hfin. apply _finalize_finalized in Hfin.
  rewrite is_finalized_resolved by done. by rewrite Hfin.
Qed.

(** X6: [save], [append] and [finalize] on a path change nothing but the file of
    that path and its compressed siblings: every other stored path keeps its
    file, whether the call returns or raises. *)
Theorem writes_leave_other_paths (file_path other : string) (binary_data : bytes)
    (is_final : bool) (fs : filesystem)
    (Hother : other <> resolve file_path)
    (Hsibling : forall c, other <> sibling (resolve file_path) c) :
  snd (save compressors file_path binary_data is_final fs) !! other = fs !! other /\
  snd (append compressors file_path binary_data is_final fs) !! other = fs !! other /\
  snd (finalize compressors file_path fs) !! other = fs !! other.
Proof.
  split; [by apply _persist_frame|]. split; [by apply _persist_frame|].
  unfold finalize, bind, _get_absolute_path.
  destruct (is_absolute file_path); [done|].
  destruct (is_relative_to_base (resolve file_path)); [|done].
  cbn [negb]. unfold ret. cbv beta iota. by apply _finalize_frame.
Qed.

(** X7: A path that is absolute, or that resolves to a place outside the base
    path, is rejected by every method: [save], [append], [load], [finalize],
    [is_finalized] and [move] (as source or as destination) raise
    [ValueError] and leave the storage as it was. *)
Theorem rejected_path_raises_ValueError (file_path : string) (fs : filesystem)
    (Hbad : is_absolute file_path = true \/
            is_relative_to_base (resolve file_path) = false) :
  (forall binary_data is_final,
     save compressors file_path binary_data is_final fs = (Raise ValueError, fs) /\
     append compressors file_path binary_data is_final fs = (Raise ValueError, fs)) /\
  load file_path fs = (Raise ValueError, fs) /\
  finalize compressors file_path fs = (Raise ValueError, fs) /\
  is_finalized file_path fs = (Raise ValueError, fs) /\
  (forall other, move file_path other fs = (Raise ValueError, fs) /\
                 move other file_path fs = (Raise ValueError, fs)).
Proof.
  assert (Hpath : _get_absolute_path file_path fs = (Raise ValueError, fs)).
  { unfold _get_absolute_path. destruct (is_absolute file_path); [done|].
    destruct Hbad as [Hbad|Hbad]; [done|]. by rewrite Hbad. }
  split; [|split; [|split; [|split]]].
  - intros binary_data is_final. unfold save, append.
    by rewrite !_persist_unresolved.
  - unfold load, bind. by rewrite Hpath.
  - unfold finalize, bind. by rewrite Hpath.
  - unfold is_finalized, bind. by rewrite Hpath.
  - intros other. split.
    + unfold move, bind. by rewrite Hpath.
    + unfold move. unfold bind at 1.
      unfold _get_absolute_path at 1.
      destruct (is_absolute other); [done|].
      destruct (negb (is_relative_to_base (resolve other))); [done|].
      unfold ret. cbv beta iota. unfold bind. by rewrite Hpath.
Qed.

(** X8: [save] of empty data with [is_final=True] and a configured compressor raises
    [ZeroDivisionError], from the compression ratio that [_compress] computes
    for its debug message. The empty file has already been written: it is
    stored under the path, loads as empty and is not finalized. *)
Theorem save_final_empty_data (file_path : string) (fs : filesystem)
    (Hopen : fst (is_finalized file_path fs) = Ok false)
    (Hcompressors : compressors <> []) :
  exists fs',
    save compressors file_path [] true fs = (Raise ZeroDivisionError, fs') /\
    fs' = <[resolve file_path := File [] TEMP_FILE_MODE]> fs /\
    load file_path fs' = (Ok [], fs') /\
    is_finalized file_path fs' = (Ok false, fs').
Proof.
  apply is_finalized_false_inv in Hopen as (Ha & Hr & Hfin).
  pose proof (finalized_in_false _ _ Hfin) as [Hsib _].
  set (p := resolve file_path) in *.
  exists (<[p := File [] TEMP_FILE_MODE]> fs). split; [|split; [done|split]].
  - unfold save. rewrite _persist_resolved by done. fold p. unfold bind.
    rewrite _write_file_open by done. rewrite atomic_write_append_wb.
    cbv beta iota.
    unfold _finalize, bind.
    rewrite (_compress_empty_file compressors p _ (File [] TEMP_FILE_MODE));
      [done|apply lookup_insert_eq|done|done].
  - rewrite load_resolved_raw; try done.
    + unfold read_file. fold p. by rewrite lookup_insert_eq.
    + intros c. fold p.
      rewrite lookup_insert_ne by (apply not_eq_sym, sibling_neq). apply Hsib.
  - rewrite is_finalized_resolved by done. fold p.
    by rewrite finalized_in_written.
Qed.

(** X9: Where nothing is stored under a path, neither raw nor compressed,
    [load] and [finalize] raise [OSError], [is_finalized] returns [False],
    and the storage stays as it was. *)
Theorem missing_file_raises_OSError (file_path : string) (fs : filesystem)
    (Habsolute : is_absolute file_path = false)
    (Hrelative : is_relative_to_base (resolve file_path) = true)
    (Hraw : fs !! resolve file_path = None)
    (Hcompressed : forall c, fs !! sibling (resolve file_path) c = None) :
  load file_path fs = (Raise OSError, fs) /\
  finalize compressors file_path fs = (Raise OSError, fs) /\
  is_finalized file_path fs = (Ok false, fs).
Proof.
  split; [|split].
  - rewrite load_resolved_raw by done. unfold read_file. by rewrite Hraw.
  - unfold finalize, bind. rewrite _get_absolute_path_ok by done.
    pose proof (_finalize_cases (resolve file_path) fs) as Hcases.
    by rewrite Hraw in Hcases.
  - rewrite is_finalized_resolved by done. f_equal. f_equal.
    unfold finalized_in. apply orb_false_iff. split.
    + by apply compressed_sibling_false.
    + unfold read_only. by rewrite Hraw.
Qed.

End FinalizeMore.

Lemma drop_write_permissions_clears_write_bits_witness :
  exists mode,
    drop_write_permissions "/data/a" Demo.raw_store =
      (Ok tt, <["/data/a" := File (content Demo.raw_file) mode]> Demo.raw_store) /\
    (forall i, Z.testbit mode i =
       Z.testbit (st_mode Demo.raw_file) i && negb (Z.testbit STAT_WRITE_PERMS_ALL i)) /\
    has_write_permissions "/data/a"
      (<["/data/a" := File (content Demo.raw_file) mode]> Demo.raw_store) =
      (Ok false, <["/data/a" := File (content Demo.raw_file) mode]> Demo.raw_store).
Proof.
  apply (drop_write_permissions_clears_write_bits "/data/a" Demo.raw_store Demo.raw_file).
  vm_compute. reflexivity.
Defined.

Lemma write_then_load_witness :
  (exists fs',
     save (H := Demo.pathlib) (H0 := Demo.codecs) [gz] "a" [Byte.x42] false
       Demo.raw_store = (Ok tt, fs') /\
     load (H := Demo.pathlib) (H0 := Demo.codecs) "a" fs' = (Ok [Byte.x42], fs') /\
     is_finalized (H := Demo.pathlib) "a" fs' = (Ok false, fs')) /\
  (exists fs',
     append (H := Demo.pathlib) (H0 := Demo.codecs) [gz] "a" [Byte.x42] false
       Demo.raw_store = (Ok tt, fs') /\
     load (H := Demo.pathlib) (H0 := Demo.codecs) "a" fs' =
       (Ok (match fst (load (H := Demo.pathlib) (H0 := Demo.codecs) "a" Demo.raw_store)
            with Ok old => old | Raise _ => [] end ++ [Byte.x42]), fs') /\
     is_finalized (H := Demo.pathlib) "a" fs' = (Ok false, fs')).
Proof.
  apply (write_then_load (H := Demo.pathlib) (H0 := Demo.codecs) [gz] "a" [Byte.x42]
           Demo.raw_store).
  vm_compute. reflexivity.
Defined.

Lemma finalize_then_is_finalized_witness :
  is_finalized (H := Demo.pathlib) "a"
    (snd (finalize (H := Demo.pathlib) (H0 := Demo.codecs) [gz] "a" Demo.raw_store)) =
  (Ok true,
   snd (finalize (H := Demo.pathlib) (H0 := Demo.codecs) [gz] "a" Demo.raw_store)).
Proof.
  apply (finalize_then_is_finalized (H := Demo.pathlib) (H0 := Demo.codecs) [gz] "a"
           Demo.raw_store).
  vm_compute. reflexivity.
Defined.

Lemma writes_leave_other_paths_witness :
  snd (save (H := Demo.pathlib) (H0 := Demo.codecs) [gz] "b" [Byte.x42] true
         Demo.raw_store) !! "/data/a" = Demo.raw_store !! "/data/a" /\
  snd (append (H := Demo.pathlib) (H0 := Demo.codecs) [gz] "b" [Byte.x42] true
         Demo.raw_store) !! "/data/a" = Demo.raw_store !! "/data/a" /\
  snd (finalize (H := Demo.pathlib) (H0 := Demo.codecs) [gz] "b" Demo.raw_store)
    !! "/data/a" = Demo.raw_store !! "/data/a".
Proof.
  apply (writes_leave_other_paths (H := Demo.pathlib) (H0 := Demo.codecs) [gz]
           "b" "/data/a" [Byte.x42] true Demo.raw_store).
  - vm_compute. discriminate.
  - intros c. destruct c; vm_compute; discriminate.
Defined.

Lemma rejected_path_raises_ValueError_witness :
  (forall binary_data is_final,
     save (H := Demo.pathlib) (H0 := Demo.codecs) [gz] "/etc/passwd" binary_data
       is_final Demo.raw_store = (Raise ValueError, Demo.raw_store) /\
     append (H := Demo.pathlib) (H0 := Demo.codecs) [gz] "/etc/passwd" binary_data
       is_final Demo.raw_store = (Raise ValueError, Demo.raw_store)) /\
  load (H := Demo.pathlib) (H0 := Demo.codecs) "/etc/passwd" Demo.raw_store =
    (Raise ValueError, Demo.raw_store) /\
  finalize (H := Demo.pathlib) (H0 := Demo.codecs) [gz] "/etc/passwd" Demo.raw_store =
    (Raise ValueError, Demo.raw_store) /\
  is_finalized (H := Demo.pathlib) "/etc/passwd" Demo.raw_store =
    (Raise ValueError, Demo.raw_store) /\
  (forall other,
     move (H := Demo.pathlib) "/etc/passwd" other Demo.raw_store =
       (Raise ValueError, Demo.raw_store) /\
     move (H := Demo.pathlib) other "/etc/passwd" Demo.raw_store =
       (Raise ValueError, Demo.raw_store)).
Proof.
  apply (rejected_path_raises_ValueError (H := Demo.pathlib) (H0 := Demo.codecs) [gz]
           "/etc/passwd" Demo.raw_store).
  left. vm_compute. reflexivity.
Defined.

Lemma save_final_empty_data_witness :
  exists fs',
    save (H := Demo.pathlib) (H0 := Demo.codecs) [gz] "b" [] true Demo.raw_store =
      (Raise ZeroDivisionError, fs') /\
    fs' = <["/data/b" := File [] TEMP_FILE_MODE]> Demo.raw_store /\
    load (H := Demo.pathlib) (H0 := Demo.codecs) "b" fs' = (Ok [], fs') /\
    is_finalized (H := Demo.pathlib) "b" fs' = (Ok false, fs').
Proof.
  apply (save_final_empty_data (H := Demo.pathlib) (H0 := Demo.codecs) [gz] "b"
           Demo.raw_store).
  - vm_compute. reflexivity.
  - discriminate.
Defined.

Lemma missing_file_raises_OSError_witness :
  load (H := Demo.pathlib) (H0 := Demo.codecs) "b" Demo.raw_store =
    (Raise OSError, Demo.raw_store) /\
  finalize (H := Demo.pathlib) (H0 := Demo.codecs) [gz] "b" Demo.raw_store =
    (Raise OSError, Demo.raw_store) /\
  is_finalized (H := Demo.pathlib) "b" Demo.raw_store = (Ok false, Demo.raw_store).
Proof.
  apply (missing_file_raises_OSError (H := Demo.pathlib) (H0 := Demo.codecs) [gz] "b"
           Demo.raw_store).
  - vm_compute. reflexivity.
  - vm_compute. reflexivity.
  - vm_compute. reflexivity.
  - intros c. destruct c; vm_compute; reflexivity.
Defined.

(** * Zero-padded decimal names sort by their numbers *)

Module Digits.

Import DecimalPos.Unsigned.

Lemma hd_le d : (hd d <= 9)%N.
Proof. destruct d; simpl; lia. Qed.

Lemma string_of_uint_hd d :
  d <> Decimal.Nil ->
  NilEmpty.string_of_uint d =
  String (ascii_of_N (48 + hd d)) (NilEmpty.string_of_uint (tl d)).
Proof. by destruct d. Qed.

Lemma usize_tl d : d <> Decimal.Nil -> usize d = N.succ (usize (tl d)).
Proof. by destruct d. Qed.

Lemma usize_nil d : usize d = 0%N -> d = Decimal.Nil.
Proof. destruct d; simpl; [done|lia..]. Qed.

Lemma of_uint_hd d :
  d <> Decimal.Nil ->
  Pos.of_uint d = (hd d * 10 ^ usize (tl d) + Pos.of_uint (tl d))%N.
Proof.
  intros Hd. rewrite !of_uint_alt.
  destruct d; [done|..]; unfold Decimal.rev at 1; simpl Decimal.revapp;
    rewrite of_lu_revapp; simpl; fold (Decimal.rev d); lia.
Qed.

Lemma of_uint_bound d : (Pos.of_uint d < 10 ^ usize d)%N.
Proof.
  assert (Hstep : forall d, d <> Decimal.Nil ->
            (Pos.of_uint (tl d) < 10 ^ usize (tl d))%N ->
            (Pos.of_uint d < 10 ^ usize d)%N).
  { intros d0 Hd0 IH. rewrite (of_uint_hd d0 Hd0), (usize_tl d0 Hd0).
    rewrite N.pow_succ_r'. pose proof (hd_le d0). nia. }
  induction d; [simpl; lia|..]; by apply Hstep.
Qed.

Lemma of_uint_lower d :
  d <> Decimal.Nil -> hd d <> 0%N -> (10 ^ usize (tl d) <= Pos.of_uint d)%N.
Proof. intros Hd Hh. rewrite (of_uint_hd d Hd). nia. Qed.

Lemma length_string_of_uint d :
  String.length (NilEmpty.string_of_uint d) = N.to_nat (usize d).
Proof. induction d; simpl; [done|..]; rewrite IHd; lia. Qed.

(** Of two digit strings of the same length, the one with the smaller value
    comes first, whatever follows them. *)
Lemma string_of_uint_compare d e x y :
  usize d = usize e -> (Pos.of_uint d < Pos.of_uint e)%N ->
  String.compare (NilEmpty.string_of_uint d +:+ x) (NilEmpty.string_of_uint e +:+ y) = Lt.
Proof.
  remember (N.to_nat (usize d)) as n eqn:Hn. revert d e Hn.
  induction n as [|n IH]; intros d e Hn Hsize Hlt.
  - assert (d = Decimal.Nil) by (apply usize_nil; lia). subst d.
    assert (e = Decimal.Nil) by (apply usize_nil; simpl in Hsize; lia). subst e.
    simpl in Hlt. lia.
  - assert (Hd : d <> Decimal.Nil) by (intros ->; simpl in Hn; lia).
    assert (He : e <> Decimal.Nil) by (intros ->; rewrite Hsize in Hn; simpl in Hn; lia).
    assert (Htl : usize (tl d) = usize (tl e)).
    { rewrite (usize_tl d Hd), (usize_tl e He) in Hsize. lia. }
    rewrite (of_uint_hd d Hd), (of_uint_hd e He), <- Htl in Hlt.
    pose proof (of_uint_bound (tl d)) as Hbd.
    pose proof (of_uint_bound (tl e)) as Hbe. rewrite <- Htl in Hbe.
    pose proof (hd_le d) as Hhd. pose proof (hd_le e) as Hhe.
    rewrite (string_of_uint_hd d Hd), (string_of_uint_hd e He), !append_String.
    cbn [String.compare]. unfold Ascii.compare.
    rewrite !N_ascii_embedding by lia.
    destruct (N.compare_spec (48 + hd d) (48 + hd e)) as [Heq|Hlt'|Hgt].
    + apply IH; [rewrite (usize_tl d Hd) in Hn; lia|done|].
      assert (hd d = hd e) as Hh by lia. rewrite Hh in Hlt. lia.
    + done.
    + exfalso. nia.
Qed.

Lemma string_of_uint_iter_zeros k d :
  NilEmpty.string_of_uint (Nat.iter k Decimal.D0 d) =
  repeat_char "0" k +:+ NilEmpty.string_of_uint d.
Proof. induction k as [|k IH]; [by rewrite append_empty_l|]. simpl. by rewrite IH. Qed.

Lemma usize_iter_zeros k d :
  usize (Nat.iter k Decimal.D0 d) = (N.of_nat k + usize d)%N.
Proof. induction k as [|k IH]; [simpl; lia|]. simpl Nat.iter. simpl usize. lia. Qed.

Lemma pos_of_uint_iter_zeros k d :
  Pos.of_uint (Nat.iter k Decimal.D0 d) = Pos.of_uint d.
Proof. induction k as [|k IH]; [done|]. simpl. exact IH. Qed.

Lemma to_uint_hd p : hd (Pos.to_uint p) <> 0%N.
Proof.
  pose proof (to_of (Pos.to_uint p)) as Hnorm.
  rewrite of_to in Hnorm. simpl in Hnorm.
  pose proof (to_uint_nonzero p) as Hnz.
  assert (Hhead : Decimal.nzhead (Pos.to_uint p) <> Decimal.Nil).
  { intros Hnil. apply DecimalFacts.unorm_0 in Hnil. congruence. }
  rewrite (DecimalFacts.unorm_nzhead _ Hhead) in Hnorm.
  pose proof (DecimalFacts.nzhead_nonzero (Pos.to_uint p)) as Hnon.
  rewrite <- Hnorm in Hnon. rewrite Hnorm in Hnon.
  destruct (Pos.to_uint p) eqn:E; simpl; try lia; try done.
  exfalso. by apply (Hnon u).
Qed.

(** [str(n)] for a natural number, as the digits of a decimal. *)
Lemma str_uint n :
  0 <= n ->
  exists d, str n = NilEmpty.string_of_uint d /\ d <> Decimal.Nil /\
            Z.of_N (Pos.of_uint d) = n /\
            (n < 10 ^ Z.of_N (usize d)) /\
            (forall w, n < 10 ^ Z.of_nat w -> 0 < Z.of_nat w -> (usize d <= N.of_nat w)%N).
Proof.
  intros Hn. destruct n as [|p|p]; [| |lia].
  - exists (Decimal.D0 Decimal.Nil). split; [done|]. split; [done|]. split; [done|].
    split; [done|]. intros w _ Hw. simpl. lia.
  - exists (Pos.to_uint p). split; [apply string_of_pos_uint|].
    split; [apply to_uint_nonnil|]. rewrite of_to. split; [done|].
    pose proof (of_uint_bound (Pos.to_uint p)) as Hb. rewrite of_to in Hb.
    split.
    + apply (N2Z.inj_lt) in Hb. rewrite N2Z.inj_pow in Hb. exact Hb.
    + intros w Hw _.
      pose proof (of_uint_lower (Pos.to_uint p) (to_uint_nonnil p) (to_uint_hd p)) as Hl.
      rewrite of_to in Hl.
      rewrite (usize_tl _ (to_uint_nonnil p)).
      destruct (N.lt_ge_cases (usize (tl (Pos.to_uint p))) (N.of_nat w)) as [?|Hge];
        [lia|exfalso].
      assert (Hpow : (10 ^ N.of_nat w <= 10 ^ usize (tl (Pos.to_uint p)))%N)
        by (apply N.pow_le_mono_r; lia).
      apply N2Z.inj_le in Hpow, Hl. rewrite !N2Z.inj_pow in *.
      rewrite nat_N_Z in Hpow. simpl Z.of_N in *. lia.
Qed.

(** A natural number below [10 ^ width], zero-filled to [width], is a string
    of [width] digits with that value. *)
Lemma zfill_str_uint n w :
  0 <= n < 10 ^ Z.of_nat w -> (0 < w)%nat ->
  exists d, zfill (str n) w = NilEmpty.string_of_uint d /\
            usize d = N.of_nat w /\ Z.of_N (Pos.of_uint d) = n.
Proof.
  intros [Hn Hlt] Hw. destruct (str_uint n Hn) as (d & Hstr & Hd & Hval & _ & Hsize).
  specialize (Hsize w Hlt ltac:(lia)).
  destruct (str_nonneg_digits n Hn) as [Hdigits Hne].
  rewrite (zfill_digits _ w Hdigits Hne), Hstr, length_string_of_uint.
  exists (Nat.iter (w - N.to_nat (usize d)) Decimal.D0 d).
  split; [by rewrite string_of_uint_iter_zeros|]. split.
  - rewrite usize_iter_zeros. lia.
  - by rewrite pos_of_uint_iter_zeros.
Qed.

End Digits.

Lemma zfill_str_length n w :
  0 <= n < 10 ^ Z.of_nat w -> (0 < w)%nat -> String.length (zfill (str n) w) = w.
Proof.
  intros Hn Hw. destruct (Digits.zfill_str_uint n w Hn Hw) as (d & -> & Hsize & _).
  rewrite Digits.length_string_of_uint, Hsize. lia.
Qed.

Lemma zfill_str_compare a b w x y :
  0 <= a < b -> b < 10 ^ Z.of_nat w -> (0 < w)%nat ->
  String.compare (zfill (str a) w +:+ x) (zfill (str b) w +:+ y) = Lt.
Proof.
  intros Hab Hb Hw.
  destruct (Digits.zfill_str_uint a w ltac:(lia) Hw) as (d & -> & Hd & Hvd).
  destruct (Digits.zfill_str_uint b w ltac:(lia) Hw) as (e & -> & He & Hve).
  apply Digits.string_of_uint_compare; [congruence|lia].
Qed.

(** A number of [10 ^ width] or more has more than [width] digits. *)
Lemma str_length_large n w :
  10 ^ Z.of_nat w <= n -> (0 < w)%nat -> (w < String.length (str n))%nat.
Proof.
  intros Hn Hw.
  assert (H0 : 0 <= n) by (pose proof (Z.pow_pos_nonneg 10 (Z.of_nat w)); lia).
  destruct (Digits.str_uint n H0) as (d & -> & _ & _ & Hlt & _).
  rewrite Digits.length_string_of_uint.
  destruct (decide (w < N.to_nat (DecimalPos.Unsigned.usize d))%nat) as [|Hge]; [done|].
  exfalso.
  assert (10 ^ Z.of_N (DecimalPos.Unsigned.usize d) <= 10 ^ Z.of_nat w)
    by (apply Z.pow_le_mono_r; lia).
  lia.
Qed.

(** * The chunk files of a reached block store *)

Lemma chunk_name_lt a z a' z' :
  0 <= a < a' -> a' < 10 ^ 20 ->
  String.compare (Names.make_block_chunk_filename a z)
                 (Names.make_block_chunk_filename a' z') = Lt.
Proof.
  intros Ha Ha'. unfold Names.make_block_chunk_filename,
    Names.BLOCK_CHUNK_FILENAME_TEMPLATE. cbv zeta.
  apply zfill_str_compare; [done|done|unfold Names.ORDER_OF_BLOCK; lia].
Qed.

Section StoreListing.
Context `{Codecs} `{BlockModel} `{BlockchainStateModel}.

#[local] Existing Instance path_optimized.

(** The names of the first [n] complete chunks of [s] blocks. *)
Definition full_names (n s : Z) : list string :=
  (fun k => Names.make_block_chunk_filename (k * s) (k * s + s - 1)) <$> seqZ 0 n.

(** The names of the chunks of a chain of [L] blocks, in the order of their
    block numbers. *)
Definition chunk_names (L s : Z) : list string :=
  full_names (L / s) s ++
  (if L mod s =? 0 then []
   else [Names.make_block_chunk_filename (L / s * s) (L - 1)]).

Lemma full_names_snoc n s :
  0 <= n ->
  full_names (n + 1) s =
  full_names n s ++ [Names.make_block_chunk_filename (n * s) (n * s + s - 1)].
Proof.
  intros Hn. unfold full_names. rewrite seqZ_app by lia.
  rewrite fmap_app. f_equal.
Qed.

Lemma chunk_names_snoc L s :
  0 < s -> 0 <= L ->
  chunk_names (L + 1) s =
  full_names (L / s) s ++ [Names.make_block_chunk_filename (L / s * s) L].
Proof.
  intros Hs HL. unfold chunk_names.
  destruct (chunk_start_bounds L s Hs) as (Hb & Hcs & Hoff).
  pose proof (Z.div_pos L s HL Hs) as Hq.
  destruct (decide (L mod s = s - 1)) as [Hlast|Hlast].
  - assert (Hdiv : (L + 1) / s = L / s + 1).
    { symmetry. apply (Z.div_unique (L + 1) s (L / s + 1) 0); lia. }
    assert (Hmod : (L + 1) mod s = 0).
    { symmetry. apply (Z.mod_unique (L + 1) s (L / s + 1) 0); lia. }
    rewrite Hdiv, Hmod. change (0 =? 0) with true. cbv iota.
    rewrite full_names_snoc, app_nil_r by lia.
    do 3 f_equal. lia.
  - assert (Hdiv : (L + 1) / s = L / s).
    { symmetry. apply (Z.div_unique (L + 1) s (L / s) (L mod s + 1)); lia. }
    assert (Hmod : (L + 1) mod s = L mod s + 1).
    { symmetry. apply (Z.mod_unique (L + 1) s (L / s) (L mod s + 1)); lia. }
    rewrite Hdiv, Hmod.
    rewrite (proj2 (Z.eqb_neq _ _)) by lia.
    do 3 f_equal. lia.
Qed.

Lemma stored_names_insert (fs : filesystem) path f :
  fs !! path = None ->
  stored_names (<[path := f]> fs) ≡ₚ strip_compression_extension path :: stored_names fs.
Proof.
  intros Hnone. unfold stored_names. by rewrite (map_to_list_insert fs path f Hnone).
Qed.

Lemma stored_names_delete (fs : filesystem) path f :
  fs !! path = Some f ->
  strip_compression_extension path :: stored_names (delete path fs) ≡ₚ stored_names fs.
Proof.
  intros Hsome. unfold stored_names. by rewrite <- (map_to_list_delete fs path f Hsome).
Qed.

(** What a successful [add_block] leaves of the block storage: the files of
    the complete chunks as they were, and one file for the chunk of the new
    block, raw or compressed. *)
Lemma add_block_layout chain s fs block compressors fs1 fs2 fs3 :
  let n := block_number block in
  let chunk_start := n / s * s in
  let filename := Names.make_block_chunk_filename chunk_start n in
  0 < s ->
  n = Z.of_nat (length chain) ->
  store_inv chain s fs ->
  append compressors
    (Names.make_block_chunk_filename chunk_start
       (if bool_decide (n = chunk_start) then n else n - 1))
    (to_messagepack block) false fs = (Ok tt, fs1) ->
  (if bool_decide (n = chunk_start) then fs2 = fs1
   else move (Names.make_block_chunk_filename chunk_start (n - 1)) filename fs1 =
        (Ok tt, fs2)) ->
  (if bool_decide (n mod s = s - 1)
   then finalize compressors filename fs2 = (Ok tt, fs3)
   else fs3 = fs2) ->
  exists fs0 co f,
    fs3 = <[filename +:+ tail_of co := f]> fs0 /\
    fs0 !! (filename +:+ tail_of co) = None /\
    (if bool_decide (n = chunk_start) then fs0 = fs
     else fs0 = delete (Names.make_block_chunk_filename chunk_start (n - 1)) fs /\
          is_Some (fs !! Names.make_block_chunk_filename chunk_start (n - 1))).
Proof.
  cbv zeta. intros Hs Hn Hinv Happend Hmove Hfinalize. rewrite Hn in *. clear Hn.
  set (L := Z.of_nat (length chain)) in *.
  set (cs := L / s * s) in *.
  destruct (chunk_start_bounds L s Hs) as (Hb & Hcs & Hoff). fold cs in Hb, Hcs, Hoff.
  assert (Hcs0 : 0 <= cs) by (apply chunk_start_nonneg; lia).
  set (fs0 := if bool_decide (L = cs) then fs
              else delete (Names.make_block_chunk_filename cs (L - 1)) fs).
  assert (Hfresh0 : forall co,
            fs0 !! (Names.make_block_chunk_filename cs L +:+ tail_of co) = None).
  { intros co. unfold fs0. destruct (bool_decide (L = cs)).
    - apply (store_inv_fresh chain s); [done|done|lia|lia].
    - apply lookup_delete_None. right.
      apply (store_inv_fresh chain s); [done|done|lia|lia]. }
  assert (Hfresh : fs0 !! Names.make_block_chunk_filename cs L = None).
  { pose proof (Hfresh0 None) as Hn. simpl tail_of in Hn.
    by rewrite append_empty_r in Hn. }
  assert (Hext : exists D,
            fs2 = <[Names.make_block_chunk_filename cs L := File D TEMP_FILE_MODE]> fs0 /\
            (if bool_decide (L = cs) then fs0 = fs
             else fs0 = delete (Names.make_block_chunk_filename cs (L - 1)) fs /\
                  is_Some (fs !! Names.make_block_chunk_filename cs (L - 1)))).
  { unfold fs0. destruct (decide (L = cs)) as [Hstart|Hstart].
    - rewrite bool_decide_true in Happend, Hmove |- * by done.
      apply append_chunk_ok in Happend as [_ ->]. subst fs2. eexists. by split.
    - rewrite bool_decide_false in Happend, Hmove |- * by done.
      apply append_chunk_ok in Happend as [_ ->].
      apply move_ok in Hmove as (f & Hf & ->).
      rewrite lookup_insert_eq in Hf. injection Hf as <-.
      destruct Hinv as [Hfiles Hopen].
      unfold open_chunk in Hopen. cbv zeta in Hopen. fold L cs in Hopen.
      eexists. split; [by rewrite delete_insert_eq|].
      split; [done|]. rewrite Hopen by lia. eauto. }
  destruct Hext as (D & -> & Hfs0).
  exists fs0.
  destruct (decide (L mod s = s - 1)) as [Hlast|Hlast].
  - rewrite bool_decide_true in Hfinalize by done.
    apply finalize_ok in Hfinalize as (f2 & Hf2 & Hcase).
    rewrite lookup_insert_eq in Hf2. injection Hf2 as <-. cbn [content st_mode] in Hcase.
    destruct Hcase as [-> | (c & Hc & ->)].
    + exists None. eexists. simpl tail_of. rewrite append_empty_r.
      split; [by rewrite insert_insert_eq|]. by split.
    + exists (Some c). eexists. rewrite <- sibling_tail.
      split; [|split; [rewrite sibling_tail; apply Hfresh0|done]].
      rewrite (insert_insert_ne fs0) by (apply sibling_neq).
      rewrite delete_insert_eq. rewrite delete_insert_ne by (apply not_eq_sym, sibling_neq).
      rewrite delete_id by done.
      by rewrite insert_insert_eq.
  - rewrite bool_decide_false in Hfinalize by done. subst fs3.
    exists None. eexists. simpl tail_of. rewrite append_empty_r. by split.
Qed.

(** In a reached state the stored names are those of the chunks of the
    chain, one file for each chunk. *)
Lemma reachable_chunk_names chain self :
  reachable chain self ->
  stored_names (block_storage self) ≡ₚ
  chunk_names (Z.of_nat (length chain)) (block_chunk_size self).
Proof.
  induction 1 as [self Hs Hfs|chain self block self' Hreach IH Hn Hadd].
  - rewrite Hfs. unfold stored_names, chunk_names. rewrite map_to_list_empty.
    simpl length. rewrite Z.div_0_l, Z.mod_0_l by lia. done.
  - destruct (reachable_store_inv chain self Hreach) as (Hs & Hnum & Hinv).
    destruct (add_block_storage block self self' Hs Hadd)
      as (fs1 & fs2 & Happend & Hmove & Hfinalize & Hsize & _).
    destruct (add_block_layout chain (block_chunk_size self) (block_storage self)
                block (blocks_compressors self) fs1 fs2 (block_storage self')
                Hs Hn Hinv Happend Hmove Hfinalize)
      as (fs0 & co & f & Hfs3 & Hfresh & Hfs0).
    rewrite Hsize, Hfs3. rewrite Hn in *.
    set (L := Z.of_nat (length chain)) in *.
    set (s := block_chunk_size self) in *.
    replace (Z.of_nat (length (chain ++ [block]))) with (L + 1)
      by (rewrite length_app; simpl; lia).
    rewrite chunk_names_snoc by lia.
    destruct (chunk_start_bounds L s Hs) as (Hb & Hcs & Hoff).
    rewrite stored_names_insert by done. rewrite chunk_name_strip.
    rewrite <- Permutation_cons_append. apply Permutation_skip.
    destruct (decide (L = L / s * s)) as [Hstart|Hstart].
    + rewrite bool_decide_true in Hfs0 by done. subst fs0. rewrite IH.
      unfold chunk_names. rewrite (proj2 (Z.eqb_eq _ _)) by lia.
      by rewrite app_nil_r.
    + rewrite bool_decide_false in Hfs0 by done. destruct Hfs0 as [-> [f0 Hf0]].
      pose proof (stored_names_delete _ _ _ Hf0) as Hdel.
      pose proof (chunk_name_strip (L / s * s) (L - 1) None) as Hstrip.
      simpl tail_of in Hstrip. rewrite append_empty_r in Hstrip.
      rewrite Hstrip, IH in Hdel. unfold chunk_names in Hdel.
      rewrite (proj2 (Z.eqb_neq _ _)) in Hdel by lia.
      rewrite <- Permutation_cons_append in Hdel.
      by apply Permutation_cons_inv in Hdel.
Qed.

End StoreListing.

Section BlockCount.
Context `{Codecs} `{BlockModel} `{BlockchainStateModel}.

#[local] Existing Instance path_optimized.

(** The number of blocks that the name of a chunk file announces. *)
Definition span_of (file_path : string) : Z :=
  match get_block_chunk_file_path_meta file_path with
  | Ok (Some meta) => end_ meta - FileBlockchain.start meta + 1
  | _ => 0
  end.

Lemma get_block_count_loop_sum paths count :
  (forall p, p ∈ paths -> exists meta, get_block_chunk_file_path_meta p = Ok (Some meta)) ->
  get_block_count_loop paths count = Ok (count + foldr Z.add 0 (span_of <$> paths)).
Proof.
  revert count. induction paths as [|p paths IH]; intros count Hmeta.
  - simpl. f_equal. lia.
  - destruct (Hmeta p (list_elem_of_here _ _)) as [meta Hp].
    cbn [get_block_count_loop]. rewrite Hp. rewrite IH.
    + rewrite fmap_cons. cbn [foldr]. unfold span_of at 2. rewrite Hp. f_equal. lia.
    + intros q Hq. apply Hmeta. by apply list_elem_of_further.
Qed.

Lemma sum_Permutation (l1 l2 : list Z) :
  l1 ≡ₚ l2 -> foldr Z.add 0 l1 = foldr Z.add 0 l2.
Proof. induction 1; simpl; lia. Qed.

Lemma span_of_chunk_name a z :
  0 <= a <= z -> span_of (Names.make_block_chunk_filename a z) = z - a + 1.
Proof.
  intros Haz. unfold span_of.
  pose proof (chunk_name_meta a z ltac:(lia) ltac:(lia) None) as Hm.
  simpl tail_of in Hm. rewrite append_empty_r in Hm. by rewrite Hm.
Qed.

Lemma full_names_elem n s p :
  p ∈ full_names n s ->
  exists k, 0 <= k < n /\ p = Names.make_block_chunk_filename (k * s) (k * s + s - 1).
Proof.
  unfold full_names. intros (k & -> & Hk%elem_of_seqZ)%list_elem_of_fmap.
  exists k. split; [lia|done].
Qed.

(** Every chunk name of a chain is that of a range of block numbers. *)
Lemma chunk_names_elem L s p :
  0 < s -> 0 <= L -> p ∈ chunk_names L s ->
  exists a z, p = Names.make_block_chunk_filename a z /\
              0 <= a <= z /\ z < L /\ a = a / s * s /\ z < a + s /\
              (z = a + s - 1 \/ z = L - 1).
Proof.
  intros Hs HL. unfold chunk_names.
  destruct (chunk_start_bounds L s Hs) as (Hb & Hcs & Hoff).
  pose proof (Z.div_pos L s HL Hs) as Hq.
  intros [Hp|Hp]%elem_of_app.
  - apply full_names_elem in Hp as (k & Hk & ->).
    exists (k * s), (k * s + s - 1). split; [done|].
    rewrite Z.div_mul by lia. nia.
  - destruct (Z.eqb_spec (L mod s) 0) as [|Hne]; [by apply elem_of_nil in Hp|].
    apply list_elem_of_singleton in Hp as ->.
    exists (L / s * s), (L - 1). split; [done|].
    rewrite Z.div_mul by lia. lia.
Qed.

Lemma sum_full_names n s :
  0 < s -> 0 <= n -> foldr Z.add 0 (span_of <$> full_names n s) = n * s.
Proof.
  intros Hs Hn. rewrite <- (Z2Nat.id n Hn). clear Hn.
  induction (Z.to_nat n) as [|m IH]; [done|].
  rewrite Nat2Z.inj_succ. unfold Z.succ.
  rewrite full_names_snoc, fmap_app, foldr_app by lia.
  cbn [fmap list_fmap foldr]. rewrite span_of_chunk_name by nia.
  assert (Hshift : forall l c, foldr Z.add c l = c + foldr Z.add 0 l).
  { induction l as [|x l IHl]; intros c; simpl; [lia|]. rewrite IHl. lia. }
  rewrite Hshift, IH. lia.
Qed.

Lemma sum_chunk_names L s :
  0 < s -> 0 <= L -> foldr Z.add 0 (span_of <$> chunk_names L s) = L.
Proof.
  intros Hs HL. unfold chunk_names.
  destruct (chunk_start_bounds L s Hs) as (Hb & Hcs & Hoff).
  pose proof (Z.div_pos L s HL Hs) as Hq.
  assert (Hshift : forall l c, foldr Z.add c l = c + foldr Z.add 0 l).
  { induction l as [|x l IHl]; intros c; simpl; [lia|]. rewrite IHl. lia. }
  rewrite fmap_app, foldr_app, Hshift, sum_full_names by lia.
  destruct (Z.eqb_spec (L mod s) 0) as [Hz|Hne].
  - simpl. lia.
  - cbn [fmap list_fmap foldr]. rewrite span_of_chunk_name by lia. lia.
Qed.

(** X10: In every state reached by successful [add_block] calls on an empty block
    storage, [get_block_count] returns the number of blocks added, and leaves
    the blockchain as it is. *)
Theorem get_block_count_reachable (chain : list Block) (self : FileBlockchain)
    (Hreach : reachable chain self) :
  get_block_count self = (Ok (Z.of_nat (length chain)), self).
Proof.
  destruct (reachable_store_inv chain self Hreach) as (Hs & _ & _).
  pose proof (reachable_chunk_names chain self Hreach) as Hnames.
  unfold get_block_count, bind, _list_block_directory, on_block_storage.
  rewrite list_directory_forward, set_block_storage_id. unfold lift.
  rewrite get_block_count_loop_sum.
  - rewrite (sum_Permutation _ (span_of <$> chunk_names (Z.of_nat (length chain))
                                   (block_chunk_size self))).
    + rewrite sum_chunk_names by lia. do 2 f_equal.
    + by rewrite merge_sort_Permutation, Hnames.
  - intros p Hp. rewrite merge_sort_Permutation, Hnames in Hp.
    apply chunk_names_elem in Hp as (a & z & -> & Haz & _); [|done|lia].
    pose proof (chunk_name_meta a z ltac:(lia) ltac:(lia) None) as Hm.
    simpl tail_of in Hm. rewrite append_empty_r in Hm. eauto.
Qed.

End BlockCount.

Section BlockOrder.
Context `{Codecs} `{BlockModel} `{BlockchainStateModel}.

#[local] Existing Instance path_optimized.

Lemma compare_Lt_le (a b : string) : String.compare a b = Lt -> String.le a b.
Proof. intros Hc. unfold String.le, String.leb. by rewrite Hc. Qed.

Lemma full_names_sorted n s :
  0 < s -> 0 <= n -> n * s <= 10 ^ 20 -> StronglySorted String.le (full_names n s).
Proof.
  intros Hs Hn. rewrite <- (Z2Nat.id n Hn). clear Hn.
  induction (Z.to_nat n) as [|m IH]; intros Hb; [constructor|].
  rewrite Nat2Z.inj_succ in Hb |- *. unfold Z.succ in *.
  rewrite full_names_snoc by lia. apply StronglySorted_app_2.
  - intros x1 x2 (k & Hk & ->)%full_names_elem ->%list_elem_of_singleton.
    apply compare_Lt_le, chunk_name_lt; nia.
  - apply IH. nia.
  - repeat constructor.
Qed.

(** Below [10 ^ 20] blocks the chunk names are in lexicographic order. *)
Lemma chunk_names_sorted L s :
  0 < s -> 0 <= L <= 10 ^ 20 -> StronglySorted String.le (chunk_names L s).
Proof.
  intros Hs HL. unfold chunk_names.
  destruct (chunk_start_bounds L s Hs) as (Hb & Hcs & Hoff).
  pose proof (Z.div_pos L s ltac:(lia) Hs) as Hq.
  apply StronglySorted_app_2.
  - intros x1 x2 (k & Hk & ->)%full_names_elem Hx2.
    destruct (Z.eqb_spec (L mod s) 0) as [|Hne]; [by apply elem_of_nil in Hx2|].
    apply list_elem_of_singleton in Hx2 as ->.
    apply compare_Lt_le, chunk_name_lt; nia.
  - apply full_names_sorted; lia.
  - destruct (L mod s =? 0); repeat constructor.
Qed.

(** What [list_directory] returns for the blocks of a reached state. *)
Lemma reachable_listing chain self :
  reachable chain self -> Z.of_nat (length chain) <= 10 ^ 20 ->
  merge_sort String.le (stored_names (block_storage self)) =
  chunk_names (Z.of_nat (length chain)) (block_chunk_size self).
Proof.
  intros Hreach Hb.
  destruct (reachable_store_inv chain self Hreach) as (Hs & _ & _).
  apply (StronglySorted_unique String.le).
  - apply StronglySorted_merge_sort; apply _.
  - apply chunk_names_sorted; lia.
  - rewrite merge_sort_Permutation. by apply reachable_chunk_names.
Qed.

Lemma chunk_of_chunk_name chain a z :
  0 <= a <= z ->
  chunk_of chain (Names.make_block_chunk_filename a z) = chain_slice chain a z.
Proof.
  intros Haz. unfold chunk_of.
  pose proof (chunk_name_meta a z ltac:(lia) ltac:(lia) None) as Hm.
  simpl tail_of in Hm. rewrite append_empty_r in Hm. by rewrite Hm.
Qed.

Lemma chain_slice_empty chain a : chain_slice chain a (a - 1) = [].
Proof. unfold chain_slice. by rewrite seqZ_nil by lia. Qed.

Lemma chain_slice_all chain :
  chain_slice chain 0 (Z.of_nat (length chain) - 1) = chain.
Proof.
  induction chain as [|block chain IH] using rev_ind; [done|].
  rewrite length_app. simpl length.
  replace (Z.of_nat (length chain + 1) - 1) with (Z.of_nat (length chain)) by lia.
  rewrite <- (chain_slice_app _ 0 (Z.of_nat (length chain))) by lia.
  by rewrite chain_slice_last, chain_slice_grow, IH by lia.
Qed.

Lemma concat_full_names chain n s :
  0 < s -> 0 <= n ->
  concat (chunk_of chain <$> full_names n s) = chain_slice chain 0 (n * s - 1).
Proof.
  intros Hs Hn. rewrite <- (Z2Nat.id n Hn). clear Hn.
  induction (Z.to_nat n) as [|m IH]; [done|].
  rewrite Nat2Z.inj_succ. unfold Z.succ.
  rewrite full_names_snoc, fmap_app, concat_app, IH by lia.
  cbn [fmap list_fmap concat]. rewrite app_nil_r.
  rewrite chunk_of_chunk_name by nia.
  replace ((Z.of_nat m + 1) * s - 1) with (Z.of_nat m * s + s - 1) by lia.
  apply chain_slice_app; nia.
Qed.

(** The chunks of a chain, in the order of their names, make up the chain. *)
Lemma concat_chunk_names chain s :
  0 < s ->
  concat (chunk_of chain <$> chunk_names (Z.of_nat (length chain)) s) = chain.
Proof.
  intros Hs. set (L := Z.of_nat (length chain)).
  destruct (chunk_start_bounds L s Hs) as (Hb & Hcs & Hoff).
  pose proof (Z.div_pos L s ltac:(lia) Hs) as Hq.
  unfold chunk_names. rewrite fmap_app, concat_app, concat_full_names by lia.
  rewrite <- (chain_slice_all chain) at 3. fold L.
  destruct (Z.eqb_spec (L mod s) 0) as [Hz|Hne].
  - cbn [fmap list_fmap concat]. rewrite app_nil_r. do 2 f_equal. lia.
  - cbn [fmap list_fmap concat]. rewrite app_nil_r.
    rewrite chunk_of_chunk_name by lia.
    apply chain_slice_app; lia.
Qed.

(** The compression library and the block codec read back what they wrote. *)
Hypothesis decompress_compress :
  forall c data, DECOMPRESSION_FUNCTIONS c (COMPRESSION_FUNCTIONS c data) = Ok data.
Hypothesis unpack_packed :
  forall blocks, unpack_blocks (concat (to_messagepack <$> blocks)) = (blocks, None).

(** X11: In every state reached by successful [add_block] calls of fewer than
    [10 ^ 20] blocks on an empty block storage, [list(yield_blocks())]
    returns the blocks in the order they were added and
    [list(yield_blocks_reversed())] returns them in the opposite order, for
    every blocks cache of capacity at least one that holds blocks of the
    chain under their numbers. *)
Theorem yield_blocks_reachable (chain : list Block) (self : FileBlockchain)
    (cache : LRU.LRUCache Z Block)
    (Hreach : reachable chain self)
    (Hbound : Z.of_nat (length chain) <= 10 ^ 20)
    (Hsound : forall n b, (n, b) ∈ LRU.items cache -> stored chain n = Some b)
    (Hsize : 1 <= LRU.maxsize cache) :
  fst (to_list yield_blocks (set_blocks_cache cache self)) = Ok chain /\
  fst (to_list yield_blocks_reversed (set_blocks_cache cache self)) = Ok (reverse chain).
Proof.
  destruct (reachable_store_inv chain self Hreach) as (Hs & _ & _).
  pose proof (reachable_listing chain self Hreach Hbound) as Hlist.
  set (names := chunk_names (Z.of_nat (length chain)) (block_chunk_size self)) in *.
  assert (Hnames : forall p, p ∈ names -> p ∈ stored_names (block_storage self)).
  { intros p Hp. rewrite <- Hlist in Hp. by rewrite merge_sort_Permutation in Hp. }
  assert (Hfw : list_directory 1 (block_storage self) = (Ok names, block_storage self))
    by (by rewrite list_directory_forward, Hlist).
  assert (Hbw : list_directory (-1) (block_storage self) =
                (Ok (reverse names), block_storage self))
    by (by rewrite list_directory_backward, Hlist).
  destruct (_yield_blocks_listed decompress_compress unpack_packed 1 names self chain
              (or_introl eq_refl) Hfw Hnames Hreach cache Hsound Hsize)
    as [self1 Hforward].
  destruct (_yield_blocks_listed decompress_compress unpack_packed (-1) (reverse names)
              self chain (or_intror eq_refl) Hbw
              (fun p Hp => Hnames p (proj1 (elem_of_reverse _ _) Hp))
              Hreach cache Hsound Hsize)
    as [self2 Hbackward].
  change (1 =? 1) with true in Hforward. change (-1 =? 1) with false in Hbackward.
  cbv beta iota in Hforward, Hbackward.
  rewrite (concat_reverse_chunks (chunk_of chain)) in Hbackward.
  unfold names in Hforward, Hbackward.
  rewrite concat_chunk_names in Hforward, Hbackward by done.
  unfold yield_blocks, yield_blocks_reversed. by rewrite Hforward, Hbackward.
Qed.

End BlockOrder.

Section BlockByNumber.
Context `{Codecs} `{BlockModel} `{BlockchainStateModel}.

#[local] Existing Instance path_optimized.

Lemma gen_for_app {S A B} (l1 l2 : list A) (body : A -> Gen S B) (s : S) :
  gen_for (l1 ++ l2) body s = gen_app (gen_for l1 body) (gen_for l2 body) s.
Proof.
  revert s. induction l1 as [|x l1 IH]; intros s.
  - cbn [app gen_for]. unfold gen_app, gen_return.
    by destruct (gen_for l2 body s) as [ys [e s']].
  - cbn [app gen_for]. unfold gen_app.
    destruct (body x s) as [ys1 [[e|] s1]]; [done|].
    specialize (IH s1). unfold gen_app in IH. rewrite IH.
    destruct (gen_for l1 body s1) as [ys2 [[e|] s2]]; [done|].
    destruct (gen_for l2 body s2) as [ys3 [e3 s3]]. by rewrite app_assoc.
Qed.

(** The chunk that holds block [n], with the chunks before it. *)
Lemma chunk_names_split L s n :
  0 < s -> 0 <= n < L ->
  exists pre rest z,
    chunk_names L s = pre ++ Names.make_block_chunk_filename (n / s * s) z :: rest /\
    (forall p, p ∈ pre -> exists a' z',
       p = Names.make_block_chunk_filename a' z' /\ 0 <= a' <= z' /\ z' < n) /\
    n <= z < L.
Proof.
  intros Hs Hn.
  destruct (chunk_start_bounds L s Hs) as (HbL & _ & HoffL).
  destruct (chunk_start_bounds n s Hs) as (Hbn & _ & Hoffn).
  pose proof (Z.div_pos n s ltac:(lia) Hs) as Hqn.
  assert (Hle : n / s <= L / s) by (apply Z.div_le_mono; lia).
  assert (Hpre : forall p, p ∈ full_names (n / s) s -> exists a' z',
            p = Names.make_block_chunk_filename a' z' /\ 0 <= a' <= z' /\ z' < n).
  { intros p (k & Hk & ->)%full_names_elem. eexists _, _. split; [done|]. nia. }
  unfold chunk_names.
  destruct (decide (n / s = L / s)) as [Heq|Hne].
  - exists (full_names (n / s) s), [], (L - 1).
    rewrite (proj2 (Z.eqb_neq _ _)) by lia. rewrite Heq in *.
    split; [done|]. split; [done|lia].
  - exists (full_names (n / s) s),
      (((fun k => Names.make_block_chunk_filename (k * s) (k * s + s - 1))
          <$> seqZ (n / s + 1) (L / s - n / s - 1)) ++
       (if L mod s =? 0 then []
        else [Names.make_block_chunk_filename (L / s * s) (L - 1)])),
      (n / s * s + s - 1).
    split; [|split; [done|nia]].
    unfold full_names at 1.
    replace (L / s) with (n / s + (1 + (L / s - n / s - 1))) at 1 by lia.
    rewrite seqZ_app, fmap_app by lia. rewrite <- app_assoc. f_equal.
    rewrite Z.add_0_l.
    rewrite seqZ_app by lia. rewrite fmap_app, <- app_assoc.
    rewrite seqZ_cons, seqZ_nil by lia. cbn [fmap list_fmap app].
    done.
Qed.

(** The compression library and the block codec read back what they wrote. *)
Hypothesis decompress_compress :
  forall c data, DECOMPRESSION_FUNCTIONS c (COMPRESSION_FUNCTIONS c data) = Ok data.
Hypothesis unpack_packed :
  forall blocks, unpack_blocks (concat (to_messagepack <$> blocks)) = (blocks, None).

(** X12: In every state reached by successful [add_block] calls of fewer than
    [10 ^ 20] blocks on an empty block storage, [get_block_by_number(i)]
    returns the block that was added as number [i], for every non-empty
    blocks cache of capacity at least one that holds blocks of the chain
    under their numbers. *)
Theorem get_block_by_number_reachable (chain : list Block) (self : FileBlockchain)
    (cache : LRU.LRUCache Z Block) (i : nat) (block : Block)
    (Hreach : reachable chain self)
    (Hbound : Z.of_nat (length chain) <= 10 ^ 20)
    (Hsound : forall n b, (n, b) ∈ LRU.items cache -> stored chain n = Some b)
    (Hsize : 1 <= LRU.maxsize cache)
    (Hnonempty : LRU.len cache <> 0%nat)
    (Hblock : chain !! i = Some block) :
  fst (get_block_by_number (Z.of_nat i) (set_blocks_cache cache self)) =
  Ok (Some block).
Proof.
  destruct (reachable_store_inv chain self Hreach) as (Hs & Hnum & Hinv).
  set (n := Z.of_nat i). set (self0 := set_blocks_cache cache self).
  assert (Hstored : stored chain n = Some block).
  { unfold stored, n. rewrite bool_decide_true by lia. by rewrite Nat2Z.id. }
  assert (HnL : 0 <= n < Z.of_nat (length chain)).
  { apply lookup_lt_Some in Hblock. lia. }
  destruct (LRU.assoc n (LRU.items cache)) as [b|] eqn:Hassoc.
  { rewrite (get_block_by_number_hit n self0 b) by done.
    apply assoc_elem, Hsound in Hassoc. congruence. }
  rewrite (get_block_by_number_miss n self0) by done.
  unfold yield_blocks_from, next_or_none, gen_call at 1, _list_block_directory,
    on_block_storage.
  change (block_storage self0) with (block_storage self).
  rewrite list_directory_forward.
  change (set_block_storage (block_storage self) self0) with self0.
  cbv beta iota.
  pose proof (reachable_listing chain self Hreach Hbound) as Hlist. rewrite Hlist.
  assert (Hin : forall p, p ∈ chunk_names (Z.of_nat (length chain)) (block_chunk_size self) ->
                  p ∈ stored_names (block_storage self)).
  { intros p Hp. rewrite <- Hlist in Hp. by rewrite merge_sort_Permutation in Hp. }
  destruct (chunk_names_split (Z.of_nat (length chain)) (block_chunk_size self) n Hs HnL)
    as (pre & rest & z & Hsplit & Hpre & Hz).
  rewrite Hsplit in Hin |- *.
  set (s := block_chunk_size self) in *.
  destruct (chunk_start_bounds n s Hs) as (Hbn & _ & _).
  pose proof (chunk_start_nonneg n s Hs ltac:(lia)) as Ha0.
  rewrite gen_for_app. unfold gen_app at 1.
  rewrite yield_blocks_from_skips; last first.
  { intros p (a' & z' & -> & Haz & Hz')%Hpre.
    pose proof (chunk_name_meta a' z' ltac:(lia) ltac:(lia) None) as Hm.
    simpl tail_of in Hm. rewrite append_empty_r in Hm.
    eexists. split; [exact Hm|]. simpl. lia. }
  cbn [gen_for app]. unfold gen_app at 1. unfold gen_call at 1, lift at 1.
  pose proof (chunk_name_meta (n / s * s) z ltac:(lia) ltac:(lia) None) as Hmeta.
  simpl tail_of in Hmeta. rewrite append_empty_r in Hmeta. rewrite Hmeta.
  cbn [end_ FileBlockchain.start].
  rewrite (proj2 (Z.ltb_ge _ _)) by lia.
  rewrite Z.max_r by lia.
  destruct (store_inv_file_holds decompress_compress unpack_packed chain s
              (block_storage self) (Names.make_block_chunk_filename (n / s * s) z)
              Hs Hinv) as (a' & z' & Hholds).
  { apply Hin, elem_of_app. right. apply list_elem_of_here. }
  assert (Heq : a' = n / s * s /\ z' = z).
  { destruct Hholds as ([c Hm'] & _). rewrite Hmeta in Hm'. by injection Hm' as -> -> _. }
  destruct Heq as [-> ->].
  destruct (_yield_blocks_from_file_cached_forward chain Hnum
              (Names.make_block_chunk_filename (n / s * s) z) (n / s * s) z n (Some n)
              self0 Hholds (or_intror eq_refl) ltac:(lia) (conj Hsound Hsize))
    as (ys & self' & Hrun & Hys & _).
  rewrite Hrun.
  assert (Hfirst : exists ys', fst <$> ys = block :: ys').
  { rewrite Hys. unfold chain_slice, blocks_of.
    rewrite seqZ_cons by lia. cbn [omap list_omap]. rewrite Hstored. eauto. }
  destruct Hfirst as [ys' Hfirst].
  destruct ys as [|[b0 s0] ys0]; [done|]. injection Hfirst as -> _.
  destruct (gen_for rest _ self') as [ys2 end2]. done.
Qed.

End BlockByNumber.

Section BlockStoreWitness.

#[local] Existing Instance Demo.codecs.
#[local] Existing Instance Demo.block_model.
#[local] Existing Instance Demo.state_model.
#[local] Existing Instance path_optimized.

Lemma get_block_count_reachable_witness :
  get_block_count Demo.rollover = (Ok 3, Demo.rollover).
Proof.
  exact (get_block_count_reachable
           (H := Demo.codecs) (H0 := Demo.block_model) (H1 := Demo.state_model)
           [Byte.x00; Byte.x01; Byte.x02] Demo.rollover reachable_rollover).
Defined.

Lemma yield_blocks_reachable_witness :
  fst (to_list yield_blocks
         (set_blocks_cache (LRU.Cache 4 [(2, Byte.x02)]) Demo.rollover)) =
    Ok [Byte.x00; Byte.x01; Byte.x02] /\
  fst (to_list yield_blocks_reversed
         (set_blocks_cache (LRU.Cache 4 [(2, Byte.x02)]) Demo.rollover)) =
    Ok (reverse [Byte.x00; Byte.x01; Byte.x02]).
Proof.
  apply (yield_blocks_reachable
           (H := Demo.codecs) (H0 := Demo.block_model) (H1 := Demo.state_model)
           demo_decompress_compress demo_unpack_packed
           [Byte.x00; Byte.x01; Byte.x02] Demo.rollover
           (LRU.Cache 4 [(2, Byte.x02)]) reachable_rollover).
  - vm_compute. discriminate.
  - intros n b Hin. apply list_elem_of_singleton in Hin. by injection Hin as -> ->.
  - simpl. lia.
Defined.

Lemma get_block_by_number_reachable_witness :
  fst (get_block_by_number (Z.of_nat 1)
         (set_blocks_cache Demo.block_3_cached Demo.four_blocks_read)) =
  Ok (Some Byte.x01).
Proof.
  apply (get_block_by_number_reachable
           (H := Demo.codecs) (H0 := Demo.block_model) (H1 := Demo.state_model)
           demo_decompress_compress demo_unpack_packed
           [Byte.x00; Byte.x01; Byte.x02; Byte.x03] Demo.four_blocks_read
           Demo.block_3_cached 1%nat Byte.x01 reachable_four_blocks_read).
  - vm_compute. discriminate.
  - intros n b Hin. apply list_elem_of_singleton in Hin. by injection Hin as -> ->.
  - simpl. lia.
  - vm_compute. discriminate.
  - reflexivity.
Defined.

End BlockStoreWitness.

(** * File names read back *)

Lemma after_last_slash_dir dir t :
  after_last_slash t = None -> after_last_slash (dir +:+ "/" +:+ t) = Some t.
Proof.
  intros Ht. induction dir as [|c dir IH].
  - rewrite append_empty_l. change ("/" +:+ t) with (String "/" t).
    cbn [after_last_slash]. by rewrite Ht.
  - rewrite append_String. cbn [after_last_slash]. by rewrite IH.
Qed.

Lemma basename_dir dir t :
  after_last_slash t = None -> basename (dir +:+ "/" +:+ t) = t.
Proof. intros Ht. unfold basename. by rewrite after_last_slash_dir. Qed.

Lemma basename_plain t : after_last_slash t = None -> basename t = t.
Proof. intros Ht. unfold basename. by rewrite Ht. Qed.

Lemma after_last_slash_tail compression suffix :
  after_last_slash suffix = None ->
  after_last_slash (suffix +:+ tail_of compression) = None.
Proof.
  intros Hs. apply after_last_slash_app; [done|]. by destruct compression as [[]|].
Qed.

Lemma zfill_str_digits n w :
  0 <= n -> (0 < w)%nat ->
  all_digits (zfill (str n) w) = true /\ zfill (str n) w <> "".
Proof.
  intros Hn Hw. destruct (str_nonneg_digits n Hn) as [Hd Hne].
  destruct (zfill_digits_all (str n) w Hd Hne) as [Hall Hlen].
  split; [done|]. intros Heq. rewrite Heq in Hlen. simpl in Hlen. lia.
Qed.

Lemma all_digits_not_sentinel d :
  all_digits d = true -> ends_with d Names.LAST_BLOCK_NUMBER_NONE_SENTINEL = false.
Proof.
  intros Hd. apply not_true_iff_false. intros [pre ->]%ends_with_true.
  rewrite all_digits_append in Hd. by apply andb_true_iff in Hd as [_ Hd].
Qed.

Section ChunkNameFacts.
Variables (first last : Z).
Hypothesis first_nonneg : 0 <= first.
Hypothesis last_nonneg : 0 <= last.

Lemma chunk_name_no_slash compression :
  after_last_slash (Names.make_block_chunk_filename first last +:+ tail_of compression)
  = None.
Proof.
  destruct (zfill_str_digits first Names.ORDER_OF_BLOCK first_nonneg) as [Hd1 _];
    [unfold Names.ORDER_OF_BLOCK; lia|].
  destruct (zfill_str_digits last Names.ORDER_OF_BLOCK last_nonneg) as [Hd2 _];
    [unfold Names.ORDER_OF_BLOCK; lia|].
  rewrite chunk_name_unfold.
  apply after_last_slash_app; [by apply after_last_slash_digits|].
  change (String "-" (?l +:+ ?t)) with ("-" +:+ (l +:+ t)).
  apply after_last_slash_app; [done|].
  apply after_last_slash_app; [by apply after_last_slash_digits|].
  by apply after_last_slash_tail.
Qed.

Lemma chunk_name_groups compression :
  BLOCK_CHUNK_FILENAME_RE_match
    (Names.make_block_chunk_filename first last +:+ tail_of compression) =
  Some (zfill (str first) Names.ORDER_OF_BLOCK, zfill (str last) Names.ORDER_OF_BLOCK,
        compression).
Proof.
  destruct (zfill_str_digits first Names.ORDER_OF_BLOCK first_nonneg) as [Hd1 Hne1];
    [unfold Names.ORDER_OF_BLOCK; lia|].
  destruct (zfill_str_digits last Names.ORDER_OF_BLOCK last_nonneg) as [Hd2 Hne2];
    [unfold Names.ORDER_OF_BLOCK; lia|].
  rewrite chunk_name_unfold. unfold BLOCK_CHUNK_FILENAME_RE_match.
  rewrite span_digits_app by done.
  rewrite bool_decide_false by done.
  change (strip_prefix "-" (String "-" ?t)) with (Some t).
  cbv beta iota.
  rewrite span_digits_app; [|done|by destruct compression as [[]|]].
  rewrite bool_decide_false by done.
  by destruct compression as [[]|].
Qed.

End ChunkNameFacts.

(** X13: [get_block_chunk_file_path_meta] reads back what
    [make_block_chunk_filename] wrote: for block numbers [0 <= start <= end],
    with or without a compression suffix and with or without a directory in
    front, it returns [(start, end, compression)]; for [start > end >= 0] it
    raises [AssertionError]. *)
Theorem block_chunk_filename_round_trip (first last : Z)
    (compression : option compressor) (dir : string)
    (Hfirst : 0 <= first) (Hlast : 0 <= last) :
  let filename := Names.make_block_chunk_filename first last +:+ tail_of compression in
  let meta := if first <=? last
              then Ok (Some {| start := first; end_ := last;
                               FileBlockchain.compression := compression |})
              else Raise AssertionError in
  get_block_chunk_file_path_meta filename = meta /\
  get_block_chunk_file_path_meta (dir +:+ "/" +:+ filename) = meta.
Proof.
  cbv zeta.
  pose proof (chunk_name_no_slash first last Hfirst Hlast compression) as Hslash.
  assert (Hmeta : get_block_chunk_filename_meta
            (Names.make_block_chunk_filename first last +:+ tail_of compression) =
          if first <=? last
          then Ok (Some {| start := first; end_ := last;
                           FileBlockchain.compression := compression |})
          else Raise AssertionError).
  { unfold get_block_chunk_filename_meta.
    rewrite basename_plain, chunk_name_groups by done.
    by rewrite !int_of_digits_zfill_str by lia. }
  unfold get_block_chunk_file_path_meta.
  by rewrite basename_dir, basename_plain by done.
Qed.

Lemma state_name_unfold n compression :
  Names.make_blockchain_state_filename (Some n) +:+ tail_of compression =
  zfill (str n) Names.ORDER_OF_BLOCKCHAIN_STATE_FILE +:+
  ("-arf.msgpack" +:+ tail_of compression).
Proof.
  unfold Names.make_blockchain_state_filename, Names.BLOCKCHAIN_STATE_FILENAME_TEMPLATE.
  cbv zeta. by rewrite append_assoc.
Qed.

Lemma state_name_no_slash last_block_number compression :
  (forall n, last_block_number = Some n -> 0 <= n) ->
  after_last_slash
    (Names.make_blockchain_state_filename last_block_number +:+ tail_of compression)
  = None.
Proof.
  intros Hn. destruct last_block_number as [n|]; [|by destruct compression as [[]|]].
  rewrite state_name_unfold.
  destruct (zfill_str_digits n Names.ORDER_OF_BLOCKCHAIN_STATE_FILE (Hn n eq_refl))
    as [Hd _]; [unfold Names.ORDER_OF_BLOCKCHAIN_STATE_FILE; lia|].
  apply after_last_slash_app; [by apply after_last_slash_digits|].
  by apply after_last_slash_tail.
Qed.

Lemma state_match_digits d compression :
  all_digits d = true ->
  BLOCKCHAIN_STATE_FILENAME_RE_match (d +:+ ("-arf.msgpack" +:+ tail_of compression)) =
  if ((1 <=? String.length d) && (String.length d <=? 10))%nat
  then Some (d, compression) else None.
Proof.
  intros Hd. unfold BLOCKCHAIN_STATE_FILENAME_RE_match.
  rewrite span_digits_app; [|done|by destruct compression as [[]|]].
  by destruct compression as [[]|].
Qed.

Lemma state_name_meta last_block_number compression :
  (forall n, last_block_number = Some n -> 0 <= n < 10 ^ 10) ->
  get_blockchain_state_filename_meta
    (Names.make_blockchain_state_filename last_block_number +:+ tail_of compression) =
  Ok (Some {| state_last_block_number := last_block_number;
              state_compression := compression |}).
Proof.
  intros Hn. destruct last_block_number as [n|]; [|by destruct compression as [[]|]].
  specialize (Hn n eq_refl).
  destruct (zfill_str_digits n Names.ORDER_OF_BLOCKCHAIN_STATE_FILE ltac:(lia))
    as [Hd Hne]; [unfold Names.ORDER_OF_BLOCKCHAIN_STATE_FILE; lia|].
  pose proof (zfill_str_length n Names.ORDER_OF_BLOCKCHAIN_STATE_FILE) as Hlen.
  rewrite state_name_unfold.
  unfold get_blockchain_state_filename_meta.
  rewrite state_match_digits by done.
  rewrite Hlen by (unfold Names.ORDER_OF_BLOCKCHAIN_STATE_FILE; simpl; lia).
  change ((1 <=? Names.ORDER_OF_BLOCKCHAIN_STATE_FILE) &&
          (Names.ORDER_OF_BLOCKCHAIN_STATE_FILE <=? 10))%nat with true.
  cbv iota.
  rewrite all_digits_not_sentinel by done.
  by rewrite int_of_digits_zfill_str by lia.
Qed.

(** X14: [get_blockchain_state_file_path_meta] reads back what
    [make_blockchain_state_filename] wrote: for the genesis state ([None])
    and for every last block number from 0 to [10 ^ 10 - 1], with or without
    a compression suffix and with or without a directory in front, it
    returns that last block number and that compression. *)
Theorem blockchain_state_filename_round_trip (last_block_number : option Z)
    (compression : option compressor) (dir : string)
    (Hrange : forall n, last_block_number = Some n -> 0 <= n < 10 ^ 10) :
  let filename :=
    Names.make_blockchain_state_filename last_block_number +:+ tail_of compression in
  let meta := Ok (Some {| state_last_block_number := last_block_number;
                          state_compression := compression |}) in
  get_blockchain_state_filename_meta filename = meta /\
  get_blockchain_state_file_path_meta filename = meta /\
  get_blockchain_state_file_path_meta (dir +:+ "/" +:+ filename) = meta.
Proof.
  cbv zeta.
  assert (Hslash : after_last_slash
            (Names.make_blockchain_state_filename last_block_number +:+
             tail_of compression) = None).
  { apply state_name_no_slash. intros n Hn. specialize (Hrange n Hn). lia. }
  pose proof (state_name_meta last_block_number compression Hrange) as Hmeta.
  unfold get_blockchain_state_file_path_meta.
  by rewrite basename_dir, basename_plain by done.
Qed.

(** X15: a last block number of [10 ^ 10] or more, or a negative one, gives
    a file name that [get_blockchain_state_filename_meta] does not
    recognise: it returns [None] for the name that
    [make_blockchain_state_filename] makes, with or without a compression
    suffix. *)
Theorem blockchain_state_filename_out_of_range (n : Z)
    (compression : option compressor)
    (Hrange : n < 0 \/ 10 ^ 10 <= n) :
  get_blockchain_state_filename_meta
    (Names.make_blockchain_state_filename (Some n) +:+ tail_of compression) = Ok None.
Proof.
  rewrite state_name_unfold. unfold get_blockchain_state_filename_meta.
  destruct Hrange as [Hneg|Hbig].
  - destruct n as [|p|p]; [lia|lia|].
    assert (Hs : exists r, zfill (str (Z.neg p)) Names.ORDER_OF_BLOCKCHAIN_STATE_FILE
                           = String "-" r).
    { assert (Hstr : str (Z.neg p) = String "-" (NilEmpty.string_of_uint (Pos.to_uint p))).
      { unfold str. simpl. by rewrite string_of_pos_uint. }
      rewrite Hstr. unfold zfill. destruct (_ <=? _)%nat; [eauto|]. simpl. eauto. }
    destruct Hs as [r ->]. rewrite append_String. done.
  - pose proof (str_length_large n Names.ORDER_OF_BLOCKCHAIN_STATE_FILE Hbig) as Hlen.
    assert (H0 : 0 <= n) by lia.
    destruct (str_nonneg_digits n H0) as [Hd Hne].
    assert (Hz : zfill (str n) Names.ORDER_OF_BLOCKCHAIN_STATE_FILE = str n).
    { unfold zfill. rewrite (proj2 (Nat.leb_le _ _)); [done|].
      unfold Names.ORDER_OF_BLOCKCHAIN_STATE_FILE in *. lia. }
    rewrite Hz, state_match_digits by done.
    rewrite (proj2 (Nat.leb_gt (String.length (str n)) 10)); [by rewrite andb_false_r|].
    unfold Names.ORDER_OF_BLOCKCHAIN_STATE_FILE in Hlen. lia.
Qed.

Lemma block_chunk_filename_round_trip_witness :
  get_block_chunk_file_path_meta
    (Names.make_block_chunk_filename 100 199 +:+ tail_of (Some xz)) =
    Ok (Some {| start := 100; end_ := 199; FileBlockchain.compression := Some xz |}) /\
  get_block_chunk_file_path_meta
    ("blocks/0" +:+ "/" +:+ (Names.make_block_chunk_filename 100 199 +:+ tail_of (Some xz))) =
    Ok (Some {| start := 100; end_ := 199; FileBlockchain.compression := Some xz |}).
Proof.
  apply (block_chunk_filename_round_trip 100 199 (Some xz) "blocks/0"); lia.
Defined.

Lemma blockchain_state_filename_round_trip_witness :
  get_blockchain_state_filename_meta
    (Names.make_blockchain_state_filename (Some 199) +:+ tail_of (Some gz)) =
    Ok (Some {| state_last_block_number := Some 199; state_compression := Some gz |}) /\
  get_blockchain_state_file_path_meta
    (Names.make_blockchain_state_filename (Some 199) +:+ tail_of (Some gz)) =
    Ok (Some {| state_last_block_number := Some 199; state_compression := Some gz |}) /\
  get_blockchain_state_file_path_meta
    ("states" +:+ "/" +:+
     (Names.make_blockchain_state_filename (Some 199) +:+ tail_of (Some gz))) =
    Ok (Some {| state_last_block_number := Some 199; state_compression := Some gz |}).
Proof.
  apply (blockchain_state_filename_round_trip (Some 199) (Some gz) "states").
  intros n [= <-]. lia.
Defined.

Lemma blockchain_state_filename_out_of_range_witness :
  get_blockchain_state_filename_meta
    (Names.make_blockchain_state_filename (Some 10000000000) +:+ tail_of None) = Ok None.
Proof.
  apply (blockchain_state_filename_out_of_range 10000000000 None). right. lia.
Defined.

(** * [has_nodes] *)

Lemma yield_nodes_loop_nil (l : list (string * AccountState)) (known : gset string) :
  yield_nodes_loop l known = [] <->
  forall a s, (a, s) ∈ l -> node s = None \/ a ∈ known.
Proof.
  revert known. induction l as [|[a s] l IH]; intros known.
  - split; [|done]. intros _ a s Hin. by apply elem_of_nil in Hin.
  - cbn [yield_nodes_loop]. destruct (node s) as [n|] eqn:Hn.
    + destruct (decide (a ∈ known)) as [Hk|Hk].
      * rewrite IH. split.
        -- intros Hall a' s' [[= -> ->]|Hin]%elem_of_cons; [by right|by apply Hall].
        -- intros Hall a' s' Hin. apply Hall. by apply list_elem_of_further.
      * split; [done|]. intros Hall.
        destruct (Hall a s (list_elem_of_here _ _)) as [Hnone|Hin]; [congruence|done].
    + rewrite IH. split.
      * intros Hall a' s' [[= -> ->]|Hin]%elem_of_cons; [by left|by apply Hall].
      * intros Hall a' s' Hin. apply Hall. by apply list_elem_of_further.
Qed.

(** X16: [has_nodes] is true exactly when some account state that
    [yield_account_states] yields carries a node. *)
Theorem has_nodes_iff (account_states : list (string * AccountState)) :
  has_nodes account_states = true <->
  exists account_number account_state,
    (account_number, account_state) ∈ account_states /\
    is_Some (node account_state).
Proof.
  unfold has_nodes, yield_nodes.
  pose proof (yield_nodes_loop_nil account_states ∅) as Hnil.
  destruct (yield_nodes_loop account_states ∅) as [|n ns].
  - split; [done|]. intros (a & s & Hin & [n Hn]).
    destruct (proj1 Hnil eq_refl a s Hin) as [Hnone|Hk]; [congruence|set_solver].
  - split; [|done]. intros _.
    destruct (decide (Exists (fun kv => is_Some (node kv.2)) account_states))
      as [Hex|Hno].
    + apply Exists_exists in Hex as ([a s] & Hin & Hs). by exists a, s.
    + exfalso. assert (Hempty : n :: ns = []); [|done].
      apply Hnil. intros a s Hin. left.
      destruct (node s) as [n'|] eqn:Hn; [|done]. exfalso. apply Hno.
      apply Exists_exists. exists (a, s). split; [done|]. simpl. rewrite Hn. eauto.
Qed.

(** * What [deserialize_from_dict] rejects *)

Lemma res_fold_raises {A B} (f : B -> A -> res B) (l : list A) (x : A) (acc : B) :
  x ∈ l -> (forall acc', exists e, f acc' x = Raise e) ->
  exists e, res_fold f l acc = Raise e.
Proof.
  intros Hin Hf. revert acc. induction l as [|y l IH]; intros acc.
  - by apply elem_of_nil in Hin.
  - cbn [res_fold]. unfold res_bind.
    apply elem_of_cons in Hin as [->|Hin].
    + destruct (Hf acc) as [e ->]. eauto.
    + destruct (f acc y) as [acc'|e]; [by apply IH|eauto].
Qed.

Lemma dict_remove_elem (key rm v : value) (d : dict) :
  (key, v) ∈ d -> key <> rm -> (key, v) ∈ dict_remove rm d.
Proof.
  intros Hin Hne. induction d as [|[k w] d IH]; [done|].
  cbn [dict_remove]. apply elem_of_cons in Hin as [[= <- <-]|Hin].
  - rewrite py_eqb_ne by done. apply list_elem_of_here.
  - destruct (py_eqb k rm); [done|]. apply list_elem_of_further. by apply IH.
Qed.

Lemma dict_contains_set_ne (key k v : value) (d : dict) :
  k <> key -> dict_contains key (dict_set k v d) = dict_contains key d.
Proof.
  intros Hne. unfold dict_contains.
  assert (Hget : dict_get key (dict_set k v d) = dict_get key d); [|by rewrite Hget].
  induction d as [|[k0 w] d IH]; cbn [dict_set dict_get].
  - by rewrite py_eqb_ne.
  - destruct (py_eqb k0 k) eqn:Hk; cbn [dict_get].
    + apply py_eqb_eq in Hk as ->. by rewrite py_eqb_ne.
    + by rewrite IH.
Qed.

Section DeserializeErrors.
Context `{Dataclasses} `{Coercion}.

Lemma deserialize_from_dict_missing
    (classmethod : string -> value -> bool -> dict -> res value)
    cls items complain override key :
  key ∈ get_field_names cls ->
  is_optional_field cls key = false ->
  dict_contains (VStr key) items = false ->
  dict_contains (VStr key) override = false ->
  deserialize_from_dict classmethod cls (VDict items) complain override =
  Raise ValidationError.
Proof.
  intros Hfield Hrequired Hitems Hoverride. unfold deserialize_from_dict.
  cbn [py_items res_bind].
  match goal with |- context [filter ?P ?l] =>
    assert (Hin : key ∈ filter P l) end.
  { apply list_elem_of_filter. split; [|done].
    by rewrite Hitems, Hoverride, Hrequired. }
  match goal with |- context [filter ?P ?l] => destruct (filter P l) end;
    [by apply elem_of_nil in Hin|done].
Qed.

Lemma deserialize_from_dict_unknown
    (classmethod : string -> value -> bool -> dict -> res value)
    cls items override key v :
  (key, v) ∈ items ->
  (forall name, key = VStr name -> name ∉ get_field_names cls) ->
  dict_contains key override = false ->
  exists e, deserialize_from_dict classmethod cls (VDict items) true override = Raise e.
Proof.
  intros Hitem Hunknown Hoverride. unfold deserialize_from_dict.
  cbn [py_items res_bind].
  match goal with |- context [filter ?P ?l] => destruct (filter P l) end; [|eauto].
  match goal with |- context [res_fold ?f items []] =>
    destruct (res_fold_raises f items (key, v) [] Hitem) as [e He] end.
  - intros acc. cbn [fst snd]. rewrite Hoverride.
    destruct key as [| |name| | | |]; eauto.
    rewrite bool_decide_false by (by apply Hunknown). eauto.
  - rewrite He. eauto.
Qed.

(** X17: a dictionary that lacks a key of a required field, which the
    override does not supply either, is rejected: [deserialize_from_dict] of
    every class raises [ValidationError], for [BlockchainStateMessage] when
    the dictionary has no account states (those are deserialized first). *)
Theorem deserialize_from_dict_missing_key (limit : nat) (cls : string)
    (items : dict) (complain_excessive_keys : bool) (override : dict) (key : string)
    (Hfield : key ∈ get_field_names cls)
    (Hrequired : is_optional_field cls key = false)
    (Hmissing : dict_contains (VStr key) items = false)
    (Hoverride : dict_contains (VStr key) override = false)
    (Hplain : cls <> "BlockchainStateMessage" \/
              dict_contains (VStr "account_states") items = false) :
  classmethod_deserialize_from_dict (S limit) cls (VDict items)
    complain_excessive_keys override = Raise ValidationError.
Proof.
  cbn [classmethod_deserialize_from_dict]. unfold deserialize_from_dict_of.
  destruct (String.eqb_spec cls "BlockchainStateMessage") as [->|Hcls].
  - destruct Hplain as [Hne|Hnone]; [done|].
    unfold BlockchainStateMessage_deserialize_from_dict. rewrite Hnone.
    cbn [andb]. by apply (deserialize_from_dict_missing _ _ _ _ _ key).
  - by apply (deserialize_from_dict_missing _ _ _ _ _ key).
Qed.

(** X18: a dictionary with a key that is no field of the class, and that
    the override does not name, is never deserialized when excessive keys
    are complained about: [deserialize_from_dict] raises. For
    [BlockchainStateMessage] this holds whatever [complain_excessive_keys]
    is, since the class does not pass the argument on. *)
Theorem deserialize_from_dict_unknown_key (limit : nat) (cls : string)
    (items : dict) (complain_excessive_keys : bool) (override : dict)
    (key v : value)
    (Hitem : (key, v) ∈ items)
    (Hunknown : forall name, key = VStr name -> name ∉ get_field_names cls)
    (Hoverride : dict_contains key override = false)
    (Hcomplain : complain_excessive_keys = true \/ cls = "BlockchainStateMessage")
    (Hstates : cls = "BlockchainStateMessage" -> key <> VStr "account_states") :
  exists e,
    classmethod_deserialize_from_dict limit cls (VDict items)
      complain_excessive_keys override = Raise e.
Proof.
  destruct limit as [|limit]; [cbn; eauto|].
  cbn [classmethod_deserialize_from_dict]. unfold deserialize_from_dict_of.
  destruct (String.eqb_spec cls "BlockchainStateMessage") as [->|Hcls].
  - specialize (Hstates eq_refl).
    unfold BlockchainStateMessage_deserialize_from_dict.
    destruct (dict_contains (VStr "account_states") items &&
              negb (dict_contains (VStr "account_states") override)).
    + unfold res_bind.
      destruct (py_items _) as [account_states|e]; [|eauto].
      match goal with |- context [res_fold ?f account_states []] =>
        destruct (res_fold f account_states []) as [objects|e]; [|eauto] end.
      apply (deserialize_from_dict_unknown _ _ _ _ key v).
      * by apply dict_remove_elem.
      * done.
      * rewrite dict_contains_set_ne by (by apply not_eq_sym). done.
    + by apply (deserialize_from_dict_unknown _ _ _ _ key v).
  - destruct Hcomplain as [->|Heq]; [|done].
    by apply (deserialize_from_dict_unknown _ _ _ _ key v).
Qed.

End DeserializeErrors.

Lemma deserialize_from_dict_missing_key_witness :
  classmethod_deserialize_from_dict (H := Demo.dataclasses) (H0 := Demo.coercion) 2
    "Node" (VDict [(VStr "fee_amount", VInt 4)]) true [] = Raise ValidationError.
Proof.
  apply (deserialize_from_dict_missing_key (H := Demo.dataclasses) (H0 := Demo.coercion)
           1 "Node" [(VStr "fee_amount", VInt 4)] true [] "network_addresses").
  - apply (bool_decide_unpack _). vm_compute. exact I.
  - reflexivity.
  - reflexivity.
  - reflexivity.
  - left. discriminate.
Defined.

Lemma deserialize_from_dict_unknown_key_witness :
  exists e,
    classmethod_deserialize_from_dict (H := Demo.dataclasses) (H0 := Demo.coercion) 3
      "BlockchainStateMessage"
      (VDict [(VStr "account_states", VDict []); (VStr "version", VInt 1)])
      false [] = Raise e.
Proof.
  apply (deserialize_from_dict_unknown_key (H := Demo.dataclasses) (H0 := Demo.coercion)
           3 "BlockchainStateMessage"
           [(VStr "account_states", VDict []); (VStr "version", VInt 1)]
           false [] (VStr "version") (VInt 1)).
  - apply list_elem_of_further, list_elem_of_here.
  - intros name [= <-]. apply (bool_decide_unpack _). vm_compute. exact I.
  - reflexivity.
  - by right.
  - discriminate.
Defined.

(** * The blockchain states of a reached store *)

(** A last block number that a state file name can hold. *)
Definition state_number_in_range (last_block_number : option Z) : Prop :=
  forall n, last_block_number = Some n -> 0 <= n < 10 ^ 10.

Lemma state_name_strip last_block_number compression :
  strip_compression_extension
    (Names.make_blockchain_state_filename last_block_number +:+ tail_of compression) =
  Names.make_blockchain_state_filename last_block_number.
Proof.
  unfold Names.make_blockchain_state_filename, Names.BLOCKCHAIN_STATE_FILENAME_TEMPLATE.
  cbv zeta. rewrite append_assoc.
  rewrite strip_compression_extension_app
    by (by destruct compression as [[]|]; vm_compute; lia).
  assert (Hy : strip_compression_extension ("-arf.msgpack" +:+ tail_of compression)
               = "-arf.msgpack") by (by destruct compression as [[]|]).
  by rewrite Hy.
Qed.

Lemma state_name_inj l1 l2 c1 c2 :
  state_number_in_range l1 -> state_number_in_range l2 ->
  Names.make_blockchain_state_filename l1 +:+ tail_of c1 =
  Names.make_blockchain_state_filename l2 +:+ tail_of c2 ->
  l1 = l2 /\ c1 = c2.
Proof.
  intros H1 H2 Heq.
  pose proof (state_name_meta l1 c1 H1) as Hm.
  rewrite Heq, (state_name_meta l2 c2 H2) in Hm. by injection Hm as -> ->.
Qed.

Lemma state_name_not_absolute last_block_number compression :
  state_number_in_range last_block_number ->
  String.prefix "/"
    (Names.make_blockchain_state_filename last_block_number +:+ tail_of compression)
  = false.
Proof.
  intros Hr. destruct last_block_number as [n|]; [|by destruct compression as [[]|]].
  rewrite state_name_unfold. specialize (Hr n eq_refl).
  destruct (zfill_str_digits n Names.ORDER_OF_BLOCKCHAIN_STATE_FILE ltac:(lia))
    as [Hd Hne]; [unfold Names.ORDER_OF_BLOCKCHAIN_STATE_FILE; lia|].
  destruct (zfill (str n) Names.ORDER_OF_BLOCKCHAIN_STATE_FILE) as [|c r]; [done|].
  simpl in Hd. apply andb_true_iff in Hd as [Hc _].
  rewrite append_String. cbn [String.prefix].
  destruct (ascii_dec "/" c) as [<-|]; [discriminate Hc|done].
Qed.

(** The order of the states in a listing: the genesis state first, then by
    last block number. *)
Definition state_number_lt (a b : option Z) : Prop :=
  match a, b with
  | None, Some _ => True
  | Some x, Some y => x < y
  | _, None => False
  end.

Lemma state_name_lt a b :
  state_number_in_range a -> state_number_in_range b -> state_number_lt a b ->
  String.compare (Names.make_blockchain_state_filename a)
                 (Names.make_blockchain_state_filename b) = Lt.
Proof.
  intros Ha Hb Hlt. destruct b as [y|]; [|destruct a; simpl in Hlt; contradiction].
  specialize (Hb y eq_refl).
  unfold Names.make_blockchain_state_filename, Names.BLOCKCHAIN_STATE_FILENAME_TEMPLATE.
  cbv zeta. destruct a as [x|].
  - specialize (Ha x eq_refl). simpl in Hlt.
    apply zfill_str_compare; [lia|apply Hb|unfold Names.ORDER_OF_BLOCKCHAIN_STATE_FILE; lia].
  - destruct (zfill_str_digits y Names.ORDER_OF_BLOCKCHAIN_STATE_FILE ltac:(lia))
      as [Hd _]; [unfold Names.ORDER_OF_BLOCKCHAIN_STATE_FILE; lia|].
    pose proof (zfill_str_length y Names.ORDER_OF_BLOCKCHAIN_STATE_FILE) as Hlen.
    change (zfill Names.LAST_BLOCK_NUMBER_NONE_SENTINEL
              Names.ORDER_OF_BLOCKCHAIN_STATE_FILE +:+ "-arf.msgpack")
      with (repeat_char "0" 9 +:+ String "!" "-arf.msgpack").
    apply compare_zeros_sentinel; [done|]. rewrite Hlen; unfold
      Names.ORDER_OF_BLOCKCHAIN_STATE_FILE; simpl; lia.
Qed.

Lemma compare_Lt_not_le (a b : string) : String.compare a b = Lt -> ~ String.le b a.
Proof.
  intros Hc Hle. unfold String.le, String.leb in Hle.
  rewrite String.compare_antisym, Hc in Hle. done.
Qed.

Section StateStore.
Context `{Codecs} `{BlockModel} `{BlockchainStateModel}.

#[local] Existing Instance path_optimized.

(** The bytes of a stored file: raw, or compressed. *)
Definition encoded (compression : option compressor) (data : bytes) : bytes :=
  match compression with
  | None => data
  | Some c => COMPRESSION_FUNCTIONS c data
  end.

Definition state_name (st : BlockchainState) : string :=
  Names.make_blockchain_state_filename (last_block_number st).

(** What [save] with [is_final=True] leaves where no file was. *)
Lemma save_final_new compressors file_path b fs fs' :
  save compressors file_path b true fs = (Ok tt, fs') ->
  fs !! file_path = None ->
  finalized_in fs file_path = false /\
  exists compression,
    fs' = <[file_path +:+ tail_of compression :=
              File (encoded compression b) (dropped TEMP_FILE_MODE)]> fs.
Proof.
  intros Hsave Hnone. revert Hsave. unfold save, _persist.
  unfold bind at 1. rewrite _get_absolute_path_optimized.
  destruct (String.prefix "/" file_path); [done|].
  unfold bind at 1.
  destruct (finalized_in fs file_path) eqn:Hfin; [by rewrite _write_file_finalized|].
  rewrite _write_file_open by done. rewrite atomic_write_append_wb. cbv beta iota.
  set (fs1 := <[file_path := File b TEMP_FILE_MODE]> fs).
  pose proof (_finalize_cases compressors file_path fs1) as Hcases.
  unfold fs1 in Hcases at 1. rewrite lookup_insert_eq in Hcases.
  cbn [content st_mode] in Hcases.
  intros Hok. split; [done|].
  destruct Hcases as [Hr|[(_ & _ & Hr)|[(c & _ & _ & Hr)|(c & _ & _ & Hr)]]];
    rewrite Hr in Hok; try done; injection Hok as <-.
  - exists None. simpl tail_of. rewrite append_empty_r. unfold fs1.
    by rewrite insert_insert_eq.
  - exists (Some c). rewrite <- sibling_tail. unfold fs1. cbn [encoded].
    rewrite (insert_insert_ne fs) by apply sibling_neq.
    rewrite delete_insert_eq.
    rewrite delete_insert_ne by (apply not_eq_sym, sibling_neq).
    rewrite (delete_id fs) by done.
    by rewrite insert_insert_eq.
Qed.

(** The states storage after the states of [states] were persisted: every
    file is read-only and holds one of the states under its name, raw or
    compressed; every state has a file; no two states have the same last
    block number. *)
Definition states_inv (states : list BlockchainState) (fs : filesystem) : Prop :=
  (forall path f, fs !! path = Some f ->
     Z.land (st_mode f) STAT_WRITE_PERMS_ALL = 0 /\
     exists st compression,
       st ∈ states /\ path = state_name st +:+ tail_of compression /\
       content f = encoded compression (state_to_messagepack st)) /\
  (forall st, st ∈ states ->
     exists compression, is_Some (fs !! (state_name st +:+ tail_of compression))) /\
  stored_names fs ≡ₚ state_name <$> states /\
  NoDup (last_block_number <$> states).

(** The states of the blockchain after successful calls
    [persist_blockchain_state] of the states of [states], one after the
    other, on an empty states storage. *)
Inductive reachable_states : list BlockchainState -> FileBlockchain -> Prop :=
  | reachable_states_empty self :
      blockchain_states_storage self = ∅ ->
      reachable_states [] self
  | reachable_states_persist states self st self' :
      reachable_states states self ->
      persist_blockchain_state st self = (Ok tt, self') ->
      reachable_states (states ++ [st]) self'.

Lemma persist_blockchain_state_storage st self self' :
  persist_blockchain_state st self = (Ok tt, self') ->
  save (states_compressors self) (state_name st) (state_to_messagepack st) true
    (blockchain_states_storage self) = (Ok tt, blockchain_states_storage self').
Proof.
  unfold persist_blockchain_state, ensure_locked.
  destruct (file_lock self); [done| |done].
  unfold bind, gets, on_blockchain_states_storage. fold (state_name st).
  destruct (save _ _ _ _ _) as [[[]|e] fs'] eqn:Es; [|done].
  by intros [= <-].
Qed.

Lemma states_inv_persist states fs st compressors fs' :
  states_inv states fs ->
  save compressors (state_name st) (state_to_messagepack st) true fs = (Ok tt, fs') ->
  states_inv (states ++ [st]) fs'.
Proof.
  intros (Hfiles & Hall & Hnames & Hnodup) Hsave.
  assert (Hopen : finalized_in fs (state_name st) = false).
  { revert Hsave. unfold save, _persist. unfold bind at 1.
    rewrite _get_absolute_path_optimized.
    destruct (String.prefix "/" (state_name st)); [done|]. unfold bind at 1.
    destruct (finalized_in fs (state_name st)) eqn:Hfin;
      [by rewrite _write_file_finalized|done]. }
  pose proof (finalized_in_false _ _ Hopen) as [Hsib Hro].
  assert (Hraw : fs !! state_name st = None).
  { destruct (fs !! state_name st) as [f|] eqn:Hf; [|done].
    destruct (Hfiles _ _ Hf) as [Hmode _].
    unfold read_only in Hro. rewrite Hf in Hro.
    apply Z.eqb_neq in Hro. done. }
  assert (Hfree : forall co, fs !! (state_name st +:+ tail_of co) = None).
  { intros [c|]; [rewrite <- sibling_tail; apply Hsib|].
    simpl tail_of. by rewrite append_empty_r. }
  destruct (save_final_new _ _ _ _ _ Hsave Hraw) as (_ & co & ->).
  split; [|split; [|split]].
  - intros path f [[<- <-]|[Hne Hf]]%lookup_insert_Some.
    + split; [apply dropped_no_write_bits|].
      exists st, co. split; [apply elem_of_app; right; apply list_elem_of_here|done].
    + destruct (Hfiles _ _ Hf) as (Hmode & st' & co' & Hin & Hp & Hc).
      split; [done|]. exists st', co'. split; [|done].
      apply elem_of_app. by left.
  - intros st' [Hin|Hin]%elem_of_app; [|apply list_elem_of_singleton in Hin as ->].
    + destruct (Hall st' Hin) as [co' [f Hf]]. exists co'.
      rewrite lookup_insert_ne; [eauto|]. intros Heq. rewrite <- Heq in Hf.
      by rewrite Hfree in Hf.
    + exists co. rewrite lookup_insert_eq. eauto.
  - rewrite stored_names_insert by apply Hfree.
    unfold state_name at 1. rewrite state_name_strip. fold (state_name st).
    rewrite fmap_app. cbn [fmap list_fmap].
    rewrite <- Permutation_cons_append. by apply Permutation_skip.
  - rewrite fmap_app. cbn [fmap list_fmap]. apply NoDup_app. split; [done|].
    split; [|apply NoDup_singleton].
    intros l Hl1 Hl2. apply list_elem_of_fmap in Hl1 as (st' & Hl & Hin).
    apply list_elem_of_singleton in Hl2.
    destruct (Hall st' Hin) as [co' [f Hf]].
    unfold state_name in Hf. rewrite <- Hl, Hl2 in Hf. fold (state_name st) in Hf.
    by rewrite Hfree in Hf.
Qed.

Lemma reachable_states_inv states self :
  reachable_states states self -> states_inv states (blockchain_states_storage self).
Proof.
  induction 1 as [self Hfs|states self st self' Hreach IH Hpersist].
  - rewrite Hfs. split; [|split; [|split]].
    + intros path f Hf. by rewrite lookup_empty in Hf.
    + intros st Hin. by apply elem_of_nil in Hin.
    + unfold stored_names. by rewrite map_to_list_empty.
    + constructor.
  - apply persist_blockchain_state_storage in Hpersist.
    by eapply states_inv_persist.
Qed.

End StateStore.

Section StateRead.
Context `{Codecs} `{BlockModel} `{BlockchainStateModel}.

#[local] Existing Instance path_optimized.

(** The compression library and the state codec read back what they wrote. *)
Hypothesis decompress_compress :
  forall c data, DECOMPRESSION_FUNCTIONS c (COMPRESSION_FUNCTIONS c data) = Ok data.
Hypothesis state_from_to_messagepack :
  forall st, state_from_messagepack (state_to_messagepack st) = Ok st.

Lemma lookup_by_number (states : list BlockchainState) st st' :
  NoDup (last_block_number <$> states) ->
  st ∈ states -> st' ∈ states ->
  last_block_number st = last_block_number st' -> st = st'.
Proof.
  intros Hnodup. induction states as [|x states IH]; [by intros ?%elem_of_nil|].
  rewrite fmap_cons in Hnodup. apply NoDup_cons in Hnodup as [Hx Hnodup].
  intros [->|Hin]%elem_of_cons [->|Hin']%elem_of_cons Heq; [done| | |by apply IH].
  - exfalso. apply Hx. rewrite Heq. by apply list_elem_of_fmap_2.
  - exfalso. apply Hx. rewrite <- Heq. by apply list_elem_of_fmap_2.
Qed.

(** Every persisted state is what the finalized file under its name decodes
    to. *)
Lemma states_originate states fs st :
  states_inv states fs ->
  (forall st', st' ∈ states -> state_number_in_range (last_block_number st')) ->
  st ∈ states ->
  originates_from_finalized_file fs (state_name st) st.
Proof.
  intros (Hfiles & Hall & _ & Hnodup) Hrange Hin.
  assert (Habs : String.prefix "/" (state_name st) = false).
  { pose proof (state_name_not_absolute (last_block_number st) None (Hrange st Hin)) as Ha.
    simpl tail_of in Ha. by rewrite append_empty_r in Ha. }
  destruct (Hall st Hin) as [co [f Hf]].
  assert (Hsame : forall st' co' co'',
            st' ∈ states ->
            state_name st +:+ tail_of co' = state_name st' +:+ tail_of co'' ->
            st' = st /\ co'' = co').
  { intros st' co' co'' Hin' Heq.
    apply state_name_inj in Heq as [Hl Hc]; [|by apply Hrange..].
    split; [|done]. by apply (lookup_by_number states). }
  split.
  - unfold is_finalized, bind. rewrite _get_absolute_path_optimized, Habs.
    rewrite _is_finalized_spec. cbn [fst]. f_equal. unfold finalized_in.
    destruct co as [c|].
    + rewrite <- sibling_tail in Hf. by rewrite (compressed_sibling_true _ _ _ _ Hf).
    + simpl tail_of in Hf. rewrite append_empty_r in Hf.
      destruct (Hfiles _ _ Hf) as [Hmode _].
      unfold read_only. rewrite Hf, Hmode. apply orb_true_r.
  - exists (state_to_messagepack st). split; [|apply state_from_to_messagepack].
    unfold load, bind. rewrite _get_absolute_path_optimized, Habs.
    rewrite (load_loop_any _ _ _ (state_to_messagepack st)); [done| |].
    + intros k f' _ Hf'.
      destruct (Hfiles _ _ Hf') as (_ & st' & co' & Hin' & Hp & Hc).
      rewrite sibling_tail in Hp.
      apply Hsame in Hp as [-> ->]; [|done].
      rewrite Hc. apply decompress_compress.
    + destruct co as [c|].
      * left. exists c. split; [apply compressor_in_keys|].
        rewrite sibling_tail. eauto.
      * right. exists f. simpl tail_of in Hf. rewrite append_empty_r in Hf.
        split; [done|].
        destruct (Hfiles _ _ Hf) as (_ & st' & co' & Hin' & Hp & Hc).
        rewrite <- (append_empty_r (state_name st)) in Hp.
        change "" with (tail_of None) in Hp.
        apply Hsame in Hp as [-> ->]; done.
Qed.

Lemma originates_functional fs file_path (st st' : BlockchainState) :
  originates_from_finalized_file fs file_path st ->
  originates_from_finalized_file fs file_path st' -> st = st'.
Proof.
  intros (_ & data & Hload & Hdec) (_ & data' & Hload' & Hdec'). congruence.
Qed.

(** [_load_blockchain_states] of the file of a state returns the state, from
    the cache or from the file. *)
Lemma _load_blockchain_states_ok file_path st (self : FileBlockchain) :
  originates_from_finalized_file (blockchain_states_storage self) file_path st ->
  states_cache_sound self ->
  1 <= LRU.maxsize (blockchain_states_cache self) ->
  exists self',
    _load_blockchain_states file_path self = (Ok st, self') /\
    blockchain_states_storage self' = blockchain_states_storage self /\
    states_cache_sound self' /\
    1 <= LRU.maxsize (blockchain_states_cache self').
Proof.
  intros Horig Hsound Hsize.
  destruct (_load_blockchain_states file_path self) as [r self'] eqn:Hrun.
  destruct (_load_blockchain_states_spec file_path self r self' Hrun)
    as (Hfs & Hs' & Hr & _).
  assert (Hok : r = Ok st /\ 1 <= LRU.maxsize (blockchain_states_cache self')).
  { revert Hrun. unfold _load_blockchain_states. unfold bind at 1, gets.
    pose proof (get_maxsize file_path (blockchain_states_cache self)) as Hmax.
    pose proof (get_result file_path (blockchain_states_cache self)) as Hres.
    destruct (LRU.get file_path (blockchain_states_cache self)) as [hit cache1].
    cbn [fst snd] in Hmax, Hres. unfold bind at 1, modify.
    set (self1 := set_blockchain_states_cache cache1 self).
    destruct hit as [st0|].
    { unfold ret. intros [= <- <-]. split; [|cbn; lia].
      f_equal. apply (originates_functional (blockchain_states_storage self) file_path);
        [|done]. apply Hsound. by apply Hres. }
    destruct Horig as (Hfin & data & Hload & Hdec).
    unfold bind at 1.
    rewrite on_blockchain_states_storage_read by apply is_finalized_state.
    change (blockchain_states_storage self1) with (blockchain_states_storage self).
    rewrite Hfin. unfold bind at 1, assert. unfold ret at 1. cbv beta iota.
    unfold bind at 1.
    rewrite on_blockchain_states_storage_read by apply load_state.
    change (blockchain_states_storage self1) with (blockchain_states_storage self).
    rewrite Hload. unfold bind at 1, lift. rewrite Hdec.
    unfold bind at 1, gets. unfold bind at 1.
    change (blockchain_states_cache self1) with cache1.
    destruct (setitem_ok file_path st cache1 ltac:(lia)) as [cache2 Hset].
    rewrite Hset. unfold bind, modify, ret. intros [= <- <-]. split; [done|].
    cbn. rewrite (setitem_maxsize _ _ _ _ Hset). lia. }
  destruct Hok as [-> Hmax']. exists self'. split; [done|]. split; [done|].
  split; [by apply Hs'|done].
Qed.

Lemma yield_blockchain_states_listed (states : list BlockchainState) self :
  (forall st, st ∈ states ->
     originates_from_finalized_file (blockchain_states_storage self) (state_name st) st) ->
  states_cache_sound self ->
  1 <= LRU.maxsize (blockchain_states_cache self) ->
  exists ys self',
    gen_for (state_name <$> states) (fun file_path =>
      gen_call (_load_blockchain_states file_path) gen_yield) self = (ys, (None, self')) /\
    fst <$> ys = states.
Proof.
  revert self. induction states as [|st states IH]; intros self Horig Hsound Hsize.
  - by exists [], self.
  - destruct (_load_blockchain_states_ok (state_name st) st self)
      as (self1 & Hrun & Hfs & Hsound1 & Hsize1); [|done|done|].
    { apply Horig, list_elem_of_here. }
    destruct (IH self1) as (ys & self' & Hloop & Hys); [|done|done|].
    { intros st' Hin. rewrite Hfs. apply Horig. by apply list_elem_of_further. }
    exists ((st, self1) :: ys), self'. rewrite fmap_cons. cbn [gen_for].
    unfold gen_app, gen_call at 1. rewrite Hrun. unfold gen_yield at 1.
    rewrite Hloop. split; [done|]. cbn. by rewrite Hys.
Qed.

(** The order in which the states are listed. *)
Definition state_number_le (a b : option Z) : Prop :=
  match a, b with
  | None, _ => True
  | Some _, None => False
  | Some x, Some y => x <= y
  end.

Lemma state_name_le_inv (a b : option Z) :
  state_number_in_range a -> state_number_in_range b ->
  String.le (Names.make_blockchain_state_filename a)
            (Names.make_blockchain_state_filename b) ->
  state_number_le a b.
Proof.
  intros Ha Hb Hle.
  assert (Hnot : ~ state_number_lt b a).
  { intros Hlt. by apply (compare_Lt_not_le _ _ (state_name_lt b a Hb Ha Hlt)). }
  destruct a as [x|], b as [y|]; simpl in *; try done. lia.
Qed.

Lemma sorted_states (result : list BlockchainState) :
  (forall st, st ∈ result -> state_number_in_range (last_block_number st)) ->
  StronglySorted String.le (state_name <$> result) ->
  StronglySorted (fun a b => state_number_le (last_block_number a) (last_block_number b))
    result.
Proof.
  intros Hrange. induction result as [|st result IH]; [constructor|].
  rewrite fmap_cons. intros [Hhd Htl]%StronglySorted_cons. constructor.
  - apply IH; [|done]. intros st' Hin. apply Hrange. by apply list_elem_of_further.
  - apply Forall_forall. intros st' Hin.
    apply state_name_le_inv; [apply Hrange, list_elem_of_here|
                              by apply Hrange, list_elem_of_further|].
    rewrite Forall_forall in Hhd.
    apply (Hhd (state_name st')). by apply list_elem_of_fmap_2.
Qed.

(** X19: in every state reached from an empty states storage by successful
    [persist_blockchain_state] calls of states whose last block numbers are
    [None] or from 0 to [10 ^ 10 - 1], [list(yield_blockchain_states())]
    returns every persisted state exactly once, the genesis state first and
    the others by increasing last block number, whatever the order in which
    they were persisted; [list(yield_blockchain_states_reversed())] returns
    the opposite order. This holds for every states cache of capacity at
    least one whose entries are persisted states under their file names. *)
Theorem yield_blockchain_states_reachable (states : list BlockchainState)
    (self : FileBlockchain) (cache : LRU.LRUCache string BlockchainState)
    (Hreach : reachable_states states self)
    (Hrange : forall st, st ∈ states -> state_number_in_range (last_block_number st))
    (Hsound : forall file_path st, (file_path, st) ∈ LRU.items cache ->
                st ∈ states /\ file_path = state_name st)
    (Hsize : 1 <= LRU.maxsize cache) :
  exists result,
    fst (to_list yield_blockchain_states (set_blockchain_states_cache cache self)) =
      Ok result /\
    fst (to_list yield_blockchain_states_reversed
           (set_blockchain_states_cache cache self)) = Ok (reverse result) /\
    result ≡ₚ states /\
    StronglySorted
      (fun a b => state_number_le (last_block_number a) (last_block_number b)) result.
Proof.
  pose proof (reachable_states_inv states self Hreach) as Hinv.
  set (fs := blockchain_states_storage self) in *.
  set (self0 := set_blockchain_states_cache cache self).
  pose proof Hinv as (_ & _ & Hnames & _).
  set (sorted := merge_sort String.le (stored_names fs)).
  assert (Hperm : sorted ≡ₚ state_name <$> states).
  { unfold sorted. by rewrite merge_sort_Permutation. }
  destruct (Permutation_map_inv state_name states Hperm)
    as (result & Hsorted & Hresult).
  assert (Hin : forall st, st ∈ result -> st ∈ states).
  { intros st Hst. by rewrite Hresult. }
  assert (Horig : forall st, st ∈ result ->
            originates_from_finalized_file (blockchain_states_storage self0)
              (state_name st) st).
  { intros st Hst. apply (states_originate states); [done|done|by apply Hin]. }
  assert (Hcache : states_cache_sound self0).
  { intros p st [Hst ->]%Hsound. by apply (states_originate states). }
  exists result. split; [|split; [|split]].
  - destruct (yield_blockchain_states_listed result self0 Horig Hcache Hsize)
      as (ys & self' & Hloop & Hys).
    unfold to_list, yield_blockchain_states, _yield_blockchain_states,
      gen_call at 1, assert.
    change (is_direction 1) with true. unfold ret at 1. cbv beta iota.
    unfold gen_call at 1, on_blockchain_states_storage.
    change (blockchain_states_storage self0) with fs.
    rewrite list_directory_forward. fold sorted.
    change (set_blockchain_states_storage fs self0) with self0.
    cbv beta iota. rewrite Hsorted.
    change (List.map state_name result) with (state_name <$> result).
    rewrite Hloop. cbn [fst]. by rewrite Hys.
  - assert (Horig' : forall st, st ∈ reverse result ->
              originates_from_finalized_file (blockchain_states_storage self0)
                (state_name st) st).
    { intros st Hst. apply Horig. by apply elem_of_reverse. }
    destruct (yield_blockchain_states_listed (reverse result) self0 Horig' Hcache Hsize)
      as (ys & self' & Hloop & Hys).
    unfold to_list, yield_blockchain_states_reversed, _yield_blockchain_states,
      gen_call at 1, assert.
    change (is_direction (-1)) with true. unfold ret at 1. cbv beta iota.
    unfold gen_call at 1, on_blockchain_states_storage.
    change (blockchain_states_storage self0) with fs.
    rewrite list_directory_backward. fold sorted.
    change (set_blockchain_states_storage fs self0) with self0.
    cbv beta iota. rewrite Hsorted.
    change (List.map state_name result) with (state_name <$> result).
    rewrite <- fmap_reverse. rewrite Hloop. cbn [fst]. by rewrite Hys.
  - by symmetry.
  - apply sorted_states; [by intros st Hst; apply Hrange, Hin|].
    change (state_name <$> result) with (List.map state_name result).
    rewrite <- Hsorted. apply StronglySorted_merge_sort; apply _.
Qed.

(** X20: in every state reached from an empty states storage by successful
    [persist_blockchain_state] calls, [get_blockchain_states_count] returns
    the number of states persisted and leaves the blockchain as it is. *)
Theorem get_blockchain_states_count_reachable (states : list BlockchainState)
    (self : FileBlockchain) (Hreach : reachable_states states self) :
  get_blockchain_states_count self = (Ok (Z.of_nat (length states)), self).
Proof.
  pose proof (reachable_states_inv states self Hreach) as (_ & _ & Hnames & _).
  unfold get_blockchain_states_count, bind, on_blockchain_states_storage.
  rewrite list_directory_forward, set_blockchain_states_storage_id. unfold ret.
  do 3 f_equal. rewrite merge_sort_Permutation, Hnames. apply length_fmap.
Qed.

End StateRead.

Section StateReadWitness.

#[local] Existing Instance Demo.codecs.
#[local] Existing Instance Demo.block_model.
#[local] Existing Instance Demo.state_model.
#[local] Existing Instance path_optimized.

Lemma demo_state_from_to_messagepack (st : BlockchainState) :
  state_from_messagepack (state_to_messagepack st) = Ok st.
Proof. reflexivity. Qed.

(** The state of block 5 was persisted before the genesis state. *)
Lemma reachable_two_states : reachable_states [Demo.state_5; Demo.genesis] Demo.two_states.
Proof.
  change [Demo.state_5; Demo.genesis] with (([] ++ [Demo.state_5]) ++ [Demo.genesis]).
  apply (reachable_states_persist _ Demo.one_state); [|vm_compute; reflexivity].
  apply (reachable_states_persist _ (set_file_lock HeldHere (Demo.empty_blockchain 100)));
    [|vm_compute; reflexivity].
  by apply reachable_states_empty.
Qed.

Lemma yield_blockchain_states_reachable_witness :
  exists result,
    fst (to_list yield_blockchain_states
           (set_blockchain_states_cache (blockchain_states_cache Demo.two_states)
              Demo.two_states)) = Ok result /\
    fst (to_list yield_blockchain_states_reversed
           (set_blockchain_states_cache (blockchain_states_cache Demo.two_states)
              Demo.two_states)) = Ok (reverse result) /\
    result ≡ₚ [Demo.state_5; Demo.genesis] /\
    StronglySorted
      (fun a b => state_number_le (last_block_number a) (last_block_number b)) result.
Proof.
  apply (yield_blockchain_states_reachable
           (H := Demo.codecs) (H0 := Demo.block_model) (H1 := Demo.state_model)
           demo_decompress_compress demo_state_from_to_messagepack
           [Demo.state_5; Demo.genesis] Demo.two_states
           (blockchain_states_cache Demo.two_states) reachable_two_states).
  - intros st Hin.
    apply elem_of_cons in Hin as [->|Hin]; [|apply list_elem_of_singleton in Hin as ->].
    + intros n [= <-]. split; [vm_compute; discriminate|vm_compute; reflexivity].
    + intros n [=].
  - intros file_path st Hin. vm_compute in Hin. by apply elem_of_nil in Hin.
  - vm_compute. discriminate.
Defined.

Lemma get_blockchain_states_count_reachable_witness :
  get_blockchain_states_count Demo.two_states = (Ok 2, Demo.two_states).
Proof.
  exact (get_blockchain_states_count_reachable
           (H := Demo.codecs) (H0 := Demo.block_model) (H1 := Demo.state_model)
           [Demo.state_5; Demo.genesis] Demo.two_states reachable_two_states).
Defined.

End StateReadWitness.

(** * [yield_blocks_from] *)

Section BlocksFrom.
Context `{Codecs} `{BlockModel} `{BlockchainStateModel}.

#[local] Existing Instance path_optimized.

(** The blocks that [yield_blocks_from] takes from a chunk file. *)
Definition piece (chain : list Block) (n : Z) (file_path : string) : list Block :=
  match get_block_chunk_file_path_meta file_path with
  | Ok (Some meta) =>
      if end_ meta <? n then []
      else chain_slice chain (Z.max (FileBlockchain.start meta) n) (end_ meta)
  | _ => []
  end.

Lemma yield_blocks_from_paths chain n paths self :
  (forall i b, chain !! i = Some b -> block_number b = Z.of_nat i) ->
  (forall p, p ∈ paths -> exists s e, file_holds chain (block_storage self) p s e) ->
  readable chain self ->
  exists ys self',
    gen_for paths (fun file_path =>
      gen_call (lift (get_block_chunk_file_path_meta file_path)) (fun meta =>
        match meta with
        | None => gen_return
        | Some meta =>
            if end_ meta <? n then gen_return
            else _yield_blocks_from_file_cached file_path 1
                   (Some (Z.max (FileBlockchain.start meta) n))
        end)) self = (ys, (None, self')) /\
    fst <$> ys = concat (piece chain n <$> paths) /\
    same_store self self' /\ readable chain self'.
Proof.
  intros Hnum. revert self. induction paths as [|p paths IH]; intros self Hfiles Hr.
  - exists [], self. split; [done|]. split; [done|]. split; [apply same_store_refl|done].
  - destruct (Hfiles p (list_elem_of_here _ _)) as (s & e & Hp).
    pose proof Hp as ([c Hmeta] & Hse & _).
    assert (Hone : exists ys1 self1,
              gen_call (lift (get_block_chunk_file_path_meta p)) (fun meta =>
                match meta with
                | None => gen_return
                | Some meta =>
                    if end_ meta <? n then gen_return
                    else _yield_blocks_from_file_cached p 1
                           (Some (Z.max (FileBlockchain.start meta) n))
                end) self = (ys1, (None, self1)) /\
              fst <$> ys1 = piece chain n p /\
              same_store self self1 /\ readable chain self1).
    { unfold gen_call, lift, piece. rewrite Hmeta. cbn [end_ FileBlockchain.start].
      destruct (Z.ltb_spec e n) as [Hlt|Hge].
      - exists [], self. split; [done|]. split; [done|].
        split; [apply same_store_refl|done].
      - apply (_yield_blocks_from_file_cached_forward chain Hnum p s e (Z.max s n)
                 (Some (Z.max s n)) self Hp); [by right|lia|done]. }
    destruct Hone as (ys1 & self1 & Hrun1 & Hys1 & Hsame1 & Hr1).
    destruct (IH self1) as (ys2 & self2 & Hrun2 & Hys2 & Hsame2 & Hr2); [|done|].
    { intros q Hq. destruct Hsame1 as [-> _]. apply Hfiles.
      by apply list_elem_of_further. }
    exists (ys1 ++ ys2), self2. cbn [gen_for]. unfold gen_app. rewrite Hrun1, Hrun2.
    split; [done|]. split.
    + by rewrite fmap_app, Hys1, Hys2.
    + split; [by eapply same_store_trans|done].
Qed.

Lemma chain_slice_nil chain a z : z < a -> chain_slice chain a z = [].
Proof. intros Hz. unfold chain_slice. by rewrite seqZ_nil by lia. Qed.

Lemma piece_chunk_name chain n a z :
  0 <= a <= z ->
  piece chain n (Names.make_block_chunk_filename a z) =
  if z <? n then [] else chain_slice chain (Z.max a n) z.
Proof.
  intros Haz. unfold piece.
  pose proof (chunk_name_meta a z ltac:(lia) ltac:(lia) None) as Hm.
  simpl tail_of in Hm. rewrite append_empty_r in Hm. by rewrite Hm.
Qed.

Lemma concat_pieces_full chain n m s :
  0 < s -> 0 <= m ->
  concat (piece chain n <$> full_names m s) = chain_slice chain (Z.max 0 n) (m * s - 1).
Proof.
  intros Hs Hm. rewrite <- (Z2Nat.id m Hm). clear Hm.
  induction (Z.to_nat m) as [|k IH].
  - simpl. by rewrite chain_slice_nil by lia.
  - rewrite Nat2Z.inj_succ. unfold Z.succ.
    rewrite full_names_snoc, fmap_app, concat_app, IH by lia.
    cbn [fmap list_fmap concat]. rewrite app_nil_r.
    rewrite piece_chunk_name by nia.
    replace ((Z.of_nat k + 1) * s - 1) with (Z.of_nat k * s + s - 1) by lia.
    destruct (Z.ltb_spec (Z.of_nat k * s + s - 1) n) as [Hlt|Hge].
    + by rewrite app_nil_r, !chain_slice_nil by lia.
    + destruct (Z.le_gt_cases n (Z.of_nat k * s)) as [Hle|Hgt].
      * rewrite (Z.max_l (Z.of_nat k * s) n) by lia.
        apply chain_slice_app; nia.
      * rewrite (Z.max_r (Z.of_nat k * s) n), (Z.max_r 0 n) by nia.
        by rewrite chain_slice_nil by lia.
Qed.

Lemma concat_pieces chain n s :
  0 < s ->
  concat (piece chain n <$> chunk_names (Z.of_nat (length chain)) s) =
  chain_slice chain (Z.max 0 n) (Z.of_nat (length chain) - 1).
Proof.
  intros Hs. set (L := Z.of_nat (length chain)).
  destruct (chunk_start_bounds L s Hs) as (Hb & Hcs & Hoff).
  pose proof (Z.div_pos L s ltac:(lia) Hs) as Hq.
  unfold chunk_names. rewrite fmap_app, concat_app, concat_pieces_full by lia.
  destruct (Z.eqb_spec (L mod s) 0) as [Hz|Hne].
  - cbn [fmap list_fmap concat]. rewrite app_nil_r. do 2 f_equal. lia.
  - cbn [fmap list_fmap concat]. rewrite app_nil_r.
    rewrite piece_chunk_name by lia.
    destruct (Z.ltb_spec (L - 1) n) as [Hlt|Hge].
    + by rewrite app_nil_r, !chain_slice_nil by lia.
    + destruct (Z.le_gt_cases n (L / s * s)) as [Hle|Hgt].
      * rewrite (Z.max_l (L / s * s) n) by lia.
        apply chain_slice_app; lia.
      * rewrite (Z.max_r (L / s * s) n), (Z.max_r 0 n) by lia.
        by rewrite chain_slice_nil by lia.
Qed.

Lemma chain_slice_drop chain a :
  0 <= a ->
  chain_slice chain a (Z.of_nat (length chain) - 1) = drop (Z.to_nat a) chain.
Proof.
  intros Ha. induction chain as [|block chain IH] using rev_ind.
  - rewrite drop_nil. apply chain_slice_nil. simpl. lia.
  - rewrite length_app. simpl length.
    replace (Z.of_nat (length chain + 1) - 1) with (Z.of_nat (length chain)) by lia.
    destruct (Z.le_gt_cases a (Z.of_nat (length chain))) as [Hle|Hgt].
    + rewrite <- (chain_slice_app _ a (Z.of_nat (length chain))) by lia.
      rewrite chain_slice_last, chain_slice_grow, IH by lia.
      by rewrite drop_app_le by lia.
    + rewrite chain_slice_nil by lia. symmetry. apply drop_ge.
      rewrite length_app. simpl. lia.
Qed.

(** The compression library and the block codec read back what they wrote. *)
Hypothesis decompress_compress :
  forall c data, DECOMPRESSION_FUNCTIONS c (COMPRESSION_FUNCTIONS c data) = Ok data.
Hypothesis unpack_packed :
  forall blocks, unpack_blocks (concat (to_messagepack <$> blocks)) = (blocks, None).

(** X21: in every state reached by successful [add_block] calls of at most
    [10 ^ 20] blocks on an empty block storage,
    [list(yield_blocks_from(n))] returns the blocks numbered [n] and above in
    the order of their numbers: all the blocks for [n <= 0], none for [n] at
    or above the number of blocks. This holds for every blocks cache of
    capacity at least one that holds blocks of the chain under their
    numbers. *)
Theorem yield_blocks_from_reachable (chain : list Block) (self : FileBlockchain)
    (cache : LRU.LRUCache Z Block) (n : Z)
    (Hreach : reachable chain self)
    (Hbound : Z.of_nat (length chain) <= 10 ^ 20)
    (Hsound : forall k b, (k, b) ∈ LRU.items cache -> stored chain k = Some b)
    (Hsize : 1 <= LRU.maxsize cache) :
  fst (to_list (yield_blocks_from n) (set_blocks_cache cache self)) =
  Ok (drop (Z.to_nat n) chain).
Proof.
  destruct (reachable_store_inv chain self Hreach) as (Hs & Hnum & Hinv).
  set (self0 := set_blocks_cache cache self).
  pose proof (reachable_listing chain self Hreach Hbound) as Hlist.
  unfold to_list, yield_blocks_from, gen_call at 1, _list_block_directory,
    on_block_storage.
  change (block_storage self0) with (block_storage self).
  rewrite list_directory_forward.
  change (set_block_storage (block_storage self) self0) with self0.
  cbv beta iota. rewrite Hlist.
  destruct (yield_blocks_from_paths chain n
              (chunk_names (Z.of_nat (length chain)) (block_chunk_size self)) self0 Hnum)
    as (ys & self' & Hrun & Hys & _).
  { intros p Hp.
    apply (store_inv_file_holds decompress_compress unpack_packed chain
             (block_chunk_size self)); [done|done|].
    fold (stored_names (block_storage self)).
    rewrite <- Hlist in Hp. by rewrite merge_sort_Permutation in Hp. }
  { by split. }
  rewrite Hrun. cbn [fst]. rewrite Hys, concat_pieces by done.
  rewrite chain_slice_drop by lia. do 2 f_equal. lia.
Qed.

End BlocksFrom.

Section BlocksFromWitness.

#[local] Existing Instance Demo.codecs.
#[local] Existing Instance Demo.block_model.
#[local] Existing Instance Demo.state_model.
#[local] Existing Instance path_optimized.

Lemma yield_blocks_from_reachable_witness :
  fst (to_list (yield_blocks_from 1)
         (set_blocks_cache (LRU.Cache 4 [(2, Byte.x02)]) Demo.rollover)) =
  Ok (drop (Z.to_nat 1) [Byte.x00; Byte.x01; Byte.x02]).
Proof.
  apply (yield_blocks_from_reachable
           (H := Demo.codecs) (H0 := Demo.block_model) (H1 := Demo.state_model)
           demo_decompress_compress demo_unpack_packed
           [Byte.x00; Byte.x01; Byte.x02] Demo.rollover
           (LRU.Cache 4 [(2, Byte.x02)]) 1 reachable_rollover).
  - vm_compute. discriminate.
  - intros k b Hin. apply list_elem_of_singleton in Hin. by injection Hin as -> ->.
  - simpl. lia.
Defined.

End BlocksFromWitness.

(** * What deserialization returns *)

Section DecodedState.
Context `{Coercion}.
Variable others : string -> list Field.

Local Abbreviation classes := (declared_dataclasses others).

Hypothesis coerce_leaf :
  forall t v, leaf_typed t v -> coerce_from_json_type (coerce_to_json_type v) t = Ok v.
Hypothesis coerce_str : forall s, coerce_to_json_type (VStr s) = VStr s.

Lemma canonical_account_state_is_normal depth account_number x :
  instance_of (H := classes) (S depth) "AccountState" x ->
  normal_account_state (VStr account_number)
    (canonical_account_state (VStr account_number) x).
Proof.
  intros Hx.
  destruct (account_state_attrs others depth x Hx)
    as (attrs & l & nd & -> & Htyped & Hlock & Hl & Hnode & Hnd).
  unfold canonical_account_state. rewrite Hlock.
  change (default VNone (Some l)) with l.
  set (attrs1 := if py_eqb l (VStr account_number)
                 then attr_set "balance_lock" VNone attrs else attrs).
  assert (Hnode1 : attr_get "node" attrs1 = Some nd).
  { unfold attrs1. destruct (py_eqb l (VStr account_number)); [|done].
    by rewrite attr_get_set_ne. }
  assert (Hlock1 : exists l1, attr_get "balance_lock" attrs1 = Some l1 /\
                              py_eqb l1 (VStr account_number) = false).
  { unfold attrs1. destruct (py_eqb l (VStr account_number)) eqn:Heq.
    - exists VNone. split; [|done]. apply attr_get_set.
      apply attr_get_elem in Hlock. by apply (list_elem_of_fmap_2 fst) in Hlock.
    - by exists l. }
  destruct Hlock1 as (l1 & Hlock1 & Hl1).
  rewrite Hnode1. change (default VNone (Some nd)) with nd.
  destruct Hnd as [->|Hnd].
  - cbn [normal_account_state]. rewrite Hlock1, Hnode1. by split.
  - destruct (node_attrs others depth nd Hnd)
      as (depth' & nattrs & na & -> & -> & _ & _ & _ & Hid).
    cbn [normal_account_state].
    rewrite attr_get_set_ne by done. rewrite Hlock1. split; [done|].
    rewrite attr_get_set; last first.
    { apply attr_get_elem in Hnode1. by apply (list_elem_of_fmap_2 fst) in Hnode1. }
    change (default VNone (Some ?v)) with v. cbv beta iota.
    by apply attr_get_set.
Qed.

Lemma canonical_typed depth s :
  object_typed (H := classes) (instance_of (H := classes) depth)
    "BlockchainStateMessage" s ->
  object_typed (H := classes) (instance_of (H := classes) depth)
    "BlockchainStateMessage" (canonical s) /\
  normal (canonical s).
Proof.
  intros Hs.
  destruct (blockchain_state_attrs others depth s Hs)
    as (attrs & account_states & -> & Htyped & Hget & Hnodup & Hitems).
  destruct Hs as (attrs0 & [= <-] & Hnames & _).
  unfold canonical. rewrite Hget.
  assert (Hin : "account_states" ∈ attrs.*1).
  { apply attr_get_elem in Hget. by apply (list_elem_of_fmap_2 fst) in Hget. }
  assert (Heach : Forall (fun kv =>
            exists account_number, kv.1 = VStr account_number /\
              instance_of (H := classes) depth "AccountState"
                (canonical_account_state kv.1 kv.2) /\
              normal_account_state kv.1 (canonical_account_state kv.1 kv.2))
            account_states).
  { eapply Forall_impl; [exact Hitems|]. intros [k x] [Hk Hx]. cbn [fst snd] in *.
    destruct k as [| |account_number| | | |]; try done. exists account_number.
    split; [done|]. destruct depth as [|depth]; [done|]. split.
    - by destruct (account_state_roundtrip others coerce_leaf coerce_str depth
                     account_number x Hx) as (_ & _ & _ & Hc).
    - by apply (canonical_account_state_is_normal depth). }
  split.
  - eexists. split; [done|]. split; [done|].
    apply attr_typed_set; [done|]. intros f Hf Hname. cbn [is_none].
    assert (Htype : type_of f = T_dict T_str (T_class "AccountState")).
    { cbn in Hf. repeat (apply elem_of_cons in Hf as [->|Hf]; [done || discriminate Hname|]).
      by apply elem_of_nil in Hf. }
    rewrite Htype. cbn [field_typed]. eexists. split; [done|]. split; [done|]. split.
    + unfold canonical_account_states. by rewrite <- list_fmap_compose.
    + unfold canonical_account_states. apply Forall_fmap.
      eapply Forall_impl; [exact Heach|]. intros [k x] (a & Hk & Hinst & _).
      cbn [fst snd] in *. subst k. by split.
  - cbn [normal]. rewrite attr_get_set by done.
    unfold canonical_account_states. apply Forall_fmap.
    eapply Forall_impl; [exact Heach|]. by intros [k x] (a & _ & _ & Hn).
Qed.

(** X22: the blockchain state that deserialization returns round-trips
    exactly. For every well-typed blockchain state [s],
    [serialize_to_dict] returns a dictionary from which
    [deserialize_from_dict] returns a well-typed state [s'], and serializing
    and deserializing [s'] gives [s'] again. *)
Theorem deserialized_state_round_trips (depth : nat) (s : value)
    (Hs : object_typed (H := classes) (instance_of (H := classes) depth)
            "BlockchainStateMessage" s) :
  exists d s',
    method_serialize_to_dict (S depth) s true true [] = Ok d /\
    classmethod_deserialize_from_dict (H := classes) (S depth)
      "BlockchainStateMessage" d true [] = Ok s' /\
    object_typed (H := classes) (instance_of (H := classes) depth)
      "BlockchainStateMessage" s' /\
    exists d',
      method_serialize_to_dict (S depth) s' true true [] = Ok d' /\
      classmethod_deserialize_from_dict (H := classes) (S depth)
        "BlockchainStateMessage" d' true [] = Ok s'.
Proof.
  destruct (blockchain_state_roundtrip others coerce_leaf coerce_str depth s Hs)
    as (d & Hser & Hdeser).
  destruct (canonical_typed depth s Hs) as [Htyped Hnormal].
  destruct (blockchain_state_roundtrip others coerce_leaf coerce_str depth (canonical s)
              Htyped) as (d' & Hser' & Hdeser').
  rewrite (canonical_normal _ Hnormal) in Hdeser'.
  exists d, (canonical s). split; [done|]. split; [done|]. split; [done|].
  by exists d'.
Qed.

End DecodedState.

Section DecodedStateWitness.

#[local] Existing Instance Demo.dataclasses.
#[local] Existing Instance Demo.coercion.

Lemma deserialized_state_round_trips_witness :
  exists d s',
    method_serialize_to_dict 3 Demo.genesis_state true true [] = Ok d /\
    classmethod_deserialize_from_dict 3 "BlockchainStateMessage" d true [] = Ok s' /\
    object_typed (instance_of 2) "BlockchainStateMessage" s' /\
    exists d',
      method_serialize_to_dict 3 s' true true [] = Ok d' /\
      classmethod_deserialize_from_dict 3 "BlockchainStateMessage" d' true [] = Ok s'.
Proof.
  exact (deserialized_state_round_trips (fun _ => []) demo_coerce_leaf demo_coerce_str
           2 Demo.genesis_state genesis_state_typed).
Defined.

End DecodedStateWitness.

(** * [move] *)

Section MoveMore.
Context `{Pathlib} `{Codecs}.

(** X23: [move] does not look at finalization. For accepted paths, it raises
    [OSError] when nothing is stored under the source path itself (as after
    a [finalize] that compressed the file) and otherwise succeeds, whatever
    is stored under the destination, finalized or not, compressed or not: the
    file of the source is then stored under the destination path and nothing
    is left under the source path. When moreover the destination has no
    compressed variant, [load] of the destination then returns the data of
    the source, and the destination is finalized exactly when the source had
    no write permission. *)
Theorem move_replaces_destination (source destination : string) (fs : filesystem)
    (Hsource_relative : is_absolute source = false)
    (Hsource_inside : is_relative_to_base (resolve source) = true)
    (Hdestination_relative : is_absolute destination = false)
    (Hdestination_inside : is_relative_to_base (resolve destination) = true) :
  match fs !! resolve source with
  | None => move source destination fs = (Raise OSError, fs)
  | Some f =>
      exists fs',
        move source destination fs = (Ok tt, fs') /\
        fs' !! resolve destination = Some f /\
        (resolve source <> resolve destination -> fs' !! resolve source = None) /\
        (forall other, other <> resolve source -> other <> resolve destination ->
           fs' !! other = fs !! other) /\
        ((forall c, fs !! sibling (resolve destination) c = None) ->
         load destination fs' = (Ok (content f), fs') /\
         is_finalized destination fs' =
           (Ok (Z.land (st_mode f) STAT_WRITE_PERMS_ALL =? 0), fs'))
  end.
Proof.
  assert (Hmove : move source destination fs =
                  os_rename (resolve source) (resolve destination) fs).
  { unfold move, bind. by rewrite !_get_absolute_path_ok. }
  rewrite Hmove. unfold os_rename.
  destruct (fs !! resolve source) as [f|] eqn:Hf; [|done].
  eexists. split; [done|].
  set (fs' := <[resolve destination := f]> (delete (resolve source) fs)).
  assert (Hdst : fs' !! resolve destination = Some f).
  { unfold fs'. by rewrite lookup_insert_eq. }
  split; [done|]. split; [|split].
  - intros Hne. unfold fs'. rewrite lookup_insert_ne by done.
    by rewrite lookup_delete_eq.
  - intros other Hsource Hdestination. unfold fs'.
    rewrite lookup_insert_ne by done. by rewrite lookup_delete_ne.
  - intros Hraw.
    assert (Hraw' : forall c, fs' !! sibling (resolve destination) c = None).
    { intros c. unfold fs'.
      rewrite lookup_insert_ne by (apply not_eq_sym, sibling_neq).
      apply lookup_delete_None. right. apply Hraw. }
    split.
    + rewrite load_resolved_raw by done. unfold read_file. by rewrite Hdst.
    + rewrite is_finalized_resolved by done. f_equal. f_equal.
      unfold finalized_in.
      rewrite (proj2 (compressed_sibling_false fs' (resolve destination))) by done.
      unfold read_only. by rewrite Hdst.
Qed.

End MoveMore.

Lemma move_replaces_destination_witness :
  let fs := <["/data/b" := Demo.raw_file]> Demo.read_only_store in
  is_finalized (H := Demo.pathlib) "a" fs = (Ok true, fs) /\
  exists fs',
    move (H := Demo.pathlib) "b" "a" fs = (Ok tt, fs') /\
    fs' !! "/data/a" = Some Demo.raw_file /\
    ("/data/b" <> "/data/a" -> fs' !! "/data/b" = None) /\
    (forall other, other <> "/data/b" -> other <> "/data/a" ->
       fs' !! other = fs !! other) /\
    ((forall c, fs !! sibling "/data/a" c = None) ->
     load (H := Demo.pathlib) (H0 := Demo.codecs) "a" fs' =
       (Ok (content Demo.raw_file), fs') /\
     is_finalized (H := Demo.pathlib) "a" fs' =
       (Ok (Z.land (st_mode Demo.raw_file) STAT_WRITE_PERMS_ALL =? 0), fs')).
Proof.
  intros fs. split; [vm_compute; reflexivity|].
  exact (move_replaces_destination (H := Demo.pathlib) (H0 := Demo.codecs) "b" "a" fs
           eq_refl eq_refl eq_refl eq_refl).
Defined.

(** * What [persist_block] does to the block storage *)

Lemma zfill_negative_sign p width :
  exists rest, zfill (str (Z.neg p)) width = String "-" rest.
Proof.
  unfold str, zfill. cbn [Z.to_int NilZero.string_of_int].
  destruct (_ <=? _)%nat; [by eexists|].
  cbn [Ascii.eqb Bool.eqb orb]. by eexists.
Qed.

Lemma chunk_name_relative first last :
  String.prefix "/" (Names.make_block_chunk_filename first last) = false.
Proof.
  destruct first as [|p|p].
  - pose proof (chunk_name_not_absolute 0 last None ltac:(lia)) as Hr.
    by rewrite append_empty_r in Hr.
  - pose proof (chunk_name_not_absolute (Z.pos p) last None ltac:(lia)) as Hr.
    by rewrite append_empty_r in Hr.
  - unfold Names.make_block_chunk_filename, Names.BLOCK_CHUNK_FILENAME_TEMPLATE. cbv zeta.
    destruct (zfill_negative_sign p Names.ORDER_OF_BLOCK) as [rest ->].
    rewrite append_String. cbn [String.prefix].
    by destruct (ascii_dec "/" "-").
Qed.

Lemma chunk_name_last_char first last :
  last_char (Names.make_block_chunk_filename first last) = Some "k"%char.
Proof.
  unfold Names.make_block_chunk_filename, Names.BLOCK_CHUNK_FILENAME_TEMPLATE. cbv zeta.
  rewrite <- !append_assoc. by rewrite last_char_app.
Qed.

Lemma sibling_last_char file_path c :
  last_char (sibling file_path c) = last_char (extension c).
Proof.
  unfold sibling. rewrite <- append_assoc.
  rewrite last_char_app by (by destruct c). by destruct c.
Qed.

Lemma chunk_name_not_sibling first last file_path c :
  Names.make_block_chunk_filename first last <> sibling file_path c.
Proof.
  intros Heq. apply (f_equal last_char) in Heq.
  rewrite chunk_name_last_char, sibling_last_char in Heq. by destruct c.
Qed.

Lemma sibling_sibling_neq file_path c c' :
  sibling (sibling file_path c) c' <> file_path.
Proof.
  intros Heq. apply (f_equal String.length) in Heq. unfold sibling in Heq.
  rewrite !length_append in Heq. simpl in Heq. lia.
Qed.

Section PersistBlockEffect.
Context `{Codecs} `{BlockModel} `{BlockchainStateModel}.

#[local] Existing Instance path_optimized.

Lemma finalized_in_frame (fs fs' : filesystem) file_path :
  fs' !! file_path = fs !! file_path ->
  (forall c, fs' !! sibling file_path c = fs !! sibling file_path c) ->
  finalized_in fs' file_path = finalized_in fs file_path.
Proof.
  intros Hp Hs. unfold finalized_in, compressed_sibling, read_only, DECOMPRESSION_KEYS.
  cbn [existsb]. unfold sibling in Hs. by rewrite Hp, !Hs.
Qed.

Lemma append_chunk_open compressors file_path data fs :
  String.prefix "/" file_path = false ->
  finalized_in fs file_path = false ->
  append compressors file_path data false fs =
  (Ok tt,
   <[file_path :=
       File (match fs !! file_path with Some f => content f | None => [] end ++ data)
            TEMP_FILE_MODE]> fs).
Proof.
  intros Ha Hfin. unfold append. rewrite _persist_resolved by done.
  change (resolve file_path) with file_path. unfold bind.
  by rewrite _write_file_open.
Qed.

Lemma append_chunk_finalized compressors file_path data fs :
  String.prefix "/" file_path = false ->
  finalized_in fs file_path = true ->
  append compressors file_path data false fs = (Raise FinalizedFileWriteError, fs).
Proof.
  intros Ha Hfin. unfold append. rewrite _persist_resolved by done.
  change (resolve file_path) with file_path. unfold bind.
  by rewrite _write_file_finalized.
Qed.

Lemma move_chunk source destination fs f :
  String.prefix "/" source = false ->
  String.prefix "/" destination = false ->
  fs !! source = Some f ->
  move source destination fs = (Ok tt, <[destination := f]> (delete source fs)).
Proof.
  intros Hs Hd Hf. unfold move. unfold bind at 1.
  rewrite _get_absolute_path_optimized, Hs. unfold bind.
  rewrite _get_absolute_path_optimized, Hd. unfold os_rename. by rewrite Hf.
Qed.

Lemma finalize_chunk compressors file_path fs :
  String.prefix "/" file_path = false ->
  finalize compressors file_path fs = _finalize compressors file_path fs.
Proof.
  intros Ha. unfold finalize, bind. by rewrite _get_absolute_path_optimized, Ha.
Qed.

(** C1: with the lock held and a positive [block_chunk_size] [s],
    [persist_block] of a block numbered [n] computes
    [chunk_start = floor(n / s) * s] and works on the chunk file named
    [(chunk_start, n - 1)] when [n != chunk_start] and [(chunk_start, n)] when
    [n == chunk_start]; the two names differ exactly when [n != chunk_start].
    When that file is finalized the call raises [FinalizedFileWriteError].
    Otherwise the serialized block is appended to the data of that file (to
    no data when the file is absent), and the data is stored, writable, under
    the name [(chunk_start, n)], nothing being left under the other name and
    no other file changed ([written]). When [n mod s != s - 1] the call
    returns with exactly that storage. When [n mod s == s - 1] the chunk file
    is then finalized: on return either the file has lost its write
    permissions, or it is replaced by the strictly smaller output of a
    configured compressor under the compressed name, without write
    permissions; [is_finalized] is then true of the chunk file. The
    finalization returns when the serialized block is not empty and no
    compressed variant of the chunk file is finalized already; when it raises
    ([ZeroDivisionError] for empty data, [FinalizedFileWriteError] for a
    finalized compressed variant) the storage is left as written. *)
Theorem C1_persist_block_chunking (block : Block) (self : FileBlockchain)
    (Hlock : file_lock self = HeldHere)
    (Hsize : 0 < block_chunk_size self) :
  let n := block_number block in
  let s := block_chunk_size self in
  let compressors := blocks_compressors self in
  let fs := block_storage self in
  let chunk_start := n / s * s in
  let append_filename :=
    Names.make_block_chunk_filename chunk_start
      (if bool_decide (n = chunk_start) then n else n - 1) in
  let filename := Names.make_block_chunk_filename chunk_start n in
  let appended :=
    match fs !! append_filename with Some f => content f | None => [] end ++
    to_messagepack block in
  let written :=
    <[filename := File appended TEMP_FILE_MODE]> (delete append_filename fs) in
  (append_filename <> filename <-> n <> chunk_start) /\
  if finalized_in fs append_filename
  then persist_block block self = (Raise FinalizedFileWriteError, self)
  else
    exists r fs',
      persist_block block self = (r, set_block_storage fs' self) /\
      if bool_decide (n mod s = s - 1)
      then
        ((r = Ok tt /\
          fs' = <[filename := File appended (dropped TEMP_FILE_MODE)]> written) \/
         (exists c, c ∈ compressors /\
            (length (COMPRESSION_FUNCTIONS c appended) < length appended)%nat /\
            r = Ok tt /\
            fs' = <[sibling filename c :=
                      File (COMPRESSION_FUNCTIONS c appended) (dropped TEMP_FILE_MODE)]>
                    (delete filename written)) \/
         (compressors <> [] /\ appended = [] /\
          r = Raise ZeroDivisionError /\ fs' = written) \/
         (exists c, c ∈ compressors /\
            finalized_in written (sibling filename c) = true /\
            r = Raise FinalizedFileWriteError /\ fs' = written)) /\
        (r = Ok tt -> is_finalized filename fs' = (Ok true, fs')) /\
        (to_messagepack block <> [] ->
         (forall c, c ∈ compressors -> finalized_in fs (sibling filename c) = false) ->
         r = Ok tt)
      else r = Ok tt /\ fs' = written.
Proof.
  intros n s compressors fs a append_filename filename appended written.
  assert (Hnames : append_filename <> filename <-> n <> a).
  { unfold append_filename, filename. case_bool_decide as Hstart.
    - split; [by intros Hne|by intros Hne].
    - split; [done|]. intros _ Heq%make_block_chunk_filename_inj_end. lia. }
  split; [done|].
  assert (Hrel_append : String.prefix "/" append_filename = false)
    by apply chunk_name_relative.
  assert (Hrel : String.prefix "/" filename = false) by apply chunk_name_relative.
  rewrite persist_block_locked by done. unfold persist_block_calls. cbv zeta.
  fold n s compressors fs a. fold append_filename filename.
  destruct (finalized_in fs append_filename) eqn:Hopen.
  { unfold bind at 1. unfold on_block_storage at 1. fold fs.
    rewrite append_chunk_finalized by done. cbv beta iota.
    unfold fs. by rewrite set_block_storage_id. }
  unfold bind at 1. unfold on_block_storage at 1. fold fs.
  rewrite append_chunk_open by done. fold appended.
  set (fs1 := <[append_filename := File appended TEMP_FILE_MODE]> fs).
  assert (Hmoved :
    ((if bool_decide (n = a) then ret tt
      else on_block_storage (move append_filename filename));;
     (if bool_decide (n mod s = s - 1)
      then on_block_storage (finalize compressors filename)
      else ret tt)) (set_block_storage fs1 self) =
    (if bool_decide (n mod s = s - 1)
     then on_block_storage (finalize compressors filename)
     else ret tt) (set_block_storage written self)).
  { unfold bind at 1. case_bool_decide as Hstart.
    - unfold ret at 1. f_equal. f_equal. unfold written, fs1.
      assert (Hsame : append_filename = filename).
      { destruct (decide (append_filename = filename)) as [|Hne]; [done|].
        by apply Hnames in Hne. }
      by rewrite Hsame, insert_delete_eq.
    - unfold on_block_storage at 1. cbn [block_storage set_block_storage].
      rewrite (move_chunk append_filename filename fs1 (File appended TEMP_FILE_MODE))
        by (done || apply lookup_insert_eq).
      unfold fs1. by rewrite delete_insert_eq. }
  cbv beta iota. rewrite Hmoved. clear Hmoved.
  assert (Hraw : written !! filename = Some (File appended TEMP_FILE_MODE)).
  { unfold written. apply lookup_insert_eq. }
  case_bool_decide as Hlast; last first.
  { exists (Ok tt), written. by split. }
  unfold on_block_storage. cbn [block_storage set_block_storage].
  rewrite finalize_chunk by done.
  pose proof (_finalize_cases compressors filename written) as Hcases.
  rewrite Hraw in Hcases. cbn [content st_mode] in Hcases.
  assert (Hsibling_frame : forall c,
            finalized_in written (sibling filename c) =
            finalized_in fs (sibling filename c)).
  { intros c. apply finalized_in_frame.
    - unfold written. rewrite lookup_insert_ne by (apply not_eq_sym, sibling_neq).
      apply lookup_delete_ne, chunk_name_not_sibling.
    - intros c'. unfold written.
      rewrite lookup_insert_ne by (apply not_eq_sym, sibling_sibling_neq).
      apply lookup_delete_ne, chunk_name_not_sibling. }
  destruct (_finalize compressors filename written) as [r fs'] eqn:Hfin.
  exists r, fs'. split; [done|]. split; [|split].
  - destruct Hcases as [Hr|[(Hcs & Hb & Hr)|[(c & Hc & Hf & Hr)|(c & Hc & Hlt & Hr)]]];
      injection Hr as -> ->.
    + by left.
    + right. right. by left.
    + right. right. right. by exists c.
    + right. left. exists c. split; [done|]. split; [done|]. split; [done|].
      rewrite delete_insert_ne by (apply not_eq_sym, sibling_neq).
      by rewrite insert_insert_eq.
  - intros ->. rewrite is_finalized_resolved by done.
    change (resolve filename) with filename.
    by rewrite (_finalize_finalized compressors filename written fs' Hfin).
  - intros Hdata Hfree.
    destruct Hcases as [Hr|[(Hcs & Hb & Hr)|[(c & Hc & Hf & Hr)|(c & Hc & Hlt & Hr)]]];
      injection Hr as -> ->; try done.
    + unfold appended in Hb. apply app_eq_nil in Hb as [_ Hb]. done.
    + rewrite Hsibling_frame, Hfree in Hf by done. done.
Qed.

End PersistBlockEffect.

Section PersistBlockWitness.

#[local] Existing Instance Demo.codecs.
#[local] Existing Instance Demo.block_model.
#[local] Existing Instance Demo.state_model.
#[local] Existing Instance path_optimized.

Lemma C1_persist_block_chunking_witness :
  let block : Block := Byte.x03 in
  let self := set_file_lock HeldHere Demo.rollover in
  let n := block_number block in
  let s := block_chunk_size self in
  let compressors := blocks_compressors self in
  let fs := block_storage self in
  let chunk_start := n / s * s in
  let append_filename :=
    Names.make_block_chunk_filename chunk_start
      (if bool_decide (n = chunk_start) then n else n - 1) in
  let filename := Names.make_block_chunk_filename chunk_start n in
  let appended :=
    match fs !! append_filename with Some f => content f | None => [] end ++
    to_messagepack block in
  let written :=
    <[filename := File appended TEMP_FILE_MODE]> (delete append_filename fs) in
  (append_filename <> filename <-> n <> chunk_start) /\
  if finalized_in fs append_filename
  then persist_block block self = (Raise FinalizedFileWriteError, self)
  else
    exists r fs',
      persist_block block self = (r, set_block_storage fs' self) /\
      if bool_decide (n mod s = s - 1)
      then
        ((r = Ok tt /\
          fs' = <[filename := File appended (dropped TEMP_FILE_MODE)]> written) \/
         (exists c, c ∈ compressors /\
            (length (COMPRESSION_FUNCTIONS c appended) < length appended)%nat /\
            r = Ok tt /\
            fs' = <[sibling filename c :=
                      File (COMPRESSION_FUNCTIONS c appended) (dropped TEMP_FILE_MODE)]>
                    (delete filename written)) \/
         (compressors <> [] /\ appended = [] /\
          r = Raise ZeroDivisionError /\ fs' = written) \/
         (exists c, c ∈ compressors /\
            finalized_in written (sibling filename c) = true /\
            r = Raise FinalizedFileWriteError /\ fs' = written)) /\
        (r = Ok tt -> is_finalized filename fs' = (Ok true, fs')) /\
        (to_messagepack block <> [] ->
         (forall c, c ∈ compressors -> finalized_in fs (sibling filename c) = false) ->
         r = Ok tt)
      else r = Ok tt /\ fs' = written.
Proof.
  apply (C1_persist_block_chunking (H := Demo.codecs) (H0 := Demo.block_model)
           (H1 := Demo.state_model) Byte.x03 (set_file_lock HeldHere Demo.rollover)).
  - reflexivity.
  - vm_compute. reflexivity.
Defined.

End PersistBlockWitness.
